(* ===== verification/_CoqProject ===== *)
-Q . S2P
Prelude.v
BinData.v
Base64.v
Base58.v
Ossl.v
Entropy.v
Text.v
AlgAddress.v
OsslObjects.v
BlockCore.v
Calendar.v
BlockTx.v
BlockChain.v
Strings.v
Errors.v
ErrorTexts.v
Db.v
DbLife.v
DbIntegrator.v
Sql.v
ImportTable.v
BlockIntegrator.v
BlockTasks.v
LoadFromFs.v
FileTree.v
Restart.v
P2p.v
Args.v
Log.v
LogFront.v
AnyMap.v
KeyWrap.v
Wallet.v
Async.v
AsyncLife.v
Zmq.v
Api.v
Rpc.v
Events.v
Service.v
Signals.v
MainLoop.v
Params.v
GenesisTool.v
Bootstrap.v
