(* ===== verification/Prelude.v ===== *)
(** * Fluffycoin: a verification library of its core

    Fluffycoin is a blockchain in C++: binary and text codecs, keys and addresses,
    blocks of transactions in ASN.1, a curator service that collects blocks from disk
    and integrates them into a database, and a p2p service that authenticates peers.
    This development models that code file by file and proves what makes each part
    correct, and, where the code does something other than it means to, what it does.

    ** Layout

    Every definition that models code is preceded by a comment naming the file and
    the lines under [src/src] it translates, and keeps the code's name; a C++ class
    or name space is a Module.  The files, each requiring those before it:

    - [Prelude]: bytes, machine integers with their wrap-around, digits and decimal
      text, string search, ordered maps, automation and the lemmas all parts share.
    - [BinData]: [utils/BinData], [utils/SafeData].  The buffer with its heap block and
      secure flag; operations return the blocks they give to [free].
    - [Base64], [Base58]: [utils/Base64], [alg/Base58].  The encoders and decoders as the
      per-character state machines of the code; OpenSSL's big numbers are a class.
    - [Ossl]: [ossl/encode.h], [decode.h], [Prng], [Hash], [Curve25519].  OpenSSL's random
      source, digests and keys are classes with laws that state what is documented.
    - [Entropy]: [ossl/Entropy] and [ossl/Initialize], the seeding of OpenSSL's random generator.
    - [Text]: [utils/Hex], [db/Binary], [alg/BlockFilename].
    - [AlgAddress]: [alg/Address], [alg/PeerAuth].  The class [KeyAgreementLaws] is what OpenSSL
      says of Ed25519 keys and key agreement.
    - [OsslObjects]: object identifiers of [ossl/convert.h] and [Curve25519::generate].
    - [BlockCore], [BlockTx], [BlockChain]: [block/].  Values, transactions and validator
      actions, then genesis, reconciliation and node blocks and [Block] itself, each with
      its class, its ASN.1 structure, conversions, moves, copies and encodings.  The
      DER encoder of each structure is a class with a round-trip law ([Der], [DerLaws]),
      the integer and string conversions of OpenSSL another ([Asn1Lib], [Asn1Laws]).
    - [Calendar]: [gmtime] of the C library, written out, and the text of a [block/Time].
    - [Strings], [Errors]: [utils/Strings], [DelimitedString], [ErrorCode], [ErrorStatus],
      [Details], [log/Level].
    - [ErrorTexts]: [ossl/Error], [utils/Errno], [db/priv/Ozo.h] and [utils/Variadic.h]: the texts
      made of the messages of libraries.
    - [Db]: [db/].  Sessions over an abstract connection (class [Ozo]) with the trace of
      what was sent, results and column conversions.
    - [DbLife]: which session holds which connection as sessions are moved, committed and
      destroyed, and the number of rows a query reports.
    - [DbIntegrator]: [curator/core/DbIntegrator], which decides which block is accepted
      next, and the statements it sends.
    - [Sql]: those statements as the server reads them: what is inside literals and what is not,
      and what a bytea literal holds.  [ImportTable]: the table the curator keeps, row by
      row, over the class [ImportTable] of what Postgres documents of a transaction on it and of
      the literals it reads, with the setting that says whether backslashes are escapes in them.
    - [BlockIntegrator]: [curator/core/BlockIntegrator], the pending blocks; its view of
      the database integrator is the class [Integrator], which [DbIntegratorI] implements.
      The class [ChainLaws] is what it needs of an integrator that follows a chain.
    - [BlockTasks]: the same object under concurrent calls, as a step relation.
    - [LoadFromFs]: [utils/FileTools], [curator/fs/BlockStorage], [curator/events/LoadFromFs]
      over an abstract file system, and the start-up of the whole curator.  [FileTree]: listing
      a directory with its subdirectories, as a walk of a tree.
    - [Restart]: the curator started again on the database that an earlier run left.  It has no
      definitions of code, only the composition of the three parts and the table.  The class
      [ChainLaws] holds of the cache and the table together ([stored_laws]).
    - [P2p]: [services/p2p]: [BruteForce], [PeerSessions], [StakeKey], [ValidatorLookup] and
      the [Handshake] handler, over the directory interface [Validators]; [PeerLink] has both ends
      of a connection.
    - [Args]: [utils/ArgParser], the command line with its help text.
    - [Log]: [log/], with rotation, categories, time stamps and the logger's context, and
      [svc/LogArgs]; [LogFront]: the functions of each level, the [Logger] object and [pb/Logger].
    - [AnyMap]: [utils/AnyMap] and its use by [Details]; the types a program stores are the
      class [Types].
    - [KeyWrap], [Wallet]: [ossl/PbkdfKey], [ossl/Pkcs8Key] and [alg/Wallet], over abstract
      ciphers ([Pbe]), encoders and a JSON library ([Json]), each with its laws.
    - [Async]: [async/]: [TreasureTrove], [BuriedTreasure], [Socket], [UncontrolledSocket],
      [CallbackAwaiter] and [Scheduler]; what asio calls back is a step.  [AsyncLife]: the
      function object of [async/func.h], and the lifetimes of sockets and of the scheduler's
      threads and timer next to the handlers that still refer to them.
    - [Zmq]: [zmq/].  The library is the class [Zmq], a state and the result of each call;
      the calls are recorded.  [Endpoint] is what the four kinds of socket have in common.
    - [Api], [Events]: [pb/Catalog], [pb/AnyMessage], [svc/api] and [svc/events]: from the bytes
      of a request to those of its response, and from a published event to its handler.
      Protocol buffers are the class [Pb].  [Rpc] takes a request from a client's socket
      through the port and its handler back to the client.
    - [Service]: [svc/service]: the life of any service, whose own part is the interface
      [IServiceParams]; [Params] has its two instances, the node and the curator.
    - [Signals]: what the process does with each signal between any two calls of
      [Service::initSignals] and [Service::cleanupSignals].
    - [MainLoop]: the main loop of [Service], its lock, its threads and its signal handlers as a
      step relation over thread stacks; [handler_alone] ties it to the functions of [Service].
    - [GenesisTool]: [cli/genesis], the program that makes the first two blocks and a wallet.
    - [Bootstrap]: the tool, the curator and the node one after the other on one disk, which
      is the class [DiskLaws].  It has no definitions of code, only their composition.

    How they interact: [Params] starts the node from a [Wallet] and the curator with
    [LoadFromFs]; [Service] opens the [ApiPort] and the event sockets of [Api] and [Events],
    which are sockets of [Zmq] watched through [Async]; [ApiPort] hands requests to handlers
    such as [Handshake.process]; [LoadFromFs] feeds [BlockIntegrator], and that [DbIntegrator].
    [GenesisTool] uses [Args], [Wallet], [BlockChain] and [FileTools]: the blocks it writes are the
    first that [LoadFromFs] reads, and the wallet is one that [Params] starts a node from;
    [Bootstrap] proves both of the programs run one after the other, and [Restart] the curator run
    twice, over the table that [DbIntegrator] writes with the statements [Sql] reads.

    ** Conventions

    Buffers and [std::string]s are lists of byte values in [Z]; a w-bit integer is a [Z]
    with its wrap-around written ([u8], [u32], [u64]; [swrap] for signed ones).  Signed overflow,
    which the language leaves open, wraps: nothing in the build ([cmake/cxxflags.cmake]) makes it
    trap, and that is what the compiled arithmetic does.  A [std::map] with integer keys is
    a [gmap] walked in key order ([ordered]).  Objects are records; a method that changes
    its object returns the new one; moved-from objects are returned where it matters.
    [option] as the result of a whole call means that [None] is undefined behaviour (a
    null pointer) or a loop that has not ended within its fuel.  Coroutines run to their
    end unless interleaving is the point ([BlockTasks], [Async]).  What is only logged is left
    out of the callers: [Log] and [LogFront] have what logging does, text that is not UTF-8
    and throws included.  Code that calls ZeroMQ is a computation of the monad [M] of [Zmq], a function of the
    caller's [Details] and the library's world; [wp] is its weakest precondition, and proofs
    run the code with its rules ([wp_step]).  A call that can also crash or never return
    gives an [outcome].  A program that ends with an exit code is a computation of [Exit.X]:
    [inl] is the code, with the files as they are when it ends.

    Fuel: the random draws of [Prng.randInt] take a number of attempts, and its theorem
    says which draw is returned; [gmtime] takes a fuel of years within a cycle of 400, which is
    enough for every time, before or after the epoch ([gmtime_timegm_all]); the pending list's retry loop takes a bound that its
    theorems require to exceed the number of blocks waiting, which is enough since every
    retry follows the removal of a block; loading the import state takes a bound, and it
    is proved that no bound is enough when rows are stored, which is how the code behaves.

    ** What the theorems show

    - Curator: a stored chain is rebuilt whatever order the directory lists it in
      ([load_rebuilds_chain]); what was integrated is always one hash-linked chain
      ([integrated_chain_linked]); exactly when a reconciliation block is accepted
      ([recon_accept_iff]); failures commit nothing ([integrate_atomic]); the pending maps
      refine one sorted queue ([add_block_refines]); no block is lost under any interleaving
      ([no_block_lost]); the table follows the chain as long as commits succeed, and holds each
      hash as it was sent exactly where the server takes backslashes for escapes, and a longer text otherwise
      ([chain_is_stored]), but a
      curator that finds a row in it never gets beyond its first block
      ([curator_cannot_restart], [init_diverges_on_data]); no block can inject a statement
      ([no_block_injects_sql]), but what a literal holds depends on that setting ([binary_stored]); node blocks and overlapping calls as they really are
      ([node_never_recorded], [same_block_offered_twice]).
    - Blocks: encoding and decoding ([block_decode_encode], [block_copy] and what a node loses,
      [node_decode_loses_signatures]), the type invariant ([block_choice_invariant],
      [mine_action_roundtrip]), and what signatures cover ([transaction_content_binds],
      [mine_content_binds]).
    - P2p: when a handshake opens a session ([handshake_opens_session]) and that both ends then
      have the same ([handshake_shares_session]); that the shipped service never does, and that no
      service can with the Ed25519 keys the program makes ([ed25519_opens_no_session],
      [generated_signs_only]); the guard and the session table over arbitrary histories
      ([lockout_is_permanent], [session_lifetime]).
    - Addresses, keys and codecs: generation, verification, printable forms, key agreement,
      round trips, capacities and bounds, buffers refining byte strings and secret wiping;
      what the random generator is seeded with ([urandom_unused]).
    - Wallet: in every wallet that the program's calls make, loading a text that such a wallet
      saved included, each key opens and belongs to its address ([wallet_invariant]), which does
      not hold of any text that loads ([clear_first_opens_all]);
      saving, loading and changing the password ([wallet_save_load], [wallet_change_password]);
      wrapping under a password ([pbkdf_wrap_unwrap]) and exactly what opens, a key without
      a MAC included ([pbkdf_unwrap_checked]);
      a saved wallet makes a node ([stake_key_loaded]).
    - Program: a command line is recorded word for word by what each position means, and when
      parsing it returns ([parse_invariant], [parse_returns_iff]); objects are read as what they
      are, with the calls that crash, those on entries without an object and on types that share a
      hash code ([anymap_type_safe]); where no two types do, the map refines one from types to
      objects ([anymap_refines]); rotation bounds the log.
    - Messages: sockets are opened protected or not at all ([socket_fails_closed]), frames
      are not torn ([messages_not_torn]) but a reader that ignores message boundaries can be
      told any sender ([sender_forged]); every outcome of a request ([request_outcomes]), and
      how a port stops for good ([port_stops]); events reach their handler
      ([event_reaches_handler]), and a request comes back to its client as what its handler
      answered ([request_round_trip]); a second write stalls ([overlapping_write_stalls]).
    - Lifetimes: which handlers touch freed memory when a socket goes ([handler_on_freed],
      [write_outlives_socket], [destroy_cancels]); every connection has one owner
      ([one_owner]); what threads and timer do after a stop or an hour ([thread_fate],
      [keepalive_spins]).
    - Services: initialisation is a ladder ([init_invariant]); signals, exit codes, restarts;
      a shutdown under every interleaving ends, unless a stage or a handler does not return, which
      are the only other ends ([shutdown_ends]), or a signal arrives while its thread has the lock
      ([signal_hangs_service]); a signal handler finds its state
      wherever it interrupts the calls that install it ([state_always_there]), but not when it
      runs beside those that remove it ([cleanup_under_handler]).
    - Texts: a time stamp tells its time ([gmtime_timegm], [utc_stamps_tell]); a block time
      of today is printed as another date ([block_time_told_wrong]); what error texts lose ([pop_drops_all],
      [brackets_cut], [last_lost]).
    - Genesis: a successful run leaves a chain the curator accepts and a wallet that opens and
      owns it ([genesis_starts_chain], and [genesis_succeeds] that it is reached); what each
      exit code leaves behind ([genesis_exit_codes]); a password given as an option is not the
      one that is used ([genesis_password_lost]).
    - Bootstrap: the curator loads both blocks the tool wrote ([genesis_feeds_curator]), the
      node starts with the validator key of the genesis block ([genesis_starts_node]), the curator
      cannot be started a second time ([curator_starts_once]), and
      with the default paths the curator finds nothing ([default_blocks_not_found]).

    Each theorem with hypotheses has a witness, which applies it to concrete instances of
    the classes.

    ** Not modelled, and why

    The coroutine types of [async/Ret.h] and the template arguments of [async/WaitOnCallback.h]
    are the language's; [db/priv/pg_type_d.h] is a generated list of numbers, of which those the
    code uses are modelled; the end of [block/Transaction.cpp] is switched off by the
    preprocessor.  Headers that only declare what a [.cpp] file defines are not mapped.  Logging
    inside a signal handler is left out, as logging is everywhere.  Third-party
    libraries are classes with the laws the code relies on. *)

From Stdlib Require Export ZArith Lia Bool Psatz.
From stdpp Require Export base list gmap strings sorting fin_maps option list_numbers.

#[global] Open Scope Z_scope.

(** ** Notations *)

Declare Scope fluffy_scope.
Delimit Scope fluffy_scope with fluffy.
#[global] Open Scope fluffy_scope.

(** A [std::string] or a run of raw memory is the list of its bytes; a [char]
    is its unsigned code. *)
Abbreviation bytes := (list Z) (only parsing).
Abbreviation cstr := (list Z) (only parsing).

(** The [size_t] length of a buffer. *)
Abbreviation zlen l := (Z.of_nat (length l)).

(** A C string literal as its character codes. *)
Definition lit (s : string) : cstr :=
  (λ a, Z.of_N (Ascii.N_of_ascii a)) <$> String.list_ascii_of_string s.

Notation "$ s" := (lit s%string) (at level 1, s at level 0, format "$ s") : fluffy_scope.

(** The code of a one-character literal. *)
Definition chr (s : string) : Z := hd 0 (lit s).

(** ** Machine integers *)

Definition is_byte (b : Z) : Prop := 0 ≤ b < 256.
Definition bytes_ok (l : bytes) : Prop := Forall is_byte l.

#[export] Instance is_byte_dec b : Decision (is_byte b) := ltac:(unfold is_byte; apply _).
#[export] Instance bytes_ok_dec l : Decision (bytes_ok l) := ltac:(unfold bytes_ok; apply _).

Definition wrap (w z : Z) : Z := z mod 2 ^ w.
Abbreviation u8 := (wrap 8).
Abbreviation u16 := (wrap 16).
Abbreviation u32 := (wrap 32).
Abbreviation u64 := (wrap 64).
Definition is_u (w z : Z) : Prop := 0 ≤ z < 2 ^ w.
#[export] Instance is_u_dec w z : Decision (is_u w z) := ltac:(unfold is_u; apply _).

(** Two's complement reinterpretation at width [w]. *)
Definition swrap (w z : Z) : Z := wrap w (z + 2 ^ (w - 1)) - 2 ^ (w - 1).

(** ** Automation *)

Create HintDb fluffy.
Create Rewrite HintDb fluffy.

Ltac zbool :=
  repeat match goal with
  | H : (_ <? _) = true |- _ => apply Z.ltb_lt in H
  | H : (_ <? _) = false |- _ => apply Z.ltb_ge in H
  | H : (_ <=? _) = true |- _ => apply Z.leb_le in H
  | H : (_ <=? _) = false |- _ => apply Z.leb_gt in H
  | H : (_ =? _) = true |- _ => apply Z.eqb_eq in H
  | H : (_ =? _) = false |- _ => apply Z.eqb_neq in H
  | H : _ && _ = true |- _ => apply andb_true_iff in H as [? ?]
  | H : _ && _ = false |- _ => apply andb_false_iff in H
  | H : _ || _ = true |- _ => apply orb_true_iff in H
  | H : _ || _ = false |- _ => apply orb_false_iff in H as [? ?]
  | H : negb _ = true |- _ => apply negb_true_iff in H
  | H : negb _ = false |- _ => apply negb_false_iff in H
  end.

(** Split every boolean test on integers of the goal, with its meaning. *)
Ltac ztest :=
  repeat match goal with
  | |- context [?a <? ?b] => destruct (Z.ltb_spec a b)
  | |- context [?a <=? ?b] => destruct (Z.leb_spec a b)
  | |- context [?a =? ?b] => destruct (Z.eqb_spec a b)
  end.

(** [lia] with quotients and remainders by constants. *)
Ltac dlia := Z.div_mod_to_equations; lia.

(** Case analysis of every [match] of the goal and the hypotheses. *)
Ltac cases := repeat (case_match; simplify_eq/=; try done).

Lemma wrap_range w z : 0 ≤ w → 0 ≤ wrap w z < 2 ^ w.
Proof. intros. apply Z.mod_pos_bound, Z.pow_pos_nonneg; lia. Qed.

Lemma wrap_small w z : is_u w z → wrap w z = z.
Proof. apply Z.mod_small. Qed.

Lemma wrap_is_u w z : 0 ≤ w → is_u w (wrap w z).
Proof. apply wrap_range. Qed.

Lemma wrap_wrap w z : 0 ≤ w → wrap w (wrap w z) = wrap w z.
Proof. intros. by apply wrap_small, wrap_is_u. Qed.

Lemma swrap_range w z : 0 < w → - 2 ^ (w - 1) ≤ swrap w z < 2 ^ (w - 1).
Proof.
  intros Hw. unfold swrap. pose proof (wrap_range w (z + 2 ^ (w - 1)) ltac:(lia)).
  assert (2 ^ w = 2 * 2 ^ (w - 1)) by (rewrite <- Z.pow_succ_r by lia; f_equal; lia). lia.
Qed.

Lemma swrap_mod w z : 0 < w → ∃ k, swrap w z = z + 2 ^ w * k.
Proof.
  intros Hw. exists (- ((z + 2 ^ (w - 1)) / 2 ^ w)). unfold swrap, wrap.
  rewrite Z.mod_eq by (apply Z.pow_nonzero; lia). lia.
Qed.

(** Or-ing a value into the zero bits below a shifted one adds it. *)
Lemma Z_lor_add x y k : 0 ≤ k → 0 ≤ y < 2 ^ k → Z.lor (x * 2 ^ k) y = x * 2 ^ k + y.
Proof.
  intros Hk [Hy1 Hy2]. rewrite <- Z.shiftl_mul_pow2 by lia.
  assert (Hland : Z.land (Z.shiftl x k) y = 0).
  { apply Z.bits_inj'. intros i Hi. rewrite Z.land_spec, Z.bits_0.
    destruct (decide (i < k)); [by rewrite Z.shiftl_spec_low by lia|].
    apply Z.bounded_iff_bits_nonneg with (l := i) in Hy2; [|lia..].
    by rewrite Hy2, andb_false_r. }
  rewrite <- Z.lxor_lor, <- Z.add_nocarry_lxor; done.
Qed.

#[export] Hint Resolve wrap_is_u wrap_range : fluffy.
#[export] Hint Rewrite wrap_small using (first [assumption | unfold is_u; lia]) : fluffy.

(** Bitwise operations stay within a byte. *)
Lemma is_byte_bits x : 0 ≤ x → is_byte x ↔ ∀ i, 8 ≤ i → Z.testbit x i = false.
Proof.
  intros Hx. unfold is_byte. change 256 with (2 ^ 8).
  by rewrite Z.bounded_iff_bits_nonneg' by lia.
Qed.

Lemma lor_byte x y : is_byte x → is_byte y → is_byte (Z.lor x y).
Proof.
  intros Hx Hy. apply is_byte_bits; [apply Z.lor_nonneg; unfold is_byte in *; lia|].
  rewrite is_byte_bits in Hx, Hy by (unfold is_byte in *; lia).
  intros i Hi. by rewrite Z.lor_spec, Hx, Hy by lia.
Qed.

Lemma land_byte x y : is_byte x → is_byte (Z.land x y).
Proof.
  intros Hx. assert (0 ≤ Z.land x y) by (apply Z.land_nonneg; unfold is_byte in *; lia).
  apply is_byte_bits; [done|]. rewrite is_byte_bits in Hx by (unfold is_byte in *; lia).
  intros i Hi. by rewrite Z.land_spec, Hx by lia.
Qed.

Lemma shiftr_byte x k : is_byte x → 0 ≤ k → is_byte (Z.shiftr x k).
Proof.
  intros Hx Hk. assert (0 ≤ Z.shiftr x k) by (apply Z.shiftr_nonneg; unfold is_byte in *; lia).
  apply is_byte_bits; [done|]. rewrite is_byte_bits in Hx by (unfold is_byte in *; lia).
  intros i Hi. by rewrite Z.shiftr_spec, Hx by lia.
Qed.

Lemma u8_byte x : is_byte (u8 x).
Proof. apply (wrap_range 8). lia. Qed.

#[export] Hint Resolve lor_byte land_byte shiftr_byte u8_byte : fluffy.

Lemma lit_length s : length (lit s) = String.length s.
Proof. unfold lit. rewrite length_fmap. induction s; simpl; auto. Qed.

Lemma lit_bytes_ok s : bytes_ok (lit s).
Proof.
  apply Forall_fmap, Forall_forall. intros a _. unfold is_byte; simpl.
  pose proof (Ascii.N_ascii_bounded a). lia.
Qed.
#[export] Hint Resolve lit_bytes_ok : fluffy.

(** ** Lists *)

Lemma Forall_fmap_id {A} (f : A → A) (l : list A) : Forall (λ x, f x = x) l → f <$> l = l.
Proof. intros H. rewrite <- (list_fmap_id l) at 2. by apply Forall_fmap_ext_1. Qed.

Lemma last_Some_in {A} (l : list A) x : last l = Some x → x ∈ l.
Proof. intros [l' ->]%last_Some. set_solver. Qed.

(** The leading run of [x] of a list. *)
Lemma leading_run (x : Z) (l : list Z) :
  ∃ k l', l = replicate k x ++ l' ∧ head l' ≠ Some x.
Proof.
  induction l as [|c l (k & l' & -> & Hh)]; [by exists 0%nat, []|].
  destruct (decide (c = x)) as [->|]; [by exists (S k), l'|].
  exists 0%nat, (c :: replicate k x ++ l'). split; [done|]. simpl. congruence.
Qed.

(** A property of the positions of a slice holds of the slice. *)
Lemma Forall_slice (P : Z → Prop) (l : list Z) (j k : nat) :
  (j + k ≤ length l)%nat → (∀ i, (j ≤ i < j + k)%nat → P (nth i l 0)) →
  Forall P (take k (drop j l)).
Proof.
  intros Hl HP. apply Forall_lookup_2. intros i x Hx.
  apply lookup_take_Some in Hx as [Hx Hi]. rewrite lookup_drop in Hx.
  apply (nth_lookup_Some _ _ 0) in Hx as <-. apply HP. lia.
Qed.

(** ** Positional numerals

    Little-endian digits of a number in base [B]; decimal printing and the
    Base58 conversion share them. *)
Section Digits.
Context (B : Z) (HB : 2 ≤ B).

Fixpoint le_digits (fuel : nat) (n : Z) : list Z :=
  match fuel with
  | O => []
  | S fuel => if n =? 0 then [] else n mod B :: le_digits fuel (n / B)
  end.

Fixpoint le_val (l : list Z) : Z :=
  match l with
  | [] => 0
  | d :: l => d + B * le_val l
  end.

(** Enough fuel for the digit loop of [n]. *)
Definition digit_fuel (n : Z) : nat := S (Z.to_nat (Z.log2 n)).

Definition digits (n : Z) : list Z := le_digits (digit_fuel n) n.

Definition is_digit (d : Z) : Prop := 0 ≤ d < B.

Lemma le_digits_ok fuel n : 0 ≤ n → Forall is_digit (le_digits fuel n).
Proof.
  revert n. induction fuel as [|fuel IH]; intros n Hn; simpl; [done|].
  ztest; [done|]. constructor.
  - apply Z.mod_pos_bound; lia.
  - apply IH, Z.div_pos; lia.
Qed.

Lemma le_digits_val fuel n :
  0 ≤ n < 2 ^ Z.of_nat fuel → le_val (le_digits fuel n) = n.
Proof.
  revert n. induction fuel as [|fuel IH]; intros n Hn; [simpl in *; lia|].
  cbn [le_digits]. ztest; [by subst|]. cbn [le_val]. rewrite IH.
  - rewrite (Z.div_mod n B) at 3 by lia. lia.
  - rewrite Nat2Z.inj_succ, Z.pow_succ_r in Hn by lia. split.
    + apply Z.div_pos; lia.
    + apply Z.div_lt_upper_bound; [lia|].
      assert (2 * 2 ^ Z.of_nat fuel ≤ B * 2 ^ Z.of_nat fuel); [|lia].
      apply Z.mul_le_mono_nonneg_r; lia.
Qed.

Lemma digit_fuel_enough n : 0 ≤ n → 0 ≤ n < 2 ^ Z.of_nat (digit_fuel n).
Proof.
  intros Hn. split; [lia|]. unfold digit_fuel.
  rewrite Nat2Z.inj_succ, Z2Nat.id by apply Z.log2_nonneg.
  destruct (decide (n = 0)) as [->|]; [by vm_compute|].
  apply Z.log2_spec; lia.
Qed.

Lemma digits_val n : 0 ≤ n → le_val (digits n) = n.
Proof. intros. by apply le_digits_val, digit_fuel_enough. Qed.

Lemma digits_ok n : 0 ≤ n → Forall is_digit (digits n).
Proof. apply le_digits_ok. Qed.

Lemma le_val_nonneg l : Forall is_digit l → 0 ≤ le_val l.
Proof.
  induction 1 as [|d l [] Hl IH]; simpl; [lia|].
  assert (0 ≤ B * le_val l) by (apply Z.mul_nonneg_nonneg; lia). lia.
Qed.

Lemma le_val_bound l : Forall is_digit l → le_val l < B ^ zlen l.
Proof.
  induction 1 as [|d l [] Hl IH]; simpl; [lia|].
  rewrite Nat2Z.inj_succ, Z.pow_succ_r by lia.
  assert (B * (le_val l + 1) ≤ B * B ^ zlen l); [|lia].
  apply Z.mul_le_mono_nonneg_l; lia.
Qed.

(** The digit loop stops at the most significant non-zero digit. *)
Lemma le_digits_last fuel n d :
  0 ≤ n < 2 ^ Z.of_nat fuel → last (le_digits fuel n) = Some d → d ≠ 0.
Proof.
  revert n. induction fuel as [|fuel IH]; intros n Hn; [done|].
  cbn [le_digits]. ztest; [done|].
  rewrite Nat2Z.inj_succ, Z.pow_succ_r in Hn by lia.
  assert (Hd : 0 ≤ n / B < 2 ^ Z.of_nat fuel).
  { split; [apply Z.div_pos; lia|]. apply Z.div_lt_upper_bound; [lia|].
    assert (2 * 2 ^ Z.of_nat fuel ≤ B * 2 ^ Z.of_nat fuel); [|lia].
    apply Z.mul_le_mono_nonneg_r; lia. }
  rewrite last_cons. destruct (last _) as [e|] eqn:He; intros [= <-]; [eauto|].
  apply last_None in He. pose proof (le_digits_val _ _ Hd) as Hv.
  rewrite He in Hv. simpl in Hv. rewrite (Z.div_mod n B) in n0 by lia. lia.
Qed.

Lemma le_val_app l1 l2 : le_val (l1 ++ l2) = le_val l1 + B ^ zlen l1 * le_val l2.
Proof.
  induction l1 as [|d l1 IH]; simpl; [lia|].
  rewrite IH, Nat2Z.inj_succ, Z.pow_succ_r by lia. lia.
Qed.

(** A numeral whose top digit is not zero is at least the weight of that digit. *)
Lemma le_val_lower l d :
  Forall is_digit l → last l = Some d → d ≠ 0 → B ^ (zlen l - 1) ≤ le_val l.
Proof.
  intros Hl Hd Hd0. apply last_Some in Hd as [l' ->].
  apply Forall_app in Hl as [Hl' [[] _]%Forall_cons].
  rewrite le_val_app, length_app. simpl.
  pose proof (le_val_nonneg _ Hl').
  replace (Z.of_nat (length l' + 1) - 1) with (zlen l') by lia.
  assert (B ^ zlen l' * 1 ≤ B ^ zlen l' * (d + B * 0)); [|lia].
  apply Z.mul_le_mono_nonneg_l; [apply Z.pow_nonneg|]; lia.
Qed.

(** Digit lists without leading zeros are determined by their value. *)
Lemma le_val_inj l1 l2 :
  Forall is_digit l1 → Forall is_digit l2 → length l1 = length l2 →
  le_val l1 = le_val l2 → l1 = l2.
Proof.
  intros H1. revert l2. induction H1 as [|d1 l1 [] H1 IH]; intros [|d2 l2] H2; try done.
  apply Forall_cons in H2 as [[? ?] Hl2]. simpl. intros [= Hlen] Hv.
  assert (d1 = d2) as ->.
  { rewrite <- (Z.mod_small d1 B), <- (Z.mod_small d2 B) by lia.
    rewrite <- (Z_mod_plus_full d1 (le_val l1) B), <- (Z_mod_plus_full d2 (le_val l2) B).
    f_equal. lia. }
  f_equal. apply IH; auto. assert (B * le_val l1 = B * le_val l2) by lia.
  eapply Z.mul_reg_l; [|eassumption]. lia.
Qed.

Lemma digits_length_bound n k : 0 ≤ n < B ^ k → 0 ≤ k → zlen (digits n) ≤ k.
Proof.
  intros Hn Hk. pose proof (digits_ok n ltac:(lia)) as Hok.
  destruct (last (digits n)) as [d|] eqn:Hd.
  - assert (d ≠ 0) by (eapply le_digits_last; [|apply Hd]; apply digit_fuel_enough; lia).
    pose proof (le_val_lower _ _ Hok Hd ltac:(done)) as Hlow.
    rewrite digits_val in Hlow by lia.
    assert (zlen (digits n) - 1 < k); [|lia].
    apply (Z.pow_lt_mono_r_iff B); lia.
  - apply last_None in Hd as ->. simpl. lia.
Qed.
(** The digits of the value of a numeral with no leading zero are that numeral. *)
Lemma le_digits_of_val fuel l :
  Forall is_digit l → last l ≠ Some 0 → le_val l < 2 ^ Z.of_nat fuel →
  le_digits fuel (le_val l) = l.
Proof.
  intros Hl. revert fuel. induction Hl as [|d l Hd Hl IH]; intros fuel Hlast Hf.
  { by destruct fuel. }
  pose proof (le_val_nonneg l Hl) as Hnn. unfold is_digit in Hd.
  assert (Hpos : le_val (d :: l) ≠ 0).
  { destruct (last (d :: l)) as [e|] eqn:He; [|by apply last_None in He].
    assert (e ≠ 0) by congruence.
    pose proof (le_val_lower (d :: l) e ltac:(by constructor) He ltac:(done)).
    pose proof (Z.pow_pos_nonneg B (zlen (d :: l) - 1) ltac:(lia) ltac:(simpl; lia)). lia. }
  destruct fuel as [|fuel]; [simpl in *; nia|]. cbn [le_digits].
  rewrite (proj2 (Z.eqb_neq _ 0)) by done. cbn [le_val] in *.
  assert (Hmod : (d + B * le_val l) mod B = d).
  { rewrite (Z.mul_comm B), Z_mod_plus_full. apply Z.mod_small; lia. }
  assert (Hdiv : (d + B * le_val l) / B = le_val l).
  { rewrite (Z.mul_comm B), Z_div_plus_full by lia. rewrite Z.div_small; lia. }
  rewrite Hmod, Hdiv. f_equal. rewrite Nat2Z.inj_succ, Z.pow_succ_r in Hf by lia.
  apply IH; [|nia]. rewrite last_cons in Hlast. by destruct (last l).
Qed.

Lemma digits_of_val l :
  Forall is_digit l → last l ≠ Some 0 → digits (le_val l) = l.
Proof.
  intros Hl Hlast. apply le_digits_of_val; [done..|].
  by apply digit_fuel_enough, le_val_nonneg.
Qed.

Lemma digits_last n : 0 ≤ n → last (digits n) ≠ Some 0.
Proof.
  intros Hn Hl. eapply le_digits_last in Hl; [done|]. by apply digit_fuel_enough.
Qed.
End Digits.

(** Big-endian value, as an accumulating loop computes it. *)
Lemma foldl_horner B (f : Z → Z) (l : list Z) acc :
  2 ≤ B → foldl (λ v c, v * B + f c) acc l = le_val B (reverse (f <$> l)) + B ^ zlen l * acc.
Proof.
  intros HB. revert acc. induction l as [|c l IH]; intros acc; [simpl; lia|].
  cbn [foldl]. rewrite IH, fmap_cons, reverse_cons, le_val_app, length_reverse, length_fmap.
  cbn [length le_val]. rewrite Nat2Z.inj_succ, Z.pow_succ_r by lia. lia.
Qed.

(** ** Decimal text, as printf and fmt write it *)

Definition digit_char (d : Z) : Z := 48 + d.

Definition dec_digits (n : Z) : cstr := digit_char <$> reverse (digits 10 n).

(** [%llu] *)
Definition dec_text (n : Z) : cstr := if n =? 0 then [48] else dec_digits n.

(** [%0wu] / [{:0w}] *)
Definition dec_pad (w : nat) (n : Z) : cstr :=
  let t := dec_text n in replicate (w - length t) 48 ++ t.

(** Value of a run of decimal digits. *)
Definition dec_val (t : cstr) : Z := le_val 10 (reverse ((λ c, c - 48) <$> t)).

Definition is_dec (c : Z) : Prop := 48 ≤ c ≤ 57.
#[export] Instance is_dec_dec c : Decision (is_dec c) := ltac:(unfold is_dec; apply _).

Lemma dec_digits_ok n : 0 ≤ n → Forall is_dec (dec_digits n).
Proof.
  intros Hn. apply Forall_fmap, Forall_reverse.
  eapply Forall_impl; [apply (digits_ok 10); lia|].
  unfold is_digit, is_dec, digit_char; simpl; lia.
Qed.

Lemma dec_text_ok n : 0 ≤ n → Forall is_dec (dec_text n).
Proof.
  intros. unfold dec_text. ztest; [|by apply dec_digits_ok].
  repeat constructor; unfold is_dec; lia.
Qed.

Lemma dec_pad_ok w n : 0 ≤ n → Forall is_dec (dec_pad w n).
Proof.
  intros. apply Forall_app; split; [|by apply dec_text_ok].
  apply Forall_replicate. unfold is_dec; lia.
Qed.

Lemma dec_val_replicate0 k t : dec_val (replicate k 48 ++ t) = dec_val t.
Proof.
  unfold dec_val. rewrite fmap_app, reverse_app, le_val_app.
  rewrite fmap_replicate, reverse_replicate.
  assert (H : le_val 10 (replicate k (48 - 48)) = 0); [|lia].
  induction k; simpl; lia.
Qed.

Lemma dec_val_text n : 0 ≤ n → dec_val (dec_text n) = n.
Proof.
  intros. unfold dec_text. ztest; [by subst|]. unfold dec_val, dec_digits.
  rewrite <- list_fmap_compose, fmap_reverse, reverse_involutive.
  replace ((λ c, c - 48) ∘ digit_char <$> digits 10 n) with (digits 10 n).
  - by apply digits_val.
  - symmetry. rewrite <- (list_fmap_id (digits 10 n)) at 2. apply list_fmap_ext.
    intros; unfold digit_char, compose; simpl; lia.
Qed.

Lemma dec_val_pad w n : 0 ≤ n → dec_val (dec_pad w n) = n.
Proof. intros. unfold dec_pad. rewrite dec_val_replicate0. by apply dec_val_text. Qed.

Lemma dec_val_inj t1 t2 :
  Forall is_dec t1 → Forall is_dec t2 → length t1 = length t2 → dec_val t1 = dec_val t2 → t1 = t2.
Proof.
  intros H1 H2 Hlen Hv. apply (list_fmap_eq_inj (λ c, c - 48)); [intros x y; lia|].
  assert (Hd : ∀ t, Forall is_dec t → Forall (is_digit 10) (reverse ((λ c, c - 48) <$> t))).
  { intros t Ht. apply Forall_reverse, Forall_fmap. eapply Forall_impl; [exact Ht|].
    unfold is_dec, is_digit; simpl; lia. }
  apply (inj reverse), (le_val_inj 10); auto; [lia|].
  by rewrite !length_reverse, !length_fmap.
Qed.

Lemma dec_text_length w n : (0 < w)%nat → 0 ≤ n < 10 ^ Z.of_nat w → (length (dec_text n) ≤ w)%nat.
Proof.
  intros Hw Hn. unfold dec_text. ztest; [simpl; lia|]. unfold dec_digits.
  rewrite length_fmap, length_reverse.
  pose proof (digits_length_bound 10 ltac:(lia) n (Z.of_nat w)). lia.
Qed.

Lemma dec_pad_length w n :
  (0 < w)%nat → 0 ≤ n < 10 ^ Z.of_nat w → length (dec_pad w n) = w.
Proof.
  intros Hw Hn. unfold dec_pad. rewrite length_app, length_replicate.
  pose proof (dec_text_length w n Hw Hn). lia.
Qed.

Lemma dec_val_bound t : Forall is_dec t → 0 ≤ dec_val t < 10 ^ zlen t.
Proof.
  intros Ht. unfold dec_val.
  assert (Hd : Forall (is_digit 10) (reverse ((λ c, c - 48) <$> t))).
  { apply Forall_reverse, Forall_fmap. eapply Forall_impl; [exact Ht|].
    unfold is_dec, is_digit; simpl; lia. }
  pose proof (le_val_nonneg 10 ltac:(lia) _ Hd). pose proof (le_val_bound 10 ltac:(lia) _ Hd) as Hb.
  rewrite length_reverse, length_fmap in Hb. lia.
Qed.

Lemma dec_pad_val t : t ≠ [] → Forall is_dec t → dec_pad (length t) (dec_val t) = t.
Proof.
  intros Hne Ht. pose proof (dec_val_bound t Ht).
  assert (0 < length t)%nat by (destruct t; simpl; [done|lia]).
  apply dec_val_inj; [apply dec_pad_ok; lia|done|by apply dec_pad_length|].
  apply dec_val_pad; lia.
Qed.

(** ** Substring search: [std::string::find] *)

Fixpoint is_prefix (p s : cstr) : bool :=
  match p, s with
  | [], _ => true
  | a :: p, b :: s => (a =? b) && is_prefix p s
  | _ :: _, [] => false
  end.

Fixpoint find_from (p s : cstr) (at_ : nat) : option nat :=
  if is_prefix p s then Some at_
  else match s with
  | [] => None
  | _ :: s => find_from p s (S at_)
  end.

(** [s.find(p, pos)], [None] for [npos]. *)
Definition str_find (p s : cstr) (pos : nat) : option nat :=
  if (length s <? pos)%nat then None else find_from p (drop pos s) pos.

Lemma is_prefix_spec p s : is_prefix p s = true ↔ take (length p) s = p.
Proof.
  revert s. induction p as [|a p IH]; intros [|b s]; simpl; try done.
  rewrite andb_true_iff, IH, Z.eqb_eq. split; [intros [-> ->]; done|intros [= -> ->]; done].
Qed.

(** Searching for a pattern as long as what is left finds it at once or not at all. *)
Lemma find_from_exact p s k :
  p ≠ [] → length p = length s → find_from p s k = (if bool_decide (s = p) then Some k else None).
Proof.
  intros Hne Hlen. assert (Hshort : ∀ s' j, (length s' < length p)%nat → find_from p s' j = None).
  { induction s' as [|c s' IH]; intros j Hs; simpl.
    - by destruct p.
    - destruct (is_prefix p (c :: s')) eqn:E; [|apply IH; simpl in Hs; lia].
      apply is_prefix_spec, (f_equal length) in E. rewrite length_take in E. simpl in *. lia. }
  destruct s as [|c s]; [by destruct p|]. cbn [find_from].
  destruct (is_prefix p (c :: s)) eqn:E.
  - apply is_prefix_spec in E. rewrite take_ge in E by lia. by rewrite bool_decide_eq_true_2.
  - rewrite bool_decide_eq_false_2; [apply Hshort; simpl in *; lia|].
    intros <-. rewrite (proj2 (is_prefix_spec (c :: s) (c :: s))) in E; [done|].
    by rewrite take_ge by lia.
Qed.

(** ** Ordered maps *)

(** The order in which a [std::map] with integer keys is walked. *)
Definition key_le {A} (p q : Z * A) : Prop := p.1 ≤ q.1.
#[export] Instance key_le_dec {A} (p q : Z * A) : Decision (key_le p q) := ltac:(unfold key_le; apply _).
#[export] Instance key_le_total {A} : Total (@key_le A).
Proof. intros p q. unfold key_le. lia. Qed.
#[export] Instance key_le_trans {A} : Transitive (@key_le A).
Proof. intros p q r. unfold key_le. lia. Qed.

Definition ordered {A} (m : gmap Z A) : list (Z * A) := merge_sort key_le (map_to_list m).

Lemma elem_of_ordered {A} (m : gmap Z A) k x : (k, x) ∈ ordered m ↔ m !! k = Some x.
Proof. unfold ordered. by rewrite merge_sort_Permutation, elem_of_map_to_list. Qed.

Lemma ordered_sorted {A} (m : gmap Z A) : StronglySorted (λ p q, p.1 < q.1) (ordered m).
Proof.
  assert (Hnd : NoDup (ordered m).*1).
  { unfold ordered. rewrite merge_sort_Permutation. apply NoDup_fst_map_to_list. }
  pose proof (StronglySorted_merge_sort key_le (map_to_list m) : StronglySorted key_le (ordered m)) as Hs.
  revert Hnd Hs. generalize (ordered m). induction l as [|p l IH]; [constructor|].
  simpl. intros [Hn Hnd]%NoDup_cons Hs. apply StronglySorted_inv in Hs as [Hs Hall].
  constructor; [by apply IH|]. rewrite Forall_forall in Hall |- *. intros q Hq.
  assert (p.1 ≠ q.1) by (intros E; apply Hn; rewrite E; by apply list_elem_of_fmap_2).
  specialize (Hall q Hq). unfold key_le in Hall. lia.
Qed.

Lemma ordered_nil {A} (m : gmap Z A) : ordered m = [] ↔ m = ∅.
Proof.
  unfold ordered. split; [|by intros ->]. intros H. apply map_to_list_empty_iff, Permutation_nil_r.
  rewrite <- H. symmetry. apply merge_sort_Permutation.
Qed.

(** Two strictly sorted lists with the same elements are the same list. *)
Lemma sorted_ext {A} (R : relation A) `{!Irreflexive R, !Transitive R} (l1 l2 : list A) :
  StronglySorted R l1 → StronglySorted R l2 → (∀ x, x ∈ l1 ↔ x ∈ l2) → l1 = l2.
Proof.
  intros H1. revert l2. induction H1 as [|x l1 H1 IH Hx]; intros l2 H2 Hiff.
  - destruct l2 as [|y l2]; [done|]. exfalso. apply (not_elem_of_nil y), Hiff. by left.
  - destruct H2 as [|y l2 H2 Hy].
    { exfalso. apply (not_elem_of_nil x), Hiff. by left. }
    rewrite Forall_forall in Hx, Hy. assert (x = y) as ->.
    { destruct (proj1 (elem_of_cons l2 x y) (proj1 (Hiff x) ltac:(by left))) as [|Hxy]; [done|].
      destruct (proj1 (elem_of_cons l1 y x) (proj2 (Hiff y) ltac:(by left))) as [|Hyx]; [done|].
      destruct (irreflexivity R x). by etrans; [apply Hx|apply Hy]. }
    f_equal. apply IH; [done|]. intros z. specialize (Hiff z). rewrite !elem_of_cons in Hiff.
    split; intros Hz.
    + destruct (proj1 Hiff (or_intror Hz)) as [->|]; [|done]. by destruct (irreflexivity R y (Hx y Hz)).
    + destruct (proj2 Hiff (or_intror Hz)) as [->|]; [|done]. by destruct (irreflexivity R y (Hy y Hz)).
Qed.

Lemma sorted_bind {A B} (R : relation A) (Q : relation B) (f : A → list B) (l : list A) :
  StronglySorted R l → (∀ x, x ∈ l → StronglySorted Q (f x)) →
  (∀ x y u v, R x y → u ∈ f x → v ∈ f y → Q u v) → StronglySorted Q (l ≫= f).
Proof.
  intros Hl Hf HR. induction Hl as [|x l Hl IH Hx]; [constructor|].
  rewrite bind_cons. apply StronglySorted_app_2.
  - intros u v Hu (y & Hv & Hy)%list_elem_of_bind. rewrite Forall_forall in Hx. eauto.
  - apply Hf. by left.
  - apply IH. intros y Hy. apply Hf. by right.
Qed.
