(* ===== verification/BinData.v ===== *)
(** * Owned byte buffers: [utils/BinData] and [utils/SafeData]

    A [BinData] owns one heap block.  The model keeps the block, its secure
    flag and the logical length apart, because they differ after
    [truncateFront].  Every operation returns, with the new object, the
    blocks handed to [free] with their contents at that moment, so that
    statements about wiping secrets can be made.  Allocation is taken to
    succeed; [realloc(p, 0)] frees and yields NULL and [calloc(1, 0)] yields
    an empty block, as glibc documents. *)

From S2P Require Import Prelude.

Abbreviation ztake n l := (take (Z.to_nat n) l).
Abbreviation zdrop n l := (drop (Z.to_nat n) l).
Abbreviation zrep n x := (replicate (Z.to_nat n) x).

(** Blocks passed to [free], oldest first, as they were when freed. *)
Abbreviation freed := (list (list Z)) (only parsing).

Module BinData.

(** [src/src/utils/BinData.h:11-55] BinData *)
Record t := mk {
  bSecure : bool;
  buffer : option bytes;
  len : Z;
}.

(** The bytes the object stands for. *)
Definition contents (b : t) : bytes := ztake (len b) (default [] (buffer b)).

(** [src/src/utils/BinData.cpp:17-22] BinData::BinData() *)
Definition empty_data : t := mk false None 0.

(** [src/src/utils/BinData.cpp:24-28] BinData::BinData(bool) *)
Definition new_secure (sec : bool) : t := mk sec None 0.

(** [src/src/utils/BinData.cpp:259-263] BinData::zeroize *)
Definition zeroize (blk : bytes) (n : Z) : bytes := zrep n 0 ++ zdrop n blk.

(** [src/src/utils/BinData.cpp:94-101] BinData::cleanup *)
Definition cleanup (b : t) : t * freed :=
  let blk :=
    match buffer b with
    | Some blk => if bSecure b && (0 <? len b) then Some (zeroize blk (len b)) else Some blk
    | None => None
    end in
  (mk (bSecure b) None 0, option_list blk).

(** [src/src/utils/BinData.cpp:103-106] BinData::clear *)
Definition clear (b : t) : t * freed := cleanup b.

(** [src/src/utils/BinData.cpp:108-137] BinData::resize *)
Definition resize (b : t) (n : Z) : t * freed :=
  if len b =? n then (b, [])
  else match buffer b with
  | None => (mk (bSecure b) (Some (zrep n 0)) n, [])
  | Some blk =>
      if negb (bSecure b) then
        let kept := ztake (Z.min n (len b)) blk in
        let grown := if len b <? n then kept ++ zrep (n - len b) 0 else kept in
        (mk false (if n =? 0 then None else Some grown) n, [blk])
      else
        let minLen := if n <? len b then n else len b in
        let newData := ztake minLen blk ++ zrep (n - minLen) 0 in
        let '(_, fr) := cleanup b in
        (mk true (Some newData) n, fr)
  end.

(** [src/src/utils/BinData.cpp:139-151] BinData::setData *)
Definition setData (b : t) (data : option bytes) (n : Z) : t * freed :=
  let '(b', fr) := cleanup b in
  match data with
  | Some d => if 0 <? n then (mk (bSecure b') (Some (ztake n d)) n, fr) else (b', fr)
  | None => (b', fr)
  end.

(** [src/src/utils/BinData.cpp:153-166] BinData::setBuffer *)
Definition setBuffer (b : t) (data : option bytes) (n : Z) : t * freed :=
  let '(b', fr) := cleanup b in
  if n =? 0 then (b', fr ++ option_list data)
  else match data with
  | None => (b', fr)
  | Some d => (mk (bSecure b') (Some d) n, fr)
  end.

(** [src/src/utils/BinData.cpp:168-178] BinData::truncateFront *)
Definition truncateFront (b : t) (n : Z) : t :=
  let n := if len b <? n then len b else n in
  match buffer b with
  | Some blk =>
      if 0 <? n then
        mk (bSecure b)
           (Some (zdrop n (ztake (len b) blk) ++ zdrop (len b - n) blk))
           (len b - n)
      else b
  | None => b
  end.

(** [src/src/utils/BinData.cpp:180-200] BinData::sub

    [None] stands for a copy that reads outside the block: the bounds test
    computes [pos + len] in [size_t], where it can wrap. *)
Definition sub (b : t) (pos n : Z) : option t :=
  let ret := new_secure (bSecure b) in
  if n =? 0 then Some ret
  else
    let '(pos, n) :=
      if len b <? pos then (0, 0)
      else if len b <? u64 (pos + n) then (pos, len b - pos)
      else (pos, n) in
    if pos + n <=? zlen (default [] (buffer b)) then
      Some (fst (setData ret ((λ blk, zdrop pos blk) <$> buffer b) n))
    else None.

(** [src/src/utils/BinData.cpp:202-221] BinData::append *)
Definition append (b : t) (data : option bytes) (n : Z) : t * freed :=
  if n =? 0 then (b, [])
  else match data with
  | None => (b, [])
  | Some d =>
      let newBuffer := contents b ++ ztake n d in
      let '(b', fr) := cleanup b in
      (mk (bSecure b') (Some newBuffer) (len b + n), fr)
  end.

(** [src/src/utils/BinData.cpp:223-242] BinData::prepend *)
Definition prepend (b : t) (data : option bytes) (n : Z) : t * freed :=
  if n =? 0 then (b, [])
  else match data with
  | None => (b, [])
  | Some d =>
      let newBuffer := ztake n d ++ contents b in
      let '(b', fr) := cleanup b in
      (mk (bSecure b') (Some newBuffer) (len b + n), fr)
  end.

(** [src/src/utils/BinData.cpp:244-247] BinData::length *)
Definition length (b : t) : Z := len b.

(** [src/src/utils/BinData.cpp:254-257] BinData::data *)
Definition data (b : t) : option bytes := buffer b.

(** [src/src/utils/BinData.cpp:265-268] BinData::empty *)
Definition empty (b : t) : bool := len b =? 0.

(** [src/src/utils/BinData.cpp:78-87] BinData::operator=(const BinData &) *)
Definition copy_assign (b rhs : t) : t * freed :=
  let '(b', fr) := setData b (buffer rhs) (len rhs) in
  (mk (bSecure rhs) (buffer b') (len b'), fr).

(** [src/src/utils/BinData.cpp:61-76] BinData::operator=(BinData &&)

    Returns the target, the moved-from source and the freed blocks. *)
Definition move_assign (b rhs : t) : t * t * freed :=
  let '(_, fr) := cleanup b in
  (mk (bSecure rhs) (buffer rhs) (len rhs), mk (bSecure rhs) None 0, fr).

(** [src/src/utils/BinData.cpp:30-34] BinData::BinData(const unsigned char *, size_t) *)
Definition of_memory (d : option bytes) (n : Z) : t := fst (setData empty_data d n).

(** [src/src/utils/BinData.cpp:43-47] BinData::BinData(const std::string &) *)
Definition of_string (s : cstr) : t := fst (setData empty_data (Some s) (zlen s)).

(** [src/src/utils/BinData.cpp:36-41] BinData::BinData(const char * )

    [psz] is null or the text before its terminator. *)
Definition of_cstr (psz : option cstr) : t :=
  match psz with
  | Some s => if 0 <? zlen s then fst (setData empty_data (Some s) (zlen s)) else empty_data
  | None => empty_data
  end.

(** [src/src/utils/BinData.cpp:49-53] BinData::BinData(BinData &&)

    The new object, the moved-from source and the freed blocks. *)
Definition move (rhs : t) : t * t * freed := move_assign empty_data rhs.

(** [src/src/utils/BinData.cpp:89-92] BinData::~BinData *)
Definition destroy (b : t) : freed := snd (cleanup b).

(** [src/src/utils/BinData.cpp:55-59] BinData::BinData(const BinData &) *)
Definition copy (rhs : t) : t := fst (copy_assign empty_data rhs).

(** [src/src/utils/BinData.cpp:270-274] BinData::operator+= *)
Definition append_assign (b rhs : t) : t * freed := append b (data rhs) (length rhs).

(** [src/src/utils/BinData.cpp:276-280] BinData::operator== *)
Definition eqb (b rhs : t) : bool :=
  (length b =? length rhs) && bool_decide (contents b = contents rhs).

(** [src/src/utils/BinData.cpp:282-285] BinData::operator!= *)
Definition neqb (b rhs : t) : bool := negb (eqb b rhs).

(** [src/src/utils/BinData.cpp:287-292] operator+ *)
Definition plus (lhs rhs : t) : t := fst (append_assign (copy lhs) rhs).

(** ** Representation invariant *)

Definition wf (b : t) : Prop :=
  match buffer b with
  | None => len b = 0
  | Some blk => 0 ≤ len b ≤ zlen blk
  end.

(** The block is exactly as long as the data in it. *)
Definition tight (b : t) : Prop := wf b ∧ len b = zlen (default [] (buffer b)).

#[export] Instance wf_dec b : Decision (wf b).
Proof. unfold wf. destruct (buffer b); apply _. Defined.

(** The calls a client can make, with arguments that satisfy what the C++
    caller must guarantee (a non-null source holds the bytes asked for). *)
Inductive op :=
  | OpClear
  | OpResize (n : Z)
  | OpSetData (d : bytes)
  | OpSetBuffer (d : bytes)
  | OpTruncateFront (n : Z)
  | OpAppend (d : bytes)
  | OpPrepend (d : bytes).

Definition exec (o : op) (b : t) : t * freed :=
  match o with
  | OpClear => clear b
  | OpResize n => resize b n
  | OpSetData d => setData b (Some d) (zlen d)
  | OpSetBuffer d => setBuffer b (Some d) (zlen d)
  | OpTruncateFront n => (truncateFront b n, [])
  | OpAppend d => append b (Some d) (zlen d)
  | OpPrepend d => prepend b (Some d) (zlen d)
  end.

Fixpoint run (os : list op) (b : t) : t * freed :=
  match os with
  | [] => (b, [])
  | o :: os => let '(b1, fr1) := exec o b in let '(b2, fr2) := run os b1 in (b2, fr1 ++ fr2)
  end.

(** The abstract byte string the class promises. *)
Definition spec (o : op) (l : bytes) : bytes :=
  match o with
  | OpClear => []
  | OpResize n => ztake n l ++ zrep (n - zlen l) 0
  | OpSetData d | OpSetBuffer d => d
  | OpTruncateFront n => zdrop n l
  | OpAppend d => l ++ d
  | OpPrepend d => d ++ l
  end.

Definition op_ok (o : op) : Prop :=
  match o with OpResize n | OpTruncateFront n => 0 ≤ n | _ => True end.

#[export] Instance op_ok_dec o : Decision (op_ok o).
Proof. destruct o; simpl; apply _. Defined.

(** ** Lemmas *)

Lemma wf_len_nonneg b : wf b → 0 ≤ len b.
Proof. unfold wf. destruct (buffer b); lia. Qed.

Lemma contents_length b : wf b → zlen (contents b) = len b.
Proof.
  unfold wf, contents. destruct (buffer b) as [blk|]; simpl; intros Hw.
  - rewrite length_take. lia.
  - rewrite Hw. done.
Qed.

Lemma wf_mk sec blk n : 0 ≤ n ≤ zlen blk → wf (mk sec (Some blk) n).
Proof. done. Qed.

Lemma wf_exact sec blk n : n = zlen blk → wf (mk sec (Some blk) n).
Proof. intros ->. unfold wf; simpl. lia. Qed.

Lemma contents_exact sec blk n : n = zlen blk → contents (mk sec (Some blk) n) = blk.
Proof. intros ->. unfold contents; simpl. rewrite Nat2Z.id. apply firstn_all. Qed.

Lemma ztake_len (d : bytes) : ztake (zlen d) d = d.
Proof. rewrite Nat2Z.id. apply firstn_all. Qed.

#[local] Hint Resolve wf_exact wf_mk : fluffy.

(** Moving hands the buffer over: nothing is copied or freed, and destroying the source
    frees nothing of it. *)
Lemma move_hands_over b :
  let '(b', rhs, fr) := move b in
  contents b' = contents b ∧ bSecure b' = bSecure b ∧ contents rhs = [] ∧ fr = [] ∧ destroy rhs = [].
Proof. done. Qed.

Lemma of_cstr_contents s : contents (of_cstr (Some s)) = s ∧ contents (of_cstr None) = [].
Proof.
  split; [|done]. unfold of_cstr. destruct s as [|c s]; [done|].
  rewrite (proj2 (Z.ltb_lt _ _)) by (simpl; lia). unfold setData. cbn [cleanup empty_data buffer].
  rewrite (proj2 (Z.ltb_lt _ _)) by (simpl; lia). cbn [fst]. rewrite ztake_len. by apply contents_exact.
Qed.

Lemma resize_refines b n :
  wf b → 0 ≤ n →
  wf (fst (resize b n)) ∧
  contents (fst (resize b n)) = ztake n (contents b) ++ zrep (n - len b) 0.
Proof.
  intros Hw Hn. pose proof (contents_length _ Hw) as Hc. unfold resize.
  destruct (Z.eqb_spec (len b) n) as [Heq|Hne].
  { simpl. split; [done|]. rewrite Heq, Z.sub_diag. simpl. rewrite app_nil_r.
    symmetry. apply take_ge. lia. }
  unfold wf, contents in *. destruct (buffer b) as [blk|] eqn:Hb; simpl in *.
  - destruct (bSecure b); simpl.
    + rewrite !length_app, !length_take, length_replicate. split; [ztest; lia|].
      rewrite !take_take. rewrite take_ge.
      * ztest; f_equal; f_equal; lia.
      * rewrite length_app, length_take, length_replicate. ztest; lia.
    + destruct (Z.eqb_spec n 0) as [->|Hn0]; simpl.
      { split; [done|]. by replace (Z.to_nat (0 - len b)) with 0%nat by lia. }
      destruct (Z.ltb_spec (len b) n);
        rewrite ?length_app, ?length_take, ?length_replicate, ?take_take;
        (split; [lia|]).
      * rewrite take_ge; [f_equal; f_equal; lia|].
        rewrite length_app, length_take, length_replicate. lia.
      * replace (Z.to_nat (n - len b)) with 0%nat by lia. simpl. rewrite app_nil_r.
        f_equal; lia.
  - rewrite Hw, Z.sub_0_r, length_replicate. split; [lia|].
    rewrite take_ge; [by rewrite !take_nil|]. rewrite length_replicate; lia.
Qed.

Lemma truncateFront_refines b n :
  wf b → 0 ≤ n →
  wf (truncateFront b n) ∧ contents (truncateFront b n) = zdrop n (contents b).
Proof.
  intros Hw Hn. unfold truncateFront, wf, contents in *.
  destruct (buffer b) as [blk|] eqn:Hb; simpl in *; rewrite ?Hb; simpl.
  - set (k := if len b <? n then len b else n).
    assert (Hk : 0 ≤ k ≤ len b ∧ (k = n ∨ (k = len b ∧ len b < n))) by (subst k; ztest; lia).
    destruct (Z.ltb_spec 0 k); simpl.
    + rewrite length_app, !length_drop, length_take. split; [lia|].
      rewrite take_app_le by (rewrite length_drop, length_take; lia).
      rewrite take_ge by (rewrite length_drop, length_take; lia).
      destruct Hk as [? [->|[-> ?]]]; [done|].
      rewrite !drop_ge; rewrite ?length_take; [done|lia|lia].
    + rewrite Hb. split; [lia|]. simpl. destruct Hk as [? [->|[-> ?]]].
      * by replace n with 0 by lia.
      * replace (len b) with 0 by lia. rewrite take_0. by rewrite drop_nil.
  - rewrite ?Hb, Hw. split; [done|]. simpl. by rewrite drop_nil.
Qed.

(** Each call leaves a well-formed object standing for the specified bytes. *)
Lemma exec_refines o b :
  wf b → op_ok o →
  wf (fst (exec o b)) ∧ contents (fst (exec o b)) = spec o (contents b).
Proof.
  intros Hw Ho. pose proof (contents_length _ Hw) as Hc.
  destruct o as [|n|d|d|n|d|d]; simpl in *.
  - by unfold wf, contents.
  - rewrite Hc. by apply resize_refines.
  - unfold setData; simpl. rewrite ztake_len. destruct (Z.ltb_spec 0 (zlen d)); simpl.
    + by split; [apply wf_exact|apply contents_exact].
    + destruct d; [done|simpl in *; lia].
  - unfold setBuffer; simpl. destruct (Z.eqb_spec (zlen d) 0); simpl.
    + destruct d; [done|simpl in *; lia].
    + by split; [apply wf_exact|apply contents_exact].
  - by apply truncateFront_refines.
  - unfold append; simpl. rewrite ztake_len. destruct (Z.eqb_spec (zlen d) 0); simpl.
    + destruct d; [by rewrite app_nil_r|simpl in *; lia].
    + split; [apply wf_exact|apply contents_exact]; rewrite length_app; lia.
  - unfold prepend; simpl. rewrite ztake_len. destruct (Z.eqb_spec (zlen d) 0); simpl.
    + destruct d; [done|simpl in *; lia].
    + split; [apply wf_exact|apply contents_exact]; rewrite length_app; lia.
Qed.

(** C39: Any sequence of BinData calls (clear, resize, setData, setBuffer,
    truncateFront, append, prepend) keeps the buffer/length representation
    invariant and computes exactly the byte string the sequence specifies,
    whether or not the object is a secure one. *)
Theorem bindata_refines_bytes (os : list op) (b : t) :
  wf b → Forall op_ok os →
  wf (fst (run os b)) ∧
  contents (fst (run os b)) = foldl (λ l o, spec o l) (contents b) os.
Proof.
  intros Hw Hos. revert b Hw. induction Hos as [|o os Ho Hos IH]; intros b Hw; [done|].
  simpl. destruct (exec_refines o b Hw Ho) as [Hw1 Hc1].
  destruct (exec o b) as [b1 fr1]; simpl in *.
  specialize (IH b1 Hw1). destruct (run os b1) as [b2 fr2]; simpl in *.
  by rewrite <- Hc1.
Qed.

Lemma bindata_refines_bytes_witness :
  contents (fst (run [OpSetData [1; 2; 3; 4]; OpTruncateFront 1; OpAppend [9]; OpResize 6]
                     (new_secure true))) = [2; 3; 4; 9; 0; 0].
Proof.
  refine (proj2 (bindata_refines_bytes
    [OpSetData [1; 2; 3; 4]; OpTruncateFront 1; OpAppend [9]; OpResize 6]
    (new_secure true) _ _)); [done|].
  repeat constructor; done.
Defined.

(** ** Slices *)

(** [sub] returns the requested slice, clamped to the data, as an object
    with the same secure flag, whenever [pos + len] does not overflow
    [size_t]. *)
Theorem sub_slice (b : t) (pos n : Z) :
  wf b → 0 ≤ pos → 0 ≤ n → pos + n < 2 ^ 64 →
  ∃ r, sub b pos n = Some r ∧ wf r ∧ bSecure r = bSecure b ∧
       contents r = ztake n (zdrop pos (contents b)).
Proof.
  intros Hw Hp Hn Ho. unfold sub. destruct (Z.eqb_spec n 0) as [->|Hn0].
  { eexists; by split_and!. }
  rewrite wrap_small by (unfold is_u; lia).
  unfold wf, contents in *. destruct (buffer b) as [blk|] eqn:Hb; simpl in *.
  - set (k := if len b <? pos then 0 else Z.min n (len b - pos)).
    set (p := if len b <? pos then 0 else pos).
    replace (if len b <? pos then (0, 0)
             else if len b <? pos + n then (pos, len b - pos) else (pos, n)) with (p, k)
      by (subst p k; ztest; f_equal; lia).
    assert (Hk : 0 ≤ k ∧ 0 ≤ p ∧ p + k ≤ len b) by (subst p k; ztest; lia).
    rewrite (proj2 (Z.leb_le (p + k) (zlen blk))) by lia.
    eexists; split; [done|]. unfold setData; simpl.
    destruct (Z.ltb_spec 0 k); simpl; split_and!; try done.
    + lia.
    + rewrite length_take, length_drop; lia.
    + subst p k. destruct (Z.ltb_spec (len b) pos); [lia|].
      rewrite take_take, Nat.min_id, !take_drop_commute, !take_take.
      do 2 f_equal. lia.
    + destruct (Z.ltb_spec (len b) pos); subst p k;
        [|assert (len b = pos) by lia];
        (rewrite drop_ge; [by rewrite take_nil|]; rewrite length_take; lia).
  - rewrite Hw. eexists; split.
    { destruct (Z.ltb_spec 0 pos); [done|]. rewrite (proj2 (Z.ltb_lt 0 (pos + n))) by lia.
      replace pos with 0 by lia. done. }
    unfold setData; simpl. split_and!; [done..|]. by rewrite drop_nil, take_nil.
Qed.

Lemma sub_slice_witness :
  ∃ r, sub (of_string $"fluffycoin") 6 100 = Some r ∧ contents r = $"coin".
Proof.
  destruct (sub_slice (of_string $"fluffycoin") 6 100) as (r & Hr & _ & _ & Hc);
    [by vm_compute|lia|lia|lia|].
  exists r. split; [exact Hr|]. exact Hc.
Defined.

(** The bounds test of [sub] wraps: near the top of [size_t] it lets a copy
    through that starts inside the data and runs past the block. *)
Lemma sub_wraps b :
  wf b → 1 ≤ len b → zlen (default [] (buffer b)) < 2 ^ 64 → sub b 1 (2 ^ 64 - 1) = None.
Proof.
  intros Hw Hl Hs. unfold sub. simpl (2 ^ 64 - 1 =? 0).
  rewrite (proj2 (Z.ltb_ge (len b) 1)) by lia.
  change (u64 (1 + (2 ^ 64 - 1))) with 0.
  rewrite (proj2 (Z.ltb_ge (len b) 0)) by lia.
  by rewrite (proj2 (Z.leb_gt (1 + (2 ^ 64 - 1)) _)) by lia.
Qed.

(** ** Wiping *)

Definition zeros (blk : bytes) : Prop := Forall (λ x, x = 0) blk.

Definition no_truncate (o : op) : Prop :=
  match o with OpTruncateFront _ => False | _ => op_ok o end.

Definition secure_tight (b : t) : Prop := bSecure b = true ∧ tight b.

Lemma zeroize_all blk n : n = zlen blk → zeros (zeroize blk n).
Proof.
  intros ->. unfold zeroize, zeros. rewrite drop_ge by lia. rewrite app_nil_r.
  by apply Forall_replicate.
Qed.

Lemma cleanup_wipes b : secure_tight b → Forall zeros (snd (cleanup b)).
Proof.
  intros [Hs [Hw Ht]]. unfold cleanup. rewrite Hs. unfold wf in Hw.
  destruct (buffer b) as [blk|]; simpl in *; [|constructor].
  destruct (Z.ltb_spec 0 (len b)); repeat constructor.
  - by apply zeroize_all.
  - destruct blk; [constructor|simpl in *; lia].
Qed.

Lemma secure_tight_exact blk n : n = zlen blk → secure_tight (mk true (Some blk) n).
Proof. intros ->. unfold secure_tight, tight, wf; simpl. split_and!; lia || done. Qed.

Lemma cleanup_secure_tight b : bSecure b = true → secure_tight (fst (cleanup b)).
Proof. intros Hs. unfold cleanup, secure_tight, tight, wf. by rewrite Hs. Qed.

Lemma exec_wipes o b :
  secure_tight b → no_truncate o →
  secure_tight (fst (exec o b)) ∧ Forall zeros (snd (exec o b)).
Proof.
  intros Hst Ho. pose proof (cleanup_wipes _ Hst) as Hcw. destruct Hst as [Hs [Hw Ht]].
  pose proof (cleanup_secure_tight _ Hs) as Hcs.
  pose proof (contents_length _ Hw) as Hlen. unfold wf in Hw.
  assert (Hst : secure_tight b) by (split; [|split]; done).
  destruct o as [|n|d|d|n|d|d]; simpl in *.
  - by split.
  - unfold resize. destruct (Z.eqb_spec (len b) n); [by split|].
    destruct (buffer b) as [blk|] eqn:Hb; rewrite ?Hs; simpl in *.
    + split; [|by rewrite Hb]. apply secure_tight_exact.
      rewrite length_app, length_take, length_replicate. ztest; lia.
    + split; [|constructor]. apply secure_tight_exact. rewrite length_replicate; lia.
  - unfold setData. cbn. rewrite ztake_len.
    destruct (Z.ltb_spec 0 (zlen d)); (split; [|done]); [|done].
    rewrite Hs. by apply secure_tight_exact.
  - unfold setBuffer. cbn. destruct (Z.eqb_spec (zlen d) 0); cbn; split; try done.
    + apply Forall_app; split; [done|]. destruct d; [by repeat constructor|simpl in *; lia].
    + rewrite Hs. by apply secure_tight_exact.
  - done.
  - unfold append. cbn. rewrite ztake_len.
    destruct (Z.eqb_spec (zlen d) 0); cbn; [by split|]. split; [|done].
    rewrite Hs. apply secure_tight_exact. rewrite length_app; lia.
  - unfold prepend. cbn. rewrite ztake_len.
    destruct (Z.eqb_spec (zlen d) 0); cbn; [by split|]. split; [|done].
    rewrite Hs. apply secure_tight_exact. rewrite length_app; lia.
Qed.

(** A secure buffer never hands unwiped memory back to the allocator: every
    block freed by any sequence of calls that does not use truncateFront, and
    by the final clean-up, holds only zeros. *)
Theorem secure_wipes_freed_blocks (os : list op) (b : t) :
  secure_tight b → Forall no_truncate os →
  Forall zeros (snd (run os b) ++ snd (cleanup (fst (run os b)))).
Proof.
  intros Hst Hos. revert b Hst. induction Hos as [|o os Ho Hos IH]; intros b Hst; simpl.
  { by apply cleanup_wipes. }
  destruct (exec_wipes o b Hst Ho) as [Hst1 Hz1].
  destruct (exec o b) as [b1 fr1]; simpl in *. specialize (IH b1 Hst1).
  destruct (run os b1) as [b2 fr2]; simpl in *. rewrite <- app_assoc. by apply Forall_app.
Qed.

Lemma secure_wipes_freed_blocks_witness :
  Forall zeros (snd (run [OpSetData [7; 8; 9]; OpAppend [1]; OpResize 2] (new_secure true)) ++
    snd (cleanup (fst (run [OpSetData [7; 8; 9]; OpAppend [1]; OpResize 2] (new_secure true))))).
Proof.
  apply (secure_wipes_freed_blocks _ (new_secure true)); [done|].
  repeat constructor; simpl; lia.
Defined.

(** What a secure object frees after [k] leading bytes were dropped. *)
Lemma wipe_after_truncate (b : t) (k : Z) :
  secure_tight b → 0 < k < len b →
  snd (cleanup (truncateFront b k)) =
    [zrep (len b - k) 0 ++ zdrop (len b - k) (contents b)].
Proof.
  intros [Hs [Hw Ht]] Hk. unfold truncateFront, cleanup, contents. unfold wf in Hw.
  destruct (buffer b) as [blk|] eqn:Hb; simpl in *; [|lia].
  rewrite (proj2 (Z.ltb_ge (len b) k)) by lia.
  rewrite (proj2 (Z.ltb_lt 0 k)) by lia. simpl.
  rewrite Hs, (proj2 (Z.ltb_lt 0 (len b - k))) by lia. simpl. unfold zeroize.
  do 2 f_equal. rewrite (take_ge blk) by lia.
  rewrite drop_app_ge by (rewrite length_drop; lia).
  rewrite length_drop. by replace (_ - _)%nat with 0%nat by lia.
Qed.

(** truncateFront on a secure buffer defeats the wipe: after dropping [k]
    leading bytes, the block freed later still ends with the last [k] bytes of
    the secret, because only the shortened length is overwritten. *)
Theorem truncateFront_leaves_secret_tail (b : t) (k : Z) :
  secure_tight b → 0 < k < len b →
  snd (cleanup (truncateFront b k)) =
    [zrep (len b - k) 0 ++ zdrop (len b - k) (contents b)].
Proof. apply wipe_after_truncate. Qed.

Lemma truncateFront_leaves_secret_tail_witness :
  snd (cleanup (truncateFront (mk true (Some [48; 46; 11; 12; 13; 14]) 6) 2)) =
    [[0; 0; 0; 0; 13; 14]].
Proof.
  refine (truncateFront_leaves_secret_tail (mk true (Some [48; 46; 11; 12; 13; 14]) 6) 2 _ _).
  - by apply secure_tight_exact.
  - simpl. lia.
Defined.

End BinData.

(** ** [SafeData]: a [BinData] constructed with the secure flag *)
Module SafeData.
Import BinData.

(** [src/src/utils/SafeData.cpp:5-8] SafeData::SafeData() *)
Definition new : t := new_secure true.

(** [src/src/utils/SafeData.cpp:10-14] SafeData::SafeData(const unsigned char *, size_t) *)
Definition of_memory (d : option bytes) (n : Z) : t := fst (setData (new_secure true) d n).

(** [src/src/utils/SafeData.cpp:16-20] SafeData::SafeData(const std::string &) *)
Definition of_string (s : cstr) : t := fst (setData (new_secure true) (Some s) (zlen s)).

(** [src/src/utils/SafeData.cpp:28-32] SafeData::SafeData(const SafeData &) *)
Definition copy (rhs : t) : t := fst (copy_assign (new_secure true) rhs).

(** [src/src/utils/SafeData.cpp:40-44] SafeData::operator=(const SafeData &) *)
Definition assign (b rhs : t) : t * freed := copy_assign b rhs.

(** [src/src/utils/SafeData.cpp:34-38] SafeData::operator=(SafeData &&) *)
Definition move_assign (b rhs : t) : t * t * freed := BinData.move_assign b rhs.

(** [src/src/utils/SafeData.cpp:46-50] SafeData::SafeData(BinData &&) *)
Definition of_bindata_move (rhs : t) : t := fst (fst (BinData.move_assign (new_secure true) rhs)).

(** [src/src/utils/SafeData.cpp:52-56] SafeData::SafeData(const BinData &) *)
Definition of_bindata (rhs : t) : t := fst (copy_assign (new_secure true) rhs).

(** [src/src/utils/SafeData.cpp:58-62] SafeData::operator=(BinData &&) *)
Definition assign_bindata_move (b rhs : t) : t * t * freed := BinData.move_assign b rhs.

(** [src/src/utils/SafeData.cpp:64-68] SafeData::operator=(const BinData &) *)
Definition assign_bindata (b rhs : t) : t * freed := copy_assign b rhs.

(** A SafeData built from or assigned a plain BinData loses its secure
    flag: the result carries the flag of the source, so its memory is freed
    without being overwritten, although the class promises the opposite. *)
Theorem safedata_from_bindata_insecure (b rhs : t) :
  bSecure rhs = false →
  bSecure (of_bindata rhs) = false ∧ bSecure (of_bindata_move rhs) = false ∧
  bSecure (fst (assign_bindata b rhs)) = false ∧
  snd (cleanup (of_bindata_move rhs)) = option_list (buffer rhs).
Proof.
  intros Hs. unfold of_bindata, of_bindata_move, assign_bindata, copy_assign, BinData.move_assign.
  destruct (setData _ _ _) as [b1 ?], (setData b _ _) as [b2 ?]; simpl.
  split_and!; [done..|]. unfold cleanup; simpl. rewrite Hs. by destruct (buffer rhs).
Qed.

Lemma safedata_from_bindata_insecure_witness :
  snd (cleanup (of_bindata_move (BinData.of_string $"secret"))) = [$"secret"].
Proof.
  apply (safedata_from_bindata_insecure new (BinData.of_string $"secret")). reflexivity.
Defined.

End SafeData.
