(* ===== verification/Base64.v ===== *)
(** * Base64 text: [utils/Base64]

    Buffers are taken at the byte-string level justified in [BinData]; the
    encoder and decoder keep the source's bit accumulator ([bits], [curVal])
    with its 8-bit truncation. *)

From S2P Require Import Prelude.

Module Base64.

(** [src/src/utils/Base64.cpp:14-30] Base64::charToVal

    The result is a signed [char]: -1 for a character outside the alphabets. *)
Definition charToVal (c : Z) : Z :=
  if (chr "A" <=? c) && (c <=? chr "Z") then c - chr "A"
  else if (chr "a" <=? c) && (c <=? chr "z") then c - chr "a" + 26
  else if (chr "0" <=? c) && (c <=? chr "9") then c - chr "0" + 52
  else if (c =? chr "+") || (c =? chr "-") then 62
  else if (c =? chr "/") || (c =? chr "_") || (c =? chr ",") then 63
  else -1.

(** [src/src/utils/Base64.cpp:35-36] webEncoding *)
Definition webEncoding : cstr :=
  $"ABCDEFGHIJKLMNOPQRSTUVWXYZabcdefghijklmnopqrstuvwxyz0123456789-_".

(** [webEncoding[index]]; the array has a terminating zero. *)
Definition enc_char (i : Z) : Z := nth (Z.to_nat i) webEncoding 0.

(** [src/src/utils/Base64.cpp:40-48] Base64::valToChar

    The test is against [sizeof], which counts the terminator. *)
Definition valToChar (v : Z) : Z :=
  if zlen webEncoding + 1 <=? v then 0 else enc_char v.

(** Loop state: [bits], [curVal] and the text produced so far. *)
Definition state : Type := Z * Z * cstr.

(** [src/src/utils/Base64.cpp:57-92] Base64::encode (loop body) *)
Definition encode_step (st : state) (uc : Z) : state :=
  let '(bits, curVal, out) := st in
  if bits =? 0 then
    (2, Z.land uc 3, out ++ [enc_char (Z.shiftr uc 2)])
  else if bits =? 2 then
    let curVal := u8 (Z.shiftl curVal 4) in
    (4, Z.land uc 15, out ++ [enc_char (Z.lor curVal (Z.shiftr uc 4))])
  else if bits =? 4 then
    let curVal := u8 (Z.shiftl curVal 2) in
    (0, curVal, out ++ [enc_char (Z.lor curVal (Z.shiftr uc 6)); enc_char (Z.land uc 63)])
  else st.

(** [src/src/utils/Base64.cpp:50-103] Base64::encode *)
Definition encode (binary : bytes) : cstr :=
  let '(bits, curVal, out) := foldl encode_step (0, 0, []) binary in
  if 0 <? bits then out ++ [enc_char (Z.shiftl curVal (6 - bits))] else out.

(** [src/src/utils/Base64.cpp:114-116] Base64::decode (padding)

    Counts trailing [=]; the loop stops halfway because the bound shrinks as
    the count grows. *)
Fixpoint count_equals (fuel : nat) (s : cstr) (equals : nat) : nat :=
  match fuel with
  | O => equals
  | S fuel =>
      if Nat.ltb equals (length s - equals) &&
         bool_decide (s !! (length s - equals - 1)%nat = Some (chr "="))
      then count_equals fuel s (S equals)
      else equals
  end.

(** [src/src/utils/Base64.cpp:121-162] Base64::decode (loop body) *)
Definition decode_step (st : state) (c : Z) : state :=
  let '(bits, curVal, out) := st in
  let intVal := charToVal c in
  if intVal <? 0 then st
  else if bits =? 0 then (6, intVal, out)
  else if bits =? 2 then
    let curVal := Z.lor (u8 (Z.shiftl curVal 6)) intVal in
    (0, curVal, out ++ [curVal])
  else if bits =? 4 then
    let curVal := Z.lor (u8 (Z.shiftl curVal 4)) (Z.shiftr intVal 2) in
    (2, Z.land intVal 3, out ++ [curVal])
  else if bits =? 6 then
    let curVal := Z.lor (u8 (Z.shiftl curVal 2)) (Z.shiftr intVal 4) in
    (4, Z.land intVal 15, out ++ [curVal])
  else st.

Definition decode_run (s : cstr) : state := foldl decode_step (0, 0, []) s.

(** [src/src/utils/Base64.cpp:105-168] Base64::decode *)
Definition decode (printable : cstr) : bytes :=
  if bool_decide (printable = []) then []
  else
    let equals := count_equals (length printable) printable 0 in
    let '(_, _, out) := decode_run (take (length printable - equals) printable) in
    out.

(** Bytes allocated for the decoded data (line 112). *)
Definition decode_capacity (printable : cstr) : Z := (zlen printable / 4 + 1) * 3.

(** ** Bit-level facts *)

(** The alphabet is read back digit for digit and never uses [=]. *)
Lemma enc_char_spec v :
  0 ≤ v < 64 → charToVal (enc_char v) = v ∧ enc_char v ≠ chr "=" ∧ is_byte (enc_char v).
Proof.
  intros Hv.
  assert (H : Forall (λ v, charToVal (enc_char v) = v ∧ enc_char v ≠ chr "=" ∧
                           is_byte (enc_char v)) (seqZ 0 64)).
  { apply (bool_decide_unpack _). vm_compute. exact I. }
  rewrite Forall_forall in H. apply H, elem_of_seqZ. lia.
Qed.

Definition sextet1 (a : Z) : Z := Z.shiftr a 2.
Definition sextet2 (a b : Z) : Z := Z.lor (u8 (Z.shiftl (Z.land a 3) 4)) (Z.shiftr b 4).
Definition sextet3 (b c : Z) : Z := Z.lor (u8 (Z.shiftl (Z.land b 15) 2)) (Z.shiftr c 6).
Definition sextet4 (c : Z) : Z := Z.land c 63.

(** Bitwise operations of the codec as arithmetic. *)
Ltac bits_to_arith :=
  change 3 with (Z.ones 2); change 15 with (Z.ones 4); change 63 with (Z.ones 6);
  rewrite ?Z.land_ones, ?Z.shiftr_div_pow2, ?Z.shiftl_mul_pow2 by lia;
  unfold wrap.

Lemma sextet_arith a b :
  is_byte a → is_byte b →
  sextet1 a = a / 4 ∧ sextet2 a b = a mod 4 * 16 + b / 16 ∧
  sextet3 a b = a mod 16 * 4 + b / 64 ∧ sextet4 a = a mod 64.
Proof.
  intros Ha Hb. unfold sextet1, sextet2, sextet3, sextet4, is_byte in *.
  bits_to_arith. rewrite !(Z.mod_small (_ * _)) by dlia.
  rewrite !Z_lor_add by dlia. done.
Qed.

Lemma sextet_range a b :
  is_byte a → is_byte b →
  0 ≤ sextet1 a < 64 ∧ 0 ≤ sextet2 a b < 64 ∧ 0 ≤ sextet3 a b < 64 ∧ 0 ≤ sextet4 a < 64.
Proof.
  intros Ha Hb. destruct (sextet_arith a b Ha Hb) as (-> & -> & -> & ->).
  unfold is_byte in *. dlia.
Qed.

(** Two neighbouring sextets give back the byte they share. *)
Definition join1 (v w : Z) : Z := Z.lor (u8 (Z.shiftl v 2)) (Z.shiftr w 4).
Definition join2 (v w : Z) : Z := Z.lor (u8 (Z.shiftl (Z.land v 15) 4)) (Z.shiftr w 2).
Definition join3 (v w : Z) : Z := Z.lor (u8 (Z.shiftl (Z.land v 3) 6)) w.

Lemma join_arith v w :
  0 ≤ v < 64 → 0 ≤ w < 64 →
  join1 v w = v * 4 + w / 16 ∧ join2 v w = v mod 16 * 16 + w / 4 ∧ join3 v w = v mod 4 * 64 + w.
Proof.
  intros Hv Hw. unfold join1, join2, join3. bits_to_arith.
  rewrite !(Z.mod_small (_ * _)) by dlia. rewrite !Z_lor_add by dlia. done.
Qed.

Lemma sextet_join a b c :
  is_byte a → is_byte b → is_byte c →
  join1 (sextet1 a) (sextet2 a b) = a ∧ join2 (sextet2 a b) (sextet3 b c) = b ∧
  join3 (sextet3 b c) (sextet4 c) = c.
Proof.
  intros Ha Hb Hc. pose proof (sextet_range a b Ha Hb). pose proof (sextet_range b c Hb Hc).
  pose proof (sextet_range c 0 Hc ltac:(done)).
  rewrite (proj1 (join_arith (sextet1 a) (sextet2 a b) ltac:(lia) ltac:(lia))).
  rewrite (proj1 (proj2 (join_arith (sextet2 a b) (sextet3 b c) ltac:(lia) ltac:(lia)))).
  rewrite (proj2 (proj2 (join_arith (sextet3 b c) (sextet4 c) ltac:(lia) ltac:(lia)))).
  destruct (sextet_arith a b Ha Hb) as (-> & -> & _ & _).
  destruct (sextet_arith b c Hb Hc) as (_ & _ & -> & _).
  destruct (sextet_arith c 0 Hc ltac:(done)) as (_ & _ & _ & ->).
  unfold is_byte in *. split_and!; dlia.
Qed.

(** ** The encoder by groups of three bytes *)

Fixpoint encode_groups (l : bytes) : cstr :=
  match l with
  | [] => []
  | [a] => [enc_char (sextet1 a); enc_char (sextet2 a 0)]
  | [a; b] => [enc_char (sextet1 a); enc_char (sextet2 a b); enc_char (sextet3 b 0)]
  | a :: b :: c :: l =>
      enc_char (sextet1 a) :: enc_char (sextet2 a b) :: enc_char (sextet3 b c) ::
      enc_char (sextet4 c) :: encode_groups l
  end.

(** Induction by groups of three. *)
Lemma group_ind (P : bytes → Prop) :
  P [] → (∀ a, P [a]) → (∀ a b, P [a; b]) →
  (∀ a b c l, P l → P (a :: b :: c :: l)) → ∀ l, P l.
Proof.
  intros H0 H1 H2 H3 l. remember (length l) as n eqn:Hn.
  assert (Hle : (length l ≤ n)%nat) by lia. clear Hn.
  revert l Hle. induction n as [|n IH]; intros [|a [|b [|c l]]] Hle; simpl in *; try lia; auto.
  apply H3, IH. lia.
Qed.

Lemma tail_sextet a :
  is_byte a →
  Z.shiftl (Z.land a 3) 4 = sextet2 a 0 ∧ Z.shiftl (Z.land a 15) 2 = sextet3 a 0.
Proof.
  intros Ha. destruct (sextet_arith a 0 Ha ltac:(done)) as (_ & -> & -> & _).
  bits_to_arith. change (0 / _) with 0. by rewrite !Z.add_0_r.
Qed.

Lemma encode_groups_eq (l : bytes) : bytes_ok l → encode l = encode_groups l.
Proof.
  intros Hl. unfold encode.
  assert (H : ∀ cur out, match foldl encode_step (0, cur, out) l with
    | (bits, cv, o) => if 0 <? bits then o ++ [enc_char (Z.shiftl cv (6 - bits))] else o end
    = out ++ encode_groups l); [|apply H].
  revert Hl. induction l as [|a|a b|a b c l IH] using group_ind; intros Hl cur out.
  - simpl. by rewrite app_nil_r.
  - apply (Forall_singleton is_byte) in Hl. simpl. rewrite <- app_assoc. simpl.
    change (6 - 2) with 4. by rewrite (proj1 (tail_sextet a Hl)).
  - apply Forall_cons in Hl as [Ha [Hb _]%Forall_cons]. simpl. rewrite <- !app_assoc. simpl.
    change (6 - 4) with 2. by rewrite (proj2 (tail_sextet b Hb)).
  - apply Forall_cons in Hl as [Ha [Hb [Hc Hl]%Forall_cons]%Forall_cons].
    cbn [foldl encode_step Z.eqb Pos.eqb]. rewrite IH by done. by rewrite <- !app_assoc.
Qed.

(** C38: The streaming Base64 encoder, with its carried bits, produces exactly the
    reference encoding by groups of three bytes: four characters per full group
    and two or three for the remainder, without padding. *)
Theorem encode_by_groups (l : bytes) : bytes_ok l → encode l = encode_groups l.
Proof. apply encode_groups_eq. Qed.

Lemma encode_by_groups_witness : encode $"fluffy" = encode_groups $"fluffy".
Proof. apply (encode_by_groups $"fluffy"). apply lit_bytes_ok. Defined.

(** ** The decoder on encoded text *)

(** The encoder writes characters of its alphabet only. *)
Lemma encode_groups_all (P : Z → Prop) l :
  (∀ v, 0 ≤ v < 64 → P (enc_char v)) → bytes_ok l → Forall P (encode_groups l).
Proof.
  intros Hc. assert (H0 : is_byte 0) by done.
  induction l as [|a|a b|a b c l IH] using group_ind; intros Hl; unfold bytes_ok in *; decompose_Forall_hyps.
  - constructor.
  - pose proof (sextet_range a 0 ltac:(done) H0). repeat constructor; apply Hc; lia.
  - pose proof (sextet_range a b ltac:(done) ltac:(done)).
    pose proof (sextet_range b 0 ltac:(done) H0). repeat constructor; apply Hc; lia.
  - pose proof (sextet_range a b ltac:(done) ltac:(done)).
    pose proof (sextet_range b c ltac:(done) ltac:(done)).
    pose proof (sextet_range c 0 ltac:(done) H0).
    repeat (constructor; [apply Hc; lia|]). by apply IH.
Qed.

Lemma encode_groups_chars l :
  bytes_ok l → Forall (λ c, c ≠ chr "=" ∧ is_byte c) (encode_groups l).
Proof. apply encode_groups_all. intros v Hv. by destruct (enc_char_spec v Hv) as (_ & ? & ?). Qed.

Lemma decode_step_enc bits cur out v :
  0 ≤ v < 64 →
  decode_step (bits, cur, out) (enc_char v) =
    if bits =? 0 then (6, v, out)
    else if bits =? 2 then
      (0, Z.lor (u8 (Z.shiftl cur 6)) v, out ++ [Z.lor (u8 (Z.shiftl cur 6)) v])
    else if bits =? 4 then
      (2, Z.land v 3, out ++ [Z.lor (u8 (Z.shiftl cur 4)) (Z.shiftr v 2)])
    else if bits =? 6 then
      (4, Z.land v 15, out ++ [Z.lor (u8 (Z.shiftl cur 2)) (Z.shiftr v 4)])
    else (bits, cur, out).
Proof.
  intros Hv. unfold decode_step. rewrite (proj1 (enc_char_spec v Hv)).
  by rewrite (proj2 (Z.ltb_ge v 0)) by lia.
Qed.

#[local] Arguments decode_step : simpl never.

Ltac run_steps := repeat (rewrite decode_step_enc by lia; cbn [Z.eqb Pos.eqb]).

Lemma decode_groups l cur out :
  bytes_ok l → snd (foldl decode_step (0, cur, out) (encode_groups l)) = out ++ l.
Proof.
  assert (H0 : is_byte 0) by done.
  revert cur out. induction l as [|a|a b|a b c l IH] using group_ind;
    intros cur out Hl; unfold bytes_ok in *; decompose_Forall_hyps.
  - by rewrite app_nil_r.
  - pose proof (sextet_range a 0 ltac:(done) H0).
    destruct (sextet_join a 0 0) as (Hj & _ & _); [done..|]. unfold join1 in Hj.
    cbn [encode_groups foldl]. run_steps. simpl. by rewrite Hj.
  - pose proof (sextet_range a b ltac:(done) ltac:(done)).
    pose proof (sextet_range b 0 ltac:(done) H0).
    destruct (sextet_join a b 0) as (Hj1 & Hj2 & _); [done..|]. unfold join1, join2 in *.
    cbn [encode_groups foldl]. run_steps.
    simpl. by rewrite Hj1, Hj2, <- app_assoc.
  - pose proof (sextet_range a b ltac:(done) ltac:(done)).
    pose proof (sextet_range b c ltac:(done) ltac:(done)).
    pose proof (sextet_range c 0 ltac:(done) H0).
    destruct (sextet_join a b c) as (Hj1 & Hj2 & Hj3); [done..|]. unfold join1, join2, join3 in *.
    cbn [encode_groups foldl]. run_steps.
    rewrite Hj1, Hj2, Hj3, IH by done. by rewrite <- !app_assoc.
Qed.

Lemma count_equals_none fuel s :
  Forall (λ c, c ≠ chr "=") s → count_equals fuel s 0 = 0%nat.
Proof.
  intros Hs. destruct fuel; [done|]. simpl.
  case_bool_decide as Heq; [|by rewrite andb_false_r].
  rewrite Forall_lookup in Hs. by specialize (Hs _ _ Heq).
Qed.

Lemma decode_encode_groups l : bytes_ok l → decode (encode_groups l) = l.
Proof.
  intros Hl. unfold decode. case_bool_decide as He.
  { destruct l as [|a [|b [|c l]]]; done. }
  rewrite count_equals_none; [|eapply Forall_impl; [by apply encode_groups_chars|]; by intros c []].
  rewrite Nat.sub_0_r, firstn_all. unfold decode_run.
  pose proof (decode_groups l 0 [] Hl) as H. by destruct (foldl _ _ _) as [[? ?] ?].
Qed.

Lemma decode_encode64 (l : bytes) : bytes_ok l → decode (encode l) = l.
Proof. intros Hl. rewrite encode_groups_eq by done. by apply decode_encode_groups. Qed.

(** Base64 decoding inverts encoding on every byte string. *)
Theorem base64_roundtrip (l : bytes) : bytes_ok l → decode (encode l) = l.
Proof. apply decode_encode64. Qed.

Lemma base64_roundtrip_witness : decode (encode [0; 255; 16; 131; 7]) = [0; 255; 16; 131; 7].
Proof. apply base64_roundtrip. repeat constructor; unfold is_byte; lia. Defined.

Lemma encode_length l : bytes_ok l → zlen (encode l) = (4 * zlen l + 2) / 3.
Proof.
  intros Hl. rewrite encode_groups_eq by done. clear Hl.
  induction l as [|a|a b|a b c l IH] using group_ind; [done..|].
  cbn [encode_groups length]. dlia.
Qed.

(** ** Memory bound of the decoder *)

(** Bytes produced against characters read, by accumulator position. *)
Definition decode_progress (st : state) (k : Z) : Prop :=
  let '(bits, _, out) := st in
  (bits = 0 ∨ bits = 2 ∨ bits = 4 ∨ bits = 6) ∧ 8 * zlen out + bits ≤ 6 * k.

Lemma decode_step_progress st c k :
  decode_progress st k → decode_progress (decode_step st c) (k + 1).
Proof.
  destruct st as [[bits cur] out]. unfold decode_progress, decode_step. intros [Hb Hk].
  destruct (charToVal c <? 0); [lia|].
  destruct Hb as [->|[->|[->| ->]]]; cbn; rewrite ?length_app; cbn; lia.
Qed.

Lemma decode_run_progress s : decode_progress (decode_run s) (zlen s).
Proof.
  unfold decode_run. induction s as [|c s IH] using rev_ind; [cbn; lia|].
  rewrite foldl_app. simpl. rewrite length_app, Nat2Z.inj_add.
  by apply decode_step_progress.
Qed.

(** The Base64 decoder never writes past the block it allocates, for any
    input text, valid or not. *)
Theorem decode_within_capacity (s : cstr) : zlen (decode s) ≤ decode_capacity s.
Proof.
  unfold decode, decode_capacity. case_bool_decide; [simpl; dlia|].
  set (s' := take _ s). pose proof (decode_run_progress s') as H1.
  assert (Hlen : zlen s' ≤ zlen s) by (subst s'; rewrite length_take; lia).
  destruct (decode_run s') as [[bits cur] out]. destruct H1 as [? ?]. dlia.
Qed.

Lemma charToVal_range c : charToVal c < 0 ∨ is_byte (charToVal c).
Proof.
  unfold charToVal, is_byte, chr, lit; cbn.
  repeat case_match; zbool; lia.
Qed.

Lemma decode_step_bytes_ok bits cur out c :
  is_byte cur → bytes_ok out →
  let '(_, cur', out') := decode_step (bits, cur, out) c in is_byte cur' ∧ bytes_ok out'.
Proof.
  intros Hc Ho. unfold decode_step, bytes_ok.
  destruct (Z.ltb_spec (charToVal c) 0); [done|].
  assert (Hv : is_byte (charToVal c)) by (destruct (charToVal_range c); [lia|done]).
  repeat case_match; simplify_eq; rewrite ?Forall_app, ?Forall_singleton;
    split_and?; auto with fluffy lia.
Qed.

Lemma decode_bytes_ok s : bytes_ok (decode s).
Proof.
  unfold decode. case_bool_decide; [constructor|].
  generalize (take (length s - count_equals (length s) s 0) s). intros s'. unfold decode_run.
  assert (Hinv : let '(_, cur, out) := foldl decode_step (0, 0, []) s' in
                 is_byte cur ∧ bytes_ok out).
  2: { destruct (foldl _ _ _) as [[? ?] ?]. tauto. }
  induction s' as [|c s' IH] using rev_ind; [cbn; split; [done|constructor]|].
  rewrite foldl_app. cbn [foldl]. destruct (foldl _ _ _) as [[bits cur] out].
  destruct IH. by apply decode_step_bytes_ok.
Qed.

End Base64.
