(* ===== verification/Base58.v ===== *)
(** * Base58 text: [alg/Base58]

    The big-number arithmetic is OpenSSL's: the operations of [BN_*] used by
    the code are parameters, described by the laws their documentation gives.
    [BigNumZ] shows the laws can hold. *)

From S2P Require Import Prelude.

(** The part of OpenSSL's BN interface the codec calls.  [bn_val] is the
    integer a BIGNUM represents. *)
Class BigNum := {
  BN : Type;
  bn_val : BN → Z;
  BN_bin2bn : bytes → BN;
  BN_bn2bin : BN → bytes;
  BN_is_zero : BN → bool;
  BN_set_word : Z → BN;
  BN_get_word : BN → Z;
  BN_div : BN → BN → BN * BN;
  BN_mul_word : BN → Z → BN;
  BN_add_word : BN → Z → BN;
}.

(** Big-endian value of a byte string, and its shortest representation. *)
Definition be_val (l : bytes) : Z := le_val 256 (reverse l).
Definition be_bytes (n : Z) : bytes := reverse (digits 256 n).

Class BigNumLaws (bn : BigNum) : Prop := {
  bin2bn_val l : bytes_ok l → bn_val (BN_bin2bn l) = be_val l;
  bn2bin_bytes b : 0 ≤ bn_val b → BN_bn2bin b = be_bytes (bn_val b);
  is_zero_val b : BN_is_zero b = (bn_val b =? 0);
  set_word_val w : is_u 64 w → bn_val (BN_set_word w) = w;
  get_word_val b : is_u 64 (bn_val b) → BN_get_word b = bn_val b;
  div_val a d : 0 ≤ bn_val a → 0 < bn_val d →
    bn_val (fst (BN_div a d)) = bn_val a / bn_val d ∧
    bn_val (snd (BN_div a d)) = bn_val a mod bn_val d;
  mul_word_val b w : is_u 64 w → bn_val (BN_mul_word b w) = bn_val b * w;
  add_word_val b w : is_u 64 w → bn_val (BN_add_word b w) = bn_val b + w;
}.

Module Base58.

(** [src/src/alg/Base58.cpp:10-28] Base58::charToVal *)
Definition charToVal (c : Z) : Z :=
  if (chr "1" <=? c) && (c <=? chr "9") then c - chr "1"
  else if (chr "A" <=? c) && (c <=? chr "H") then c - chr "A" + 9
  else if (chr "J" <=? c) && (c <=? chr "N") then c - chr "J" + 17
  else if (chr "P" <=? c) && (c <=? chr "Z") then c - chr "P" + 22
  else if (chr "a" <=? c) && (c <=? chr "k") then c - chr "a" + 33
  else if (chr "m" <=? c) && (c <=? chr "z") then c - chr "m" + 44
  else 0.

(** [src/src/alg/Base58.cpp:33-34] b58Encoding *)
Definition b58Encoding : cstr :=
  $"123456789ABCDEFGHJKLMNPQRSTUVWXYZabcdefghijkmnopqrstuvwxyz".

(** [src/src/alg/Base58.cpp:38-46] Base58::valToChar

    [sizeof] counts the terminating zero, so 58 reads that zero. *)
Definition valToChar (val : Z) : Z :=
  if zlen b58Encoding + 1 <=? val then 0 else nth (Z.to_nat val) b58Encoding 0.

Section Codec.
Context {bn : BigNum}.

(** [src/src/alg/Base58.cpp:53-56] Base58::encode (leading zeros) *)
Fixpoint count_leading (x : Z) (l : list Z) : nat :=
  match l with
  | c :: l => if c =? x then S (count_leading x l) else O
  | [] => O
  end.

(** [src/src/alg/Base58.cpp:71-78] Base58::encode (digit loop)

    Least significant digit first, as written to [encoded]. *)
Fixpoint encode_loop (fuel : nat) (b : BN) : cstr :=
  match fuel with
  | O => []
  | S fuel =>
      if BN_is_zero b then []
      else
        let '(q, rem) := BN_div b (BN_set_word 58) in
        valToChar (u8 (BN_get_word rem)) :: encode_loop fuel q
  end.

(** [src/src/alg/Base58.cpp:48-94] Base58::encode

    Eight iterations per byte are enough fuel: each one divides by 58. *)
Definition encode (binary : bytes) : cstr :=
  if bool_decide (binary = []) then []
  else
    let zeros := count_leading 0 binary in
    let encoded := encode_loop (8 * length binary) (BN_bin2bn binary) in
    replicate zeros (chr "1") ++ reverse encoded.

(** [src/src/alg/Base58.cpp:96-125] Base58::decode *)
Definition decode (printable : cstr) : bytes :=
  let zeros := count_leading (chr "1") printable in
  let b := foldl (λ b c, BN_add_word (BN_mul_word b 58) (charToVal c))
                 (BN_set_word 0) (drop zeros printable) in
  replicate zeros 0 ++ BN_bn2bin b.

(** [src/src/alg/Base58.cpp:58-60] Base58::encode (allocation) *)
Definition encode_capacity (binary : bytes) : Z := zlen binary * 138 / 100 + 2.

End Codec.

(** ** The digit alphabet *)

Lemma valToChar_spec v :
  0 ≤ v < 58 →
  charToVal (valToChar v) = v ∧ is_byte (valToChar v) ∧ (valToChar v = chr "1" → v = 0).
Proof.
  intros Hv.
  assert (H : Forall (λ v, charToVal (valToChar v) = v ∧ is_byte (valToChar v) ∧
                           (valToChar v = chr "1" → v = 0)) (seqZ 0 58)).
  { apply (bool_decide_unpack _). vm_compute. exact I. }
  rewrite Forall_forall in H. apply H, elem_of_seqZ. lia.
Qed.

Lemma charToVal_digit c : 0 ≤ charToVal c < 58.
Proof. unfold charToVal, chr, lit; cbn. repeat case_match; zbool; lia. Qed.

(** ** Leading runs *)

Lemma count_leading_split x l :
  ∃ l', l = replicate (count_leading x l) x ++ l' ∧ head l' ≠ Some x.
Proof.
  induction l as [|c l (l' & Hl & Hh)]; [by exists []|]. simpl.
  destruct (Z.eqb_spec c x) as [->|Hne].
  - exists l'. simpl. by rewrite <- Hl.
  - exists (c :: l). simpl. split; [done|congruence].
Qed.

Lemma count_leading_app x k l : head l ≠ Some x → count_leading x (replicate k x ++ l) = k.
Proof.
  intros Hl. induction k as [|k IH]; simpl.
  - destruct l as [|c l]; [done|]. simpl in *. destruct (Z.eqb_spec c x); [congruence|done].
  - by rewrite Z.eqb_refl, IH.
Qed.

Section Laws.
Context {bn : BigNum} {laws : BigNumLaws bn}.

Lemma encode_loop_digits fuel b :
  0 ≤ bn_val b → encode_loop fuel b = valToChar <$> le_digits 58 fuel (bn_val b).
Proof.
  revert b. induction fuel as [|fuel IH]; intros b Hb; [done|].
  cbn [encode_loop le_digits]. rewrite is_zero_val.
  destruct (Z.eqb_spec (bn_val b) 0); [done|].
  assert (H58 : bn_val (BN_set_word 58) = 58) by (apply set_word_val; done).
  destruct (div_val b (BN_set_word 58) Hb ltac:(lia)) as [Hq Hr].
  destruct (BN_div b (BN_set_word 58)) as [q rem]; simpl in *. rewrite H58 in *.
  pose proof (Z.mod_pos_bound (bn_val b) 58 ltac:(lia)).
  rewrite get_word_val by (rewrite Hr; unfold is_u; lia).
  rewrite IH, Hq by (rewrite Hq; apply Z.div_pos; lia).
  rewrite Hr. by rewrite wrap_small by (unfold is_u; lia).
Qed.

Lemma be_val_bound l : bytes_ok l → 0 ≤ be_val l < 256 ^ zlen l.
Proof.
  intros Hl. unfold be_val. rewrite <- (length_reverse l).
  assert (Forall (is_digit 256) (reverse l)) by by apply Forall_reverse.
  split; [by apply le_val_nonneg|by apply le_val_bound].
Qed.

(** Eight rounds per byte are enough for the digit loop. *)
Lemma encode_fuel_enough l :
  bytes_ok l → le_digits 58 (8 * length l) (be_val l) = digits 58 (be_val l).
Proof.
  intros Hl. pose proof (be_val_bound l Hl) as [Hv1 Hv2].
  rewrite <- (digits_val 58 ltac:(lia) (be_val l)) at 1 by done.
  apply le_digits_of_val; [lia|by apply digits_ok|by apply digits_last|].
  rewrite digits_val by lia. replace (Z.of_nat (8 * length l)) with (8 * zlen l) by lia.
  by rewrite Z.pow_mul_r by lia.
Qed.

(** Closed form of the encoder. *)
Lemma encode_digits l :
  bytes_ok l →
  encode l = replicate (count_leading 0 l) (chr "1") ++
             reverse (valToChar <$> digits 58 (be_val l)).
Proof.
  intros Hl. unfold encode. case_bool_decide as He; [by subst|].
  pose proof (be_val_bound l Hl) as [Hv1 Hv2]. do 2 f_equal.
  rewrite encode_loop_digits by by rewrite bin2bn_val.
  by rewrite bin2bn_val, encode_fuel_enough by done.
Qed.

Lemma be_val_zeros k l : be_val (replicate k 0 ++ l) = be_val l.
Proof.
  unfold be_val. rewrite reverse_app, le_val_app, reverse_replicate.
  assert (H : le_val 256 (replicate k 0) = 0); [|lia]. induction k; simpl; lia.
Qed.

Lemma be_bytes_val l : bytes_ok l → head l ≠ Some 0 → be_bytes (be_val l) = l.
Proof.
  intros Hl Hh. unfold be_bytes, be_val. rewrite digits_of_val.
  - apply reverse_involutive.
  - lia.
  - by apply Forall_reverse.
  - by rewrite last_reverse.
Qed.

Lemma decode_loop_val s b :
  0 ≤ bn_val b →
  bn_val (foldl (λ b c, BN_add_word (BN_mul_word b 58) (charToVal c)) b s) =
    foldl (λ v c, v * 58 + charToVal c) (bn_val b) s.
Proof.
  revert b. induction s as [|c s IH]; intros b Hb; [done|]. cbn [foldl].
  pose proof (charToVal_digit c).
  assert (Hv : bn_val (BN_add_word (BN_mul_word b 58) (charToVal c)) =
               bn_val b * 58 + charToVal c).
  { rewrite add_word_val, mul_word_val; unfold is_u; lia. }
  rewrite IH, Hv by lia. done.
Qed.

(** Closed form of the decoder. *)
Lemma decode_digits s :
  decode s = replicate (count_leading (chr "1") s) 0 ++
    be_bytes (le_val 58 (reverse (charToVal <$> drop (count_leading (chr "1") s) s))).
Proof.
  unfold decode. f_equal.
  assert (H0 : bn_val (BN_set_word 0) = 0) by (apply set_word_val; done).
  assert (Hv : bn_val (foldl (λ b c, BN_add_word (BN_mul_word b 58) (charToVal c))
     (BN_set_word 0) (drop (count_leading (chr "1") s) s)) =
     le_val 58 (reverse (charToVal <$> drop (count_leading (chr "1") s) s))).
  { rewrite decode_loop_val, H0, foldl_horner by lia. lia. }
  rewrite bn2bin_bytes; rewrite Hv; [done|].
  apply le_val_nonneg; [lia|]. apply Forall_reverse, Forall_fmap, Forall_true.
  intros c. apply charToVal_digit.
Qed.

Lemma decode_bytes_ok58 s : bytes_ok (decode s).
Proof.
  rewrite decode_digits. apply Forall_app. split; [by apply Forall_replicate|]. unfold be_bytes.
  apply Forall_reverse, digits_ok; [lia|]. apply (le_val_nonneg 58); [lia|]. apply Forall_reverse, Forall_fmap, Forall_forall.
  intros c _. apply charToVal_digit.
Qed.

Lemma decode_encode58 (l : bytes) : bytes_ok l → decode (encode l) = l.
Proof.
  intros Hl. rewrite encode_digits by done.
  destruct (count_leading_split 0 l) as (l' & Hsplit & Hh).
  set (z := count_leading 0 l) in *.
  assert (Hl' : bytes_ok l') by (rewrite Hsplit in Hl; by apply Forall_app in Hl as [_ ?]).
  assert (Hv : be_val l = be_val l') by (rewrite Hsplit; apply be_val_zeros).
  set (ds := digits 58 (be_val l)).
  pose proof (be_val_bound l Hl) as [Hv0 _].
  assert (Hds : Forall (is_digit 58) ds) by by apply digits_ok.
  assert (Hhead : head (reverse (valToChar <$> ds)) ≠ Some (chr "1")).
  { rewrite head_reverse, fmap_last. subst ds. pose proof (digits_last 58 ltac:(lia) _ Hv0).
    destruct (last (digits 58 (be_val l))) as [d|] eqn:Hd; [|done].
    simpl. intros [= Heq]. apply valToChar_spec in Heq; [congruence|].
    rewrite Forall_forall in Hds. by apply Hds, last_Some_in. }
  rewrite decode_digits, count_leading_app by done.
  rewrite drop_app_length' by by rewrite length_replicate.
  rewrite fmap_reverse, reverse_involutive, <- list_fmap_compose.
  rewrite (Forall_fmap_id (charToVal ∘ valToChar) ds).
  2: { eapply Forall_impl; [done|]. intros d Hd. by apply valToChar_spec. }
  subst ds. rewrite digits_val by lia. rewrite Hv, be_bytes_val by done.
  by rewrite <- Hsplit.
Qed.

Lemma decode_nil : decode [] = [].
Proof. rewrite decode_digits. done. Qed.

(** Base58 decoding inverts encoding on every byte string, leading zero bytes
    included. *)
Theorem base58_roundtrip (l : bytes) : bytes_ok l → decode (encode l) = l.
Proof. apply decode_encode58. Qed.

(** A number below [256 ^ n] has at most [n * 138 / 100 + 1] Base58 digits. *)
Lemma pow256_le_pow58 n : 0 ≤ n → 256 ^ n ≤ 58 ^ (n * 138 / 100 + 1).
Proof.
  intros Hn. set (q := n * 138 / 100).
  assert (Hq : 138 * n < 100 * (q + 1) ∧ 0 ≤ q) by (subst q; dlia).
  apply Z.nlt_ge. intros Hlt.
  pose proof (Z.pow_lt_mono_l (58 ^ (q + 1)) (256 ^ n) 100 ltac:(lia)
    (conj (Z.pow_nonneg 58 (q + 1) ltac:(lia)) Hlt)) as Hlt'.
  revert Hlt'. apply Z.nlt_ge. rewrite <- !Z.pow_mul_r by lia.
  transitivity (58 ^ (138 * n)).
  - rewrite (Z.mul_comm n 100), !Z.pow_mul_r by lia. apply Z.pow_le_mono_l.
    split; [apply Z.pow_nonneg; lia|]. by vm_compute.
  - apply Z.pow_le_mono_r; lia.
Qed.

(** Neither Base58 routine writes past its heap block: encoding stays within
    the [length * 138 / 100 + 2] bytes it allocates for the digits, and decoding any
    text, valid or not, stays within one byte per input character. *)
Theorem base58_within_capacity (l : bytes) (s : cstr) :
  bytes_ok l →
  zlen (encode_loop (8 * length l) (BN_bin2bn l)) ≤ encode_capacity l ∧
  zlen (decode s) ≤ zlen s.
Proof.
  intros Hl. split.
  - pose proof (be_val_bound l Hl) as [Hv1 Hv2].
    rewrite encode_loop_digits by by rewrite bin2bn_val. rewrite length_fmap, bin2bn_val by done.
    rewrite encode_fuel_enough by done. unfold encode_capacity.
    pose proof (pow256_le_pow58 (zlen l) ltac:(lia)).
    pose proof (digits_length_bound 58 ltac:(lia) (be_val l) (zlen l * 138 / 100 + 1)
                  ltac:(lia) ltac:(dlia)). lia.
  - rewrite decode_digits. set (z := count_leading (chr "1") s).
    assert (Hz : (z ≤ length s)%nat).
    { destruct (count_leading_split (chr "1") s) as (s' & -> & _).
      subst z. rewrite length_app, length_replicate. lia. }
    set (ds := reverse (charToVal <$> drop z s)).
    assert (Hds : Forall (is_digit 58) ds).
    { apply Forall_reverse, Forall_fmap, Forall_true. intros c. apply charToVal_digit. }
    assert (Hlen : length ds = (length s - z)%nat)
      by (subst ds; rewrite length_reverse, length_fmap, length_drop; done).
    unfold be_bytes. rewrite length_app, length_replicate, length_reverse.
    pose proof (le_val_bound 58 ltac:(lia) ds Hds).
    pose proof (le_val_nonneg 58 ltac:(lia) ds Hds).
    pose proof (Z.pow_le_mono_l 58 256 (zlen ds) ltac:(lia)).
    pose proof (digits_length_bound 256 ltac:(lia) (le_val 58 ds) (zlen ds) ltac:(lia) ltac:(lia)).
    lia.
Qed.
End Laws.

(** ** The laws hold for the integers *)

#[export] Instance BigNumZ : BigNum := {|
  BN := Z;
  bn_val z := z;
  BN_bin2bn := be_val;
  BN_bn2bin := be_bytes;
  BN_is_zero z := z =? 0;
  BN_set_word w := w;
  BN_get_word z := z;
  BN_div a d := (a / d, a mod d);
  BN_mul_word b w := b * w;
  BN_add_word b w := b + w;
|}.

#[export] Instance BigNumZ_laws : BigNumLaws BigNumZ.
Proof. split; done. Qed.

Lemma base58_roundtrip_witness :
  decode (encode [0; 0; 7; 255; 128; 33]) = [0; 0; 7; 255; 128; 33].
Proof. apply (base58_roundtrip (bn := BigNumZ)). repeat constructor; unfold is_byte; lia. Defined.

Lemma base58_within_capacity_witness :
  zlen (encode_loop (8 * 3) (BN_bin2bn [255; 255; 255])) ≤ encode_capacity [255; 255; 255] ∧
  zlen (decode $"z11") ≤ zlen $"z11".
Proof.
  apply (base58_within_capacity (bn := BigNumZ) [255; 255; 255] $"z11").
  repeat constructor; unfold is_byte; lia.
Defined.

End Base58.
