(* ===== verification/Ossl.v ===== *)
(** * The OpenSSL wrappers: [ossl/encode.h], [ossl/decode.h], [ossl/Prng],
      [ossl/Hash], [ossl/Curve25519] and [ossl/convert]

    OpenSSL itself is a parameter: a random source, two digests, an ED25519
    key implementation and ASN.1 primitives.  Each class lists the functions
    the wrappers call, the matching [...Laws] class what the manual pages say
    of them, and an instance at the end of the file shows the laws can hold. *)

From S2P Require Import Prelude BinData.

(** [RAND_bytes]: the bytes drawn, or nothing on failure, and the next state. *)
Class Rng := {
  rng : Type;
  RAND_bytes : rng → nat → option bytes * rng;
}.

Class RngLaws (r : Rng) : Prop := {
  RAND_bytes_ok g n l g' : RAND_bytes g n = (Some l, g') → length l = n ∧ bytes_ok l;
}.

(** The digests behind [EVP_sha256] and [EVP_sha3_256]. *)
Class Digests := {
  EVP_sha256 : bytes → bytes;
  EVP_sha3_256 : bytes → bytes;
}.

Class DigestLaws (d : Digests) : Prop := {
  sha256_length l : length (EVP_sha256 l) = 32%nat;
  sha3_256_length l : length (EVP_sha3_256 l) = 32%nat;
  sha256_bytes l : bytes_ok (EVP_sha256 l);
}.

(** Keys with their DER forms and signatures.  [EVP_DigestSign] writes the
    signature and its length; [EVP_DigestVerify] returns 1, 0 or a negative
    number. *)
Class EvpKeys := {
  EVP_PKEY : Type;
  i2d_PUBKEY : EVP_PKEY → bytes;
  d2i_PUBKEY : bytes → option EVP_PKEY;
  i2d_PrivateKey : EVP_PKEY → bytes;
  d2i_PrivateKey : bytes → option EVP_PKEY;
  EVP_PKEY_size : EVP_PKEY → Z;
  EVP_DigestSign : EVP_PKEY → bytes → option bytes;
  EVP_DigestVerify : EVP_PKEY → bytes → bytes → Z;
}.

Module Encode.

(** [src/src/ossl/encode.h:17-32] ossl::encode

    [i2d] is the output of the encoder, empty when it fails; the buffer is
    sized by the first call and filled by the second. *)
Definition encode (sec : bool) (i2d : bytes) : BinData.t :=
  let ret := BinData.new_secure sec in
  if 0 <? zlen i2d then
    let '(ret, _) := BinData.resize ret (zlen i2d) in
    BinData.mk (BinData.bSecure ret) (Some i2d) (BinData.len ret)
  else ret.

(** [src/src/ossl/decode.h:19-26] ossl::decode *)
Definition decode {A} (binData : bytes) (pfDecode : bytes → option A) : option A :=
  if bool_decide (binData = []) then None else pfDecode binData.

Lemma encode_contents sec l : BinData.contents (encode sec l) = l.
Proof.
  unfold encode. destruct l as [|x l]; [done|]. simpl zlen.
  rewrite (proj2 (Z.ltb_lt 0 _)) by lia. unfold BinData.resize, BinData.new_secure.
  cbn [BinData.len]. rewrite (proj2 (Z.eqb_neq 0 _)) by lia. simpl.
  by apply BinData.contents_exact.
Qed.

Lemma encode_secure_tight l : BinData.secure_tight (encode true l).
Proof.
  unfold encode. destruct l as [|x l]; [done|]. simpl zlen.
  rewrite (proj2 (Z.ltb_lt 0 _)) by lia. unfold BinData.resize, BinData.new_secure.
  cbn [BinData.len]. rewrite (proj2 (Z.eqb_neq 0 _)) by lia. simpl.
  by apply BinData.secure_tight_exact.
Qed.

End Encode.

Module Prng.

Definition UINT_MAX : Z := 4294967295.

(** Memory image of an [unsigned int] (little-endian). *)
Definition u32_mem (n : Z) : bytes :=
  [n mod 256; n / 256 mod 256; n / 65536 mod 256; n / 16777216 mod 256].

Section Code.
Context {R : Rng}.

(** [src/src/ossl/Prng.cpp:18-22] Prng::rand(unsigned char *, size_t)

    On failure the error is logged and the buffer keeps its contents. *)
Definition rand_into (buffer : bytes) (g : rng) : bytes * rng :=
  match RAND_bytes g (length buffer) with
  | (Some l, g') => (l, g')
  | (None, g') => (buffer, g')
  end.

(** [src/src/ossl/Prng.cpp:48-54] Prng::rand(size_t) *)
Definition rand (n : nat) (g : rng) : bytes * rng := rand_into (replicate n 0) g.

(** [src/src/ossl/Prng.cpp:33-34] Prng::randInt (rejection bound) *)
Definition max_num (range : Z) : Z := UINT_MAX - UINT_MAX mod range.

(** [src/src/ossl/Prng.cpp:36-41] Prng::randInt (rejection loop) *)
Fixpoint draw (fuel : nat) (maxNum ret : Z) (g : rng) : option (Z * rng) :=
  match fuel with
  | O => None
  | S fuel =>
      let '(mem, g') := rand_into (u32_mem ret) g in
      let ret := le_val 256 mem in
      if maxNum <? ret then draw fuel maxNum ret g' else Some (ret, g')
  end.

(** [src/src/ossl/Prng.cpp:24-46] Prng::randInt

    [None] when no draw was accepted within the fuel. *)
Definition randInt (fuel : nat) (min max : Z) (g : rng) : option (Z * rng) :=
  if min =? max then Some (min, g)
  else
    let '(min, max) := if max <? min then (max, min) else (min, max) in
    let range := max - min in
    match draw fuel (max_num range) 0 g with
    | Some (ret, g') => Some (u32 (ret mod range + min), g')
    | None => None
    end.

(** The word the [k]-th draw from [g] yields, starting from the buffer [ret]. *)
Fixpoint word (k : nat) (ret : Z) (g : rng) : Z :=
  let '(mem, g') := rand_into (u32_mem ret) g in
  match k with
  | O => le_val 256 mem
  | S k => word k (le_val 256 mem) g'
  end.
End Code.

Section Proofs.
Context {R : Rng} {laws : RngLaws R}.

Lemma u32_mem_ok n : bytes_ok (u32_mem n).
Proof. repeat constructor; dlia. Qed.

Lemma rand_into_ok buf g l g' :
  bytes_ok buf → rand_into buf g = (l, g') → length l = length buf ∧ bytes_ok l.
Proof.
  intros Hb. unfold rand_into. destruct (RAND_bytes g _) as [[m|] g''] eqn:E; intros; simplify_eq.
  - by eapply RAND_bytes_ok.
  - done.
Qed.

Lemma rand_into_length buf g l g' : rand_into buf g = (l, g') → length l = length buf.
Proof.
  unfold rand_into. destruct (RAND_bytes g (length buf)) as [[r|] g1] eqn:E; intros [= <- <-]; [|done].
  by apply RAND_bytes_ok in E as [? _].
Qed.

Lemma rand_ok n g l g' : rand n g = (l, g') → length l = n ∧ bytes_ok l.
Proof.
  intros H. apply rand_into_ok in H; [by rewrite length_replicate in H|].
  apply Forall_replicate. unfold is_byte; lia.
Qed.

Lemma mem_word_range ret g l g' :
  rand_into (u32_mem ret) g = (l, g') → is_u 32 (le_val 256 l).
Proof.
  intros [Hlen Hok]%rand_into_ok; [|apply u32_mem_ok].
  pose proof (le_val_bound 256 ltac:(lia) l Hok). pose proof (le_val_nonneg 256 ltac:(lia) l Hok).
  rewrite Hlen in *. simpl in *. unfold is_u. lia.
Qed.

Lemma draw_sound fuel maxNum ret g r g' :
  draw fuel maxNum ret g = Some (r, g') → is_u 32 r ∧ r ≤ maxNum.
Proof.
  revert ret g. induction fuel as [|fuel IH]; intros ret g; [done|]. cbn [draw].
  destruct (rand_into _ g) as [mem g1] eqn:E. pose proof (mem_word_range _ _ _ _ E).
  destruct (Z.ltb_spec maxNum (le_val 256 mem)); [by apply IH|]. intros; by simplify_eq.
Qed.

Lemma draw_live k maxNum ret g :
  word k ret g ≤ maxNum → ∃ r g', draw (S k) maxNum ret g = Some (r, g').
Proof.
  revert ret g. induction k as [|k IH]; intros ret g; cbn [word];
    destruct (rand_into _ g) as [mem g1] eqn:E; intros Hw.
  - cbn [draw]. rewrite E. destruct (Z.ltb_spec maxNum (le_val 256 mem)); [lia|eauto].
  - apply IH in Hw. cbn [draw]. rewrite E.
    destruct (Z.ltb_spec maxNum (le_val 256 mem)); [done|eauto].
Qed.

(** At least half of the words are accepted. *)
Lemma max_num_half range : 0 < range ≤ UINT_MAX → UINT_MAX / 2 < max_num range.
Proof.
  unfold max_num, UINT_MAX. intros Hr.
  pose proof (Z.mod_pos_bound 4294967295 range ltac:(lia)).
  pose proof (Z.div_mod 4294967295 range ltac:(lia)).
  assert (1 ≤ 4294967295 / range) by (apply Z.div_le_lower_bound; lia).
  change (4294967295 / 2) with 2147483647. nia.
Qed.

Lemma randInt_range fuel min max g r g' :
  is_u 32 min → is_u 32 max → min ≠ max → randInt fuel min max g = Some (r, g') →
  Z.min min max ≤ r < Z.max min max.
Proof.
  intros Hmin Hmax Hne. unfold randInt. rewrite (proj2 (Z.eqb_neq _ _)) by done.
  unfold is_u in *.
  destruct (Z.ltb_spec max min);
    (destruct (draw _ _ _ _) as [[w g1]|] eqn:E; [|done]); intros; simplify_eq;
    match goal with |- context [u32 (w mod ?d + ?m)] =>
      pose proof (Z.mod_pos_bound w d ltac:(lia));
      rewrite (wrap_small 32 (w mod d + m)) by (unfold is_u; lia) end; lia.
Qed.

(** Prng::randInt returns as soon as a draw is acceptable (at least every
    other word is), and then its result lies between the two bounds, in either
    order, the smaller one included and the larger one never reached. *)
Theorem randInt_spec (k : nat) (min max : Z) (g : rng) :
  is_u 32 min → is_u 32 max → min ≠ max → word k 0 g ≤ UINT_MAX / 2 →
  ∃ r g', randInt (S k) min max g = Some (r, g') ∧ Z.min min max ≤ r < Z.max min max.
Proof.
  intros Hmin Hmax Hne Hw.
  assert (Hd : ∀ range, 0 < range ≤ UINT_MAX →
    ∃ r g', draw (S k) (max_num range) 0 g = Some (r, g')).
  { intros range Hr. apply draw_live. pose proof (max_num_half range Hr). lia. }
  assert (∃ r g', randInt (S k) min max g = Some (r, g')) as (r & g' & Hr).
  { unfold randInt. rewrite (proj2 (Z.eqb_neq _ _)) by done. unfold is_u, UINT_MAX in *.
    destruct (Z.ltb_spec max min); [destruct (Hd (min - max)) as (? & ? & ->)|
      destruct (Hd (max - min)) as (? & ? & ->)]; try lia; eauto. }
  exists r, g'. split; [done|]. by eapply randInt_range.
Qed.
End Proofs.
End Prng.

Module Hash.
Section Code.
Context {D : Digests}.

(** [src/src/ossl/Hash.cpp:11-27] doHash

    The digest is written to a fresh block, which the result takes over. *)
Definition doHash (data : bytes) (algorithm : bytes → bytes) : bytes :=
  let digest := algorithm data in
  BinData.contents (fst (BinData.setBuffer BinData.empty_data (Some digest) (zlen digest))).

(** [src/src/ossl/Hash.cpp:31-34] Hash::sha2_256 *)
Definition sha2_256 (data : bytes) : bytes := doHash data EVP_sha256.

(** [src/src/ossl/Hash.cpp:36-39] Hash::sha3_256 *)
Definition sha3_256 (data : bytes) : bytes := doHash data EVP_sha3_256.

Lemma doHash_eq data alg : doHash data alg = alg data.
Proof.
  unfold doHash, BinData.setBuffer, BinData.empty_data; simpl.
  destruct (alg data) as [|x l]; [done|]. by apply BinData.contents_exact.
Qed.

Context {laws : DigestLaws D}.

Lemma sha2_256_length l : length (sha2_256 l) = 32%nat.
Proof. unfold sha2_256. rewrite doHash_eq. apply sha256_length. Qed.

Lemma sha2_256_ok l : bytes_ok (sha2_256 l).
Proof. unfold sha2_256. rewrite doHash_eq. apply sha256_bytes. Qed.
End Code.
End Hash.

Module Curve25519.

(** [src/src/ossl/Curve25519.h:18-18] Curve25519::POINT_LEN *)
Definition POINT_LEN : Z := 32.

(** [src/src/ossl/Curve25519.cpp:21-27] pubinfo *)
Definition pubinfo : bytes :=
  [0x30; 0x2a; 0x30; 0x05; 0x06; 0x03; 0x2b; 0x65; 0x70; 0x03; 0x21; 0x00] ++ replicate 32 0.

(** [src/src/ossl/Curve25519.cpp:29-29] PUB_ENCODING_LEN *)
Definition PUB_ENCODING_LEN : Z := zlen pubinfo - POINT_LEN.

(** [src/src/ossl/Curve25519.cpp:32-38] privinfo *)
Definition privinfo : bytes :=
  [0x30; 0x2e; 0x02; 0x01; 0x00; 0x30; 0x05; 0x06; 0x03; 0x2b; 0x65; 0x70;
   0x04; 0x22; 0x04; 0x20] ++ replicate 32 0.

(** [src/src/ossl/Curve25519.cpp:40-40] PRIV_ENCODING_LEN *)
Definition PRIV_ENCODING_LEN : Z := zlen privinfo - POINT_LEN.

Section Code.
Context {K : EvpKeys}.

(** [src/src/ossl/Curve25519.cpp:62-77] Curve25519::toPublic *)
Definition toPublic (key : EVP_PKEY) : bytes :=
  let x509 := BinData.contents (Encode.encode false (i2d_PUBKEY key)) in
  if negb (zlen x509 =? zlen pubinfo)
     || negb (bool_decide (ztake PUB_ENCODING_LEN pubinfo = ztake PUB_ENCODING_LEN x509))
  then []
  else ztake POINT_LEN (zdrop PUB_ENCODING_LEN x509).

(** [src/src/ossl/Curve25519.cpp:79-101] Curve25519::fromPublic *)
Definition fromPublic (publicPoint : bytes) : option EVP_PKEY :=
  if negb (zlen publicPoint =? POINT_LEN) then None
  else d2i_PUBKEY (ztake PUB_ENCODING_LEN pubinfo ++ publicPoint).

(** [src/src/ossl/Curve25519.cpp:103-117] Curve25519::toPrivate

    The whole object is kept, block included: what it leaves in memory matters. *)
Definition toPrivate (key : EVP_PKEY) : BinData.t :=
  let ret := Encode.encode true (i2d_PrivateKey key) in
  if BinData.length ret <? POINT_LEN then fst (BinData.clear ret)
  else BinData.truncateFront ret (BinData.length ret - POINT_LEN).

(** [src/src/ossl/Curve25519.cpp:119-137] Curve25519::fromPrivate *)
Definition fromPrivate (priv : bytes) : option EVP_PKEY :=
  if negb (zlen priv =? POINT_LEN) then None
  else Encode.decode (ztake PRIV_ENCODING_LEN privinfo ++ priv) d2i_PrivateKey.

(** [src/src/ossl/Curve25519.cpp:139-146] Curve25519::privateToPublic *)
Definition privateToPublic (priv : bytes) : bytes :=
  match fromPrivate priv with
  | Some key => toPublic key
  | None => []
  end.

(** [src/src/ossl/Curve25519.cpp:148-178] Curve25519::sign *)
Definition sign (key : EVP_PKEY) (data : bytes) : bytes :=
  let len := EVP_PKEY_size key in
  if len <=? 0 then []
  else match EVP_DigestSign key data with
  | None => []
  | Some sig => if negb (zlen sig =? len) then [] else sig
  end.

(** [src/src/ossl/Curve25519.cpp:180-196] Curve25519::verify *)
Definition verify (key : EVP_PKEY) (data signature : bytes) : bool :=
  EVP_DigestVerify key signature data =? 1.
End Code.

(** What OpenSSL documents of ED25519 keys ([is_ed]): the RFC 8410 encodings,
    DER round trips, and signatures that verify under the public key. *)
Class EvpKeyLaws (K : EvpKeys) := {
  is_ed : EVP_PKEY → Prop;
  i2d_PUBKEY_ed k : is_ed k →
    ∃ p, length p = 32%nat ∧ i2d_PUBKEY k = ztake PUB_ENCODING_LEN pubinfo ++ p;
  i2d_PrivateKey_ed k : is_ed k →
    ∃ p, length p = 32%nat ∧ i2d_PrivateKey k = ztake PRIV_ENCODING_LEN privinfo ++ p;
  d2i_PUBKEY_i2d k : ∃ k', d2i_PUBKEY (i2d_PUBKEY k) = Some k' ∧ i2d_PUBKEY k' = i2d_PUBKEY k;
  d2i_PrivateKey_i2d k : is_ed k → d2i_PrivateKey (i2d_PrivateKey k) = Some k;
  verify_sign k k' d s : EVP_DigestSign k d = Some s → i2d_PUBKEY k' = i2d_PUBKEY k →
    EVP_DigestVerify k' s d = 1;
}.

Section Proofs.
Context {K : EvpKeys} {laws : EvpKeyLaws K}.

Lemma toPublic_inv k :
  toPublic k = [] ∨
  (length (toPublic k) = 32%nat ∧ i2d_PUBKEY k = ztake PUB_ENCODING_LEN pubinfo ++ toPublic k).
Proof.
  unfold toPublic. rewrite Encode.encode_contents.
  destruct (_ || _) eqn:E; [by left|]. right.
  apply orb_false_iff in E as [E1%negb_false_iff%Z.eqb_eq E2%negb_false_iff].
  apply bool_decide_eq_true_1 in E2.
  set (b := i2d_PUBKEY k) in *. assert (length b = 44%nat) by (change (zlen pubinfo) with 44 in E1; lia).
  change (Z.to_nat POINT_LEN) with 32%nat. change (Z.to_nat PUB_ENCODING_LEN) with 12%nat in *.
  rewrite (take_ge (drop 12 b)) by (rewrite length_drop; lia).
  rewrite length_drop. split; [lia|]. by rewrite E2, take_drop.
Qed.

Lemma toPublic_ed k :
  is_ed k → i2d_PUBKEY k = ztake PUB_ENCODING_LEN pubinfo ++ toPublic k ∧
            length (toPublic k) = 32%nat.
Proof.
  intros (p & Hp & He)%i2d_PUBKEY_ed. unfold toPublic. rewrite Encode.encode_contents, He.
  assert (Hpre : length (ztake PUB_ENCODING_LEN pubinfo) = 12%nat) by done.
  rewrite (bool_decide_eq_true_2 (_ = _)).
  2: { by rewrite take_app_length'. }
  rewrite (proj2 (Z.eqb_eq _ _)) by (rewrite length_app, Hpre, Hp; done). simpl negb. simpl orb.
  cbv iota. rewrite drop_app_length' by done.
  rewrite (take_ge p) by (rewrite Hp; done). done.
Qed.

Lemma toPrivate_contents k p :
  length p = 32%nat → i2d_PrivateKey k = ztake PRIV_ENCODING_LEN privinfo ++ p →
  BinData.contents (toPrivate k) = p.
Proof.
  intros Hp He. unfold toPrivate. rewrite He.
  change (ztake PRIV_ENCODING_LEN privinfo) with (take 16 privinfo).
  set (b := Encode.encode true (take 16 privinfo ++ p)).
  pose proof (Encode.encode_secure_tight (take 16 privinfo ++ p)) as [_ [Hw Ht]].
  pose proof (Encode.encode_contents true (take 16 privinfo ++ p)) as Hc. fold b in Hw, Ht, Hc.
  assert (Hlen : BinData.len b = 48).
  { rewrite <- BinData.contents_length, Hc, length_app, Hp by done. done. }
  unfold BinData.length. rewrite Hlen. simpl. change (48 - POINT_LEN) with 16.
  destruct (BinData.truncateFront_refines b 16 Hw ltac:(lia)) as [_ ->].
  rewrite Hc. by apply drop_app_length'.
Qed.

(** Serialising an ED25519 key loses nothing: reading back its public point
    gives a key with the same public part, reading back its private point gives
    the key itself, and the public point computed from the private one is the
    key's own. *)
Lemma curve_key_roundtrip (k : EVP_PKEY) :
  is_ed k →
  (∃ k', fromPublic (toPublic k) = Some k' ∧ toPublic k' = toPublic k) ∧
  fromPrivate (BinData.contents (toPrivate k)) = Some k ∧
  privateToPublic (BinData.contents (toPrivate k)) = toPublic k.
Proof.
  intros Hk. destruct (toPublic_ed k Hk) as [Hp Hpl].
  destruct (i2d_PrivateKey_ed k Hk) as (p & Hl & He).
  assert (Hpriv : fromPrivate (BinData.contents (toPrivate k)) = Some k).
  { rewrite (toPrivate_contents k p) by done. unfold fromPrivate. rewrite Hl. simpl.
    unfold Encode.decode. rewrite bool_decide_eq_false_2 by done.
    change (ztake PRIV_ENCODING_LEN privinfo) with (take 16 privinfo) in He. simpl in He.
    rewrite <- He. by apply d2i_PrivateKey_i2d. }
  split_and!; [|done|unfold privateToPublic; by rewrite Hpriv].
  destruct (d2i_PUBKEY_i2d k) as (k' & Hd & Hi). exists k'. split.
  - unfold fromPublic. rewrite Hpl. simpl. rewrite <- Hd, Hp. done.
  - unfold toPublic. by rewrite Hi.
Qed.

(** A signature verifies against the signed data with the key rebuilt from
    the signer's public point, and signing never returns a truncated signature. *)
Theorem curve_sign_verify (k : EVP_PKEY) (data sig : bytes) :
  is_ed k → EVP_DigestSign k data = Some sig → zlen sig = EVP_PKEY_size k → sig ≠ [] →
  sign k data = sig ∧
  ∃ k', fromPublic (toPublic k) = Some k' ∧ verify k' data (sign k data) = true.
Proof.
  intros Hk Hs Hlen Hne. assert (Hsign : sign k data = sig).
  { unfold sign. rewrite Hs, <- Hlen, Z.eqb_refl. destruct sig; done. }
  split; [done|]. destruct (toPublic_ed k Hk) as [Hp Hpl].
  destruct (d2i_PUBKEY_i2d k) as (k' & Hd & Hi). exists k'. split.
  - unfold fromPublic. rewrite Hpl. simpl. rewrite <- Hd, Hp. done.
  - unfold verify. rewrite Hsign. by rewrite (verify_sign k k' data sig).
Qed.

(** Exporting a private key leaks half of it: when the SafeData returned by
    Curve25519::toPrivate is destroyed, the freed block still ends with the last
    16 bytes of the 32-byte private key, although SafeData overwrites its data. *)
Theorem toPrivate_leaks_key_tail (k : EVP_PKEY) :
  is_ed k →
  BinData.bSecure (toPrivate k) = true ∧
  snd (BinData.cleanup (toPrivate k)) =
    [replicate 32 0 ++ drop 16 (BinData.contents (toPrivate k))].
Proof.
  intros Hk. destruct (i2d_PrivateKey_ed k Hk) as (p & Hl & He).
  rewrite (toPrivate_contents k p) by done. unfold toPrivate. rewrite He.
  change (ztake PRIV_ENCODING_LEN privinfo) with (take 16 privinfo).
  set (b := Encode.encode true (take 16 privinfo ++ p)).
  pose proof (Encode.encode_secure_tight (take 16 privinfo ++ p)) as Hst.
  pose proof (Encode.encode_contents true (take 16 privinfo ++ p)) as Hc. fold b in Hst, Hc.
  assert (Hlen : BinData.len b = 48).
  { destruct Hst as [_ [Hw _]]. rewrite <- BinData.contents_length, Hc, length_app, Hl by done.
    done. }
  unfold BinData.length. rewrite Hlen. change (48 <? POINT_LEN) with false. cbv iota.
  change (48 - POINT_LEN) with 16. split.
  - destruct Hst as [Hs _]. unfold BinData.truncateFront. rewrite Hlen. simpl.
    by destruct (BinData.buffer b).
  - rewrite BinData.wipe_after_truncate by (done || lia). rewrite Hc, Hlen.
    change (48 - 16) with 32. simpl (Z.to_nat 32). do 2 f_equal.
Qed.
End Proofs.

(** ** The laws hold: a two-key implementation *)

Definition toy_point (k : bool) : bytes := replicate 32 (if k then 1 else 0).

#[export] Instance ToyKeys : EvpKeys := {|
  EVP_PKEY := bool;
  i2d_PUBKEY k := ztake PUB_ENCODING_LEN pubinfo ++ toy_point k;
  d2i_PUBKEY b :=
    if bool_decide (b = ztake PUB_ENCODING_LEN pubinfo ++ toy_point true) then Some true
    else if bool_decide (b = ztake PUB_ENCODING_LEN pubinfo ++ toy_point false) then Some false
    else None;
  i2d_PrivateKey k := ztake PRIV_ENCODING_LEN privinfo ++ toy_point k;
  d2i_PrivateKey b :=
    if bool_decide (b = ztake PRIV_ENCODING_LEN privinfo ++ toy_point true) then Some true
    else if bool_decide (b = ztake PRIV_ENCODING_LEN privinfo ++ toy_point false) then Some false
    else None;
  EVP_PKEY_size _ := 64;
  EVP_DigestSign k d := Some (toy_point k ++ replicate 32 (u8 (zlen d)));
  EVP_DigestVerify k s d :=
    if bool_decide (s = toy_point k ++ replicate 32 (u8 (zlen d))) then 1 else 0;
|}.

#[export] Program Instance ToyKeys_laws : EvpKeyLaws ToyKeys := {| is_ed _ := True |}.
Next Obligation. intros k _. exists (toy_point k). split; [by destruct k|done]. Qed.
Next Obligation. intros k _. exists (toy_point k). split; [by destruct k|done]. Qed.
Next Obligation. intros k. exists k. split; [|done]. destruct k; vm_compute; reflexivity. Qed.
Next Obligation. intros k _. destruct k; vm_compute; reflexivity. Qed.
Next Obligation.
  intros k k' d s [= <-] Hi. simpl. apply app_inv_head in Hi.
  assert (k = k') as -> by (destruct k, k'; done). by rewrite bool_decide_eq_true_2.
Qed.

Lemma curve_sign_verify_witness :
  ∃ k', fromPublic (toPublic (K := ToyKeys) true) = Some k' ∧
        verify k' $"pay" (sign (K := ToyKeys) true $"pay") = true.
Proof.
  eapply (curve_sign_verify (K := ToyKeys) true $"pay"); [exact I|reflexivity|reflexivity|done].
Defined.

Lemma toPrivate_leaks_key_tail_witness :
  snd (BinData.cleanup (toPrivate (K := ToyKeys) true)) = [replicate 32 0 ++ replicate 16 1].
Proof. apply (toPrivate_leaks_key_tail (K := ToyKeys) true). exact I. Defined.

End Curve25519.

(** ** A counting random source and fixed-length digests for the witnesses *)

#[export] Instance CounterRng : Rng := {|
  rng := Z;
  RAND_bytes g n := (Some (replicate n (u8 g)), g + 1);
|}.

#[export] Instance CounterRng_laws : RngLaws CounterRng.
Proof.
  split. intros g n l g' [= <- <-]. split; [apply length_replicate|].
  apply Forall_replicate, u8_byte.
Qed.

Definition ConstRng : Rng := {|
  rng := unit;
  RAND_bytes _ n := (Some (replicate n 7), tt);
|}.

#[export] Instance ConstRng_laws : RngLaws ConstRng.
Proof.
  split. intros g n l g' [= <- <-]. split; [apply length_replicate|].
  apply Forall_replicate. unfold is_byte; lia.
Qed.

#[export] Instance ToyDigests : Digests := {|
  EVP_sha256 l := replicate 32 (u8 (foldr Z.add 0 l));
  EVP_sha3_256 l := replicate 32 (u8 (zlen l));
|}.

#[export] Instance ToyDigests_laws : DigestLaws ToyDigests.
Proof.
  split; intros; [apply length_replicate..|]. apply Forall_replicate, u8_byte.
Qed.

Lemma randInt_spec_witness :
  ∃ r g', Prng.randInt (R := CounterRng) 2 0 57 255 = Some (r, g') ∧ Z.min 0 57 ≤ r < Z.max 0 57.
Proof.
  apply (Prng.randInt_spec (R := CounterRng) 1 0 57 255); [done..|]. vm_compute. discriminate.
Defined.
