(* ===== verification/Entropy.v ===== *)
(** * Starting OpenSSL: [ossl/Initialize] and [ossl/Entropy]

    The reference count of the library, and what is mixed into its random generator: the
    memory of the stack, what the system says of itself, the time, and ten rounds that
    mean to mix in what [/dev/urandom] gives.  What the system gives and what memory that
    is not initialised holds are arguments; the cipher is a class. *)

From S2P Require Import Prelude BinData Ossl.

(** [RAND_seed], and AES-128 in CBC mode: the output for a key, an initial vector and an
    input, or nothing when it fails. *)
Class Mixer (R : Rng) := {
  RAND_seed : bytes → rng → rng;
  EVP_EncryptUpdate : bytes → bytes → bytes → option bytes;
}.

(** Only whole blocks come out, and as many as went in. *)
Class MixerLaws {R : Rng} (M : Mixer R) : Prop := {
  EncryptUpdate_length key iv l out : EVP_EncryptUpdate key iv l = Some out → length out = (length l / 16 * 16)%nat;
}.

Module Entropy.
Section Code.
Context {R : Rng} {M : Mixer R}.

(** [src/src/ossl/Prng.cpp:13-16] Prng::seed *)
Definition Prng_seed (data : bytes) (g : rng) : rng := RAND_seed data g.

(** [src/src/ossl/Entropy.cpp:20-35] osEntropy

    What is read of at most [dataLen] bytes; [None]: the device cannot be opened. *)
Definition osEntropy (urandom : option bytes) (dataLen : nat) : bytes :=
  match urandom with None => [] | Some data => take dataLen data end.

(** What one round finds: what the device gives, and what its two buffers hold before
    they are written. *)
Record round := Round { urandom : option bytes; stack_buffer : bytes; stack_enciphered : bytes }.

Definition INPUT_LEN : nat := 2048.
Definition AES_LEN : nat := 16.

(** [src/src/ossl/Entropy.cpp:42-83] osAesSeed (one round)

    The two buffers when it ends, and the random generator.  The first buffer is the
    output of the cipher and the second its input. *)
Definition aes_round (r : round) (g : rng) : bytes * bytes * rng :=
  let data := osEntropy (urandom r) INPUT_LEN in
  let len := length data in
  let buffer := data ++ drop len (stack_buffer r) in
  let enciphered := stack_enciphered r in
  if (len <? AES_LEN)%nat then (buffer, enciphered, g)
  else
    match RAND_bytes g (AES_LEN * 2)%nat with
    | (None, g) => (buffer, enciphered, g)
    | (Some key_iv, g) =>
        match EVP_EncryptUpdate (take AES_LEN key_iv) (drop AES_LEN key_iv) (take len enciphered) with
        | None => (buffer, enciphered, g)
        | Some out =>
            let buffer := out ++ drop (length out) buffer in
            if (length out <=? 0)%nat then (buffer, enciphered, g)
            else (buffer, enciphered, Prng_seed (take (length out) enciphered) g)
        end
    end.

(** [src/src/ossl/Entropy.cpp:37-86] osAesSeed *)
Definition osAesSeed (rounds : list round) (g : rng) : rng := foldl (λ g r, (aes_round r g).2) g rounds.

(** What the seeding finds: the memory of the stack, the system's description of itself
    and the time, where they can be had, and what each of the ten rounds finds. *)
Record machine := Machine {
  stack : bytes; sysinfo : option bytes; timeofday : option bytes; rounds : list round }.

(** [src/src/ossl/Entropy.cpp:88-96] stackSeed *)
Definition stackSeed (m : machine) (g : rng) : rng := Prng_seed (stack m) g.

(** [src/src/ossl/Entropy.cpp:98-106] sysInfoSeed *)
Definition sysInfoSeed (m : machine) (g : rng) : rng :=
  match sysinfo m with None => g | Some info => Prng_seed info g end.

(** [src/src/ossl/Entropy.cpp:108-116] timeSeed *)
Definition timeSeed (m : machine) (g : rng) : rng :=
  match timeofday m with None => g | Some tv => Prng_seed tv g end.

(** [src/src/ossl/Entropy.cpp:125-131] Entropy::seed *)
Definition seed (m : machine) (g : rng) : rng := osAesSeed (rounds m) (timeSeed m (sysInfoSeed m (stackSeed m g))).

(** [src/src/ossl/Initialize.cpp:19-26] Initialize::initialize

    The count of users, whether the library is up, and the random generator. *)
Definition initialize (m : machine) (s : Z * bool * rng) : Z * bool * rng :=
  let '(n, up, g) := s in
  if n =? 0 then (n + 1, true, seed m g) else (n + 1, up, g).

(** [src/src/ossl/Initialize.cpp:28-34] Initialize::cleanup *)
Definition cleanup (s : Z * bool * rng) : Z * bool * rng :=
  let '(n, up, g) := s in
  if n - 1 =? 0 then (n - 1, false, g) else (n - 1, up, g).

End Code.

Section Proofs.
Context {R : Rng} {M : Mixer R} {ML : MixerLaws M}.

(** What a round is given of the device: how much, and what its memory holds. *)
Definition same_noise (r r' : round) : Prop :=
  stack_enciphered r = stack_enciphered r' ∧ length (osEntropy (urandom r) INPUT_LEN) = length (osEntropy (urandom r') INPUT_LEN).

Lemma round_noise r r' (g : rng) : same_noise r r' → (aes_round r g).2 = (aes_round r' g).2.
Proof.
  intros [He Hl]. unfold aes_round. rewrite <- He, Hl.
  destruct (_ <? AES_LEN)%nat; [done|]. destruct (RAND_bytes g _) as [[key|] g1]; [|done].
  destruct (EVP_EncryptUpdate _ _ _) as [out|]; [|done]. by destruct (_ <=? 0)%nat.
Qed.

Lemma osEntropy_full data : length data = INPUT_LEN → osEntropy (Some data) INPUT_LEN = data.
Proof. intros H. apply take_ge. by rewrite H. Qed.

(** The random generator is never seeded with what the system's random device gives.
    Two starts that differ only in what is read of it, and read as much, seed the generator
    alike; and a round in which all goes well mixes in what happened to be on the stack. *)
Theorem urandom_unused (m m' : machine) (g : rng)
    (Hs : stack m = stack m') (Hi : sysinfo m = sysinfo m') (Ht : timeofday m = timeofday m')
    (Hr : Forall2 same_noise (rounds m) (rounds m')) :
  seed m g = seed m' g ∧
  ∀ r data key g1 g2 out, urandom r = Some data → length data = INPUT_LEN →
    length (stack_enciphered r) = INPUT_LEN → RAND_bytes g1 32 = (Some key, g2) →
    EVP_EncryptUpdate (take AES_LEN key) (drop AES_LEN key) (stack_enciphered r) = Some out →
    (aes_round r g1).2 = RAND_seed (stack_enciphered r) g2.
Proof.
  split.
  - unfold seed, osAesSeed. assert (timeSeed m (sysInfoSeed m (stackSeed m g)) = timeSeed m' (sysInfoSeed m' (stackSeed m' g))) as ->.
    { unfold timeSeed, sysInfoSeed, stackSeed. by rewrite Hs, Hi, Ht. }
    generalize (timeSeed m' (sysInfoSeed m' (stackSeed m' g))). induction Hr as [|r r' l l' Hh _ IH]; intros g0; [done|]. simpl. by rewrite (round_noise r r' g0 Hh), IH.
  - intros r data key g1 g2 out Hu Hd Hl Hk Hc. unfold aes_round. rewrite Hu, osEntropy_full, Hd by done. cbv zeta.
    assert (Hf : take INPUT_LEN (stack_enciphered r) = stack_enciphered r) by (apply take_ge; lia).
    replace (INPUT_LEN <? AES_LEN)%nat with false by done. change (AES_LEN * 2)%nat with 32%nat. rewrite Hk, Hf, Hc.
    assert (length out = INPUT_LEN) as -> by (apply EncryptUpdate_length in Hc; by rewrite Hc, Hl).
    replace (INPUT_LEN <=? 0)%nat with false by done. cbn [snd]. by rewrite Hf.
Qed.

(** The users of the library, one entry for each call: [true] to start, [false] to end. *)
Fixpoint users (m : machine) (l : list bool) (s : Z * bool * rng) : Z * bool * rng :=
  match l with [] => s | b :: l => users m l (if b then initialize m s else cleanup s) end.

Fixpoint balance (n : Z) (l : list bool) : option Z :=
  match l with
  | [] => Some n
  | true :: l => balance (n + 1) l
  | false :: l => if n =? 0 then None else balance (n - 1) l
  end.

Lemma users_from m l k (g : rng) n :
  0 ≤ k → balance k l = Some n → ∃ g', users m l (k, bool_decide (0 < k), g) = (n, bool_decide (0 < n), g') ∧ 0 ≤ n.
Proof.
  revert k g. induction l as [|[] l IH]; intros k g Hk; simpl.
  - intros [= <-]. by exists g.
  - intros H. destruct (Z.eqb_spec k 0) as [->|Hne]; [by apply (IH 1)|]. rewrite (bool_decide_eq_true_2 (0 < k)) by lia.
    rewrite <- (bool_decide_eq_true_2 (0 < k + 1)) by lia. apply IH; [lia|done].
  - destruct (Z.eqb_spec k 0) as [|Hne]; [done|]. intros H. rewrite (bool_decide_eq_true_2 (0 < k)) by lia.
    destruct (Z.eqb_spec (k - 1) 0) as [He|Hne'].
    + rewrite He in *. by apply (IH 0).
    + rewrite <- (bool_decide_eq_true_2 (0 < k - 1)) by lia. apply IH; [lia|done].
Qed.

(** While nobody ends what they have not started, the library is up just when it has users. *)
Theorem users_up m l (g : rng) n :
  balance 0 l = Some n → ∃ g', users m l (0, false, g) = (n, bool_decide (0 < n), g') ∧ 0 ≤ n.
Proof. by apply (users_from m l 0 g n). Qed.

End Proofs.

(** ** A generator that keeps what it is given *)

#[local] Instance Keeping : Rng := {| rng := list bytes; RAND_bytes g n := (Some (replicate n 7), g) |}.
#[local] Instance Identity : Mixer Keeping := {|
  RAND_seed l g := g ++ [l]; EVP_EncryptUpdate _ _ l := Some (take (length l / 16 * 16) l) |}.
#[local] Instance Identity_laws : MixerLaws Identity.
Proof. split. intros key iv l out. intros H. assert (out = take (length l / 16 * 16)%nat l) as -> by (symmetry in H; by inversion H). rewrite length_take, Nat.min_l; [done|]. rewrite Nat.mul_comm. apply Nat.Div0.mul_div_le. Qed.

Definition found (b : Z) : machine :=
  Machine [1; 2] (Some [3]) None (replicate 10 (Round (Some (replicate 40 b)) (replicate 2048 5) (replicate 2048 6))).

Lemma urandom_unused_witness :
  seed (found 8) [] = seed (found 9) [] ∧ seed (found 9) [] = [[1; 2]; [3]] ++ replicate 10 (replicate 32 6).
Proof.
  split; [|by vm_compute]. apply (urandom_unused (found 8) (found 9)); try done.
  apply Forall2_replicate. by split.
Defined.

Lemma users_up_witness : (users (found 8) [true; true; false] (0, false, ([] : @rng Keeping))).1 = (1, true).
Proof. destruct (users_up (found 8) [true; true; false] ([] : @rng Keeping) 1 eq_refl) as (g & -> & _). done. Defined.

End Entropy.
