(* ===== verification/Text.v ===== *)
(** * Text forms of binary data and block names

    [utils/Hex], the Postgres literals of [db/Binary], and the file names of
    serialised blocks in [alg/BlockFilename]. *)

From S2P Require Import Prelude BinData.

Module Hex.

(** [src/src/utils/Hex.cpp:8-13] toChar *)
Definition toChar (uc : Z) : Z :=
  if uc <? 10 then u8 (chr "0" + uc) else u8 (chr "A" + uc - 10).

(** [src/src/utils/Hex.cpp:17-30] Hex::encode

    Positions [2i] and [2i + 1] of the result come from byte [i]. *)
Definition encode (binary : bytes) : cstr :=
  binary ≫= λ b, [toChar (Z.shiftr b 4); toChar (Z.land b 0x0F)].

(** Value of an upper-case hexadecimal digit. *)
Definition digit_of (c : Z) : Z := if c <? chr "A" then c - chr "0" else c - chr "A" + 10.

Fixpoint decode (s : cstr) : bytes :=
  match s with
  | a :: b :: s => digit_of a * 16 + digit_of b :: decode s
  | _ => []
  end.

Definition is_hex (c : Z) : Prop := is_dec c ∨ chr "A" ≤ c ≤ chr "F".

Lemma toChar_spec v : 0 ≤ v < 16 → digit_of (toChar v) = v ∧ is_hex (toChar v).
Proof.
  intros Hv. unfold digit_of, toChar, is_hex, is_dec, chr, lit; simpl.
  destruct (Z.ltb_spec v 10); rewrite !wrap_small by (unfold is_u; lia);
    ztest; (split; [|try (left; lia); right]); lia.
Qed.

(** The hexadecimal form of a byte string is two upper-case digits per byte
    and determines the byte string: reading the digits back restores it. *)
Theorem hex_roundtrip (l : bytes) :
  bytes_ok l → decode (encode l) = l ∧ zlen (encode l) = 2 * zlen l ∧ Forall is_hex (encode l).
Proof.
  induction 1 as [|b l Hb Hl (IH1 & IH2 & IH3)]; [done|].
  unfold encode in *. cbn [mbind list_bind] in *. simpl app. cbn [decode length].
  assert (H1 : Z.shiftr b 4 = b / 16) by (rewrite Z.shiftr_div_pow2; done).
  assert (H2 : Z.land b 15 = b mod 16) by (change 15 with (Z.ones 4); rewrite Z.land_ones; done).
  unfold is_byte in Hb. rewrite H1, H2.
  destruct (toChar_spec (b / 16)) as [-> ?]; [dlia|].
  destruct (toChar_spec (b mod 16)) as [-> ?]; [dlia|].
  split_and!; [|lia|by repeat (constructor; [done|])]. rewrite IH1. f_equal. dlia.
Qed.

Lemma hex_roundtrip_witness : decode (encode [222; 173; 0]) = [222; 173; 0].
Proof. apply hex_roundtrip. repeat constructor; unfold is_byte; lia. Defined.

End Hex.

Module Binary.

(** [src/src/db/Binary.cpp:9-12] isBinary *)
Definition isBinary (uc : Z) : bool :=
  (uc <? 0x20) || (0x7E <? uc) || (uc =? 39) || (uc =? 92).

(** [src/src/db/Binary.cpp:39-43] Binary::encode (snprintf of a binary byte)

    Two backslashes and three octal digits, cut to a 6-byte buffer. *)
Definition escape (uc : Z) : cstr :=
  take 5 ([92; 92] ++ [48 + uc / 64; 48 + uc / 8 mod 8; 48 + uc mod 8]).

(** [src/src/db/Binary.cpp:36-46] Binary::encode (byte loop) *)
Definition body (data : bytes) : cstr :=
  data ≫= λ uc, if negb (isBinary uc) then [uc] else escape uc.

(** [src/src/db/Binary.cpp:26-30] Binary::encode (reserved length) *)
Definition encodedLen (data : bytes) : Z :=
  9 + zlen data + zlen (filter (λ uc, isBinary uc = true) data) * 4.

(** [src/src/db/Binary.cpp:22-51] Binary::encode *)
Definition encode (data : bytes) : cstr := $"'" ++ body data ++ $"'::bytea".

(** Reading an escaped body back. *)
Fixpoint unescape (s : cstr) : bytes :=
  match s with
  | [] => []
  | 92 :: 92 :: a :: b :: c :: s => (a - 48) * 64 + (b - 48) * 8 + (c - 48) :: unescape s
  | c :: s => c :: unescape s
  end.

Lemma isBinary_false uc :
  isBinary uc = false → 0x20 ≤ uc ≤ 0x7E ∧ uc ≠ 39 ∧ uc ≠ 92.
Proof. unfold isBinary. intros. zbool. lia. Qed.

Lemma unescape_plain c s : c ≠ 92 → unescape (c :: s) = c :: unescape s.
Proof.
  intros Hc. destruct c as [|p|p]; try done. do 7 (destruct p as [p|p|]; try done).
Qed.

Lemma body_cons uc l : body (uc :: l) = (if negb (isBinary uc) then [uc] else escape uc) ++ body l.
Proof. done. Qed.

(** The literal built for a bytea column is a single quoted token whatever
    the data: the text between the quotes holds only printable characters and no
    quote, its length is exactly the reserved one, and the escapes determine the
    data. *)
Theorem binary_encode_safe (l : bytes) :
  bytes_ok l →
  encode l = $"'" ++ body l ++ $"'::bytea" ∧
  Forall (λ c, 0x20 ≤ c ≤ 0x7E ∧ c ≠ 39) (body l) ∧
  zlen (encode l) = encodedLen l ∧
  unescape (body l) = l.
Proof.
  intros Hl. split; [done|].
  assert (H : Forall (λ c, 0x20 ≤ c ≤ 0x7E ∧ c ≠ 39) (body l) ∧
    zlen (body l) = encodedLen l - 9 ∧ unescape (body l) = l).
  { induction Hl as [|uc l Hb Hl (IH1 & IH2 & IH3)]; [done|]. rewrite body_cons.
    unfold encodedLen, is_byte in *. rewrite filter_cons.
    destruct (isBinary uc) eqn:E; simpl negb; cbv iota.
    - rewrite decide_True by done. unfold escape. simpl app. simpl take. simpl app.
      split_and!; [|simpl in *; lia|cbn [unescape]; rewrite IH3; f_equal; dlia].
      repeat (constructor; [dlia|]). done.
    - rewrite decide_False by done. apply isBinary_false in E as ([? ?] & ? & ?). simpl app.
      split_and!; [by constructor|simpl in *; lia|by rewrite unescape_plain, IH3]. }
  destruct H as (H1 & H2 & H3). split_and!; [done| |done].
  unfold encode. rewrite !length_app, !lit_length. simpl. lia.
Qed.

Lemma binary_encode_safe_witness : unescape (body [39; 65; 0; 92; 255]) = [39; 65; 0; 92; 255].
Proof. apply binary_encode_safe. repeat constructor; unfold is_byte; lia. Defined.

End Binary.

Module BlockFilename.

(** [src/src/alg/BlockFilename.cpp:9-15] BlockFilename::get *)
Definition get (reconciliation shard block : Z) : cstr :=
  dec_pad 8 reconciliation ++ $"-" ++ dec_pad 4 shard ++ $"-" ++ dec_pad 4 block ++ $".der".

(** The digit at position [i] of a C string, as the subtraction computes it. *)
Definition at_digit (p : cstr) (i : nat) : Z := nth i p 0 - chr "0".

(** [src/src/alg/BlockFilename.cpp:20-32] from8 *)
Definition from8 (p : cstr) : Z :=
  u32 (u32 (at_digit p 0 * 10000000) + u32 (at_digit p 1 * 1000000) +
       u32 (at_digit p 2 * 100000) + u32 (at_digit p 3 * 10000) +
       u32 (at_digit p 4 * 1000) + u32 (at_digit p 5 * 100) +
       u32 (at_digit p 6 * 10) + u32 (at_digit p 7 * 1)).

(** [src/src/alg/BlockFilename.cpp:34-42] from4 *)
Definition from4 (p : cstr) : Z :=
  u32 (u32 (at_digit p 0 * 1000) + u32 (at_digit p 1 * 100) +
       u32 (at_digit p 2 * 10) + u32 (at_digit p 3 * 1)).

(** [src/src/alg/BlockFilename.cpp:60-72] BlockFilename::parse (character loop) *)
Definition char_ok (ui : nat) (c : Z) : bool :=
  if (ui =? 8)%nat || (ui =? 13)%nat then c =? chr "-"
  else negb ((c <? chr "0") || (chr "9" <? c)).

(** [src/src/alg/BlockFilename.cpp:46-79] BlockFilename::parse *)
Definition parse (str : cstr) : option (Z * Z * Z) :=
  if negb (zlen str =? 22) then None
  else if bool_decide (str_find $".der" str (length str - 4) = None) then None
  else if forallb (λ ui, char_ok ui (nth ui str 0)) (seq 0 (length str - 4)) then
    Some (from8 str, from4 (drop 9 str), from4 (drop 14 str))
  else None.

Lemma from8_val t r : length t = 8%nat → Forall is_dec t → from8 (t ++ r) = dec_val t.
Proof.
  intros Hl Ht. do 9 (destruct t as [|? t]; try done).
  unfold is_dec in Ht. decompose_Forall_hyps. unfold from8, at_digit, dec_val, chr, lit. simpl.
  rewrite !(wrap_small 32) by (unfold is_u; rewrite ?(wrap_small 32) by (unfold is_u; lia); lia).
  lia.
Qed.

Lemma from4_val t r : length t = 4%nat → Forall is_dec t → from4 (t ++ r) = dec_val t.
Proof.
  intros Hl Ht. do 5 (destruct t as [|? t]; try done).
  unfold is_dec in Ht. decompose_Forall_hyps. unfold from4, at_digit, dec_val, chr, lit. simpl.
  rewrite !(wrap_small 32) by (unfold is_u; rewrite ?(wrap_small 32) by (unfold is_u; lia); lia).
  lia.
Qed.

(** The shape of an accepted name. *)
Definition shaped (a b c : cstr) : cstr := a ++ $"-" ++ b ++ $"-" ++ c ++ $".der".

Definition digits_of (w : nat) (t : cstr) : Prop := length t = w ∧ Forall is_dec t.

Lemma shaped_parse a b c :
  digits_of 8 a → digits_of 4 b → digits_of 4 c →
  parse (shaped a b c) = Some (dec_val a, dec_val b, dec_val c).
Proof.
  intros [Ha Fa] [Hb Fb] [Hc Fc]. unfold parse, shaped.
  assert (Hlen : length (a ++ $"-" ++ b ++ $"-" ++ c ++ $".der") = 22%nat)
    by (rewrite !length_app, Ha, Hb, Hc; done).
  rewrite Hlen. change (negb (Z.of_nat 22 =? 22)) with false. cbv iota.
  replace (22 - 4)%nat with 18%nat by done.
  rewrite bool_decide_eq_false_2; cycle 1.
  { unfold str_find. rewrite Hlen. simpl Nat.ltb. cbv iota.
    rewrite !app_assoc, drop_app_length' by (rewrite !length_app, Ha, Hb, Hc; done).
    by rewrite find_from_exact. }
  rewrite from8_val by done.
  replace (drop 9 _) with (b ++ $"-" ++ c ++ $".der").
  2: { symmetry. rewrite app_assoc. apply drop_app_length'. by rewrite length_app, Ha. }
  replace (drop 14 _) with (c ++ $".der").
  2: { symmetry. rewrite !(app_assoc _ _ (c ++ _)), !app_assoc, <- app_assoc.
       apply drop_app_length'. by rewrite !length_app, Ha, Hb. }
  rewrite !from4_val by done.
  rewrite (proj2 (forallb_forall _ _)); [done|].
  do 9 (destruct a as [|? a]; try done). do 5 (destruct b as [|? b]; try done).
  do 5 (destruct c as [|? c]; try done). clear -Fa Fb Fc. unfold is_dec in *.
  decompose_Forall_hyps. intros x Hx. simpl in Hx.
  repeat (destruct Hx as [<-|Hx]; [unfold char_ok, chr, lit; simpl; ztest; simpl; (lia || done)|]).
  done.
Qed.

Lemma parse_shaped s r sh bl :
  parse s = Some (r, sh, bl) →
  ∃ a b c, digits_of 8 a ∧ digits_of 4 b ∧ digits_of 4 c ∧ s = shaped a b c.
Proof.
  unfold parse. destruct (Z.eqb_spec (zlen s) 22) as [Hl|]; [|done]. simpl negb. cbv iota.
  assert (Hlen : length s = 22%nat) by lia. rewrite Hlen. simpl (22 - 4)%nat.
  case_bool_decide as Hf; [done|]. destruct (forallb _ _) eqn:Hc; [|done]. intros _.
  unfold str_find in Hf. rewrite Hlen in Hf. simpl Nat.ltb in Hf. cbv iota in Hf.
  rewrite find_from_exact in Hf by (done || rewrite length_drop, Hlen; done).
  case_bool_decide as Hd; [|done]. clear Hf.
  rewrite forallb_forall in Hc.
  assert (Hdig : ∀ i, (i < 18)%nat → i ≠ 8%nat → i ≠ 13%nat → is_dec (nth i s 0)).
  { intros i Hi H8 H13. specialize (Hc i ltac:(apply in_seq; lia)). unfold char_ok in Hc.
    rewrite (proj2 (Nat.eqb_neq i 8)), (proj2 (Nat.eqb_neq i 13)) in Hc by done. simpl in Hc.
    unfold chr, lit in Hc. simpl in Hc. zbool. unfold is_dec. lia. }
  assert (Hsep : ∀ i, i = 8%nat ∨ i = 13%nat → nth i s 0 = 45).
  { intros i Hi. specialize (Hc i ltac:(apply in_seq; lia)). unfold char_ok in Hc.
    destruct Hi as [-> | ->]; simpl in Hc; by zbool. }
  exists (take 8 s), (take 4 (drop 9 s)), (take 4 (drop 14 s)).
  split_and!; [split; [rewrite length_take, ?length_drop; lia|]..|].
  - apply (Forall_slice _ s 0); [lia|]. intros; apply Hdig; lia.
  - apply Forall_slice; [lia|]. intros; apply Hdig; lia.
  - apply Forall_slice; [lia|]. intros; apply Hdig; lia.
  - pose proof (Hsep 8%nat ltac:(lia)). pose proof (Hsep 13%nat ltac:(lia)). clear -Hlen Hd H H0.
    do 22 (destruct s as [|? s]; [done|]). destruct s; [|done]. change ($".der") with [46; 100; 101; 114] in Hd.
    simpl in *. by simplify_eq.
Qed.

Lemma parse_get (r sh bl : Z) :
  0 ≤ r < 10 ^ 8 → 0 ≤ sh < 10 ^ 4 → 0 ≤ bl < 10 ^ 4 → parse (get r sh bl) = Some (r, sh, bl).
Proof.
  intros Hr Hs Hb. assert (Hpad : ∀ w n, (0 < w)%nat → 0 ≤ n < 10 ^ Z.of_nat w → digits_of w (dec_pad w n)).
  { intros w n Hw Hn. split; [by apply dec_pad_length|apply dec_pad_ok; lia]. }
  change (get r sh bl) with (shaped (dec_pad 8 r) (dec_pad 4 sh) (dec_pad 4 bl)).
  rewrite shaped_parse by (apply Hpad; lia). by rewrite !dec_val_pad by lia.
Qed.

(** Block file names and block numbers are in bijection: parse accepts a name
    exactly when it is the one get builds for a reconciliation below 10^8 and a
    shard and block below 10^4, and returns those three numbers. *)
Theorem block_filename_bijection (s : cstr) (r sh bl : Z) :
  parse s = Some (r, sh, bl) ↔
  s = get r sh bl ∧ 0 ≤ r < 10 ^ 8 ∧ 0 ≤ sh < 10 ^ 4 ∧ 0 ≤ bl < 10 ^ 4.
Proof.
  split.
  - intros Hp. destruct (parse_shaped _ _ _ _ Hp) as (a & b & c & Ha & Hb & Hc & ->).
    rewrite shaped_parse in Hp by done. simplify_eq.
    destruct Ha as [Ha Fa], Hb as [Hb Fb], Hc as [Hc Fc].
    pose proof (dec_val_bound a Fa). pose proof (dec_val_bound b Fb).
    pose proof (dec_val_bound c Fc). rewrite Ha, Hb, Hc in *.
    split_and!; [|lia..]. unfold get, shaped.
    assert (Hv : ∀ w t, (0 < w)%nat → length t = w → Forall is_dec t → dec_pad w (dec_val t) = t).
    { intros w t Hw <- Ft. apply dec_pad_val; [by intros ->; simpl in Hw; lia|done]. }
    by rewrite !Hv by (done || lia).
  - intros (-> & Hr & Hs & Hb). by apply parse_get.
Qed.

End BlockFilename.
