(* ===== verification/AlgAddress.v ===== *)
(** * Wallet addresses and peer keys: [alg/Address] and [alg/PeerAuth]

    An address is a six-byte salt followed by twenty bytes of
    SHA2-256(salt | SHA3-256(salt | public key)).  Byte buffers are used
    through the byte strings they stand for, which [BinData] implements. *)

From S2P Require Import Prelude BinData Base64 Base58 Ossl.

Module AlgAddress.

(** [src/src/alg/Address.h:17-17] Address::LENGTH *)
Definition LENGTH : nat := 26.

(** [src/src/alg/Address.h:18-18] Address::SALT_LENGTH *)
Definition SALT_LENGTH : nat := 6.

(** [src/src/alg/Address.cpp:19-19] ENCODED_SALT_LENGTH *)
Definition ENCODED_SALT_LENGTH : nat := 8.

Section Code.
Context {R : Rng} {D : Digests} {K : EvpKeys} {B : BigNum}.

(** [src/src/alg/Address.cpp:28-29] Address::generate (random characters)

    [fuel] bounds the draws of each [randInt]. *)
Fixpoint rand_chars (fuel n : nat) (g : rng) : option (cstr * rng) :=
  match n with
  | O => Some ([], g)
  | S n =>
      match Prng.randInt fuel 0 57 g with
      | None => None
      | Some (v, g1) =>
          match rand_chars fuel n g1 with
          | None => None
          | Some (cs, g2) => Some (Base58.valToChar (u8 v) :: cs, g2)
          end
      end
  end.

(** [src/src/alg/Address.cpp:56-99] Address::generate(const EVP_PKEY &, const BinData &) *)
Definition generate_salt (key : EVP_PKEY) (salt : bytes) (g : rng) : bytes * rng :=
  let '(paddedSalt, g) :=
    if (SALT_LENGTH <? length salt)%nat then (take SALT_LENGTH salt, g)
    else if (length salt <? SALT_LENGTH)%nat then
      let '(r, g') := Prng.rand (SALT_LENGTH - length salt) g in (salt ++ r, g')
    else (salt, g) in
  let publicKey := Curve25519.toPublic key in
  let sha3 := Hash.sha3_256 (paddedSalt ++ publicKey) in
  let sha2 := Hash.sha2_256 (paddedSalt ++ sha3) in
  (paddedSalt ++ take 20 sha2, g).

(** [src/src/alg/Address.cpp:39-54] Address::generate(const EVP_PKEY &, const std::string &) *)
Definition generate_text (fuel : nat) (key : EVP_PKEY) (printableSalt : cstr) (g : rng)
  : option (bytes * rng) :=
  let over := Z.land (zlen printableSalt) 3 in
  match (if negb (over =? 0) then rand_chars fuel (Z.to_nat (4 - over)) g else Some ([], g)) with
  | None => None
  | Some (r, g') => Some (generate_salt key (Base64.decode (printableSalt ++ r)) g')
  end.

(** [src/src/alg/Address.cpp:23-32] Address::generate(const EVP_PKEY &) *)
Definition generate (fuel : nat) (key : EVP_PKEY) (g : rng) : option (bytes * rng) :=
  match rand_chars fuel ENCODED_SALT_LENGTH g with
  | None => None
  | Some (salt, g') => generate_text fuel key salt g'
  end.

(** [src/src/alg/Address.cpp:101-112] Address::verify(const BinData &, const EVP_PKEY &) *)
Definition verify (address : bytes) (key : EVP_PKEY) (g : rng) : bool :=
  if negb (length address =? LENGTH)%nat then false
  else
    let salt := take SALT_LENGTH address in
    let newAddress := fst (generate_salt key salt g) in
    bool_decide (address = newAddress).

(** [src/src/alg/Address.cpp:129-137] Address::unprintable *)
Definition unprintable (address : cstr) : bytes :=
  let ret := Base64.decode (take (ENCODED_SALT_LENGTH `min` length address) address) in
  if (ENCODED_SALT_LENGTH <? length address)%nat
  then ret ++ Base58.decode (drop ENCODED_SALT_LENGTH address)
  else ret.

(** [src/src/alg/Address.cpp:119-127] Address::printable *)
Definition printable (address : bytes) : cstr :=
  let ret := Base64.encode (take (SALT_LENGTH `min` length address) address) in
  if (SALT_LENGTH <? length address)%nat
  then ret ++ Base58.encode (drop SALT_LENGTH address)
  else ret.

(** [src/src/alg/Address.cpp:114-117] Address::verify(const std::string &, const EVP_PKEY &) *)
Definition verify_text (address : cstr) (key : EVP_PKEY) (g : rng) : bool :=
  verify (unprintable address) key g.
End Code.

Section Proofs.
Context {R : Rng} {RL : RngLaws R} {D : Digests} {DL : DigestLaws D} {K : EvpKeys}.
Context {B : BigNum} {BL : BigNumLaws B}.

(** The address is a function of its salt and the key. *)
Definition address_of (key : EVP_PKEY) (salt : bytes) : bytes :=
  salt ++ take 20 (Hash.sha2_256 (salt ++ Hash.sha3_256 (salt ++ Curve25519.toPublic key))).

Lemma generate_salt_inv key salt g a g' :
  generate_salt key salt g = (a, g') →
  ∃ s, length s = SALT_LENGTH ∧ a = address_of key s ∧ (bytes_ok salt → bytes_ok s).
Proof.
  unfold generate_salt, SALT_LENGTH. destruct (Nat.ltb_spec 6 (length salt)).
  - intros; simplify_eq. exists (take 6 salt). rewrite length_take. split_and!; [lia|done|].
    by apply Forall_take.
  - destruct (Nat.ltb_spec (length salt) 6); [|intros; simplify_eq; exists salt; split_and!; done || lia].
    destruct (Prng.rand _ g) as [r g1] eqn:E. intros; simplify_eq.
    apply Prng.rand_ok in E as [El Eok]. exists (salt ++ r). rewrite length_app.
    split_and!; [lia|done|]. intros ?. by apply Forall_app.
Qed.

Lemma generate_salt_exact key s g :
  length s = SALT_LENGTH → generate_salt key s g = (address_of key s, g).
Proof. intros Hs. unfold generate_salt. by rewrite Hs. Qed.

Lemma address_of_length key s : length s = SALT_LENGTH → length (address_of key s) = LENGTH.
Proof.
  intros Hs. unfold address_of. rewrite length_app, length_take, Hash.sha2_256_length, Hs. done.
Qed.

Lemma verify_address_of key s g :
  length s = SALT_LENGTH → verify (address_of key s) key g = true.
Proof.
  intros Hs. unfold verify. rewrite address_of_length by done. simpl.
  assert (take SALT_LENGTH (address_of key s) = s) as -> by by apply take_app_length'.
  rewrite generate_salt_exact by done. by apply bool_decide_eq_true_2.
Qed.

(** Whatever salt it is given (too short, too long or exact), the generated
    address has 26 bytes and verifies against the key it was generated for, from
    any later state of the random source. *)
Theorem address_generate_verify (key : EVP_PKEY) (salt : bytes) (g g2 : rng) :
  length (fst (generate_salt key salt g)) = LENGTH ∧
  verify (fst (generate_salt key salt g)) key g2 = true.
Proof.
  destruct (generate_salt key salt g) as [a g'] eqn:E.
  apply generate_salt_inv in E as (s & Hs & -> & _). simpl.
  split; [by apply address_of_length|by apply verify_address_of].
Qed.

Lemma verify_inv a key g :
  verify a key g = true → length a = LENGTH ∧ a = address_of key (take SALT_LENGTH a).
Proof.
  unfold verify. destruct (Nat.eqb_spec (length a) LENGTH) as [Hl|]; [|done]. simpl.
  rewrite generate_salt_exact by (rewrite length_take, Hl; done).
  by intros H%bool_decide_eq_true_1.
Qed.

(** Verification ties an address to the key's public point: an address that
    verifies for a key verifies for exactly the keys whose salted hash agrees with
    its last twenty bytes, in particular for every key with the same public point. *)
Theorem address_verify_characterised (a : bytes) (k1 k2 : EVP_PKEY) (g1 g2 : rng) :
  verify a k1 g1 = true →
  verify a k2 g2 = true ↔
    address_of k1 (take SALT_LENGTH a) = address_of k2 (take SALT_LENGTH a).
Proof.
  intros [Hl Ha]%verify_inv. split.
  - intros [_ Ha2]%verify_inv. congruence.
  - intros Heq. rewrite Ha, Heq. apply verify_address_of. rewrite length_take, Hl. done.
Qed.

Lemma unprintable_printable (a : bytes) : bytes_ok a → unprintable (printable a) = a.
Proof.
  intros Ha. unfold printable, unprintable, SALT_LENGTH, ENCODED_SALT_LENGTH.
  destruct (Nat.ltb_spec 6 (length a)) as [Hlong|Hshort].
  - assert (Hs : bytes_ok (take 6 a)) by by apply Forall_take.
    assert (Hr : bytes_ok (drop 6 a)) by by apply Forall_drop.
    rewrite Nat.min_l by lia.
    assert (Hl8 : length (Base64.encode (take 6 a)) = 8%nat).
    { pose proof (Base64.encode_length _ Hs) as Hl. rewrite length_take, Nat.min_l in Hl by lia.
      change ((4 * Z.of_nat 6 + 2) `div` 3) with 8 in Hl. lia. }
    rewrite length_app, Hl8. rewrite Nat.min_l by lia.
    rewrite take_app_length', drop_app_length' by done.
    rewrite Base64.decode_encode64 by done. destruct (Nat.ltb_spec 8 (8 + length (Base58.encode (drop 6 a)))).
    + by rewrite Base58.decode_encode58, take_drop by done.
    + assert (Hnil : Base58.encode (drop 6 a) = []) by (apply length_zero_iff_nil; lia).
      pose proof (Base58.decode_encode58 _ Hr) as Hrt. rewrite Hnil in Hrt.
      rewrite Base58.decode_nil in Hrt. apply (f_equal length) in Hrt.
      rewrite length_drop in Hrt. simpl in Hrt. lia.
  - rewrite Nat.min_r, take_ge by lia.
    assert (length (Base64.encode a) ≤ 8)%nat.
    { pose proof (Base64.encode_length _ Ha). dlia. }
    rewrite Nat.min_r, take_ge by lia. rewrite (proj2 (Nat.ltb_ge 8 _)) by done.
    by apply Base64.decode_encode64.
Qed.

(** Reading an address gives bytes, whatever the text. *)
Lemma unprintable_bytes s : bytes_ok (unprintable s).
Proof.
  unfold unprintable. destruct (_ <? _)%nat; [|apply Base64.decode_bytes_ok].
  apply Forall_app. split; [apply Base64.decode_bytes_ok|apply Base58.decode_bytes_ok58].
Qed.

(** The printable form of an address (Base64 salt, Base58 hash) reads back to
    the address it was made from; this holds for byte strings of every length. *)
Theorem address_printable_roundtrip (a : bytes) : bytes_ok a → unprintable (printable a) = a.
Proof. apply unprintable_printable. Qed.

(** Among any [fuel] consecutive draws of every [randInt(0, 57)], one is accepted. *)
Definition rng_live (fuel : nat) : Prop :=
  ∀ g, ∃ k, (k < fuel)%nat ∧ Prng.word k 0 g ≤ Prng.UINT_MAX / 2.

Lemma draw_mono fuel fuel' maxNum ret g r :
  (fuel ≤ fuel')%nat → Prng.draw fuel maxNum ret g = Some r → Prng.draw fuel' maxNum ret g = Some r.
Proof.
  revert fuel' ret g. induction fuel as [|fuel IH]; intros [|fuel'] ret g Hle; try done; [lia|].
  cbn [Prng.draw]. destruct (Prng.rand_into _ _) as [mem g1]. destruct (_ <? _); [|done].
  apply IH. lia.
Qed.

Lemma randInt_live fuel g :
  rng_live fuel → ∃ r g', Prng.randInt fuel 0 57 g = Some (r, g') ∧ 0 ≤ r < 57.
Proof.
  intros Hlive. destruct (Hlive g) as (k & Hk & Hw).
  pose proof (Prng.max_num_half 57 ltac:(unfold Prng.UINT_MAX; lia)).
  destruct (Prng.draw_live k (Prng.max_num 57) 0 g ltac:(lia)) as (w & g' & Hd).
  apply (draw_mono _ fuel) in Hd; [|lia].
  assert (Hr : Prng.randInt fuel 0 57 g = Some (u32 (w mod 57 + 0), g')).
  { unfold Prng.randInt. change (0 =? 57) with false. change (57 <? 0) with false.
    cbv iota beta zeta. change (57 - 0) with 57. by rewrite Hd. }
  do 2 eexists. split; [exact Hr|].
  apply Prng.randInt_range in Hr; [lia|done..].
Qed.

Lemma rand_chars_live fuel n g :
  rng_live fuel →
  ∃ cs g', rand_chars fuel n g = Some (cs, g') ∧ length cs = n ∧
           Forall (λ c, ∃ v, 0 ≤ v < 57 ∧ c = Base58.valToChar v) cs.
Proof.
  intros Hlive. revert g. induction n as [|n IH]; intros g; [by exists [], g|].
  cbn [rand_chars]. destruct (randInt_live fuel g Hlive) as (v & g1 & -> & Hv).
  destruct (IH g1) as (cs & g2 & -> & Hl & Hc). do 2 eexists. split_and!; [done|by simpl; f_equal|].
  constructor; [|done]. exists v. split; [done|]. by rewrite wrap_small by (unfold is_u; lia).
Qed.

(** Generating an address with a random salt always returns, for every random
    source that keeps yielding acceptable words: the result has 26 bytes, verifies
    for the key, and its printable form verifies as well. *)
Theorem address_generate_total (fuel : nat) (key : EVP_PKEY) (g g2 : rng) :
  rng_live fuel →
  ∃ a g', generate fuel key g = Some (a, g') ∧ length a = LENGTH ∧
          verify a key g2 = true ∧ verify_text (printable a) key g2 = true.
Proof.
  intros Hlive. unfold generate.
  destruct (rand_chars_live fuel ENCODED_SALT_LENGTH g Hlive) as (cs & g1 & -> & Hl & _).
  unfold generate_text. rewrite Hl. simpl.
  destruct (generate_salt _ _ g1) as [a g'] eqn:E. exists a, g'.
  apply generate_salt_inv in E as (s & Hs & -> & Hok).
  split_and!; [done|by apply address_of_length|by apply verify_address_of|].
  unfold verify_text. rewrite unprintable_printable; [by apply verify_address_of|].
  apply Forall_app. split; [apply Hok, Base64.decode_bytes_ok|].
  apply Forall_take, Hash.sha2_256_ok.
Qed.

(** The characters of a randomly generated salt never include the letter z:
    randInt(0, 57) excludes its upper bound, so the last of the 58 digits is never
    drawn. *)
Theorem salt_never_z (fuel n : nat) (g : rng) (cs : cstr) (g' : rng) :
  rng_live fuel → rand_chars fuel n g = Some (cs, g') → ((chr "z") ∉ cs) ∧ length cs = n.
Proof.
  intros Hlive Hr. destruct (rand_chars_live fuel n g Hlive) as (cs' & g1 & Hr' & Hl & Hc).
  rewrite Hr in Hr'. simplify_eq. split; [|done]. intros Hz.
  rewrite Forall_forall in Hc. destruct (Hc _ Hz) as (v & Hv & He).
  assert (Hv57 : Base58.charToVal (Base58.valToChar v) = v) by (apply Base58.valToChar_spec; lia).
  rewrite <- He in Hv57. vm_compute in Hv57. lia.
Qed.
End Proofs.

(** ** Witnesses, with toy primitives *)

#[local] Existing Instances Curve25519.ToyKeys Curve25519.ToyKeys_laws.
#[local] Existing Instances Base58.BigNumZ Base58.BigNumZ_laws.

Lemma address_generate_verify_witness :
  length (fst (generate_salt (R := CounterRng) true [1; 2] 7)) = LENGTH ∧
  verify (R := CounterRng) (fst (generate_salt (R := CounterRng) true [1; 2] 7)) true 0 = true.
Proof. apply (address_generate_verify (K := Curve25519.ToyKeys) (R := CounterRng)). Defined.

Lemma address_verify_characterised_witness :
  verify (R := CounterRng) (fst (generate_salt (R := CounterRng) true [1; 2] 7)) true 3 = true.
Proof.
  apply (address_verify_characterised (K := Curve25519.ToyKeys) (R := CounterRng) _ true true 0 3); vm_compute; reflexivity.
Defined.

Lemma address_printable_roundtrip_witness :
  unprintable (B := Base58.BigNumZ) (printable (B := Base58.BigNumZ) (seqZ 100 26)) = seqZ 100 26.
Proof.
  apply (address_printable_roundtrip (B := Base58.BigNumZ)).
  apply (bool_decide_unpack _). vm_compute. exact I.
Defined.

Lemma address_generate_total_witness :
  ∃ a g', generate (R := ConstRng) 1 true tt = Some (a, g') ∧ length a = LENGTH ∧
    verify (R := ConstRng) a true tt = true ∧
    verify_text (R := ConstRng) (B := Base58.BigNumZ) (printable (B := Base58.BigNumZ) a) true tt = true.
Proof.
  apply (address_generate_total (K := Curve25519.ToyKeys) (R := ConstRng)).
  intros g. exists 0%nat. split; [lia|]. vm_compute. discriminate.
Defined.

Lemma salt_never_z_witness :
  ∃ cs, rand_chars (R := ConstRng) 1 8 tt = Some (cs, tt) ∧ ((chr "z") ∉ cs) ∧ length cs = 8%nat.
Proof.
  eexists. split; [vm_compute; reflexivity|].
  eapply (salt_never_z (R := ConstRng) 1 8 tt).
  - intros g. exists 0%nat. split; [lia|]. vm_compute. discriminate.
  - vm_compute. reflexivity.
Defined.

End AlgAddress.

(** ** Session keys between peers *)

(** Key agreement and HKDF of OpenSSL: the calls can fail, and report the
    length they need or wrote. *)
Class KeyAgreement (K : EvpKeys) := {
  EVP_PKEY_CTX_new : EVP_PKEY → bool;
  EVP_PKEY_derive_init : EVP_PKEY → bool;
  EVP_PKEY_derive_set_peer : EVP_PKEY → EVP_PKEY → bool;
  EVP_PKEY_derive_len : EVP_PKEY → EVP_PKEY → option Z;
  EVP_PKEY_derive : EVP_PKEY → EVP_PKEY → option bytes;
  (** digest name, salt, key, wanted length *)
  HKDF : cstr → bytes → bytes → Z → option bytes;
}.

(** OpenSSL documents Ed25519 for signatures only: an operation of key agreement on such a key is not
    supported, and preparing one fails. *)
Class KeyAgreementLaws (K : EvpKeys) {KL : Curve25519.EvpKeyLaws K} {A : KeyAgreement K} : Prop := {
  derive_ed k : Curve25519.is_ed k → EVP_PKEY_derive_init k = false;
}.

Module PeerAuth.

(** [src/src/alg/PeerAuth.cpp:21-21] MESSAGE_AUTH_KDF_MGF *)
Definition MESSAGE_AUTH_KDF_MGF : cstr := $"SHA256".

(** [src/src/alg/PeerAuth.cpp:24-24] MESSAGE_AUTH_KEY_LEN *)
Definition MESSAGE_AUTH_KEY_LEN : Z := 32.

Section Code.
Context {D : Digests} {K : EvpKeys} {A : KeyAgreement K}.

(** [src/src/alg/PeerAuth.cpp:28-124] PeerAuth::createMessageAuthKey

    The empty key is the failure value. *)
Definition createMessageAuthKey (priv : EVP_PKEY) (pub clientNonce serverNonce : bytes) : bytes :=
  match Curve25519.fromPublic pub with
  | None => []
  | Some peerKey =>
      if negb (EVP_PKEY_CTX_new priv) then []
      else if negb (EVP_PKEY_derive_init priv) then []
      else if negb (EVP_PKEY_derive_set_peer priv peerKey) then []
      else match EVP_PKEY_derive_len priv peerKey with
      | None => []
      | Some secretLen =>
          if secretLen =? 0 then []
          else match EVP_PKEY_derive priv peerKey with
          | None => []
          | Some sharedSecret =>
              if negb (zlen sharedSecret =? secretLen) then []
              else
                let combinedNonce := serverNonce ++ clientNonce in
                match HKDF MESSAGE_AUTH_KDF_MGF serverNonce sharedSecret MESSAGE_AUTH_KEY_LEN with
                | None => []
                | Some hmacKey =>
                    if negb (zlen hmacKey =? MESSAGE_AUTH_KEY_LEN) then [] else hmacKey
                end
          end
      end
  end.

(** [src/src/alg/PeerAuth.cpp:126-133] PeerAuth::createSessionId *)
Definition createSessionId (clientNonce serverNonce : bytes) : cstr :=
  let hash := Hash.sha2_256 (clientNonce ++ serverNonce) in
  Base64.encode (take 8 hash).
End Code.

Section Proofs.
Context {D : Digests} {DL : DigestLaws D} {K : EvpKeys} {A : KeyAgreement K}.

(** Both ends of a key agreement succeed together and get one secret. *)
Definition agree (a b a' b' : EVP_PKEY) : Prop :=
  EVP_PKEY_derive_len a b' = EVP_PKEY_derive_len b a' ∧
  EVP_PKEY_derive a b' = EVP_PKEY_derive b a'.

Definition usable (k p : EVP_PKEY) : Prop :=
  EVP_PKEY_CTX_new k = true ∧ EVP_PKEY_derive_init k = true ∧
  EVP_PKEY_derive_set_peer k p = true.

(** Two peers that hold each other's public point and run the same handshake
    derive the same message authentication key, which is empty (failure) or has
    exactly 32 bytes; the client's nonce does not enter it, only the server's. *)
Theorem peer_keys_agree (a b a' b' : EVP_PKEY) (cn cn' sn : bytes) :
  Curve25519.fromPublic (Curve25519.toPublic a) = Some a' →
  Curve25519.fromPublic (Curve25519.toPublic b) = Some b' →
  usable a b' → usable b a' → agree a b a' b' →
  createMessageAuthKey a (Curve25519.toPublic b) cn sn =
    createMessageAuthKey b (Curve25519.toPublic a) cn' sn ∧
  (createMessageAuthKey a (Curve25519.toPublic b) cn sn = [] ∨
   zlen (createMessageAuthKey a (Curve25519.toPublic b) cn sn) = MESSAGE_AUTH_KEY_LEN).
Proof.
  intros Ha Hb (Ha1 & Ha2 & Ha3) (Hb1 & Hb2 & Hb3) [Hlen Hs]. unfold createMessageAuthKey.
  rewrite Ha, Hb, Ha1, Ha2, Ha3, Hb1, Hb2, Hb3, Hlen, Hs. split; [done|].
  repeat case_match; auto. right. by zbool.
Qed.

(** An Ed25519 key derives nothing. *)
Lemma ed_derives_nothing {KL : Curve25519.EvpKeyLaws K} {AL : KeyAgreementLaws K} k pub cn sn :
  Curve25519.is_ed k → createMessageAuthKey k pub cn sn = [].
Proof.
  intros Hk. unfold createMessageAuthKey. destruct (Curve25519.fromPublic pub); [|done].
  destruct (EVP_PKEY_CTX_new k); [|done]. simpl. by rewrite derive_ed.
Qed.

(** A session identifier is always 11 characters of Base64 text, and reading
    it back gives the first eight bytes of the hash of the two nonces. *)
Theorem session_id_shape (cn sn : bytes) :
  zlen (createSessionId cn sn) = 11 ∧
  Base64.decode (createSessionId cn sn) = take 8 (Hash.sha2_256 (cn ++ sn)).
Proof.
  unfold createSessionId.
  assert (Hok : bytes_ok (take 8 (Hash.sha2_256 (cn ++ sn)))) by apply Forall_take, Hash.sha2_256_ok.
  split; [|by apply Base64.decode_encode64].
  rewrite Base64.encode_length, length_take, Hash.sha2_256_length by done. done.
Qed.
End Proofs.

#[local] Existing Instances Curve25519.ToyKeys Curve25519.ToyKeys_laws.

(** Keys that only sign. *)
Definition SigningOnly : KeyAgreement Curve25519.ToyKeys := {|
  EVP_PKEY_CTX_new _ := true;
  EVP_PKEY_derive_init _ := false;
  EVP_PKEY_derive_set_peer _ _ := false;
  EVP_PKEY_derive_len _ _ := None;
  EVP_PKEY_derive _ _ := None;
  HKDF _ _ _ _ := None;
|}.

Lemma SigningOnly_laws : KeyAgreementLaws Curve25519.ToyKeys (A := SigningOnly).
Proof. by split. Qed.

#[export] Instance ToyAgreement : KeyAgreement Curve25519.ToyKeys := {|
  EVP_PKEY_CTX_new _ := true;
  EVP_PKEY_derive_init _ := true;
  EVP_PKEY_derive_set_peer _ _ := true;
  EVP_PKEY_derive_len _ _ := Some 32;
  EVP_PKEY_derive k p := Some (replicate 32 (if xorb k p then 1 else 0));
  HKDF _ salt key n := Some (replicate (Z.to_nat n) (u8 (zlen salt + hd 0 key)));
|}.

Lemma peer_keys_agree_witness :
  createMessageAuthKey (K := Curve25519.ToyKeys) true (Curve25519.toPublic (K := Curve25519.ToyKeys) false) [1] [2; 3] =
  createMessageAuthKey (K := Curve25519.ToyKeys) false (Curve25519.toPublic (K := Curve25519.ToyKeys) true) [9] [2; 3].
Proof.
  apply (peer_keys_agree (K := Curve25519.ToyKeys) true false true false);
    [vm_compute; reflexivity..|done|done|done].
Defined.

Lemma session_id_shape_witness : zlen (createSessionId [1; 2] [3]) = 11.
Proof. apply session_id_shape. Defined.

End PeerAuth.
