(* ===== verification/OsslObjects.v ===== *)
(** * Object identifiers and key pairs: [ossl/convert.h] and [ossl/Curve25519.h]

    The conversions between ASN.1 objects and OpenSSL's numbers for them, and the generation of
    a key pair.  OpenSSL's table of objects and its key generator are classes. *)

From S2P Require Import Prelude Ossl AlgAddress.

(** OpenSSL's table of the objects it has numbers for. *)
Class ObjTable := {
  ASN1_OBJECT : Type;
  OBJ_obj2nid : ASN1_OBJECT → Z;
  OBJ_nid2obj : Z → option ASN1_OBJECT;
}.

(** The object a number stands for has that number. *)
Class ObjTableLaws (T : ObjTable) : Prop := {
  obj_of_nid nid o : OBJ_nid2obj nid = Some o → OBJ_obj2nid o = nid;
}.

Module Objects.
Section Code.
Context {T : ObjTable}.

(** [src/src/ossl/convert.cpp:79-82] ossl::toNid *)
Definition toNid (t : ASN1_OBJECT) : Z := OBJ_obj2nid t.

(** [src/src/ossl/convert.cpp:84-94] ossl::fromNid

    The pointer afterwards, and the objects given to [ASN1_OBJECT_free]. *)
Definition fromNid (pt : option ASN1_OBJECT) (nid : Z) : option ASN1_OBJECT * list ASN1_OBJECT :=
  match OBJ_nid2obj nid with
  | None => (pt, [])
  | Some lookup => (Some lookup, option_list pt)
  end.

(** Setting a number that OpenSSL knows gives an object that reads back as that number, and the object it
    replaces is freed once; a number that it does not know is only logged, and the
    object keeps saying what it said before. *)
Theorem nid_set (TL : ObjTableLaws T) (pt : option ASN1_OBJECT) (nid : Z) :
  match fromNid pt nid with
  | (pt', freed) =>
      (is_Some (OBJ_nid2obj nid) → toNid <$> pt' = Some nid ∧ freed = option_list pt) ∧
      (OBJ_nid2obj nid = None → toNid <$> pt' = toNid <$> pt ∧ freed = [])
  end.
Proof.
  unfold fromNid, toNid. destruct (OBJ_nid2obj nid) as [o|] eqn:E.
  - split; [|done]. intros _. simpl. by rewrite (obj_of_nid nid o E).
  - split; [by intros []|done].
Qed.
End Code.
End Objects.

(** OpenSSL's key generator: whether a context was allocated, whether it could be prepared, and
    what generating with it returned. *)
Class KeyGen (K : EvpKeys) := {
  keygen : Type;
  EVP_PKEY_CTX_new_id : keygen → bool * keygen;
  EVP_PKEY_keygen_init : bool → keygen → bool * keygen;
  EVP_PKEY_keygen : bool → keygen → Z * option EVP_PKEY * keygen;
}.

(** A context that is missing or was not prepared generates nothing, and one for
    Ed25519 generates keys of that kind. *)
Class KeyGenLaws (K : EvpKeys) {L : Curve25519.EvpKeyLaws K} {G : KeyGen K} : Prop := {
  keygen_uninit s : fst (fst (EVP_PKEY_keygen false s)) ≠ 1;
  keygen_ed s k s' : EVP_PKEY_keygen true s = (1, Some k, s') → Curve25519.is_ed k;
}.

Module KeyPair.
Section Code.
Context {K : EvpKeys} {G : KeyGen K}.

(** [src/src/ossl/Curve25519.cpp:44-60] Curve25519::generate

    Neither the allocation nor the preparation of the context is looked at. *)
Definition generate (s : keygen) : option EVP_PKEY * keygen :=
  let '(ctx, s) := EVP_PKEY_CTX_new_id s in
  let '(ready, s) := EVP_PKEY_keygen_init ctx s in
  let '(ret, key, s) := EVP_PKEY_keygen (ctx && ready) s in
  match key with
  | Some key => (if ret =? 1 then Some key else None, s)
  | None => (None, s)
  end.
End Code.

Section Proofs.
Context {K : EvpKeys} {L : Curve25519.EvpKeyLaws K} {G : KeyGen K} {GL : KeyGenLaws K} {A : KeyAgreement K}.
Context {D : Digests} {AL : KeyAgreementLaws K}.

(** What is generated is an Ed25519 key, even though the steps before are not checked; and
    with such a key no peer can agree on anything. *)
Theorem generated_signs_only (s s' : keygen) (k : EVP_PKEY) :
  generate s = (Some k, s') →
  Curve25519.is_ed k ∧ ∀ pub cn sn, PeerAuth.createMessageAuthKey k pub cn sn = [].
Proof.
  unfold generate. destruct (EVP_PKEY_CTX_new_id s) as [ctx s1].
  destruct (EVP_PKEY_keygen_init ctx s1) as [rd s2].
  assert (Hk : ∀ b ret key s3, EVP_PKEY_keygen b s2 = (ret, Some key, s3) → ret = 1 → Curve25519.is_ed key).
  { intros [] ret key s3 E ->; [by eapply keygen_ed|]. by destruct (keygen_uninit s2); rewrite E. }
  destruct (EVP_PKEY_keygen _ s2) as [[ret [key|]] s3] eqn:E; [|done].
  destruct (Z.eqb_spec ret 1); intros; simplify_eq. assert (Hed : Curve25519.is_ed k) by by eapply Hk.
  split; [done|]. intros. by apply PeerAuth.ed_derives_nothing.
Qed.
End Proofs.

(** ** Witnesses *)

#[local] Existing Instances Curve25519.ToyKeys Curve25519.ToyKeys_laws ToyDigests.

#[local] Instance ToyGen : KeyGen Curve25519.ToyKeys := {|
  keygen := unit;
  EVP_PKEY_CTX_new_id s := (true, s);
  EVP_PKEY_keygen_init c s := (c, s);
  EVP_PKEY_keygen c s := (if c then 1 else -1, if c then Some true else None, s);
|}.

#[local] Instance ToyGen_laws : KeyGenLaws Curve25519.ToyKeys.
Proof. by split. Qed.

Lemma generated_signs_only_witness :
  generate (G := ToyGen) tt = (Some true, tt) ∧
  PeerAuth.createMessageAuthKey (A := PeerAuth.SigningOnly) (true : EVP_PKEY (EvpKeys := Curve25519.ToyKeys)) [] [] [] = [].
Proof.
  split; [done|]. destruct (generated_signs_only (G := ToyGen) (A := PeerAuth.SigningOnly)
    (AL := PeerAuth.SigningOnly_laws) tt tt true eq_refl) as [_ H]. apply H.
Defined.

Definition OneObject : ObjTable := {| ASN1_OBJECT := Z; OBJ_obj2nid := id; OBJ_nid2obj n := if n =? 7 then Some 7 else None |}.

Lemma OneObject_laws : ObjTableLaws OneObject.
Proof. split. intros nid o. simpl. destruct (Z.eqb_spec nid 7); intros; by simplify_eq. Qed.

Lemma nid_set_witness : Objects.toNid <$> (Objects.fromNid (T := OneObject) (Some 7) 8).1 = Some 7.
Proof. by apply (proj2 (Objects.nid_set OneObject_laws (Some 7 : option (ASN1_OBJECT (ObjTable := OneObject))) 8)). Defined.
End KeyPair.
