(* ===== verification/BlockCore.v ===== *)
(** * Primitive block values: [ossl/convert] and the leaf types of [block/]

    An ASN.1 structure of the code is a record whose INTEGERs are integers and
    whose strings are byte strings; every [toAsn1] overwrites fields of the
    structure it is given.  The two OpenSSL functions whose result the
    conversions depend on are parameters with their documented behaviour. *)

From S2P Require Import Prelude BinData Ossl.

(** [ASN1_INTEGER_get] yields a [long], -1 when the value does not fit;
    [BN_num_bits] is the bit length of the magnitude. *)
Class Asn1Lib := {
  ASN1_INTEGER_get : Z → Z;
  BN_num_bits : Z → Z;
}.

Class Asn1Laws (A : Asn1Lib) : Prop := {
  get_in_range z : - 2 ^ 63 ≤ z < 2 ^ 63 → ASN1_INTEGER_get z = z;
  get_out_of_range z : 2 ^ 63 ≤ z → ASN1_INTEGER_get z = -1;
  num_bits_le z k : 0 ≤ z → 0 ≤ k → BN_num_bits z ≤ k ↔ z < 2 ^ k;
}.

(** ** [ossl/convert] *)
Module Convert.
(** [src/src/ossl/convert.cpp:9-12] ossl::toBin *)
Definition toBin (t : bytes) : bytes := BinData.contents (BinData.of_memory (Some t) (zlen t)).

(** [src/src/ossl/convert.cpp:14-17] ossl::fromBin *)
Definition fromBin (t data : bytes) : bytes := data.

(** [src/src/ossl/convert.cpp:19-24] ossl::toString *)
Definition toString (t : bytes) : cstr := ztake (zlen t) t.

(** [src/src/ossl/convert.cpp:26-29] ossl::fromString *)
Definition fromString (t : bytes) (str : cstr) : bytes := str.

Section Integers.
Context {A : Asn1Lib}.

(** [src/src/ossl/convert.cpp:31-48] ossl::toUInt32 *)
Definition toUInt32 (t : Z) : Z :=
  if (t <? 0) || (32 <? BN_num_bits t) then 0 else u32 (ASN1_INTEGER_get t).

(** [src/src/ossl/convert.cpp:50-53] ossl::fromUInt32 *)
Definition fromUInt32 (t ui : Z) : Z := ui.

(** [src/src/ossl/convert.cpp:55-72] ossl::toUInt64 *)
Definition toUInt64 (t : Z) : Z :=
  if (t <? 0) || (64 <? BN_num_bits t) then 0 else u64 (ASN1_INTEGER_get t).

(** [src/src/ossl/convert.cpp:74-77] ossl::fromUInt64 *)
Definition fromUInt64 (t ui : Z) : Z := ui.

Context {laws : Asn1Laws A}.

Lemma toUInt32_from t z : is_u 32 z → toUInt32 (fromUInt32 t z) = z.
Proof.
  unfold toUInt32, fromUInt32, is_u. intros Hz.
  assert (BN_num_bits z ≤ 32) by (apply num_bits_le; lia).
  rewrite (proj2 (Z.ltb_ge z 0)), (proj2 (Z.ltb_ge 32 _)) by lia. simpl.
  rewrite get_in_range by lia. by rewrite wrap_small.
Qed.

Lemma toUInt64_from t z : 0 ≤ z < 2 ^ 63 → toUInt64 (fromUInt64 t z) = z.
Proof.
  unfold toUInt64, fromUInt64. intros Hz.
  assert (BN_num_bits z ≤ 64) by (apply num_bits_le; lia).
  rewrite (proj2 (Z.ltb_ge z 0)), (proj2 (Z.ltb_ge 64 _)) by lia. simpl.
  rewrite get_in_range by lia. rewrite wrap_small; [done|]. unfold is_u. lia.
Qed.

Lemma toUInt64_from_high t z : 2 ^ 63 ≤ z < 2 ^ 64 → toUInt64 (fromUInt64 t z) = 2 ^ 64 - 1.
Proof.
  unfold toUInt64, fromUInt64. intros Hz.
  assert (BN_num_bits z ≤ 64) by (apply num_bits_le; lia).
  rewrite (proj2 (Z.ltb_ge z 0)), (proj2 (Z.ltb_ge 64 _)) by lia. simpl.
  by rewrite get_out_of_range by lia.
Qed.

(** C40: Integers cross the ASN.1 boundary exactly at 32 bits and below 2^63; the
    64-bit values from 2^63 on, which the encoder accepts, all come back as
    2^64 - 1 because they are read through a signed long. *)
Theorem asn1_integer_conversion (t z : Z) :
  (is_u 32 z → toUInt32 (fromUInt32 t z) = z) ∧
  (0 ≤ z < 2 ^ 63 → toUInt64 (fromUInt64 t z) = z) ∧
  (2 ^ 63 ≤ z < 2 ^ 64 → toUInt64 (fromUInt64 t z) = 2 ^ 64 - 1) ∧
  (z < 0 ∨ 2 ^ 64 ≤ z → toUInt64 z = 0).
Proof.
  split_and!; [apply toUInt32_from|apply toUInt64_from|apply toUInt64_from_high|].
  intros Hz. unfold toUInt64. destruct (Z.ltb_spec z 0) as [|Hn]; [done|]. simpl.
  destruct (Z.ltb_spec 64 (BN_num_bits z)) as [|Hb]; [done|].
  apply num_bits_le in Hb; lia.
Qed.
End Integers.

Lemma toBin_id l : toBin l = l.
Proof.
  unfold toBin, BinData.of_memory, BinData.setData; simpl.
  destruct l as [|x l]; [done|]. simpl zlen. rewrite (proj2 (Z.ltb_lt 0 _)) by lia. simpl fst.
  unfold BinData.contents; simpl. rewrite take_ge; [|rewrite length_take; simpl; lia].
  apply take_ge. simpl; lia.
Qed.

Lemma toBin_from t l : toBin (fromBin t l) = l.
Proof. apply toBin_id. Qed.

Lemma toString_from t l : toString (fromString t l) = l.
Proof. unfold toString, fromString. apply take_ge. lia. Qed.

#[global] Instance Asn1Z : Asn1Lib := {|
  ASN1_INTEGER_get z := if (- 2 ^ 63 <=? z) && (z <? 2 ^ 63) then z else -1;
  BN_num_bits z := if z =? 0 then 0 else Z.log2 z + 1;
|}.

#[global] Instance Asn1Z_laws : Asn1Laws Asn1Z.
Proof.
  split; cbn [ASN1_INTEGER_get BN_num_bits Asn1Z].
  - intros z Hz. rewrite (proj2 (Z.leb_le _ _)), (proj2 (Z.ltb_lt _ _)) by lia. done.
  - intros z Hz. rewrite (proj2 (Z.ltb_ge z _)), andb_false_r by lia. done.
  - intros z k Hz Hk. destruct (Z.eqb_spec z 0) as [->|Hne].
    + pose proof (Z.pow_pos_nonneg 2 k). lia.
    + rewrite Z.log2_lt_pow2 by lia. lia.
Qed.

Lemma asn1_integer_conversion_witness :
  toUInt64 (A := Asn1Z) (fromUInt64 0 (2 ^ 63 + 5)) = 2 ^ 64 - 1.
Proof. apply (asn1_integer_conversion (A := Asn1Z)). lia. Defined.

End Convert.
#[export] Hint Rewrite Convert.toBin_from Convert.toString_from : fluffy.

Module BlockAddress.

(** [src/src/block/Address.h:16-38] Address *)
Record t := mk {
  address : bytes;
}.

Definition dflt : t := mk [].

(** [src/src/block/Address.cpp:10-13] Address::Address(BinData) *)
Definition of_bin (v : bytes) : t := mk v.

(** [src/src/block/Address.cpp:15-18] Address::get *)
Definition get (x : t) : bytes := address x.

(** [src/src/block/Address.cpp:20-23] Address::set *)
Definition set (v : bytes) (x : t) : t := mk v.

(** [src/src/block/Address.cpp:25-28] Address::toAsn1 *)
Definition toAsn1 (x : t) (a : bytes) : bytes := Convert.fromBin a (address x).

(** [src/src/block/Address.cpp:30-33] Address::fromAsn1 *)
Definition fromAsn1 (a : bytes) : t := mk (Convert.toBin a).

(** [src/src/block/Address.cpp:35-40] Address::operator== *)
Definition eqb (x rhs : t) : bool :=
  (zlen (address rhs) =? zlen (address x)) && bool_decide (address rhs = address x).

(** [src/src/block/Address.cpp:42-45] Address::operator!= *)
Definition neqb (x rhs : t) : bool := negb (eqb x rhs).

#[global] Instance eq_dec : EqDecision t.
Proof. solve_decision. Defined.

#[global] Instance countable : Countable t := inj_countable' address mk ltac:(by intros []).

Lemma BlockAddress_asn1 x a : fromAsn1 (toAsn1 x a) = x.
Proof. destruct x. unfold fromAsn1, toAsn1. by rewrite Convert.toBin_from. Qed.

End BlockAddress.
#[export] Hint Rewrite BlockAddress.BlockAddress_asn1 : fluffy.

Module PublicKey.

(** [src/src/block/PublicKey.h:16-38] PublicKey *)
Record t := mk {
  point : bytes;
}.

Definition dflt : t := mk [].

(** [src/src/block/PublicKey.cpp:9-12] PublicKey::PublicKey(BinData) *)
Definition of_bin (v : bytes) : t := mk v.

(** [src/src/block/PublicKey.cpp:14-17] PublicKey::get *)
Definition get (x : t) : bytes := point x.

(** [src/src/block/PublicKey.cpp:19-22] PublicKey::set *)
Definition set (v : bytes) (x : t) : t := mk v.

(** [src/src/block/PublicKey.cpp:24-27] PublicKey::toAsn1 *)
Definition toAsn1 (x : t) (a : bytes) : bytes := Convert.fromBin a (point x).

(** [src/src/block/PublicKey.cpp:29-32] PublicKey::fromAsn1 *)
Definition fromAsn1 (a : bytes) : t := mk (Convert.toBin a).

(** [src/src/block/PublicKey.cpp:34-39] PublicKey::operator== *)
Definition eqb (x rhs : t) : bool :=
  (zlen (point rhs) =? zlen (point x)) && bool_decide (point rhs = point x).

(** [src/src/block/PublicKey.cpp:41-44] PublicKey::operator!= *)
Definition neqb (x rhs : t) : bool := negb (eqb x rhs).

#[global] Instance eq_dec : EqDecision t.
Proof. solve_decision. Defined.

#[global] Instance countable : Countable t := inj_countable' point mk ltac:(by intros []).

Lemma PublicKey_asn1 x a : fromAsn1 (toAsn1 x a) = x.
Proof. destruct x. unfold fromAsn1, toAsn1. by rewrite Convert.toBin_from. Qed.

End PublicKey.
#[export] Hint Rewrite PublicKey.PublicKey_asn1 : fluffy.

Module Signature.

(** [src/src/block/Signature.h:16-38] Signature *)
Record t := mk {
  point : bytes;
}.

Definition dflt : t := mk [].

(** [src/src/block/Signature.cpp:9-12] Signature::Signature(BinData) *)
Definition of_bin (v : bytes) : t := mk v.

(** [src/src/block/Signature.cpp:14-17] Signature::get *)
Definition get (x : t) : bytes := point x.

(** [src/src/block/Signature.cpp:19-22] Signature::set *)
Definition set (v : bytes) (x : t) : t := mk v.

(** [src/src/block/Signature.cpp:24-27] Signature::toAsn1 *)
Definition toAsn1 (x : t) (a : bytes) : bytes := Convert.fromBin a (point x).

(** [src/src/block/Signature.cpp:29-32] Signature::fromAsn1 *)
Definition fromAsn1 (a : bytes) : t := mk (Convert.toBin a).

(** [src/src/block/Signature.cpp:34-39] Signature::operator== *)
Definition eqb (x rhs : t) : bool :=
  (zlen (point rhs) =? zlen (point x)) && bool_decide (point rhs = point x).

(** [src/src/block/Signature.cpp:41-44] Signature::operator!= *)
Definition neqb (x rhs : t) : bool := negb (eqb x rhs).

#[global] Instance eq_dec : EqDecision t.
Proof. solve_decision. Defined.

#[global] Instance countable : Countable t := inj_countable' point mk ltac:(by intros []).

Lemma Signature_asn1 x a : fromAsn1 (toAsn1 x a) = x.
Proof. destruct x. unfold fromAsn1, toAsn1. by rewrite Convert.toBin_from. Qed.

End Signature.
#[export] Hint Rewrite Signature.Signature_asn1 : fluffy.

Module BlockHash.

(** [src/src/block/Hash.cpp:16-25] asn1::Hash *)
Record asn1 := Asn1 {
  t_sha2 : bytes;
  t_sha3 : bytes;
}.

(** [src/src/block/Hash.h:24-52] Hash *)
Record t := mk {
  sha2 : bytes;
  sha3 : bytes;
}.

Definition dflt : t := mk [] [].
Definition asn1_new : asn1 := Asn1 [] [].

Section Digest.
Context {D : Digests}.

(** [src/src/block/Hash.cpp:36-40] Hash::Hash(const BinData &) *)
Definition of_data (value : bytes) : t := mk (Hash.sha2_256 value) (Hash.sha3_256 value).

End Digest.

(** [src/src/block/Hash.cpp:42-45] Hash::getSha2 *)
Definition getSha2 (x : t) : bytes := sha2 x.

(** [src/src/block/Hash.cpp:47-50] Hash::setSha2 *)
Definition setSha2 (v : bytes) (x : t) : t := mk v (sha3 x).

(** [src/src/block/Hash.cpp:52-55] Hash::getSha3 *)
Definition getSha3 (x : t) : bytes := sha3 x.

(** [src/src/block/Hash.cpp:57-60] Hash::setSha3 *)
Definition setSha3 (v : bytes) (x : t) : t := mk (sha2 x) v.

(** [src/src/block/Hash.cpp:62-66] Hash::toAsn1 *)
Definition toAsn1 (x : t) (a : asn1) : asn1 :=
  Asn1 (Convert.fromBin (t_sha2 a) (sha2 x)) (Convert.fromBin (t_sha3 a) (sha3 x)).

(** [src/src/block/Hash.cpp:68-72] Hash::fromAsn1 *)
Definition fromAsn1 (a : asn1) : t := mk (Convert.toBin (t_sha2 a)) (Convert.toBin (t_sha3 a)).

(** [src/src/block/Hash.cpp:83-90] Hash::operator== *)
Definition eqb (x rhs : t) : bool :=
  (zlen (sha2 x) =? zlen (sha2 rhs)) && (zlen (sha3 x) =? zlen (sha3 rhs)) &&
  bool_decide (sha2 x = sha2 rhs) && bool_decide (sha3 x = sha3 rhs).

(** [src/src/block/Hash.cpp:92-95] Hash::operator!= *)
Definition neqb (x rhs : t) : bool := negb (eqb x rhs).

#[global] Instance eq_dec : EqDecision t.
Proof. solve_decision. Defined.

#[global] Instance asn1_eq_dec : EqDecision asn1.
Proof. solve_decision. Defined.

#[global] Instance asn1_countable : Countable asn1 :=
  inj_countable' (λ a, (t_sha2 a, t_sha3 a)) (λ '(a, b), Asn1 a b) ltac:(by intros []).

Lemma BlockHash_asn1 x a : fromAsn1 (toAsn1 x a) = x.
Proof. destruct x. unfold fromAsn1, toAsn1. simpl. by autorewrite with fluffy. Qed.

Lemma BlockHash_eqb x y : eqb x y = true ↔ x = y.
Proof.
  destruct x as [a b], y as [c d]. unfold eqb; simpl. split.
  - intros H. zbool. repeat case_bool_decide; try done. by subst.
  - intros [= -> ->]. by rewrite !Z.eqb_refl, !bool_decide_eq_true_2.
Qed.

End BlockHash.
#[export] Hint Rewrite BlockHash.BlockHash_asn1 : fluffy.

Module Specie.

(** [src/src/block/Specie.cpp:13-22] asn1::Specie *)
Record asn1 := Asn1 {
  t_coins : Z;
  t_fluffs : Z;
}.

(** [src/src/block/Specie.h:24-47] Specie *)
Record t := mk {
  coins : Z;
  fluffs : Z;
}.

(** [src/src/block/Specie.cpp:33-37] Specie::Specie *)
Definition dflt : t := mk 0 0.

Definition asn1_new : asn1 := Asn1 0 0.

(** [src/src/block/Specie.cpp:39-42] Specie::getCoins *)
Definition getCoins (x : t) : Z := coins x.

(** [src/src/block/Specie.cpp:44-47] Specie::setCoins *)
Definition setCoins (v : Z) (x : t) : t := mk v (fluffs x).

(** [src/src/block/Specie.cpp:49-52] Specie::getFluffs *)
Definition getFluffs (x : t) : Z := fluffs x.

(** [src/src/block/Specie.cpp:54-59] Specie::setFluffs

    An out-of-range amount is logged and stored all the same. *)
Definition setFluffs (v : Z) (x : t) : t := mk (coins x) v.

(** [src/src/block/Specie.cpp:61-65] Specie::toAsn1 *)
Definition toAsn1 (x : t) (a : asn1) : asn1 :=
  Asn1 (Convert.fromUInt64 (t_coins a) (coins x)) (Convert.fromUInt32 (t_fluffs a) (fluffs x)).

Section Read.
Context {A : Asn1Lib}.

(** [src/src/block/Specie.cpp:67-71] Specie::fromAsn1 *)
Definition fromAsn1 (a : asn1) : t :=
  mk (Convert.toUInt64 (t_coins a)) (Convert.toUInt32 (t_fluffs a)).

End Read.

(** [src/src/block/Specie.cpp:81-83] to_string (zeros removed from the end)

    [rev] is the text read from its end; the first character is never removed. *)
Fixpoint strip_zeros (rev : cstr) : cstr :=
  match rev with
  | c :: ((_ :: _) as rest) => if c =? chr "0" then strip_zeros rest else rev
  | _ => rev
  end.

(** [src/src/block/Specie.cpp:73-90] to_string(const block::Specie &) *)
Definition to_string (s : t) : cstr :=
  let szRet := take 63 (dec_text (getCoins s) ++ $"." ++ dec_pad 8 (getFluffs s)) in
  let rev := strip_zeros (reverse szRet) in
  let rev := match rev with c :: rest => if c =? chr "." then rest else rev | [] => rev end in
  reverse rev.

#[global] Instance asn1_eq_dec : EqDecision asn1.
Proof. solve_decision. Defined.

#[global] Instance asn1_countable : Countable asn1 :=
  inj_countable' (λ a, (t_coins a, t_fluffs a)) (λ '(a, b), Asn1 a b) ltac:(by intros []).

(** What the type may hold: coins that survive a signed read, fluffs below one coin. *)
Definition ok (x : t) : Prop := 0 ≤ coins x < 2 ^ 63 ∧ 0 ≤ fluffs x < 10 ^ 8.

#[global] Instance ok_dec x : Decision (ok x) := ltac:(unfold ok; apply _).

Lemma Specie_asn1 {A : Asn1Lib} {laws : Asn1Laws A} x a : ok x → fromAsn1 (toAsn1 x a) = x.
Proof.
  destruct x as [c f]. intros [Hc Hf]. unfold fromAsn1, toAsn1. simpl in *.
  rewrite Convert.toUInt64_from, Convert.toUInt32_from; [done|unfold is_u; lia|lia].
Qed.

(** *** Reading an amount back *)

Fixpoint split_dot (t : cstr) : cstr * cstr :=
  match t with
  | [] => ([], [])
  | c :: t => if c =? chr "." then ([], t) else let '(a, b) := split_dot t in (c :: a, b)
  end.

(** Coins before the point, fluffs after it, missing digits being zero. *)
Definition amount_of (text : cstr) : t :=
  let '(a, b) := split_dot text in
  mk (dec_val a) (dec_val (b ++ replicate (8 - length b) 48)).

Lemma split_dot_none a : Forall is_dec a → split_dot a = (a, []).
Proof.
  induction 1 as [|c a Hc Ha IH]; [done|]. cbn [split_dot]. rewrite IH.
  unfold is_dec in Hc. change (chr ".") with 46. by rewrite (proj2 (Z.eqb_neq c 46)) by lia.
Qed.

Lemma split_dot_app a b : Forall is_dec a → split_dot (a ++ 46 :: b) = (a, b).
Proof.
  induction 1 as [|c a Hc Ha IH]; [done|]. simpl app. cbn [split_dot]. rewrite IH.
  unfold is_dec in Hc. change (chr ".") with 46. by rewrite (proj2 (Z.eqb_neq c 46)) by lia.
Qed.

Lemma strip_zeros_run k c l : c ≠ 48 → strip_zeros (replicate k 48 ++ c :: l) = c :: l.
Proof.
  intros Hc. induction k as [|k IH]; simpl.
  - destruct l; [done|]. change (chr "0") with 48. by rewrite (proj2 (Z.eqb_neq c 48)).
  - destruct k; simpl in *; [done|]. exact IH.
Qed.

(** The text is the coins, followed by a point and the significant digits of
    the fluffs when there are any. *)
Lemma to_string_shape s :
  is_u 64 (coins s) → 0 ≤ fluffs s < 10 ^ 8 →
  (to_string s = dec_text (coins s) ∧ fluffs s = 0) ∨
  ∃ frac, to_string s = dec_text (coins s) ++ 46 :: frac ∧ (0 < length frac ≤ 8)%nat ∧
    Forall is_dec frac ∧ last frac ≠ Some 48 ∧
    dec_pad 8 (fluffs s) = frac ++ replicate (8 - length frac) 48.
Proof.
  intros Hc Hf. unfold is_u in Hc.
  pose proof (dec_pad_ok 8 (fluffs s) ltac:(lia)) as Fok.
  pose proof (dec_pad_length 8 (fluffs s) ltac:(lia) Hf) as Flen.
  pose proof (dec_text_length 20 (coins s) ltac:(lia) ltac:(lia)) as Clen.
  pose proof (dec_val_pad 8 (fluffs s) ltac:(lia)) as Fval.
  unfold to_string, getCoins, getFluffs. set (A := dec_text (coins s)) in *.
  set (F := dec_pad 8 (fluffs s)) in *. change ($".") with [46].
  rewrite take_ge by (rewrite !length_app; simpl; lia).
  rewrite !reverse_app. change (reverse [46]) with [46].
  destruct (leading_run 48 (reverse F)) as (k & R & HR & Hh).
  assert (HF : F = reverse R ++ replicate k 48).
  { rewrite <- (reverse_involutive F), HR, reverse_app, reverse_replicate. done. }
  rewrite HR, <- !app_assoc. destruct R as [|c R]; simpl app.
  - left. rewrite strip_zeros_run by done. simpl. rewrite reverse_involutive. split; [done|].
    rewrite <- Fval, HF. simpl app. rewrite <- (app_nil_r (replicate k 48)).
    by rewrite dec_val_replicate0.
  - right. assert (Hc48 : c ≠ 48) by (simpl in Hh; congruence).
    assert (Hfok : Forall is_dec (reverse (c :: R))).
    { rewrite HF in Fok. by apply Forall_app in Fok as [? _]. }
    rewrite strip_zeros_run by done.
    assert (c ≠ 46).
    { apply Forall_reverse in Hfok. rewrite reverse_involutive in Hfok.
      apply Forall_cons in Hfok as [Hd _]. unfold is_dec in Hd. lia. }
    change (chr ".") with 46. rewrite (proj2 (Z.eqb_neq c 46)) by done.
    exists (reverse (c :: R)).
    assert (Hlen : (length (reverse (c :: R)) + k = 8)%nat).
    { rewrite <- Flen, HF, length_app, length_replicate. done. }
    rewrite length_reverse in *. simpl length in *. split_and!; [|lia|lia|done| |].
    + change (c :: R ++ 46 :: reverse A) with ((c :: R) ++ [46] ++ reverse A).
      rewrite !reverse_app, reverse_involutive. by rewrite <- app_assoc.
    + rewrite last_reverse. simpl. congruence.
    + rewrite HF. do 2 f_equal. lia.
Qed.

(** The printed form of an amount is exact: for every amount below one coin
    of fluffs, reading the text as a decimal number gives back the coins and
    fluffs; it has no trailing zeros after the point and at most 29 characters,
    well within the 64-byte buffer. *)
Theorem specie_to_string_exact (s : t) :
  is_u 64 (coins s) → 0 ≤ fluffs s < 10 ^ 8 →
  amount_of (to_string s) = s ∧ zlen (to_string s) ≤ 29 ∧
  (fluffs s ≠ 0 → last (to_string s) ≠ Some 48).
Proof.
  intros Hc Hf. pose proof Hc as Hc'. unfold is_u in Hc'.
  pose proof (dec_text_ok (coins s) ltac:(lia)) as Cok.
  pose proof (dec_text_length 20 (coins s) ltac:(lia) ltac:(lia)) as Clen.
  destruct (to_string_shape s Hc Hf) as [[-> H0]|(frac & -> & Hl & Hok & Hlast & Hpad)].
  - unfold amount_of. rewrite split_dot_none by done. rewrite dec_val_text by lia.
    split_and!; [|lia|done]. destruct s as [c f]; simpl in *. subst f. done.
  - unfold amount_of. rewrite split_dot_app by done. rewrite <- Hpad, dec_val_pad by lia.
    rewrite dec_val_text, length_app by lia. simpl length.
    split_and!; [by destruct s|lia|]. intros _. rewrite last_app_cons, last_cons.
    destruct (last frac) eqn:E; [congruence|]. done.
Qed.

Lemma specie_to_string_exact_witness : amount_of (to_string (mk 12 3450000)) = mk 12 3450000.
Proof. apply specie_to_string_exact; simpl; [unfold is_u|]; lia. Defined.

(** An out-of-range fluff amount is accepted by setFluffs and then prints like
    a different, valid amount: 100000000 fluffs print as a tenth of a coin. *)
Theorem specie_invalid_fluffs_collide (x : t) :
  is_u 64 (coins x) →
  to_string (setFluffs 100000000 x) = to_string (setFluffs 10000000 x) ∧
  setFluffs 100000000 x ≠ setFluffs 10000000 x.
Proof.
  intros Hc. unfold is_u in Hc. split; [|done].
  pose proof (dec_text_length 20 (coins x) ltac:(lia) ltac:(lia)) as Clen.
  unfold to_string, setFluffs, getCoins, getFluffs; simpl coins; simpl fluffs.
  change (dec_pad 8 100000000) with (49 :: replicate 8 48).
  change (dec_pad 8 10000000) with (49 :: replicate 7 48).
  set (A := dec_text (coins x)) in *. change ($".") with [46].
  rewrite !take_ge by (rewrite !length_app; simpl; lia).
  rewrite !reverse_app, !(reverse_cons _ 49), !reverse_replicate, <- !app_assoc. cbn [app].
  by rewrite !(strip_zeros_run _ 49) by done.
Qed.

Lemma specie_invalid_fluffs_collide_witness :
  to_string (setFluffs 100000000 (mk 0 0)) = to_string (setFluffs 10000000 (mk 0 0)).
Proof. apply specie_invalid_fluffs_collide. simpl. unfold is_u; lia. Defined.

End Specie.

Module Time.

(** [src/src/block/Time.cpp:10-10] fluffyEpochDelta *)
Definition fluffyEpochDelta : Z := 0xD87B28B000.

(** [src/src/block/Time.h:25-56] Time *)
Record t := mk {
  sinceEpoch : Z;
}.

(** [src/src/block/Time.cpp:14-17] Time::Time *)
Definition dflt : t := mk 0.

(** [src/src/block/Time.cpp:19-22] Time::get *)
Definition get (x : t) : Z := sinceEpoch x.

(** [src/src/block/Time.cpp:24-31] Time::getSystemClock

    A [time_point] counts nanoseconds in 64 bits.  The conversion from seconds overflows for
    every time; the result is what the multiplication and the addition of the machine leave,
    which is what the repository's compiler flags give ([cmake/cxxflags.cmake] asks neither
    for traps nor for a sanitizer). *)
Definition getSystemClock (x : t) : Z :=
  let seconds := sinceEpoch x / 1000 + fluffyEpochDelta in
  swrap 64 (swrap 64 (seconds * 1000000000) + (sinceEpoch x mod 1000) * 1000000).

(** [src/src/block/Time.cpp:33-36] Time::set(uint64_t) *)
Definition set (time : Z) (x : t) : t := mk time.

(** [src/src/block/Time.cpp:38-50] Time::set(time_point) *)
Definition set_clock (time : Z) (x : t) : t :=
  let sinceLinuxEpoch := Z.quot time 1000000 in
  if sinceLinuxEpoch <? fluffyEpochDelta then mk 0
  else mk (u64 (sinceLinuxEpoch - fluffyEpochDelta)).

(** [src/src/block/Time.cpp:52-55] Time::setNow

    [clock] is what the system clock reads. *)
Definition setNow (clock : Z) (x : t) : t := set_clock clock x.

(** [src/src/block/Time.cpp:57-60] Time::toAsn1 *)
Definition toAsn1 (x : t) (a : Z) : Z := Convert.fromUInt64 a (sinceEpoch x).

Section Read.
Context {A : Asn1Lib}.

(** [src/src/block/Time.cpp:62-65] Time::fromAsn1 *)
Definition fromAsn1 (a : Z) : t := mk (Convert.toUInt64 a).

End Read.

(** [src/src/block/Time.cpp:67-72] Time::now *)
Definition now (clock : Z) : t := setNow clock dflt.

(** [src/src/block/Time.cpp:74-77] Time::operator< *)
Definition ltb (x rhs : t) : bool := sinceEpoch x <? sinceEpoch rhs.

(** [src/src/block/Time.cpp:79-82] Time::operator<= *)
Definition leb (x rhs : t) : bool := sinceEpoch x <=? sinceEpoch rhs.

(** [src/src/block/Time.cpp:84-87] Time::operator> *)
Definition gtb (x rhs : t) : bool := sinceEpoch rhs <? sinceEpoch x.

(** [src/src/block/Time.cpp:89-92] Time::operator>= *)
Definition geb (x rhs : t) : bool := sinceEpoch rhs <=? sinceEpoch x.

(** [src/src/block/Time.cpp:94-97] Time::operator== *)
Definition eqb (x rhs : t) : bool := sinceEpoch x =? sinceEpoch rhs.

(** [src/src/block/Time.cpp:99-102] Time::operator!= *)
Definition neqb (x rhs : t) : bool := negb (sinceEpoch x =? sinceEpoch rhs).

#[global] Instance eq_dec : EqDecision t.
Proof. solve_decision. Defined.

Definition ok (x : t) : Prop := 0 ≤ sinceEpoch x < 2 ^ 63.

Lemma Time_asn1 {A : Asn1Lib} {laws : Asn1Laws A} x a : ok x → fromAsn1 (toAsn1 x a) = x.
Proof. destruct x as [v]. unfold ok, fromAsn1, toAsn1; simpl. intros. by rewrite Convert.toUInt64_from. Qed.

(** Reading the clock into a block time is exact and monotone: a time point at
    or after the fluffy epoch becomes its whole milliseconds since that epoch,
    an earlier one becomes 0, and later clock readings never give smaller times. *)
Theorem time_set_clock_exact (x y : t) (tp tp' : Z) :
  - 2 ^ 63 ≤ tp < 2 ^ 63 → - 2 ^ 63 ≤ tp' < 2 ^ 63 →
  (fluffyEpochDelta * 1000000 ≤ tp →
     get (set_clock tp x) = tp / 1000000 - fluffyEpochDelta) ∧
  (tp < fluffyEpochDelta * 1000000 → get (set_clock tp x) = 0) ∧
  (tp ≤ tp' → leb (set_clock tp x) (set_clock tp' y) = true) ∧
  ok (set_clock tp x).
Proof.
  intros Htp Htp'.
  assert (Hcl : ∀ z v, - 2 ^ 63 ≤ z < 2 ^ 63 →
    get (set_clock z v) = Z.max 0 (z / 1000000 - fluffyEpochDelta)).
  { intros z v Hz. unfold set_clock, get, fluffyEpochDelta.
    destruct (decide (0 ≤ z)).
    - rewrite Z.quot_div_nonneg by lia. destruct (Z.ltb_spec (z / 1000000) 0xD87B28B000); simpl.
      + lia.
      + rewrite wrap_small by (unfold is_u; dlia). dlia.
    - assert (Z.quot z 1000000 ≤ 0).
      { rewrite <- (Z.opp_involutive z), Z.quot_opp_l by lia.
        pose proof (Z.quot_pos (- z) 1000000). lia. }
      rewrite (proj2 (Z.ltb_lt _ _)) by lia. simpl. dlia. }
  unfold leb, ok. change (sinceEpoch (set_clock tp x)) with (get (set_clock tp x)).
  change (sinceEpoch (set_clock tp' y)) with (get (set_clock tp' y)).
  rewrite !Hcl by done. unfold fluffyEpochDelta. split_and!; intros; [dlia|dlia| |dlia|dlia].
  apply Z.leb_le. dlia.
Qed.

Lemma time_set_clock_exact_witness :
  get (set_clock (fluffyEpochDelta * 1000000 + 5000000) dflt) = 5.
Proof.
  apply (time_set_clock_exact dflt dflt (fluffyEpochDelta * 1000000 + 5000000) 0);
    unfold fluffyEpochDelta; lia.
Defined.

Lemma getSystemClock_mod x : ∃ k,
  getSystemClock x = sinceEpoch x * 1000000 + fluffyEpochDelta * 1000000000 + 2 ^ 64 * k ∧
  - 2 ^ 63 ≤ getSystemClock x < 2 ^ 63.
Proof.
  unfold getSystemClock. set (s := sinceEpoch x). cbv zeta.
  set (a := (s / 1000 + fluffyEpochDelta) * 1000000000).
  destruct (swrap_mod 64 a ltac:(lia)) as [k1 ->].
  set (b := a + 2 ^ 64 * k1 + s mod 1000 * 1000000).
  pose proof (swrap_range 64 b ltac:(lia)) as Hr. destruct (swrap_mod 64 b ltac:(lia)) as [k2 Hk].
  exists (k1 + k2). split; [|exact Hr]. rewrite Hk. subst b a. dlia.
Qed.

(** Time::getSystemClock never yields the stored time: it adds the epoch offset, which is in
    milliseconds, to a number of seconds.  For every 64-bit time the number of nanoseconds is
    beyond what the clock's time point can hold, and what is left of it is not the moment
    the time stands for. *)
Theorem time_getSystemClock_overflows (x : t) :
  is_u 64 (sinceEpoch x) →
  2 ^ 63 ≤ (sinceEpoch x / 1000 + fluffyEpochDelta) * 1000000000 ∧
  getSystemClock x ≠ (sinceEpoch x + fluffyEpochDelta) * 1000000.
Proof.
  intros Hx. unfold is_u in Hx. destruct (getSystemClock_mod x) as (k & -> & _).
  unfold fluffyEpochDelta. assert (0 ≤ sinceEpoch x / 1000) by (apply Z.div_pos; lia). lia.
Qed.

Lemma time_getSystemClock_overflows_witness : getSystemClock (mk 0) ≠ fluffyEpochDelta * 1000000.
Proof. apply (time_getSystemClock_overflows (mk 0)). simpl. unfold is_u; lia. Defined.

End Time.

Module Validation.

(** [src/src/block/Validation.cpp:11-23] asn1::Validation *)
Record asn1 := Asn1 {
  t_verified : Z;
  t_authAddress : bytes;
  t_signature : bytes;
}.

(** [src/src/block/Validation.h:26-52] Validation *)
Record t := mk {
  verified : bool;
  address : BlockAddress.t;
  signature : Signature.t;
}.

(** [src/src/block/Validation.cpp:34-37] Validation::Validation *)
Definition dflt : t := mk false BlockAddress.dflt Signature.dflt.

Definition asn1_new : asn1 := Asn1 0 [] [].

(** [src/src/block/Validation.cpp:39-42] Validation::isVerified *)
Definition isVerified (x : t) : bool := verified x.

(** [src/src/block/Validation.cpp:44-47] Validation::setVerified *)
Definition setVerified (v : bool) (x : t) : t := mk v (address x) (signature x).

(** [src/src/block/Validation.cpp:49-52] Validation::getAddress *)
Definition getAddress (x : t) : BlockAddress.t := address x.

(** [src/src/block/Validation.cpp:54-57] Validation::setAddress *)
Definition setAddress (v : BlockAddress.t) (x : t) : t := mk (verified x) v (signature x).

(** [src/src/block/Validation.cpp:59-62] Validation::getSignature *)
Definition getSignature (x : t) : Signature.t := signature x.

(** [src/src/block/Validation.cpp:64-67] Validation::setSignature *)
Definition setSignature (v : Signature.t) (x : t) : t := mk (verified x) (address x) v.

(** [src/src/block/Validation.cpp:69-74] Validation::toAsn1 *)
Definition toAsn1 (x : t) (a : asn1) : asn1 :=
  Asn1 (if verified x then 1 else 0)
       (BlockAddress.toAsn1 (address x) (t_authAddress a))
       (Signature.toAsn1 (signature x) (t_signature a)).

(** [src/src/block/Validation.cpp:76-81] Validation::fromAsn1 *)
Definition fromAsn1 (a : asn1) : t :=
  mk (negb (t_verified a =? 0))
     (BlockAddress.fromAsn1 (t_authAddress a)) (Signature.fromAsn1 (t_signature a)).

#[global] Instance eq_dec : EqDecision t.
Proof. solve_decision. Defined.

#[global] Instance asn1_eq_dec : EqDecision asn1.
Proof. solve_decision. Defined.

#[global] Instance asn1_countable : Countable asn1 :=
  inj_countable' (λ a, (t_verified a, t_authAddress a, t_signature a))
    (λ '(a, b, c), Asn1 a b c) ltac:(by intros []).

Lemma Validation_asn1 x a : fromAsn1 (toAsn1 x a) = x.
Proof.
  destruct x as [v ad s]. unfold fromAsn1, toAsn1; simpl. autorewrite with fluffy. by destruct v.
Qed.

(** DER has one encoding of TRUE, so only the truth value of [verified] survives. *)
Definition eqv (a b : asn1) : Prop :=
  (t_verified a =? 0) = (t_verified b =? 0) ∧
  t_authAddress a = t_authAddress b ∧ t_signature a = t_signature b.

#[global] Instance eqv_equiv : Equivalence eqv.
Proof.
  unfold eqv. split; [done| |].
  - intros a b (? & ? & ?). by split_and!.
  - intros a b c (? & ? & ?) (? & ? & ?). split_and!; by etrans.
Qed.

#[global] Instance fromAsn1_proper : Proper (eqv ==> eq) fromAsn1.
Proof. intros a b (Hv & Ha & Hs). unfold fromAsn1. by rewrite Hv, Ha, Hs. Qed.

(** Sets of votes: DER keeps the members, not their order. *)
Definition set_eqv (l k : list asn1) : Prop := ∃ m, l ≡ₚ m ∧ Forall2 eqv m k.

#[global] Instance set_eqv_refl : Reflexive set_eqv.
Proof. intros l. exists l. split; [done|]. induction l; by constructor. Qed.

#[global] Instance fromAsn1_set_proper : Proper (set_eqv ==> (≡ₚ)) (fmap fromAsn1).
Proof.
  intros l k (m & Hp & HF). rewrite Hp. clear Hp.
  assert (fromAsn1 <$> m = fromAsn1 <$> k) as ->; [|done].
  induction HF as [|a b m k Hab HF IH]; [done|]. rewrite !fmap_cons, IH. by rewrite Hab.
Qed.

End Validation.
#[export] Hint Rewrite Validation.Validation_asn1 : fluffy.
