(* ===== verification/Calendar.v ===== *)
(** * Dates, and the text of [block/Time.cpp]

    The calendar the C library counts by: the broken-down time of a number of seconds, before
    1970 too, and its text, which is how the log stamps its lines and how a block time is
    printed. *)

From S2P Require Import Prelude Text BlockCore.

Module Calendar.

(** ** The calendar *)

Definition leap (y : Z) : bool := (y mod 4 =? 0) && negb (y mod 100 =? 0) || (y mod 400 =? 0).
Definition year_days (y : Z) : Z := if leap y then 366 else 365.
Definition month_days (y : Z) : list Z :=
  [31; if leap y then 29 else 28; 31; 30; 31; 30; 31; 31; 30; 31; 30; 31].

Record tm := Tm { year : Z; mon : Z; mday : Z; hour : Z; min : Z; sec : Z }.

(** The year and the day in it, counting on from the start of [y]. *)
Fixpoint find_year (fuel : nat) (y d : Z) : Z * Z :=
  match fuel with
  | O => (y, d)
  | S fuel => if d <? year_days y then (y, d) else find_year fuel (y + 1) (d - year_days y)
  end.

Fixpoint find_month (ms : list Z) (m d : Z) : Z * Z :=
  match ms with
  | [] => (m, d)
  | n :: ms => if d <? n then (m, d) else find_month ms (m + 1) (d - n)
  end.

(** [gmtime]; [mon] counts from one.  The calendar repeats every 400 years: a time before 1970
    is broken down as many cycles later as bring it after 1970. *)
Definition cycle : Z := 146097 * 86400.

Definition gmtime_since (t : Z) : tm :=
  let '(y, yd) := find_year (S (Z.to_nat (t / 86400 / 365))) 1970 (t / 86400) in
  let '(m, md) := find_month (month_days y) 1 yd in
  let s := t mod 86400 in
  Tm y m (md + 1) (s / 3600) (s / 60 mod 60) (s mod 60).

Definition later (cycles : Z) (c : tm) : tm :=
  Tm (year c + 400 * cycles) (mon c) (mday c) (hour c) (min c) (sec c).

Definition gmtime (t : Z) : tm :=
  if 0 <=? t then gmtime_since t else later (t / cycle) (gmtime_since (t mod cycle)).

(** The reference: days since 1970 by the formula of the Gregorian calendar. *)
Definition days_before_year (y : Z) : Z :=
  365 * (y - 1970) + ((y - 1) / 4 - (y - 1) / 100 + (y - 1) / 400) - 477.
Definition zsum (l : list Z) : Z := foldr Z.add 0 l.
Definition timegm (c : tm) : Z :=
  (days_before_year (year c) + zsum (take (Z.to_nat (mon c - 1)) (month_days (year c))) + mday c - 1) * 86400
  + hour c * 3600 + min c * 60 + sec c.

(** [strftime] and [put_time] with "%Y-%m-%d %H:%M:%S". *)
Definition stamp (c : tm) : cstr :=
  dec_text (year c) ++ $"-" ++ dec_pad 2 (mon c) ++ $"-" ++ dec_pad 2 (mday c) ++ $" " ++
  dec_pad 2 (hour c) ++ $":" ++ dec_pad 2 (min c) ++ $":" ++ dec_pad 2 (sec c).

Lemma year_days_step y : days_before_year (y + 1) = days_before_year y + year_days y.
Proof.
  unfold days_before_year, year_days, leap. rewrite Z.add_simpl_r.
  assert (H : ∀ k, 0 < k → y / k = (y - 1) / k + if y mod k =? 0 then 1 else 0).
  { intros k Hk. ztest.
    - symmetry. apply Z.div_unique_pos with 0; [lia|]. pose proof (Z.div_mod y k).
      assert ((y - 1) / k = y / k - 1); [|lia]. symmetry. apply Z.div_unique_pos with (k - 1); lia.
    - rewrite Z.add_0_r. pose proof (Z.div_mod y k). pose proof (Z.mod_pos_bound y k Hk).
      apply Z.div_unique_pos with (y mod k - 1); lia. }
  rewrite (H 4), (H 100), (H 400) by lia.
  assert (Hm : (y mod 100 = 0 → y mod 4 = 0) ∧ (y mod 400 = 0 → y mod 100 = 0)).
  { split; intros Hy.
    - apply Z.mod_divide in Hy as [q ->]; [|lia]. apply Z.mod_divide; [lia|]. exists (q * 25). lia.
    - apply Z.mod_divide in Hy as [q ->]; [|lia]. apply Z.mod_divide; [lia|]. exists (q * 4). lia. }
  destruct (y mod 4 =? 0) eqn:E4, (y mod 100 =? 0) eqn:E1, (y mod 400 =? 0) eqn:E0; cbn; lia.
Qed.

Lemma year_days_bounds y : 365 ≤ year_days y ≤ 366.
Proof. unfold year_days. destruct (leap y); lia. Qed.

Lemma find_year_spec fuel : ∀ y d,
  0 ≤ d < 365 * Z.of_nat fuel →
  let '(y', d') := find_year fuel y d in
  y ≤ y' ≤ y + d / 365 ∧ 0 ≤ d' < year_days y' ∧ days_before_year y + d = days_before_year y' + d'.
Proof.
  induction fuel as [|fuel IH]; intros y d Hd; [lia|]. cbn [find_year].
  pose proof (year_days_bounds y) as Hy. destruct (d <? year_days y) eqn:E.
  - assert (0 ≤ d / 365) by (apply Z.div_pos; lia). lia.
  - specialize (IH (y + 1) (d - year_days y) ltac:(lia)).
    destruct (find_year fuel (y + 1) (d - year_days y)) as [y' d']. rewrite year_days_step in IH.
    assert ((d - year_days y) / 365 + 1 ≤ d / 365).
    { rewrite <- Z.div_add by lia. apply Z.div_le_mono; lia. }
    lia.
Qed.

Lemma find_month_spec ms : ∀ m d,
  Forall (λ n, 0 ≤ n) ms → 0 ≤ d < zsum ms →
  let '(m', d') := find_month ms m d in
  m ≤ m' < m + zlen ms ∧ 0 ≤ d' ∧ (∃ n, ms !! Z.to_nat (m' - m) = Some n ∧ d' < n) ∧
  d = zsum (take (Z.to_nat (m' - m)) ms) + d'.
Proof.
  induction ms as [|n ms IH]; intros m d Hms Hd; [cbn in Hd; lia|]. apply Forall_cons in Hms as [Hn Hms].
  cbn [find_month]. cbn [zsum foldr] in Hd. fold (zsum ms) in Hd. destruct (d <? n) eqn:E.
  - rewrite Z.sub_diag. change (zsum (take (Z.to_nat 0) (n :: ms))) with 0. cbn [length]. split_and!; [lia..| |lia].
    exists n. split; [done|lia].
  - specialize (IH (m + 1) (d - n) Hms ltac:(lia)). destruct (find_month ms (m + 1) (d - n)) as [m' d'].
    destruct IH as (Hm & Hd' & (k & Hk & Hlt) & He).
    replace (Z.to_nat (m' - m)) with (S (Z.to_nat (m' - (m + 1)))) by lia. cbn [take zsum foldr].
    fold (zsum (take (Z.to_nat (m' - (m + 1))) ms)). cbn [length] in *. split_and!; [lia..| |lia].
    exists k. by split.
Qed.

Lemma month_days_sum y : zsum (month_days y) = year_days y ∧ Forall (λ n, 0 ≤ n) (month_days y).
Proof. unfold month_days, year_days. destruct (leap y); split; try done; repeat constructor; lia. Qed.

Lemma month_days_bound y i n : month_days y !! i = Some n → n ≤ 31.
Proof. intros H. do 12 (destruct i as [|i]; [cbn in H; injection H as <-; destruct (leap y); lia|]). done. Qed.

(** A date is in range, field by field. *)
Definition valid (c : tm) : Prop :=
  1 ≤ mon c ≤ 12 ∧ 1 ≤ mday c ≤ 31 ∧
  (∃ n, month_days (year c) !! Z.to_nat (mon c - 1) = Some n ∧ mday c ≤ n) ∧
  0 ≤ hour c < 24 ∧ 0 ≤ min c < 60 ∧ 0 ≤ sec c < 60.

(** The broken-down time is a valid date and, counted by the calendar's formula, it is the
    time it was made from. *)
Lemma gmtime_timegm t :
  0 ≤ t → valid (gmtime t) ∧ 1970 ≤ year (gmtime t) ≤ 1970 + t / 86400 / 365 ∧ timegm (gmtime t) = t.
Proof.
  intros Ht. unfold gmtime. rewrite (proj2 (Z.leb_le 0 t) Ht). unfold gmtime_since. assert (0 ≤ t / 86400) by (apply Z.div_pos; lia).
  set (d := t / 86400) in *. assert (0 ≤ d / 365) by (apply Z.div_pos; lia).
  pose proof (Z.div_mod d 365 ltac:(lia)). pose proof (Z.mod_pos_bound d 365 ltac:(lia)).
  pose proof (find_year_spec (S (Z.to_nat (d / 365))) 1970 d ltac:(lia)) as Hy.
  destruct (find_year _ 1970 d) as [y yd]. destruct Hy as (Hy & Hyd & Hdays).
  destruct (month_days_sum y) as [Hsum Hnn].
  pose proof (find_month_spec (month_days y) 1 yd Hnn ltac:(lia)) as Hm.
  destruct (find_month (month_days y) 1 yd) as [m md]. destruct Hm as (Hm & Hmd & (n & Hn & Hlt) & He).
  pose proof (month_days_bound _ _ _ Hn). change (zlen (month_days y)) with 12 in Hm.
  change (days_before_year 1970) with 0 in Hdays.
  pose proof (Z.div_mod t 86400 ltac:(lia)) as Hdt. pose proof (Z.mod_pos_bound t 86400 ltac:(lia)) as Hs.
  fold d in Hdt. set (s := t mod 86400) in *.
  pose proof (Z.div_mod s 60 ltac:(lia)). pose proof (Z.mod_pos_bound s 60 ltac:(lia)).
  pose proof (Z.div_mod (s / 60) 60 ltac:(lia)). pose proof (Z.mod_pos_bound (s / 60) 60 ltac:(lia)).
  assert (s / 3600 = s / 60 / 60) as Hh by (rewrite Z.div_div by lia; done).
  unfold valid, timegm. cbn [year mon mday hour min sec]. split_and!; try lia.
  exists n. split; [done|lia].
Qed.

(** So it is of a time before 1970. *)
Lemma later_leap y k : leap (y + 400 * k) = leap y.
Proof.
  unfold leap. replace (y + 400 * k) with (y + k * 400) by lia.
  rewrite Z.mod_add by lia. replace (k * 400) with (k * 4 * 100) by lia. rewrite Z.mod_add by lia.
  replace (k * 4 * 100) with (k * 100 * 4) by lia. by rewrite Z.mod_add by lia.
Qed.

Lemma later_days y k : days_before_year (y + 400 * k) = days_before_year y + 146097 * k.
Proof.
  unfold days_before_year. replace (y + 400 * k - 1) with (y - 1 + k * 400) by lia.
  rewrite (Z.div_add (y - 1) k 400) by lia. replace (k * 400) with (k * 4 * 100) by lia. rewrite Z.div_add by lia.
  replace (k * 4 * 100) with (k * 100 * 4) by lia. rewrite Z.div_add by lia. lia.
Qed.

Lemma later_ok k c : valid c → valid (later k c) ∧ timegm (later k c) = timegm c + k * cycle.
Proof.
  unfold valid, timegm, later, month_days, cycle. cbn [year mon mday hour min sec].
  rewrite later_leap, later_days. intros Hv. split; [exact Hv|lia].
Qed.

Lemma gmtime_timegm_all t : valid (gmtime t) ∧ timegm (gmtime t) = t.
Proof.
  destruct (Z.leb_spec 0 t); [by destruct (gmtime_timegm t) as (? & _ & ?)|].
  unfold gmtime. rewrite (proj2 (Z.leb_gt 0 t)) by done.
  pose proof (Z.mod_pos_bound t cycle ltac:(unfold cycle; lia)) as Hm.
  destruct (gmtime_timegm (t mod cycle)) as (Hv & _ & Ht); [lia|]. unfold gmtime in Hv, Ht.
  rewrite (proj2 (Z.leb_le 0 _)) in Hv, Ht by lia.
  destruct (later_ok (t / cycle) _ Hv) as [Hv' Ht']. split; [done|]. rewrite Ht', Ht.
  rewrite (Z.div_mod t cycle) at 3 by (unfold cycle; lia). lia.
Qed.

(** The year is one cycle for every 400 years before 1970, at most. *)
Lemma gmtime_year t :
  - 12 * cycle ≤ t < 12 * cycle → - 2830 ≤ year (gmtime t) ≤ 6773.
Proof.
  intros Ht. destruct (Z.leb_spec 0 t).
  - destruct (gmtime_timegm t) as (_ & Hy & _); [done|]. assert (t / 86400 / 365 ≤ 4803); [|lia].
    rewrite Z.div_div by lia. apply Z.lt_succ_r, Z.div_lt_upper_bound; unfold cycle in Ht; lia.
  - unfold gmtime. rewrite (proj2 (Z.leb_gt 0 t)) by done.
    pose proof (Z.mod_pos_bound t cycle ltac:(unfold cycle; lia)) as Hm.
    destruct (gmtime_timegm (t mod cycle)) as (_ & Hy & _); [lia|]. unfold gmtime in Hy.
    rewrite (proj2 (Z.leb_le 0 _)) in Hy by lia. cbn [later year].
    assert (t mod cycle / 86400 / 365 ≤ 400).
    { rewrite Z.div_div by lia. apply Z.lt_succ_r, Z.div_lt_upper_bound; unfold cycle in *; lia. }
    assert (- 12 ≤ t / cycle < 0); [|lia].
    split; [apply Z.div_le_lower_bound|apply Z.div_lt_upper_bound]; unfold cycle in *; lia.
Qed.

(** The text of a time stamp tells the time. *)
Lemma app_sep (a a' b b' : cstr) : length a = length a' → a ++ b = a' ++ b' → a = a' ∧ b = b'.
Proof. intros Hl H. by apply app_inj_1. Qed.

Lemma pad2_inj (a b : Z) (s s' : cstr) :
  0 ≤ a < 100 → 0 ≤ b < 100 → dec_pad 2 a ++ s = dec_pad 2 b ++ s' → a = b ∧ s = s'.
Proof.
  intros Ha Hb H. apply app_sep in H as [H ->]; [|by rewrite !dec_pad_length by (simpl; lia)].
  split; [|done]. apply (f_equal dec_val) in H. by rewrite !dec_val_pad in H by lia.
Qed.

Lemma digits_sep (a a' b b' : cstr) c :
  ¬ is_dec c → Forall is_dec a → Forall is_dec a' → a ++ c :: b = a' ++ c :: b' → a = a' ∧ b = b'.
Proof.
  intros Hc Ha. revert a'. induction Ha as [|x a Hx _ IH]; intros [|x' a'] Ha' H; cbn in H; injection H.
  - by intros ->.
  - intros _ <-. by apply Forall_cons in Ha' as [? _].
  - intros _ ->. done.
  - intros H' ->. apply Forall_cons in Ha' as [_ Ha']. by destruct (IH a' Ha' H') as [-> ->].
Qed.

Lemma stamp_inj c c' :
  valid c → valid c' → 0 ≤ year c → 0 ≤ year c' → stamp c = stamp c' → c = c'.
Proof.
  intros (Hm & Hd & _ & Hh & Hmi & Hs) (Hm' & Hd' & _ & Hh' & Hmi' & Hs') Hy Hy' H. unfold stamp in H.
  apply digits_sep in H as [H1 H]; [|unfold is_dec; cbn; lia|apply dec_text_ok; lia..].
  apply pad2_inj in H as [H2 [= H]%(app_inv_head $"-")]; [|lia..].
  apply pad2_inj in H as [H3 [= H]%(app_inv_head $" ")]; [|lia..].
  apply pad2_inj in H as [H4 [= H]%(app_inv_head $":")]; [|lia..].
  apply pad2_inj in H as [H5 [= H]%(app_inv_head $":")]; [|lia..].
  apply (f_equal dec_val) in H1, H. rewrite !dec_val_text in H1 by lia. rewrite !dec_val_pad in H by lia.
  destruct c, c'; cbn in *; by subst.
Qed.

Lemma stamp_length t : 0 ≤ t < 2 ^ 63 → (length (stamp (gmtime t)) ≤ 27)%nat.
Proof.
  intros Ht. destruct (gmtime_timegm t ltac:(lia)) as ((Hm & Hd & _ & Hh & Hmi & Hs) & [Hy Hle] & _).
  assert (t / 86400 / 365 ≤ 292471208678).
  { rewrite Z.div_div by lia. apply Z.div_le_upper_bound; lia. }
  unfold stamp. rewrite !length_app, !dec_pad_length by (simpl; lia).
  pose proof (dec_text_length 12 (year (gmtime t)) ltac:(lia) ltac:(simpl; lia)). cbn [length lit]. simpl. lia.
Qed.

End Calendar.

Module BlockTimeText.

(** [std::gmtime]: null when the year does not fit an [int]. *)
Definition gmtime (tt : Z) : option Calendar.tm :=
  let c := Calendar.gmtime tt in
  if (- 2 ^ 31 <=? Calendar.year c - 1900) && (Calendar.year c - 1900 <? 2 ^ 31) then Some c else None.

(** [setfill('0') << setw(3)] and a number, whose sign is filled up like a digit. *)
Definition padded (n : Z) : cstr :=
  let s := if n <? 0 then $"-" ++ dec_text (- n) else dec_text n in
  replicate (3 - length s) (chr "0") ++ s.

(** [src/src/block/Time.cpp:104-119] to_string

    None where a null pointer is printed. *)
Definition to_string (x : Time.t) : option cstr :=
  let tp := Time.getSystemClock x in
  let tt := Z.quot tp 1000000000 in
  gmt ← gmtime tt;
  let millis := Z.rem (Z.quot tp 1000000) 1000 in
  Some (Calendar.stamp gmt ++ $"." ++ padded millis).

(** Every block time has a text, of a date between the years 1677 and 2262. *)
Lemma quot_bounds tp : - 2 ^ 63 ≤ tp < 2 ^ 63 → - 9223372037 ≤ Z.quot tp 1000000000 ≤ 9223372036.
Proof.
  intros H. pose proof (Z.quot_rem' tp 1000000000). destruct (Z.leb_spec 0 tp).
  - pose proof (Z.rem_bound_pos tp 1000000000). lia.
  - pose proof (Z.rem_bound_pos (- tp) 1000000000). rewrite Z.rem_opp_l in * by lia. lia.
Qed.

Lemma block_time_text x :
  let tt := Z.quot (Time.getSystemClock x) 1000000000 in
  to_string x = Some (Calendar.stamp (Calendar.gmtime tt) ++ $"." ++
    padded (Z.rem (Z.quot (Time.getSystemClock x) 1000000) 1000)) ∧
  Calendar.valid (Calendar.gmtime tt) ∧ Calendar.timegm (Calendar.gmtime tt) = tt ∧
  - 9223372037 ≤ tt ≤ 9223372036.
Proof.
  cbv zeta. destruct (Time.getSystemClock_mod x) as (_ & _ & Hr). apply quot_bounds in Hr.
  unfold to_string, gmtime. set (tt := Z.quot _ 1000000000) in *.
  destruct (Calendar.gmtime_timegm_all tt) as [Hv Ht].
  pose proof (Calendar.gmtime_year tt ltac:(unfold Calendar.cycle; lia)) as Hy.
  by rewrite (proj2 (Z.leb_le _ _)), (proj2 (Z.ltb_lt _ _)) by lia.
Qed.

Lemma to_string_total x : is_Some (to_string x).
Proof. destruct (block_time_text x) as [-> _]. by eexists. Qed.

(** But it is the text of another moment: the second it tells is never the second the time
    stands for, whatever the time. *)
Lemma block_time_told_wrong x :
  is_u 64 (Time.sinceEpoch x) →
  Calendar.timegm (Calendar.gmtime (Z.quot (Time.getSystemClock x) 1000000000)) ≠
    (Time.sinceEpoch x + Time.fluffyEpochDelta) / 1000.
Proof.
  intros Hx. destruct (block_time_text x) as (_ & _ & -> & _).
  destruct (Time.getSystemClock_mod x) as (k & Hk & _). unfold is_u, Time.fluffyEpochDelta in *.
  set (tp := Time.getSystemClock x) in *. pose proof (Z.quot_rem' tp 1000000000) as Hq.
  assert (- 1000000000 < Z.rem tp 1000000000 < 1000000000) as Hrem.
  { pose proof (Z.rem_bound_abs tp 1000000000). lia. }
  pose proof (Z.div_mod (Time.sinceEpoch x + 0xD87B28B000) 1000 ltac:(lia)).
  pose proof (Z.mod_pos_bound (Time.sinceEpoch x + 0xD87B28B000) 1000 ltac:(lia)). lia.
Qed.

(** The fluffy epoch, an instant of June 1999, is printed as one of the year 2205. *)
Lemma epoch_text : to_string Time.dflt = Some $"2205-10-30 05:11:54.522".
Proof. vm_compute. reflexivity. Qed.

End BlockTimeText.
