(* ===== verification/BlockTx.v ===== *)
(** * Transactions and validator actions of [block/]

    Exchange, Transfer, Transaction, Register, Unregister, CredentialChange and
    MineAction: the classes, their ASN.1 structures and the conversions.  DER
    itself is OpenSSL's and a parameter ([Der]), with its round-trip law. *)

From S2P Require Import Prelude BinData Ossl BlockCore.

(** The generated [i2d_T] and [d2i_T] of an ASN.1 structure. *)
Class Der (T : Type) := {
  i2d : T → bytes;
  d2i : bytes → option T;
}.

(** Decoding what was encoded gives an equivalent structure, for structures
    that have an encoding. *)
Class DerLaws (T : Type) {D : Der T} (valid : T → Prop) (eqv : T → T → Prop) : Prop := {
  d2i_i2d t : valid t → ∃ t', d2i (i2d t) = Some t' ∧ eqv t t';
}.

(** Equal encodings come from equal structures, where the law says so exactly. *)
Lemma i2d_inj {T} {D : Der T} {valid} {L : DerLaws T valid eq} (a b : T) :
  valid a → valid b → i2d a = i2d b → a = b.
Proof.
  intros Ha Hb He. destruct (d2i_i2d a Ha) as (a' & Hda & <-), (d2i_i2d b Hb) as (b' & Hdb & <-).
  rewrite He in Hda. congruence.
Qed.

(** A codec for every countable type: the law can hold. *)
Definition pos_bits : positive → bytes :=
  fix go p := match p with xH => [] | xO p => 0 :: go p | xI p => 1 :: go p end.

Fixpoint bits_pos (l : bytes) : positive :=
  match l with [] => xH | b :: l => if b =? 0 then xO (bits_pos l) else xI (bits_pos l) end.

Lemma bits_pos_bits p : bits_pos (pos_bits p) = p.
Proof. induction p; simpl; by rewrite ?IHp. Qed.

Definition CountableDer (T : Type) `{Countable T} : Der T := {|
  i2d t := pos_bits (encode t);
  d2i b := decode (bits_pos b);
|}.

Lemma CountableDer_laws `{Countable T} (valid : T → Prop) (eqv : T → T → Prop) :
  (∀ t, eqv t t) → @DerLaws T (CountableDer T) valid eqv.
Proof.
  intros Hr. split. intros t _. exists t. split; [|done].
  unfold d2i, i2d; simpl. by rewrite bits_pos_bits, decode_encode.
Qed.

(** ** The stack helpers of [ossl/convert.h] *)
Module Stack.
Section Stack.
Context {B A : Type}.

(** [src/src/ossl/convert.h:33-47] FLUFFYCOIN_DEFINE_STACK_FUNCTIONS (to stack)

    The stack is emptied, then one new structure per object is filled and pushed;
    [None] when filling one dereferences a null pointer. *)
Definition toStack (toAsn1 : B → A → option A) (A_new : A) (st : list A) (objs : list B)
  : option (list A) :=
  mapM (λ cur, toAsn1 cur A_new) objs.

(** [src/src/ossl/convert.h:49-60] FLUFFYCOIN_DEFINE_STACK_FUNCTIONS (from stack)

    Each object is filled and then moved into the list: [move] is what arrives. *)
Definition fromStack (fromAsn1 : A → option B) (move : B → B) (st : list A) : option (list B) :=
  mapM (λ pt, move <$> fromAsn1 pt) st.

(** [src/src/ossl/convert.h:62-76] FLUFFYCOIN_DEFINE_STACK_FUNCTIONS_VEC (to stack) *)
Definition toStackVec (toAsn1 : B → A → option A) (A_new : A) (st : list A) (objs : list B)
  : option (list A) :=
  mapM (λ cur, toAsn1 cur A_new) objs.

(** [src/src/ossl/convert.h:78-90] FLUFFYCOIN_DEFINE_STACK_FUNCTIONS_VEC (from stack) *)
Definition fromStackVec (fromAsn1 : A → option B) (move : B → B) (st : list A) : option (list B) :=
  mapM (λ pt, move <$> fromAsn1 pt) st.

Lemma mapM_total (f : B → option A) (g : B → A) l :
  Forall (λ x, f x = Some (g x)) l → mapM f l = Some (g <$> l).
Proof. induction 1 as [|x l Hx Hl IH]; [done|]. simpl. by rewrite Hx, IH. Qed.
End Stack.

(** A round trip of the elements is one of the stacks, up to the final move. *)
Lemma from_to_stack {B A} (to : B → A → option A) (from : A → option B) move new st l a :
  Forall (λ x, ∀ y, to x new = Some y → from y = Some x) l →
  toStack to new st l = Some a → fromStack from move a = Some (move <$> l).
Proof.
  intros Hl. unfold toStack, fromStack. revert a.
  induction Hl as [|x l Hx Hl IH]; intros a Ha; simpl in Ha; [by injection Ha as <-|].
  destruct (to x new) as [y|] eqn:Ey; [|done]. simpl in Ha.
  destruct (mapM _ l) as [b|] eqn:Eb; [|done]. injection Ha as <-.
  simpl. rewrite (Hx y eq_refl). simpl. by rewrite (IH b eq_refl).
Qed.
End Stack.

Module Exchange.

(** [src/src/block/Exchange.cpp:12-22] asn1::Exchange *)
Record asn1 := Asn1 {
  t_receiver : bytes;
  t_amount : Specie.asn1;
}.

(** [src/src/block/Exchange.h:26-48] Exchange *)
Record t := mk {
  receiver : BlockAddress.t;
  amount : Specie.t;
}.

Definition dflt : t := mk BlockAddress.dflt Specie.dflt.
Definition asn1_new : asn1 := Asn1 [] Specie.asn1_new.

(** [src/src/block/Exchange.cpp:33-36] Exchange::getReceiver *)
Definition getReceiver (x : t) : BlockAddress.t := receiver x.

(** [src/src/block/Exchange.cpp:38-41] Exchange::setReceiver *)
Definition setReceiver (v : BlockAddress.t) (x : t) : t := mk v (amount x).

(** [src/src/block/Exchange.cpp:43-46] Exchange::getAmount *)
Definition getAmount (x : t) : Specie.t := amount x.

(** [src/src/block/Exchange.cpp:48-51] Exchange::setAmount *)
Definition setAmount (v : Specie.t) (x : t) : t := mk (receiver x) v.

(** [src/src/block/Exchange.cpp:53-57] Exchange::toAsn1 *)
Definition toAsn1 (x : t) (a : asn1) : asn1 :=
  Asn1 (BlockAddress.toAsn1 (receiver x) (t_receiver a)) (Specie.toAsn1 (amount x) (t_amount a)).

Section Read.
Context {L : Asn1Lib}.

(** [src/src/block/Exchange.cpp:59-63] Exchange::fromAsn1 *)
Definition fromAsn1 (a : asn1) : t :=
  mk (BlockAddress.fromAsn1 (t_receiver a)) (Specie.fromAsn1 (t_amount a)).

End Read.

#[global] Instance asn1_eq_dec : EqDecision asn1.
Proof. solve_decision. Defined.

#[global] Instance asn1_countable : Countable asn1 :=
  inj_countable' (λ a, (t_receiver a, t_amount a)) (λ '(a, b), Asn1 a b) ltac:(by intros []).

Definition ok (x : t) : Prop := Specie.ok (amount x).

Lemma Exchange_asn1 {L : Asn1Lib} {laws : Asn1Laws L} x a : ok x → fromAsn1 (toAsn1 x a) = x.
Proof.
  destruct x. unfold ok, fromAsn1, toAsn1; simpl. intros.
  by autorewrite with fluffy; rewrite Specie.Specie_asn1.
Qed.

End Exchange.

Module Transfer.

(** [src/src/block/Transfer.cpp:12-22] asn1::Transfer *)
Record asn1 := Asn1 {
  t_exchanges : list Exchange.asn1;
  t_coin : bytes;
}.

(** [src/src/block/Transfer.h:24-46] Transfer *)
Record t := mk {
  exchanges : list Exchange.t;
  coin : cstr;
}.

Definition dflt : t := mk [] [].
Definition asn1_new : asn1 := Asn1 [] [].

(** [src/src/block/Transfer.cpp:33-36] Transfer::getExchanges *)
Definition getExchanges (x : t) : list Exchange.t := exchanges x.

(** [src/src/block/Transfer.cpp:38-41] Transfer::setExchanges *)
Definition setExchanges (v : list Exchange.t) (x : t) : t := mk v (coin x).

(** [src/src/block/Transfer.cpp:43-46] Transfer::getCoin *)
Definition getCoin (x : t) : cstr := coin x.

(** [src/src/block/Transfer.cpp:48-51] Transfer::setCoin *)
Definition setCoin (v : cstr) (x : t) : t := mk (exchanges x) v.

(** [src/src/block/Transfer.cpp:53-57] Transfer::toAsn1 *)
Definition toAsn1 (x : t) (a : asn1) : option asn1 :=
  st ← Stack.toStack (λ cur pt, Some (Exchange.toAsn1 cur pt)) Exchange.asn1_new (t_exchanges a)
         (exchanges x);
  Some (Asn1 st (Convert.fromString (t_coin a) (coin x))).

Section Read.
Context {L : Asn1Lib}.

(** [src/src/block/Transfer.cpp:59-63] Transfer::fromAsn1 *)
Definition fromAsn1 (a : asn1) : option t :=
  es ← Stack.fromStack (λ pt, Some (Exchange.fromAsn1 pt)) id (t_exchanges a);
  Some (mk es (Convert.toString (t_coin a))).

End Read.

#[global] Instance asn1_eq_dec : EqDecision asn1.
Proof. solve_decision. Defined.

#[global] Instance asn1_countable : Countable asn1 :=
  inj_countable' (λ a, (t_exchanges a, t_coin a)) (λ '(a, b), Asn1 a b) ltac:(by intros []).

Definition ok (x : t) : Prop := Forall Exchange.ok (exchanges x).

Lemma transfer_toAsn1_total x a :
  toAsn1 x a = Some (Asn1 ((λ e, Exchange.toAsn1 e Exchange.asn1_new) <$> exchanges x) (coin x)).
Proof.
  unfold toAsn1, Stack.toStack.
  rewrite (Stack.mapM_total _ (λ e, Exchange.toAsn1 e Exchange.asn1_new)); [done|].
  by apply Forall_true.
Qed.

Lemma Transfer_asn1 {L : Asn1Lib} {laws : Asn1Laws L} x a b :
  ok x → toAsn1 x a = Some b → fromAsn1 b = Some x.
Proof.
  destruct x as [es c]. unfold ok, toAsn1, fromAsn1; simpl. intros Hok Hb.
  destruct (Stack.toStack _ _ _ es) as [st|] eqn:Est; simplify_eq/=.
  assert (Hl : Forall (λ x, ∀ y, Some (Exchange.toAsn1 x Exchange.asn1_new) = Some y →
                 Some (Exchange.fromAsn1 y) = Some x) es).
  { eapply Forall_impl; [exact Hok|]. intros e He y [= <-]. by rewrite Exchange.Exchange_asn1. }
  rewrite (Stack.from_to_stack _ (λ pt, Some (Exchange.fromAsn1 pt)) id _ _ _ _ Hl Est).
  simpl. by rewrite list_fmap_id; autorewrite with fluffy.
Qed.

End Transfer.

Module Transaction.

(** [src/src/block/Transaction.h:52-64] Transaction::Action *)
Inductive Action := ActNone | ActTransfer.

(** What the union of a choice points at. *)
Inductive union := Nullptr | UNull | UTransfer (x : Transfer.asn1).

(** [src/src/block/Transaction.cpp:15-46] asn1::TransactionChoice *)
Record choice := Choice {
  c_type : Z;
  c_u : union;
}.

(** [src/src/block/Transaction.cpp:50-68] asn1::TransactionContent *)
Record content := Content {
  t_time : Z;
  t_action : choice;
  t_signer : bytes;
  t_signerKey : bytes;
  t_newAddress : bytes;
}.

(** [src/src/block/Transaction.cpp:72-82] asn1::Transaction *)
Record asn1 := Asn1 {
  t_content : content;
  t_signature : bytes;
}.

(** [src/src/block/Transaction.h:42-131] Transaction *)
Record t := mk {
  type : Action;
  time : Time.t;
  signer : BlockAddress.t;
  signerKey : PublicKey.t;
  newAddress : BlockAddress.t;
  signature : Signature.t;
  transfer : option Transfer.t;
}.

(** [src/src/block/Transaction.cpp:93-96] Transaction::Transaction() *)
Definition dflt : t :=
  mk ActNone Time.dflt BlockAddress.dflt PublicKey.dflt BlockAddress.dflt Signature.dflt None.

(** A fresh structure: the choice is unset (-1). *)
Definition asn1_new : asn1 := Asn1 (Content 0 (Choice (-1) Nullptr) [] [] []) [].

(** [src/src/block/Transaction.cpp:126-138] Transaction::resetChoice *)
Definition resetChoice (x : t) : t :=
  mk ActNone (time x) (signer x) (signerKey x) (newAddress x) (signature x) None.

(** [src/src/block/Transaction.cpp:103-124] Transaction::operator=(Transaction &&)

    The target and the moved-from source. *)
Definition move_assign (x rhs : t) : t * t :=
  let x := resetChoice x in
  (mk (type rhs) (time x) (signer x) (signerKey x) (newAddress x) (signature x) (transfer rhs),
   resetChoice rhs).

(** [src/src/block/Transaction.cpp:98-101] Transaction::Transaction(Transaction &&) *)
Definition move_construct (rhs : t) : t := fst (move_assign dflt rhs).

(** [src/src/block/Transaction.cpp:140-143] Transaction::getAction *)
Definition getAction (x : t) : Action := type x.

(** [src/src/block/Transaction.cpp:231-234] Transaction::getTime *)
Definition getTime (x : t) : Time.t := time x.

(** [src/src/block/Transaction.cpp:236-239] Transaction::setTime *)
Definition setTime (v : Time.t) (x : t) : t := mk (type x) v (signer x) (signerKey x) (newAddress x) (signature x) (transfer x).

(** [src/src/block/Transaction.cpp:241-244] Transaction::getSigner *)
Definition getSigner (x : t) : BlockAddress.t := signer x.

(** [src/src/block/Transaction.cpp:246-249] Transaction::setSigner *)
Definition setSigner (v : BlockAddress.t) (x : t) : t := mk (type x) (time x) v (signerKey x) (newAddress x) (signature x) (transfer x).

(** [src/src/block/Transaction.cpp:251-254] Transaction::getSignerKey *)
Definition getSignerKey (x : t) : PublicKey.t := signerKey x.

(** [src/src/block/Transaction.cpp:256-259] Transaction::setSignerKey *)
Definition setSignerKey (v : PublicKey.t) (x : t) : t := mk (type x) (time x) (signer x) v (newAddress x) (signature x) (transfer x).

(** [src/src/block/Transaction.cpp:261-264] Transaction::getNewAddress *)
Definition getNewAddress (x : t) : BlockAddress.t := newAddress x.

(** [src/src/block/Transaction.cpp:266-269] Transaction::setNewAddress *)
Definition setNewAddress (v : BlockAddress.t) (x : t) : t := mk (type x) (time x) (signer x) (signerKey x) v (signature x) (transfer x).

(** [src/src/block/Transaction.cpp:271-274] Transaction::getSignature *)
Definition getSignature (x : t) : Signature.t := signature x.

(** [src/src/block/Transaction.cpp:276-279] Transaction::setSignature *)
Definition setSignature (v : Signature.t) (x : t) : t := mk (type x) (time x) (signer x) (signerKey x) (newAddress x) v (transfer x).

(** [src/src/block/Transaction.cpp:145-148] Transaction::getTransfer *)
Definition getTransfer (x : t) : option Transfer.t := transfer x.

(** [src/src/block/Transaction.cpp:150-155] Transaction::setTransfer *)
Definition setTransfer (v : Transfer.t) (x : t) : t :=
  let x := resetChoice x in
  mk ActTransfer (time x) (signer x) (signerKey x) (newAddress x) (signature x) (Some v).

(** [src/src/block/Transaction.cpp:328-368] Transaction::toAsn1 (new choice)

    [None] is a null pointer dereferenced. *)
Definition toChoice (x : t) : option choice :=
  match type x with
  | ActNone => Some (Choice 0 UNull)
  | ActTransfer =>
      tr ← transfer x;
      u ← Transfer.toAsn1 tr Transfer.asn1_new;
      Some (Choice 1 (UTransfer u))
  end.

(** [src/src/block/Transaction.cpp:281-375] Transaction::toAsn1

    The structure the choice held before is freed and replaced. *)
Definition toAsn1 (x : t) (a : asn1) : option asn1 :=
  c ← toChoice x;
  let k := t_content a in
  Some (Asn1 (Content (Time.toAsn1 (time x) (t_time k)) c
                      (BlockAddress.toAsn1 (signer x) (t_signer k))
                      (PublicKey.toAsn1 (signerKey x) (t_signerKey k))
                      (BlockAddress.toAsn1 (newAddress x) (t_newAddress k)))
             (Signature.toAsn1 (signature x) (t_signature a))).

Section Read.
Context {L : Asn1Lib}.

(** [src/src/block/Transaction.cpp:377-426] Transaction::fromAsn1 (choice)

    A union that does not hold what the type says is undefined behaviour. *)
Definition fromChoice (c : choice) : option (Action * option Transfer.t) :=
  if c_type c =? 0 then Some (ActNone, None)
  else if c_type c =? 1 then
    match c_u c with
    | UTransfer u => tr ← Transfer.fromAsn1 u; Some (ActTransfer, Some tr)
    | _ => None
    end
  else Some (ActNone, None).

(** [src/src/block/Transaction.cpp:377-433] Transaction::fromAsn1 *)
Definition fromAsn1 (a : asn1) : option t :=
  let k := t_content a in
  '(ty, tr) ← fromChoice (t_action k);
  Some (mk ty (Time.fromAsn1 (t_time k)) (BlockAddress.fromAsn1 (t_signer k))
           (PublicKey.fromAsn1 (t_signerKey k)) (BlockAddress.fromAsn1 (t_newAddress k))
           (Signature.fromAsn1 (t_signature a)) tr).

End Read.

Section Sign.
Context {D : Der content}.

(** [src/src/block/Transaction.cpp:435-442] Transaction::toContent

    The bytes that are signed. *)
Definition toContent (x : t) : option bytes :=
  obj ← toAsn1 x asn1_new;
  Some (BinData.contents (Encode.encode false (i2d (t_content obj)))).

End Sign.

#[global] Instance union_eq_dec : EqDecision union.
Proof. solve_decision. Defined.
#[global] Instance choice_eq_dec : EqDecision choice.
Proof. solve_decision. Defined.
#[global] Instance content_eq_dec : EqDecision content.
Proof. solve_decision. Defined.
#[global] Instance asn1_eq_dec : EqDecision asn1.
Proof. solve_decision. Defined.

#[global] Instance union_countable : Countable union :=
  inj_countable'
    (λ u, match u with Nullptr => None | UNull => Some (inl ()) | UTransfer x => Some (inr x) end)
    (λ o, match o with None => Nullptr | Some (inl _) => UNull | Some (inr x) => UTransfer x end)
    ltac:(by intros []).
#[global] Instance choice_countable : Countable choice :=
  inj_countable' (λ c, (c_type c, c_u c)) (λ '(a, b), Choice a b) ltac:(by intros []).
#[global] Instance content_countable : Countable content :=
  inj_countable' (λ k, (t_time k, t_action k, t_signer k, t_signerKey k, t_newAddress k))
    (λ '(a, b, c, d, e), Content a b c d e) ltac:(by intros []).
#[global] Instance asn1_countable : Countable asn1 :=
  inj_countable' (λ a, (t_content a, t_signature a)) (λ '(a, b), Asn1 a b) ltac:(by intros []).

(** *** The choice invariant *)

(** The pointer of the current action is set and no other one is. *)
Definition wf (x : t) : Prop :=
  match type x with
  | ActNone => transfer x = None
  | ActTransfer => is_Some (transfer x)
  end.

Definition ok (x : t) : Prop :=
  wf x ∧ Time.ok (time x) ∧ match transfer x with Some tr => Transfer.ok tr | None => True end.

(** A choice that has an encoding: the union holds what the type says. *)
Definition choice_valid (c : choice) : Prop :=
  (c_type c = 0 ∧ c_u c = UNull) ∨ (c_type c = 1 ∧ ∃ u, c_u c = UTransfer u).

Definition content_valid (k : content) : Prop := choice_valid (t_action k).

Lemma toChoice_wf x : wf x → ∃ c, toChoice x = Some c ∧ choice_valid c.
Proof.
  unfold wf, toChoice, choice_valid. destruct (type x).
  - intros _. eexists. split; [done|]. by left.
  - intros [tr ->]. simpl. rewrite Transfer.transfer_toAsn1_total. simpl.
    eexists. split; [done|]. right. eauto.
Qed.

Lemma tx_toAsn1_wf x a :
  wf x → ∃ b, toAsn1 x a = Some b ∧ content_valid (t_content b).
Proof.
  intros (c & Hc & Hv)%toChoice_wf. unfold toAsn1. rewrite Hc. simpl. by eexists.
Qed.

Lemma fromChoice_toChoice {L : Asn1Lib} {laws : Asn1Laws L} x c :
  ok x → toChoice x = Some c → fromChoice c = Some (type x, transfer x).
Proof.
  intros (Hw & _ & Ht). unfold wf, toChoice, fromChoice in *. destruct (type x).
  - intros [= <-]. simpl. by rewrite Hw.
  - destruct Hw as [tr Htr]. rewrite Htr in *. simpl.
    destruct (Transfer.toAsn1 tr _) as [u|] eqn:Eu; [|done]. intros [= <-]. simpl.
    by rewrite (Transfer.Transfer_asn1 _ _ _ Ht Eu).
Qed.

Lemma Transaction_asn1 {L : Asn1Lib} {laws : Asn1Laws L} x a b :
  ok x → toAsn1 x a = Some b → fromAsn1 b = Some x.
Proof.
  intros Hok. unfold toAsn1. destruct (toChoice x) as [c|] eqn:Ec; [|done]. intros [= <-].
  unfold fromAsn1; simpl. rewrite (fromChoice_toChoice _ _ Hok Ec). simpl.
  autorewrite with fluffy. rewrite Time.Time_asn1 by apply Hok. by destruct x.
Qed.

(** What a transaction is apart from its signature. *)
Definition signed_part (x : t) :=
  (type x, Time.get (time x), signer x, signerKey x, newAddress x, transfer x).

Lemma Exchange_toAsn1_inj e1 e2 a : Exchange.toAsn1 e1 a = Exchange.toAsn1 e2 a → e1 = e2.
Proof. destruct e1 as [[] []], e2 as [[] []]; cbv. congruence. Qed.

Lemma Transfer_toAsn1_inj x y a b :
  Transfer.toAsn1 x a = Some b → Transfer.toAsn1 y a = Some b → x = y.
Proof.
  rewrite !Transfer.transfer_toAsn1_total. destruct x as [e1 c1], y as [e2 c2]; simpl.
  intros [= <-] [= He ->]. f_equal. eapply list_fmap_eq_inj; [|done].
  intros ??. apply Exchange_toAsn1_inj.
Qed.

Lemma toChoice_inj x y c :
  wf x → wf y → toChoice x = Some c → toChoice y = Some c → (type x, transfer x) = (type y, transfer y).
Proof.
  unfold wf, toChoice. destruct (type x), (type y).
  - by intros -> ->.
  - intros _ [tr ->] [= <-]. simpl. by rewrite Transfer.transfer_toAsn1_total.
  - intros [tr ->] _. simpl. rewrite Transfer.transfer_toAsn1_total. by intros [= <-].
  - intros [t1 ->] [t2 ->]. simpl.
    destruct (Transfer.toAsn1 t1 _) as [u|] eqn:E1, (Transfer.toAsn1 t2 _) as [v|] eqn:E2;
      try done; simpl.
    intros [= <-] [= ->]. by rewrite (Transfer_toAsn1_inj _ _ _ _ E1 E2).
Qed.

(** A transaction's signature covers the whole transaction: the bytes that are
    signed can always be computed, and two transactions have the same signed bytes
    exactly when they agree on time, action, every exchange, signer, key and new
    address, that is on everything but the signature. *)
Theorem transaction_content_binds {D : Der content} {DL : DerLaws content content_valid eq}
    (x y : t) :
  wf x → wf y →
  is_Some (toContent x) ∧ (toContent x = toContent y ↔ signed_part x = signed_part y).
Proof.
  intros Hx Hy. unfold toContent.
  destruct (tx_toAsn1_wf x asn1_new Hx) as (a & Ha & Va), (tx_toAsn1_wf y asn1_new Hy) as (b & Hb & Vb).
  rewrite Ha, Hb. simpl. rewrite !Encode.encode_contents. split; [by eexists|].
  unfold toAsn1 in Ha, Hb. destruct (toChoice x) as [c|] eqn:Ec; simplify_eq/=.
  destruct (toChoice y) as [c'|] eqn:Ec'; simplify_eq/=.
  unfold signed_part, Time.get. split.
  - intros [= He]. apply i2d_inj in He; [|done..].
    destruct x as [? [] [] [] [] ? ?], y as [? [] [] [] [] ? ?].
    cbv in He. injection He as -> -> -> -> ->. simpl.
    pose proof (toChoice_inj _ _ _ Hx Hy Ec Ec') as [= -> ->]. done.
  - destruct x as [? [] ? ? ? ? ?], y as [? [] ? ? ? ? ?]. simpl. intros [= -> -> -> -> -> ->].
    unfold toChoice in Ec, Ec'; simpl in *. by rewrite Ec in Ec'; simplify_eq.
Qed.

Lemma transaction_content_binds_witness :
  let D := CountableDer content in
  is_Some (toContent (D := D) (setTransfer Transfer.dflt dflt)) ∧
  (toContent (D := D) (setTransfer Transfer.dflt dflt) = toContent (D := D) dflt ↔
   signed_part (setTransfer Transfer.dflt dflt) = signed_part dflt).
Proof.
  apply (transaction_content_binds (D := CountableDer content)
    (DL := CountableDer_laws content_valid eq (λ _, eq_refl))); [by eexists|done].
Defined.

(** Moving a transaction keeps its action but loses everything that authenticates
    it: the moved transaction has the zero time and empty signer, key, new address
    and signature, whatever the source had. *)
Theorem transaction_move_loses_signature (rhs : t) :
  let x := move_construct rhs in
  getAction x = getAction rhs ∧ getTransfer x = getTransfer rhs ∧
  getTime x = Time.dflt ∧ getSigner x = BlockAddress.dflt ∧ getSignerKey x = PublicKey.dflt ∧
  getNewAddress x = BlockAddress.dflt ∧ getSignature x = Signature.dflt.
Proof. by destruct rhs. Qed.

Lemma move_construct_wf x : wf x → wf (move_construct x).
Proof. by destruct x. Qed.

End Transaction.

Module Register.

(** [src/src/block/Register.cpp:13-33] asn1::RegisterContent *)
Record content := Content {
  t_stakeAmount : Specie.asn1;
  t_stakeAddress : bytes;
  t_stakeKey : bytes;
  t_newAddress : bytes;
  t_authAddress : bytes;
  t_authKey : bytes;
}.

(** [src/src/block/Register.cpp:37-49] asn1::Register *)
Record asn1 := Asn1 {
  t_content : content;
  t_stakeSignature : bytes;
  t_authSignature : bytes;
}.

(** [src/src/block/Register.h:27-77] Register *)
Record t := mk {
  stakeAmount : Specie.t;
  stakeAddress : BlockAddress.t;
  stakeKey : PublicKey.t;
  newAddress : BlockAddress.t;
  authAddress : BlockAddress.t;
  authKey : PublicKey.t;
  stakeSignature : Signature.t;
  authSignature : Signature.t;
}.

Definition dflt : t :=
  mk Specie.dflt BlockAddress.dflt PublicKey.dflt BlockAddress.dflt BlockAddress.dflt PublicKey.dflt
     Signature.dflt Signature.dflt.
Definition asn1_new : asn1 := Asn1 (Content Specie.asn1_new [] [] [] [] []) [] [].

(** [src/src/block/Register.cpp:60-63] Register::getStakeAmount *)
Definition getStakeAmount (x : t) : Specie.t := stakeAmount x.

(** [src/src/block/Register.cpp:65-68] Register::setStakeAmount *)
Definition setStakeAmount (v : Specie.t) (x : t) : t := mk v (stakeAddress x) (stakeKey x) (newAddress x) (authAddress x) (authKey x) (stakeSignature x) (authSignature x).

(** [src/src/block/Register.cpp:70-73] Register::getStakeAddress *)
Definition getStakeAddress (x : t) : BlockAddress.t := stakeAddress x.

(** [src/src/block/Register.cpp:75-78] Register::setStakeAddress *)
Definition setStakeAddress (v : BlockAddress.t) (x : t) : t := mk (stakeAmount x) v (stakeKey x) (newAddress x) (authAddress x) (authKey x) (stakeSignature x) (authSignature x).

(** [src/src/block/Register.cpp:80-83] Register::getStakeKey *)
Definition getStakeKey (x : t) : PublicKey.t := stakeKey x.

(** [src/src/block/Register.cpp:85-88] Register::setStakeKey *)
Definition setStakeKey (v : PublicKey.t) (x : t) : t := mk (stakeAmount x) (stakeAddress x) v (newAddress x) (authAddress x) (authKey x) (stakeSignature x) (authSignature x).

(** [src/src/block/Register.cpp:90-93] Register::getNewAddress *)
Definition getNewAddress (x : t) : BlockAddress.t := newAddress x.

(** [src/src/block/Register.cpp:95-98] Register::setNewAddress *)
Definition setNewAddress (v : BlockAddress.t) (x : t) : t := mk (stakeAmount x) (stakeAddress x) (stakeKey x) v (authAddress x) (authKey x) (stakeSignature x) (authSignature x).

(** [src/src/block/Register.cpp:100-103] Register::getAuthAddress *)
Definition getAuthAddress (x : t) : BlockAddress.t := authAddress x.

(** [src/src/block/Register.cpp:105-108] Register::setAuthAddress *)
Definition setAuthAddress (v : BlockAddress.t) (x : t) : t := mk (stakeAmount x) (stakeAddress x) (stakeKey x) (newAddress x) v (authKey x) (stakeSignature x) (authSignature x).

(** [src/src/block/Register.cpp:110-113] Register::getAuthKey *)
Definition getAuthKey (x : t) : PublicKey.t := authKey x.

(** [src/src/block/Register.cpp:115-118] Register::setAuthKey *)
Definition setAuthKey (v : PublicKey.t) (x : t) : t := mk (stakeAmount x) (stakeAddress x) (stakeKey x) (newAddress x) (authAddress x) v (stakeSignature x) (authSignature x).

(** [src/src/block/Register.cpp:120-123] Register::getStakeSignature *)
Definition getStakeSignature (x : t) : Signature.t := stakeSignature x.

(** [src/src/block/Register.cpp:125-128] Register::setStakeSignature *)
Definition setStakeSignature (v : Signature.t) (x : t) : t := mk (stakeAmount x) (stakeAddress x) (stakeKey x) (newAddress x) (authAddress x) (authKey x) v (authSignature x).

(** [src/src/block/Register.cpp:130-133] Register::getAuthSignature *)
Definition getAuthSignature (x : t) : Signature.t := authSignature x.

(** [src/src/block/Register.cpp:135-138] Register::setAuthSignature *)
Definition setAuthSignature (v : Signature.t) (x : t) : t := mk (stakeAmount x) (stakeAddress x) (stakeKey x) (newAddress x) (authAddress x) (authKey x) (stakeSignature x) v.

(** [src/src/block/Register.cpp:140-150] Register::toAsn1 *)
Definition toAsn1 (x : t) (a : asn1) : asn1 :=
  let k := t_content a in
  Asn1 (Content (Specie.toAsn1 (stakeAmount x) (t_stakeAmount k))
                (BlockAddress.toAsn1 (stakeAddress x) (t_stakeAddress k))
                (PublicKey.toAsn1 (stakeKey x) (t_stakeKey k))
                (BlockAddress.toAsn1 (newAddress x) (t_newAddress k))
                (BlockAddress.toAsn1 (authAddress x) (t_authAddress k))
                (PublicKey.toAsn1 (authKey x) (t_authKey k)))
       (Signature.toAsn1 (stakeSignature x) (t_stakeSignature a))
       (Signature.toAsn1 (authSignature x) (t_authSignature a)).

Section Read.
Context {L : Asn1Lib}.

(** [src/src/block/Register.cpp:152-162] Register::fromAsn1 *)
Definition fromAsn1 (a : asn1) : t :=
  let k := t_content a in
  mk (Specie.fromAsn1 (t_stakeAmount k)) (BlockAddress.fromAsn1 (t_stakeAddress k))
     (PublicKey.fromAsn1 (t_stakeKey k)) (BlockAddress.fromAsn1 (t_newAddress k))
     (BlockAddress.fromAsn1 (t_authAddress k)) (PublicKey.fromAsn1 (t_authKey k))
     (Signature.fromAsn1 (t_stakeSignature a)) (Signature.fromAsn1 (t_authSignature a)).

End Read.

Section Sign.
Context {D : Der content}.

(** [src/src/block/Register.cpp:164-171] Register::toContent *)
Definition toContent (x : t) : bytes :=
  BinData.contents (Encode.encode false (i2d (t_content (toAsn1 x asn1_new)))).

End Sign.

#[global] Instance content_eq_dec : EqDecision content.
Proof. solve_decision. Defined.
#[global] Instance content_countable : Countable content :=
  inj_countable' (λ k, (t_stakeAmount k, t_stakeAddress k, t_stakeKey k, t_newAddress k,
                        t_authAddress k, t_authKey k))
    (λ '(a, b, c, d, e, f), Content a b c d e f) ltac:(by intros []).

Lemma Register_asn1 {L : Asn1Lib} {laws : Asn1Laws L} x a :
  Specie.ok (stakeAmount x) → fromAsn1 (toAsn1 x a) = x.
Proof.
  destruct x. unfold fromAsn1, toAsn1; simpl. intros.
  by autorewrite with fluffy; rewrite Specie.Specie_asn1.
Qed.

End Register.

Module Unregister.

(** [src/src/block/Unregister.cpp:11-21] asn1::Unregister *)
Record asn1 := Asn1 {
  t_authAddress : bytes;
  t_authSignature : bytes;
}.

(** [src/src/block/Unregister.h:25-49] Unregister *)
Record t := mk {
  authAddress : BlockAddress.t;
  authSignature : Signature.t;
}.

Definition dflt : t := mk BlockAddress.dflt Signature.dflt.
Definition asn1_new : asn1 := Asn1 [] [].

(** [src/src/block/Unregister.cpp:32-35] Unregister::getAuthAddress *)
Definition getAuthAddress (x : t) : BlockAddress.t := authAddress x.

(** [src/src/block/Unregister.cpp:37-40] Unregister::setAuthAddress *)
Definition setAuthAddress (v : BlockAddress.t) (x : t) : t := mk v (authSignature x).

(** [src/src/block/Unregister.cpp:42-45] Unregister::getAuthSignature *)
Definition getAuthSignature (x : t) : Signature.t := authSignature x.

(** [src/src/block/Unregister.cpp:47-50] Unregister::setAuthSignature *)
Definition setAuthSignature (v : Signature.t) (x : t) : t := mk (authAddress x) v.

(** [src/src/block/Unregister.cpp:52-56] Unregister::toAsn1 *)
Definition toAsn1 (x : t) (a : asn1) : asn1 :=
  Asn1 (BlockAddress.toAsn1 (authAddress x) (t_authAddress a))
       (Signature.toAsn1 (authSignature x) (t_authSignature a)).

(** [src/src/block/Unregister.cpp:58-62] Unregister::fromAsn1 *)
Definition fromAsn1 (a : asn1) : t :=
  mk (BlockAddress.fromAsn1 (t_authAddress a)) (Signature.fromAsn1 (t_authSignature a)).

(** [src/src/block/Unregister.cpp:64-67] Unregister::toContent *)
Definition toContent (x : t) : bytes := BlockAddress.get (authAddress x).

Lemma Unregister_asn1 x a : fromAsn1 (toAsn1 x a) = x.
Proof. destruct x. unfold fromAsn1, toAsn1; simpl. by autorewrite with fluffy. Qed.

End Unregister.

Module CredentialChange.

(** [src/src/block/CredentialChange.cpp:13-33] asn1::CredentialChangeContent *)
Record content := Content {
  t_authAddress : bytes;
  t_newAuthAddress : bytes;
  t_newAuthKey : bytes;
  t_stakeAddress : bytes;
  t_stakeKey : bytes;
  t_newStakeAddress : bytes;
}.

(** [src/src/block/CredentialChange.cpp:37-51] asn1::CredentialChange *)
Record asn1 := Asn1 {
  t_content : content;
  t_authSignature : bytes;
  t_newAuthSignature : bytes;
  t_stakeSignature : bytes;
}.

(** [src/src/block/CredentialChange.h:24-77] CredentialChange *)
Record t := mk {
  authAddress : BlockAddress.t;
  newAuthAddress : BlockAddress.t;
  stakeAddress : BlockAddress.t;
  newStakeAddress : BlockAddress.t;
  newAuthKey : PublicKey.t;
  stakeKey : PublicKey.t;
  authSignature : Signature.t;
  newAuthSignature : Signature.t;
  stakeSignature : Signature.t;
}.

Definition dflt : t :=
  mk BlockAddress.dflt BlockAddress.dflt BlockAddress.dflt BlockAddress.dflt PublicKey.dflt
     PublicKey.dflt Signature.dflt Signature.dflt Signature.dflt.
Definition asn1_new : asn1 := Asn1 (Content [] [] [] [] [] []) [] [] [].

(** [src/src/block/CredentialChange.cpp:62-65] CredentialChange::getAuthAddress *)
Definition getAuthAddress (x : t) : BlockAddress.t := authAddress x.

(** [src/src/block/CredentialChange.cpp:67-70] CredentialChange::setAuthAddress *)
Definition setAuthAddress (v : BlockAddress.t) (x : t) : t := mk v (newAuthAddress x) (stakeAddress x) (newStakeAddress x) (newAuthKey x) (stakeKey x) (authSignature x) (newAuthSignature x) (stakeSignature x).

(** [src/src/block/CredentialChange.cpp:72-75] CredentialChange::getNewAuthAddress *)
Definition getNewAuthAddress (x : t) : BlockAddress.t := newAuthAddress x.

(** [src/src/block/CredentialChange.cpp:77-80] CredentialChange::setNewAuthAddress *)
Definition setNewAuthAddress (v : BlockAddress.t) (x : t) : t := mk (authAddress x) v (stakeAddress x) (newStakeAddress x) (newAuthKey x) (stakeKey x) (authSignature x) (newAuthSignature x) (stakeSignature x).

(** [src/src/block/CredentialChange.cpp:92-95] CredentialChange::getStakeAddress *)
Definition getStakeAddress (x : t) : BlockAddress.t := stakeAddress x.

(** [src/src/block/CredentialChange.cpp:97-100] CredentialChange::setStakeAddress *)
Definition setStakeAddress (v : BlockAddress.t) (x : t) : t := mk (authAddress x) (newAuthAddress x) v (newStakeAddress x) (newAuthKey x) (stakeKey x) (authSignature x) (newAuthSignature x) (stakeSignature x).

(** [src/src/block/CredentialChange.cpp:112-115] CredentialChange::getNewStakeAddress *)
Definition getNewStakeAddress (x : t) : BlockAddress.t := newStakeAddress x.

(** [src/src/block/CredentialChange.cpp:117-120] CredentialChange::setNewStakeAddress *)
Definition setNewStakeAddress (v : BlockAddress.t) (x : t) : t := mk (authAddress x) (newAuthAddress x) (stakeAddress x) v (newAuthKey x) (stakeKey x) (authSignature x) (newAuthSignature x) (stakeSignature x).

(** [src/src/block/CredentialChange.cpp:82-85] CredentialChange::getNewAuthKey *)
Definition getNewAuthKey (x : t) : PublicKey.t := newAuthKey x.

(** [src/src/block/CredentialChange.cpp:87-90] CredentialChange::setNewAuthKey *)
Definition setNewAuthKey (v : PublicKey.t) (x : t) : t := mk (authAddress x) (newAuthAddress x) (stakeAddress x) (newStakeAddress x) v (stakeKey x) (authSignature x) (newAuthSignature x) (stakeSignature x).

(** [src/src/block/CredentialChange.cpp:102-105] CredentialChange::getStakeKey *)
Definition getStakeKey (x : t) : PublicKey.t := stakeKey x.

(** [src/src/block/CredentialChange.cpp:107-110] CredentialChange::setStakeKey *)
Definition setStakeKey (v : PublicKey.t) (x : t) : t := mk (authAddress x) (newAuthAddress x) (stakeAddress x) (newStakeAddress x) (newAuthKey x) v (authSignature x) (newAuthSignature x) (stakeSignature x).

(** [src/src/block/CredentialChange.cpp:122-125] CredentialChange::getAuthSignature *)
Definition getAuthSignature (x : t) : Signature.t := authSignature x.

(** [src/src/block/CredentialChange.cpp:127-130] CredentialChange::setAuthSignature *)
Definition setAuthSignature (v : Signature.t) (x : t) : t := mk (authAddress x) (newAuthAddress x) (stakeAddress x) (newStakeAddress x) (newAuthKey x) (stakeKey x) v (newAuthSignature x) (stakeSignature x).

(** [src/src/block/CredentialChange.cpp:132-135] CredentialChange::getNewAuthSignature *)
Definition getNewAuthSignature (x : t) : Signature.t := newAuthSignature x.

(** [src/src/block/CredentialChange.cpp:137-140] CredentialChange::setNewAuthSignature *)
Definition setNewAuthSignature (v : Signature.t) (x : t) : t := mk (authAddress x) (newAuthAddress x) (stakeAddress x) (newStakeAddress x) (newAuthKey x) (stakeKey x) (authSignature x) v (stakeSignature x).

(** [src/src/block/CredentialChange.cpp:142-145] CredentialChange::getStakeSignature *)
Definition getStakeSignature (x : t) : Signature.t := stakeSignature x.

(** [src/src/block/CredentialChange.cpp:147-150] CredentialChange::setStakeSignature *)
Definition setStakeSignature (v : Signature.t) (x : t) : t := mk (authAddress x) (newAuthAddress x) (stakeAddress x) (newStakeAddress x) (newAuthKey x) (stakeKey x) (authSignature x) (newAuthSignature x) v.

(** [src/src/block/CredentialChange.cpp:152-163] CredentialChange::toAsn1 *)
Definition toAsn1 (x : t) (a : asn1) : asn1 :=
  let k := t_content a in
  Asn1 (Content (BlockAddress.toAsn1 (authAddress x) (t_authAddress k))
                (BlockAddress.toAsn1 (newAuthAddress x) (t_newAuthAddress k))
                (PublicKey.toAsn1 (newAuthKey x) (t_newAuthKey k))
                (BlockAddress.toAsn1 (stakeAddress x) (t_stakeAddress k))
                (PublicKey.toAsn1 (stakeKey x) (t_stakeKey k))
                (BlockAddress.toAsn1 (newStakeAddress x) (t_newStakeAddress k)))
       (Signature.toAsn1 (authSignature x) (t_authSignature a))
       (Signature.toAsn1 (newAuthSignature x) (t_newAuthSignature a))
       (Signature.toAsn1 (stakeSignature x) (t_stakeSignature a)).

(** [src/src/block/CredentialChange.cpp:165-176] CredentialChange::fromAsn1 *)
Definition fromAsn1 (a : asn1) : t :=
  let k := t_content a in
  mk (BlockAddress.fromAsn1 (t_authAddress k)) (BlockAddress.fromAsn1 (t_newAuthAddress k))
     (BlockAddress.fromAsn1 (t_stakeAddress k)) (BlockAddress.fromAsn1 (t_newStakeAddress k))
     (PublicKey.fromAsn1 (t_newAuthKey k)) (PublicKey.fromAsn1 (t_stakeKey k))
     (Signature.fromAsn1 (t_authSignature a)) (Signature.fromAsn1 (t_newAuthSignature a))
     (Signature.fromAsn1 (t_stakeSignature a)).

Section Sign.
Context {D : Der content}.

(** [src/src/block/CredentialChange.cpp:178-185] CredentialChange::toContent *)
Definition toContent (x : t) : bytes :=
  BinData.contents (Encode.encode false (i2d (t_content (toAsn1 x asn1_new)))).

End Sign.

#[global] Instance content_eq_dec : EqDecision content.
Proof. solve_decision. Defined.
#[global] Instance content_countable : Countable content :=
  inj_countable' (λ k, (t_authAddress k, t_newAuthAddress k, t_newAuthKey k, t_stakeAddress k,
                        t_stakeKey k, t_newStakeAddress k))
    (λ '(a, b, c, d, e, f), Content a b c d e f) ltac:(by intros []).

Lemma CredentialChange_asn1 x a : fromAsn1 (toAsn1 x a) = x.
Proof. destruct x. unfold fromAsn1, toAsn1; simpl. by autorewrite with fluffy. Qed.

End CredentialChange.

Module MineAction.

(** [src/src/block/MineAction.h:36-42] MineAction::Action *)
Inductive Action := ActNone | ActRegister | ActUnregister | ActCredentialChange.

Inductive union :=
  | Nullptr
  | UNull
  | URegister (x : Register.asn1)
  | UUnregister (x : Unregister.asn1)
  | UCredentialChange (x : CredentialChange.asn1).

(** [src/src/block/MineAction.cpp:13-30] asn1::MineAction *)
Record asn1 := Asn1 {
  c_type : Z;
  c_u : union;
}.

(** [src/src/block/MineAction.h:26-65] MineAction *)
Record t := mk {
  action : Action;
  tregister : option Register.t;
  unregister : option Unregister.t;
  credentialChange : option CredentialChange.t;
}.

(** [src/src/block/MineAction.cpp:44-47] MineAction::MineAction() *)
Definition dflt : t := mk ActNone None None None.

Definition asn1_new : asn1 := Asn1 (-1) Nullptr.

(** [src/src/block/MineAction.cpp:194-200] MineAction::resetChoice *)
Definition resetChoice (x : t) : t := mk ActNone None None None.

(** [src/src/block/MineAction.cpp:55-70] MineAction::operator=(MineAction &&)

    The target and the moved-from source. *)
Definition move_assign (x rhs : t) : t * t :=
  let x := resetChoice x in
  (mk (action rhs) (tregister rhs) (unregister rhs) (credentialChange rhs), resetChoice rhs).

(** [src/src/block/MineAction.cpp:49-53] MineAction::MineAction(MineAction &&) *)
Definition move_construct (rhs : t) : t := fst (move_assign dflt rhs).

(** [src/src/block/MineAction.cpp:72-75] MineAction::getAction *)
Definition getAction (x : t) : Action := action x.

(** [src/src/block/MineAction.cpp:77-80] MineAction::getRegister *)
Definition getRegister (x : t) : option Register.t := tregister x.

(** [src/src/block/MineAction.cpp:89-92] MineAction::getUnregister *)
Definition getUnregister (x : t) : option Unregister.t := unregister x.

(** [src/src/block/MineAction.cpp:101-104] MineAction::getCredentialChange *)
Definition getCredentialChange (x : t) : option CredentialChange.t := credentialChange x.

(** [src/src/block/MineAction.cpp:82-87] MineAction::setRegister *)
Definition setRegister (v : Register.t) (x : t) : t := mk ActRegister (Some v) None None.

(** [src/src/block/MineAction.cpp:94-99] MineAction::setUnregister *)
Definition setUnregister (v : Unregister.t) (x : t) : t := mk ActUnregister None (Some v) None.

(** [src/src/block/MineAction.cpp:106-111] MineAction::setCredentialChange *)
Definition setCredentialChange (v : CredentialChange.t) (x : t) : t := mk ActCredentialChange None None (Some v).

(** [src/src/block/MineAction.cpp:113-163] MineAction::toAsn1

    [None] is a null pointer dereferenced. *)
Definition toAsn1 (x : t) (a : asn1) : option asn1 :=
  match action x with
  | ActNone => Some (Asn1 0 UNull)
  | ActRegister => r ← tregister x; Some (Asn1 1 (URegister (Register.toAsn1 r Register.asn1_new)))
  | ActUnregister =>
      r ← unregister x; Some (Asn1 2 (UUnregister (Unregister.toAsn1 r Unregister.asn1_new)))
  | ActCredentialChange =>
      r ← credentialChange x;
      Some (Asn1 3 (UCredentialChange (CredentialChange.toAsn1 r CredentialChange.asn1_new)))
  end.

Section Read.
Context {L : Asn1Lib}.

(** [src/src/block/MineAction.cpp:165-192] MineAction::fromAsn1

    [None]: the union does not hold what the type says. *)
Definition fromAsn1 (a : asn1) : option t :=
  if c_type a =? 0 then Some dflt
  else if c_type a =? 1 then
    match c_u a with URegister u => Some (setRegister (Register.fromAsn1 u) dflt) | _ => None end
  else if c_type a =? 2 then
    match c_u a with
    | UUnregister u => Some (setUnregister (Unregister.fromAsn1 u) dflt)
    | _ => None
    end
  else if c_type a =? 3 then
    match c_u a with
    | UCredentialChange u => Some (setCredentialChange (CredentialChange.fromAsn1 u) dflt)
    | _ => None
    end
  else Some dflt.

End Read.

(** Exactly the pointer of the current action is set. *)
Definition wf (x : t) : Prop :=
  match action x with
  | ActNone => tregister x = None ∧ unregister x = None ∧ credentialChange x = None
  | ActRegister => is_Some (tregister x) ∧ unregister x = None ∧ credentialChange x = None
  | ActUnregister => tregister x = None ∧ is_Some (unregister x) ∧ credentialChange x = None
  | ActCredentialChange => tregister x = None ∧ unregister x = None ∧ is_Some (credentialChange x)
  end.

Definition ok (x : t) : Prop :=
  wf x ∧ match tregister x with Some r => Specie.ok (Register.stakeAmount r) | None => True end.

(** The calls that change a validator action. *)
Inductive op :=
  | OpRegister (v : Register.t)
  | OpUnregister (v : Unregister.t)
  | OpCredentialChange (v : CredentialChange.t)
  | OpMoveFrom (rhs : t).

Definition exec (o : op) (x : t) : t :=
  match o with
  | OpRegister v => setRegister v x
  | OpUnregister v => setUnregister v x
  | OpCredentialChange v => setCredentialChange v x
  | OpMoveFrom rhs => fst (move_assign x rhs)
  end.

Definition op_ok (o : op) : Prop :=
  match o with
  | OpRegister v => Specie.ok (Register.stakeAmount v)
  | OpMoveFrom rhs => ok rhs
  | _ => True
  end.

Lemma exec_ok o x : op_ok o → ok x → ok (exec o x).
Proof.
  destruct o as [v|v|v|[ac r u c]]; unfold ok, wf; simpl; intros Ho Hx; try done.
  all: split; [split_and!; (by eexists) || done|done].
Qed.

(** A validator action is never in an inconsistent state: after any sequence of
    sets and moves, serialising it does not touch a null pointer, and reading the
    structure back gives the same action. *)
Theorem mine_action_roundtrip {L : Asn1Lib} {laws : Asn1Laws L} (os : list op) (a : asn1) :
  Forall op_ok os →
  let x := foldl (λ x o, exec o x) dflt os in
  ∃ b, toAsn1 x a = Some b ∧ fromAsn1 b = Some x.
Proof.
  intros Hos. assert (Hok : ok (foldl (λ x o, exec o x) dflt os)).
  { assert (H0 : ok dflt) by done. revert H0. generalize dflt.
    induction Hos as [|o os Ho Hos IH]; intros x Hx; [done|]. simpl. by apply IH, exec_ok. }
  intros x. fold x in Hok. destruct x as [ac r u c]; unfold ok, wf in Hok; simpl in Hok.
  unfold toAsn1, fromAsn1; simpl. destruct ac.
  - destruct Hok as [(-> & -> & ->) _]. by eexists.
  - destruct Hok as [([r' ->] & -> & ->) Hs]. eexists. split; [done|]. simpl.
    by rewrite Register.Register_asn1.
  - destruct Hok as [(-> & [u' ->] & ->) Hs]. eexists. split; [done|]. simpl.
    by rewrite Unregister.Unregister_asn1.
  - destruct Hok as [(-> & -> & [c' ->]) Hs]. eexists. split; [done|]. simpl.
    by rewrite CredentialChange.CredentialChange_asn1.
Qed.

Lemma mine_action_roundtrip_witness :
  ∃ b, toAsn1 (setUnregister Unregister.dflt dflt) asn1_new = Some b ∧
       fromAsn1 (L := Convert.Asn1Z) b = Some (setUnregister Unregister.dflt dflt).
Proof.
  apply (mine_action_roundtrip (L := Convert.Asn1Z) [OpUnregister Unregister.dflt]).
  by repeat constructor.
Defined.

(** Each signature of a validator's registration or credential change covers all
    of the request: the signed bytes of two requests are equal exactly when their
    amounts, addresses and keys are, the signatures themselves excepted; for an
    unregistration they are the authentication address. *)
Theorem mine_content_binds {D : Der Register.content}
    {DL : DerLaws Register.content (λ _, True) eq}
    {D' : Der CredentialChange.content} {DL' : DerLaws CredentialChange.content (λ _, True) eq}
    (r1 r2 : Register.t) (c1 c2 : CredentialChange.t) (u1 u2 : Unregister.t) :
  (Register.toContent r1 = Register.toContent r2 ↔
   Register.setStakeSignature Signature.dflt (Register.setAuthSignature Signature.dflt r1) =
   Register.setStakeSignature Signature.dflt (Register.setAuthSignature Signature.dflt r2)) ∧
  (CredentialChange.toContent c1 = CredentialChange.toContent c2 ↔
   CredentialChange.mk (CredentialChange.authAddress c1) (CredentialChange.newAuthAddress c1)
     (CredentialChange.stakeAddress c1) (CredentialChange.newStakeAddress c1)
     (CredentialChange.newAuthKey c1) (CredentialChange.stakeKey c1)
     Signature.dflt Signature.dflt Signature.dflt =
   CredentialChange.mk (CredentialChange.authAddress c2) (CredentialChange.newAuthAddress c2)
     (CredentialChange.stakeAddress c2) (CredentialChange.newStakeAddress c2)
     (CredentialChange.newAuthKey c2) (CredentialChange.stakeKey c2)
     Signature.dflt Signature.dflt Signature.dflt) ∧
  (Unregister.toContent u1 = Unregister.toContent u2 ↔
   Unregister.authAddress u1 = Unregister.authAddress u2).
Proof.
  unfold Register.toContent, CredentialChange.toContent. rewrite !Encode.encode_contents.
  split_and!; (split; [intros He; try apply i2d_inj in He; try done|]).
  - destruct r1 as [[] [] [] [] [] [] ? ?], r2 as [[] [] [] [] [] [] ? ?].
    cbv in He. by injection He as -> -> -> -> -> -> ->.
  - destruct r1, r2. by intros [= -> -> -> -> -> ->].
  - destruct c1 as [[] [] [] [] [] [] ? ? ?], c2 as [[] [] [] [] [] [] ? ? ?].
    cbv in He. by injection He as -> -> -> -> -> ->.
  - destruct c1, c2. by intros [= -> -> -> -> -> ->].
  - destruct u1 as [[] ?], u2 as [[] ?]. cbv in He. by subst.
  - destruct u1, u2; simpl. by intros ->.
Qed.

Lemma mine_content_binds_witness :
  Register.toContent (D := CountableDer Register.content)
    (Register.setAuthSignature (Signature.mk [1]) Register.dflt) =
  Register.toContent (D := CountableDer Register.content) Register.dflt.
Proof.
  apply (proj1 (mine_content_binds (D := CountableDer Register.content)
    (DL := CountableDer_laws _ eq (λ _, eq_refl))
    (D' := CountableDer CredentialChange.content)
    (DL' := CountableDer_laws _ eq (λ _, eq_refl))
    (Register.setAuthSignature (Signature.mk [1]) Register.dflt) Register.dflt
    CredentialChange.dflt CredentialChange.dflt Unregister.dflt Unregister.dflt)). reflexivity.
Defined.

End MineAction.
