(* ===== verification/BlockChain.v ===== *)
(** * Blocks: [block/Genesis], [block/Reconciliation], [block/Node], [block/Block]
      and [block/decode]

    A block is a choice of three kinds.  Copying a block, and storing and loading
    it, go through its ASN.1 structure; DER is a parameter whose law gives back
    the structure up to the order of the votes, which are a SET OF. *)

From S2P Require Import Prelude BinData Ossl BlockCore BlockTx.

Module Genesis.

(** [src/src/block/Genesis.cpp:14-38] asn1::Genesis *)
Record asn1 := Asn1 {
  t_protocol : Z;
  t_name : bytes;
  t_version : Z;
  t_creation : Z;
  t_creator : bytes;
  t_validatorKey : bytes;
  t_stakeAddress : bytes;
  t_greed : Specie.asn1;
  t_seed : bytes;
}.

(** [src/src/block/Genesis.h:30-83] Genesis *)
Record t := mk {
  protocol : Z;
  name : cstr;
  version : Z;
  creation : Time.t;
  creator : BlockAddress.t;
  validatorKey : PublicKey.t;
  stakeAddress : BlockAddress.t;
  greed : Specie.t;
  seed : bytes;
}.

(** [src/src/block/Genesis.cpp:49-53] Genesis::Genesis *)
Definition dflt : t :=
  mk 0 [] 0 Time.dflt BlockAddress.dflt PublicKey.dflt BlockAddress.dflt Specie.dflt [].

Definition asn1_new : asn1 := Asn1 0 [] 0 0 [] [] [] Specie.asn1_new [].

(** [src/src/block/Genesis.cpp:55-58] Genesis::getProtocol *)
Definition getProtocol (x : t) : Z := protocol x.

(** [src/src/block/Genesis.cpp:60-63] Genesis::setProtocol *)
Definition setProtocol (v : Z) (x : t) : t := mk v (name x) (version x) (creation x) (creator x) (validatorKey x) (stakeAddress x) (greed x) (seed x).

(** [src/src/block/Genesis.cpp:65-68] Genesis::getName *)
Definition getName (x : t) : cstr := name x.

(** [src/src/block/Genesis.cpp:70-73] Genesis::setName *)
Definition setName (v : cstr) (x : t) : t := mk (protocol x) v (version x) (creation x) (creator x) (validatorKey x) (stakeAddress x) (greed x) (seed x).

(** [src/src/block/Genesis.cpp:75-78] Genesis::getVersion *)
Definition getVersion (x : t) : Z := version x.

(** [src/src/block/Genesis.cpp:80-83] Genesis::setVersion *)
Definition setVersion (v : Z) (x : t) : t := mk (protocol x) (name x) v (creation x) (creator x) (validatorKey x) (stakeAddress x) (greed x) (seed x).

(** [src/src/block/Genesis.cpp:85-88] Genesis::getCreation *)
Definition getCreation (x : t) : Time.t := creation x.

(** [src/src/block/Genesis.cpp:90-93] Genesis::setCreation *)
Definition setCreation (v : Time.t) (x : t) : t := mk (protocol x) (name x) (version x) v (creator x) (validatorKey x) (stakeAddress x) (greed x) (seed x).

(** [src/src/block/Genesis.cpp:95-98] Genesis::getCreator *)
Definition getCreator (x : t) : BlockAddress.t := creator x.

(** [src/src/block/Genesis.cpp:100-103] Genesis::setCreator *)
Definition setCreator (v : BlockAddress.t) (x : t) : t := mk (protocol x) (name x) (version x) (creation x) v (validatorKey x) (stakeAddress x) (greed x) (seed x).

(** [src/src/block/Genesis.cpp:105-108] Genesis::getValidatorKey *)
Definition getValidatorKey (x : t) : PublicKey.t := validatorKey x.

(** [src/src/block/Genesis.cpp:110-113] Genesis::setValidatorKey *)
Definition setValidatorKey (v : PublicKey.t) (x : t) : t := mk (protocol x) (name x) (version x) (creation x) (creator x) v (stakeAddress x) (greed x) (seed x).

(** [src/src/block/Genesis.cpp:115-118] Genesis::getStakeAddress *)
Definition getStakeAddress (x : t) : BlockAddress.t := stakeAddress x.

(** [src/src/block/Genesis.cpp:120-123] Genesis::setStakeAddress *)
Definition setStakeAddress (v : BlockAddress.t) (x : t) : t := mk (protocol x) (name x) (version x) (creation x) (creator x) (validatorKey x) v (greed x) (seed x).

(** [src/src/block/Genesis.cpp:125-128] Genesis::getGreed *)
Definition getGreed (x : t) : Specie.t := greed x.

(** [src/src/block/Genesis.cpp:130-133] Genesis::setGreed *)
Definition setGreed (v : Specie.t) (x : t) : t := mk (protocol x) (name x) (version x) (creation x) (creator x) (validatorKey x) (stakeAddress x) v (seed x).

(** [src/src/block/Genesis.cpp:135-138] Genesis::getSeed *)
Definition getSeed (x : t) : bytes := seed x.

(** [src/src/block/Genesis.cpp:140-143] Genesis::setSeed *)
Definition setSeed (v : bytes) (x : t) : t := mk (protocol x) (name x) (version x) (creation x) (creator x) (validatorKey x) (stakeAddress x) (greed x) v.

(** [src/src/block/Genesis.cpp:145-156] Genesis::toAsn1 *)
Definition toAsn1 (x : t) (a : asn1) : asn1 :=
  Asn1 (Convert.fromUInt64 (t_protocol a) (protocol x)) (Convert.fromBin (t_name a) (name x))
       (Convert.fromUInt64 (t_version a) (version x)) (Time.toAsn1 (creation x) (t_creation a))
       (BlockAddress.toAsn1 (creator x) (t_creator a))
       (PublicKey.toAsn1 (validatorKey x) (t_validatorKey a))
       (BlockAddress.toAsn1 (stakeAddress x) (t_stakeAddress a))
       (Specie.toAsn1 (greed x) (t_greed a)) (Convert.fromBin (t_seed a) (seed x)).

Section Read.
Context {L : Asn1Lib}.

(** [src/src/block/Genesis.cpp:158-169] Genesis::fromAsn1 *)
Definition fromAsn1 (a : asn1) : t :=
  mk (Convert.toUInt32 (t_protocol a)) (Convert.toString (t_name a))
     (Convert.toUInt32 (t_version a)) (Time.fromAsn1 (t_creation a))
     (BlockAddress.fromAsn1 (t_creator a)) (PublicKey.fromAsn1 (t_validatorKey a))
     (BlockAddress.fromAsn1 (t_stakeAddress a)) (Specie.fromAsn1 (t_greed a))
     (Convert.toBin (t_seed a)).

End Read.

Section Enc.
Context {D : Der asn1}.

(** [src/src/block/Genesis.cpp:171-178] Genesis::encode *)
Definition encode (x : t) : bytes :=
  BinData.contents (Encode.encode false (i2d (toAsn1 x asn1_new))).

End Enc.

#[global] Instance asn1_eq_dec : EqDecision asn1.
Proof. solve_decision. Defined.
#[global] Instance asn1_countable : Countable asn1 :=
  inj_countable' (λ a, (t_protocol a, t_name a, t_version a, t_creation a, t_creator a,
                        t_validatorKey a, t_stakeAddress a, t_greed a, t_seed a))
    (λ '(a, b, c, d, e, f, g, h, i), Asn1 a b c d e f g h i) ltac:(by intros []).

Definition ok (x : t) : Prop :=
  is_u 32 (protocol x) ∧ is_u 32 (version x) ∧ Time.ok (creation x) ∧ Specie.ok (greed x).

Lemma Genesis_asn1 {L : Asn1Lib} {laws : Asn1Laws L} x a : ok x → fromAsn1 (toAsn1 x a) = x.
Proof.
  destruct x. intros (Hp & Hv & Hc & Hg). unfold fromAsn1, toAsn1; simpl in *.
  autorewrite with fluffy. rewrite Time.Time_asn1, Specie.Specie_asn1 by done.
  pose proof (Convert.toUInt32_from 0 _ Hp) as Ep. pose proof (Convert.toUInt32_from 0 _ Hv) as Ev.
  unfold Convert.fromUInt32, Convert.fromUInt64 in *. by rewrite Ep, Ev.
Qed.

End Genesis.

Module ReconciliationShardInfo.

(** [src/src/block/Reconciliation.cpp:15-25] asn1::ReconciliationShardInfo *)
Record asn1 := Asn1 {
  t_hash : BlockHash.asn1;
  t_blocks : Z;
}.

(** [src/src/block/Reconciliation.h:34-49] ReconciliationShardInfo *)
Record t := mk {
  hash : BlockHash.t;
  blocks : Z;
}.

(** [src/src/block/Reconciliation.cpp:180-186] ReconciliationShardInfo::ReconciliationShardInfo *)
Definition make (hash : BlockHash.t) (blocks : Z) : t := mk hash blocks.

Definition asn1_new : asn1 := Asn1 BlockHash.asn1_new 0.

(** [src/src/block/Reconciliation.cpp:188-192] ReconciliationShardInfo::toAsn1 *)
Definition toAsn1 (x : t) (a : asn1) : asn1 :=
  Asn1 (BlockHash.toAsn1 (hash x) (t_hash a)) (Convert.fromUInt32 (t_blocks a) (blocks x)).

Section Read.
Context {L : Asn1Lib}.

(** [src/src/block/Reconciliation.cpp:194-198] ReconciliationShardInfo::fromAsn1 *)
Definition fromAsn1 (a : asn1) : t :=
  mk (BlockHash.fromAsn1 (t_hash a)) (Convert.toUInt32 (t_blocks a)).

End Read.

#[global] Instance asn1_eq_dec : EqDecision asn1.
Proof. solve_decision. Defined.
#[global] Instance asn1_countable : Countable asn1 :=
  inj_countable' (λ a, (t_hash a, t_blocks a)) (λ '(a, b), Asn1 a b) ltac:(by intros []).

Definition ok (x : t) : Prop := is_u 32 (blocks x).

Lemma ShardInfo_asn1 {L : Asn1Lib} {laws : Asn1Laws L} x a : ok x → fromAsn1 (toAsn1 x a) = x.
Proof.
  destruct x. unfold ok, fromAsn1, toAsn1; simpl. intros.
  autorewrite with fluffy. by rewrite Convert.toUInt32_from.
Qed.

End ReconciliationShardInfo.

Module Reconciliation.

(** [src/src/block/Reconciliation.cpp:30-48] asn1::ReconciliationContent *)
Record content := Content {
  t_protocol : Z;
  t_time : Z;
  t_chainId : Z;
  t_shardInfo : list ReconciliationShardInfo.asn1;
  t_leader : bytes;
}.

(** [src/src/block/Reconciliation.cpp:53-65] asn1::Reconciliation *)
Record asn1 := Asn1 {
  t_content : content;
  t_signature : bytes;
  t_votes : list Validation.asn1;
}.

(** [src/src/block/Reconciliation.h:54-95] Reconciliation *)
Record t := mk {
  protocol : Z;
  chainId : Z;
  shardInfo : list ReconciliationShardInfo.t;
  leader : BlockAddress.t;
  signature : Signature.t;
  votes : list Validation.t;
}.

(** [src/src/block/Reconciliation.cpp:76-80] Reconciliation::Reconciliation *)
Definition dflt : t := mk 0 0 [] BlockAddress.dflt Signature.dflt [].

Definition asn1_new : asn1 := Asn1 (Content 0 0 0 [] []) [] [].

(** [src/src/block/Reconciliation.cpp:82-85] Reconciliation::getProtocol *)
Definition getProtocol (x : t) : Z := protocol x.

(** [src/src/block/Reconciliation.cpp:87-90] Reconciliation::setProtocol *)
Definition setProtocol (v : Z) (x : t) : t := mk v (chainId x) (shardInfo x) (leader x) (signature x) (votes x).

(** [src/src/block/Reconciliation.cpp:92-95] Reconciliation::getChainId *)
Definition getChainId (x : t) : Z := chainId x.

(** [src/src/block/Reconciliation.cpp:97-100] Reconciliation::setChainId *)
Definition setChainId (v : Z) (x : t) : t := mk (protocol x) v (shardInfo x) (leader x) (signature x) (votes x).

(** [src/src/block/Reconciliation.cpp:102-105] Reconciliation::getShardInfo *)
Definition getShardInfo (x : t) : list ReconciliationShardInfo.t := shardInfo x.

(** [src/src/block/Reconciliation.cpp:107-110] Reconciliation::setShardInfo *)
Definition setShardInfo (v : list ReconciliationShardInfo.t) (x : t) : t := mk (protocol x) (chainId x) v (leader x) (signature x) (votes x).

(** [src/src/block/Reconciliation.cpp:112-115] Reconciliation::getLeader *)
Definition getLeader (x : t) : BlockAddress.t := leader x.

(** [src/src/block/Reconciliation.cpp:117-120] Reconciliation::setLeader *)
Definition setLeader (v : BlockAddress.t) (x : t) : t := mk (protocol x) (chainId x) (shardInfo x) v (signature x) (votes x).

(** [src/src/block/Reconciliation.cpp:122-125] Reconciliation::getSignature *)
Definition getSignature (x : t) : Signature.t := signature x.

(** [src/src/block/Reconciliation.cpp:127-130] Reconciliation::setSignature *)
Definition setSignature (v : Signature.t) (x : t) : t := mk (protocol x) (chainId x) (shardInfo x) (leader x) v (votes x).

(** [src/src/block/Reconciliation.cpp:132-135] Reconciliation::getVotes *)
Definition getVotes (x : t) : list Validation.t := votes x.

(** [src/src/block/Reconciliation.cpp:137-140] Reconciliation::setVotes *)
Definition setVotes (v : list Validation.t) (x : t) : t := mk (protocol x) (chainId x) (shardInfo x) (leader x) (signature x) v.

(** [src/src/block/Reconciliation.cpp:142-150] Reconciliation::toAsn1

    The time of the structure is left as it was. *)
Definition toAsn1 (x : t) (a : asn1) : option asn1 :=
  let k := t_content a in
  infos ← Stack.toStackVec (λ cur pt, Some (ReconciliationShardInfo.toAsn1 cur pt))
            ReconciliationShardInfo.asn1_new (t_shardInfo k) (shardInfo x);
  vs ← Stack.toStack (λ cur pt, Some (Validation.toAsn1 cur pt)) Validation.asn1_new
         (t_votes a) (votes x);
  Some (Asn1 (Content (Convert.fromUInt32 (t_protocol k) (protocol x)) (t_time k)
                      (Convert.fromUInt32 (t_chainId k) (chainId x)) infos
                      (BlockAddress.toAsn1 (leader x) (t_leader k)))
             (Signature.toAsn1 (signature x) (t_signature a)) vs).

Section Read.
Context {L : Asn1Lib}.

(** [src/src/block/Reconciliation.cpp:152-160] Reconciliation::fromAsn1 *)
Definition fromAsn1 (a : asn1) : option t :=
  let k := t_content a in
  infos ← Stack.fromStackVec (λ pt, Some (ReconciliationShardInfo.fromAsn1 pt)) id (t_shardInfo k);
  vs ← Stack.fromStack (λ pt, Some (Validation.fromAsn1 pt)) id (t_votes a);
  Some (mk (Convert.toUInt32 (t_protocol k)) (Convert.toUInt32 (t_chainId k)) infos
           (BlockAddress.fromAsn1 (t_leader k)) (Signature.fromAsn1 (t_signature a)) vs).

End Read.

Section Enc.
Context {D : Der asn1} {Dc : Der content}.

(** [src/src/block/Reconciliation.cpp:162-169] Reconciliation::toContent *)
Definition toContent (x : t) : option bytes :=
  obj ← toAsn1 x asn1_new;
  Some (BinData.contents (Encode.encode false (i2d (t_content obj)))).

(** [src/src/block/Reconciliation.cpp:171-178] Reconciliation::encode *)
Definition encode (x : t) : option bytes :=
  obj ← toAsn1 x asn1_new;
  Some (BinData.contents (Encode.encode false (i2d obj))).

End Enc.

#[global] Instance content_eq_dec : EqDecision content.
Proof. solve_decision. Defined.
#[global] Instance content_countable : Countable content :=
  inj_countable' (λ k, (t_protocol k, t_time k, t_chainId k, t_shardInfo k, t_leader k))
    (λ '(a, b, c, d, e), Content a b c d e) ltac:(by intros []).
#[global] Instance asn1_eq_dec : EqDecision asn1.
Proof. solve_decision. Defined.
#[global] Instance asn1_countable : Countable asn1 :=
  inj_countable' (λ a, (t_content a, t_signature a, t_votes a)) (λ '(a, b, c), Asn1 a b c)
    ltac:(by intros []).

Definition ok (x : t) : Prop :=
  is_u 32 (protocol x) ∧ is_u 32 (chainId x) ∧ Forall ReconciliationShardInfo.ok (shardInfo x).

(** Equal up to the order of the votes. *)
Definition same (x y : t) : Prop :=
  setVotes [] x = setVotes [] y ∧ votes x ≡ₚ votes y.

Definition eqv (a b : asn1) : Prop :=
  t_content a = t_content b ∧ t_signature a = t_signature b ∧
  Validation.set_eqv (t_votes a) (t_votes b).

Lemma recon_toAsn1_total x a :
  toAsn1 x a = Some (Asn1
    (Content (protocol x) (t_time (t_content a)) (chainId x)
       ((λ i, ReconciliationShardInfo.toAsn1 i ReconciliationShardInfo.asn1_new) <$> shardInfo x)
       (BlockAddress.get (leader x)))
    (Signature.get (signature x))
    ((λ v, Validation.toAsn1 v Validation.asn1_new) <$> votes x)).
Proof.
  unfold toAsn1, Stack.toStackVec, Stack.toStack.
  rewrite (Stack.mapM_total _ (λ i, ReconciliationShardInfo.toAsn1 i ReconciliationShardInfo.asn1_new))
    by by apply Forall_true. simpl.
  by rewrite (Stack.mapM_total _ (λ v, Validation.toAsn1 v Validation.asn1_new))
    by by apply Forall_true.
Qed.

Lemma recon_fromAsn1_total {L : Asn1Lib} a :
  fromAsn1 a = Some (mk (Convert.toUInt32 (t_protocol (t_content a)))
    (Convert.toUInt32 (t_chainId (t_content a)))
    (ReconciliationShardInfo.fromAsn1 <$> t_shardInfo (t_content a))
    (BlockAddress.fromAsn1 (t_leader (t_content a))) (Signature.fromAsn1 (t_signature a))
    (Validation.fromAsn1 <$> t_votes a)).
Proof.
  unfold fromAsn1, Stack.fromStackVec, Stack.fromStack.
  rewrite (Stack.mapM_total _ ReconciliationShardInfo.fromAsn1) by by apply Forall_true. simpl.
  by rewrite (Stack.mapM_total _ Validation.fromAsn1) by by apply Forall_true.
Qed.

Lemma Reconciliation_asn1 {L : Asn1Lib} {laws : Asn1Laws L} x a b :
  ok x → toAsn1 x a = Some b → fromAsn1 b = Some x.
Proof.
  intros (Hp & Hc & Hi). rewrite recon_toAsn1_total, recon_fromAsn1_total. intros [= <-]. simpl.
  destruct x as [p c infos l s vs]; simpl in *.
  rewrite <- !list_fmap_compose.
  rewrite (Forall_fmap_id _ infos), (Forall_fmap_id _ vs).
  - destruct l as [l], s as [s]. unfold BlockAddress.fromAsn1, Signature.fromAsn1; simpl.
    rewrite !Convert.toBin_id.
    rewrite (Convert.toUInt32_from 0 p), (Convert.toUInt32_from 0 c) by done. done.
  - apply Forall_true. intros v. unfold compose. by autorewrite with fluffy.
  - eapply Forall_impl; [exact Hi|]. intros i Hok. by apply ReconciliationShardInfo.ShardInfo_asn1.
Qed.

Lemma recon_fromAsn1_eqv {L : Asn1Lib} a b x :
  eqv a b → fromAsn1 a = Some x → ∃ y, fromAsn1 b = Some y ∧ same x y.
Proof.
  intros (Hc & Hs & Hv). rewrite !recon_fromAsn1_total. intros [= <-]. eexists. split; [done|].
  unfold same, setVotes; simpl. rewrite Hc, Hs. split; [done|]. by rewrite Hv.
Qed.

End Reconciliation.

Module Node.

(** [src/src/block/Node.cpp:14-38] asn1::NodeContent *)
Record content := Content {
  t_chainId : Z;
  t_shardId : Z;
  t_index : Z;
  t_prevHash : BlockHash.asn1;
  t_transactions : list Transaction.asn1;
  t_nonce : bytes;
  t_leader : bytes;
  t_newAddress : bytes;
}.

(** [src/src/block/Node.cpp:42-54] asn1::Node *)
Record asn1 := Asn1 {
  t_content : content;
  t_signature : bytes;
  t_votes : list Validation.asn1;
}.

(** [src/src/block/Node.h:32-91] Node *)
Record t := mk {
  chainId : Z;
  shardId : Z;
  index : Z;
  prevHash : BlockHash.t;
  transactions : list Transaction.t;
  nonce : bytes;
  leader : BlockAddress.t;
  newAddress : BlockAddress.t;
  signature : Signature.t;
  votes : list Validation.t;
}.

(** [src/src/block/Node.cpp:65-70] Node::Node *)
Definition dflt : t :=
  mk 0 0 0 BlockHash.dflt [] [] BlockAddress.dflt BlockAddress.dflt Signature.dflt [].

Definition asn1_new : asn1 := Asn1 (Content 0 0 0 BlockHash.asn1_new [] [] [] []) [] [].

(** [src/src/block/Node.cpp:72-75] Node::getChainId *)
Definition getChainId (x : t) : Z := chainId x.

(** [src/src/block/Node.cpp:77-80] Node::setChainId *)
Definition setChainId (v : Z) (x : t) : t := mk v (shardId x) (index x) (prevHash x) (transactions x) (nonce x) (leader x) (newAddress x) (signature x) (votes x).

(** [src/src/block/Node.cpp:82-85] Node::getShardId *)
Definition getShardId (x : t) : Z := shardId x.

(** [src/src/block/Node.cpp:87-90] Node::setShardId *)
Definition setShardId (v : Z) (x : t) : t := mk (chainId x) v (index x) (prevHash x) (transactions x) (nonce x) (leader x) (newAddress x) (signature x) (votes x).

(** [src/src/block/Node.cpp:92-95] Node::getIndex *)
Definition getIndex (x : t) : Z := index x.

(** [src/src/block/Node.cpp:97-100] Node::setIndex *)
Definition setIndex (v : Z) (x : t) : t := mk (chainId x) (shardId x) v (prevHash x) (transactions x) (nonce x) (leader x) (newAddress x) (signature x) (votes x).

(** [src/src/block/Node.cpp:102-105] Node::getPrevHash *)
Definition getPrevHash (x : t) : BlockHash.t := prevHash x.

(** [src/src/block/Node.cpp:107-110] Node::setPrevHash *)
Definition setPrevHash (v : BlockHash.t) (x : t) : t := mk (chainId x) (shardId x) (index x) v (transactions x) (nonce x) (leader x) (newAddress x) (signature x) (votes x).

(** [src/src/block/Node.cpp:112-115] Node::getTransactions *)
Definition getTransactions (x : t) : list Transaction.t := transactions x.

(** [src/src/block/Node.cpp:117-120] Node::setTransactions *)
Definition setTransactions (v : list Transaction.t) (x : t) : t := mk (chainId x) (shardId x) (index x) (prevHash x) v (nonce x) (leader x) (newAddress x) (signature x) (votes x).

(** [src/src/block/Node.cpp:122-125] Node::getNonce *)
Definition getNonce (x : t) : bytes := nonce x.

(** [src/src/block/Node.cpp:127-130] Node::setNonce *)
Definition setNonce (v : bytes) (x : t) : t := mk (chainId x) (shardId x) (index x) (prevHash x) (transactions x) v (leader x) (newAddress x) (signature x) (votes x).

(** [src/src/block/Node.cpp:132-135] Node::getLeader *)
Definition getLeader (x : t) : BlockAddress.t := leader x.

(** [src/src/block/Node.cpp:137-140] Node::setLeader *)
Definition setLeader (v : BlockAddress.t) (x : t) : t := mk (chainId x) (shardId x) (index x) (prevHash x) (transactions x) (nonce x) v (newAddress x) (signature x) (votes x).

(** [src/src/block/Node.cpp:142-145] Node::getNewAddress *)
Definition getNewAddress (x : t) : BlockAddress.t := newAddress x.

(** [src/src/block/Node.cpp:147-150] Node::setNewAddress *)
Definition setNewAddress (v : BlockAddress.t) (x : t) : t := mk (chainId x) (shardId x) (index x) (prevHash x) (transactions x) (nonce x) (leader x) v (signature x) (votes x).

(** [src/src/block/Node.cpp:152-155] Node::getSignature *)
Definition getSignature (x : t) : Signature.t := signature x.

(** [src/src/block/Node.cpp:157-160] Node::setSignature *)
Definition setSignature (v : Signature.t) (x : t) : t := mk (chainId x) (shardId x) (index x) (prevHash x) (transactions x) (nonce x) (leader x) (newAddress x) v (votes x).

(** [src/src/block/Node.cpp:162-165] Node::getVotes *)
Definition getVotes (x : t) : list Validation.t := votes x.

(** [src/src/block/Node.cpp:167-170] Node::setVotes *)
Definition setVotes (v : list Validation.t) (x : t) : t := mk (chainId x) (shardId x) (index x) (prevHash x) (transactions x) (nonce x) (leader x) (newAddress x) (signature x) v.

(** [src/src/block/Node.cpp:172-185] Node::toAsn1 *)
Definition toAsn1 (x : t) (a : asn1) : option asn1 :=
  let k := t_content a in
  vs ← Stack.toStack (λ cur pt, Some (Validation.toAsn1 cur pt)) Validation.asn1_new
         (t_votes a) (votes x);
  txs ← Stack.toStack Transaction.toAsn1 Transaction.asn1_new (t_transactions k) (transactions x);
  Some (Asn1 (Content (Convert.fromUInt64 (t_chainId k) (chainId x))
                      (Convert.fromUInt32 (t_shardId k) (shardId x))
                      (Convert.fromUInt32 (t_index k) (index x))
                      (BlockHash.toAsn1 (prevHash x) (t_prevHash k)) txs
                      (Convert.fromBin (t_nonce k) (nonce x))
                      (BlockAddress.toAsn1 (leader x) (t_leader k))
                      (BlockAddress.toAsn1 (newAddress x) (t_newAddress k)))
             (Signature.toAsn1 (signature x) (t_signature a)) vs).

Section Read.
Context {L : Asn1Lib}.

(** [src/src/block/Node.cpp:187-200] Node::fromAsn1

    The transactions reach the list through their move constructor. *)
Definition fromAsn1 (a : asn1) : option t :=
  let k := t_content a in
  vs ← Stack.fromStack (λ pt, Some (Validation.fromAsn1 pt)) id (t_votes a);
  txs ← Stack.fromStack Transaction.fromAsn1 Transaction.move_construct (t_transactions k);
  Some (mk (Convert.toUInt64 (t_chainId k)) (Convert.toUInt32 (t_shardId k))
           (Convert.toUInt32 (t_index k)) (BlockHash.fromAsn1 (t_prevHash k)) txs
           (Convert.toBin (t_nonce k)) (BlockAddress.fromAsn1 (t_leader k))
           (BlockAddress.fromAsn1 (t_newAddress k)) (Signature.fromAsn1 (t_signature a)) vs).

End Read.

Section Enc.
Context {Dc : Der content}.

(** [src/src/block/Node.cpp:202-209] Node::toContent *)
Definition toContent (x : t) : option bytes :=
  obj ← toAsn1 x asn1_new;
  Some (BinData.contents (Encode.encode false (i2d (t_content obj)))).

End Enc.

#[global] Instance content_eq_dec : EqDecision content.
Proof. solve_decision. Defined.
#[global] Instance content_countable : Countable content :=
  inj_countable' (λ k, (t_chainId k, t_shardId k, t_index k, t_prevHash k, t_transactions k,
                        t_nonce k, t_leader k, t_newAddress k))
    (λ '(a, b, c, d, e, f, g, h), Content a b c d e f g h) ltac:(by intros []).
#[global] Instance asn1_eq_dec : EqDecision asn1.
Proof. solve_decision. Defined.
#[global] Instance asn1_countable : Countable asn1 :=
  inj_countable' (λ a, (t_content a, t_signature a, t_votes a)) (λ '(a, b, c), Asn1 a b c)
    ltac:(by intros []).

Definition ok (x : t) : Prop :=
  0 ≤ chainId x < 2 ^ 63 ∧ is_u 32 (shardId x) ∧ is_u 32 (index x) ∧
  Forall Transaction.ok (transactions x).

(** Only the null dereference needs excluding for the conversion to run. *)
Definition wf (x : t) : Prop := Forall Transaction.wf (transactions x).

Definition same (x y : t) : Prop :=
  setVotes [] x = setVotes [] y ∧ votes x ≡ₚ votes y.

Definition eqv (a b : asn1) : Prop :=
  t_content a = t_content b ∧ t_signature a = t_signature b ∧
  Validation.set_eqv (t_votes a) (t_votes b).

(** The node with its transactions stripped of everything but their actions. *)
Definition strip (x : t) : t :=
  setTransactions (Transaction.move_construct <$> transactions x) x.

Definition content_valid (k : content) : Prop :=
  Forall (λ tx, Transaction.content_valid (Transaction.t_content tx)) (t_transactions k).

Lemma node_toAsn1_wf x a : wf x → ∃ b, toAsn1 x a = Some b ∧ content_valid (t_content b).
Proof.
  intros Hw. unfold toAsn1, Stack.toStack.
  rewrite (Stack.mapM_total _ (λ v, Validation.toAsn1 v Validation.asn1_new))
    by by apply Forall_true. simpl.
  assert (∃ txs, mapM (λ cur, Transaction.toAsn1 cur Transaction.asn1_new) (transactions x) = Some txs ∧
    Forall (λ tx, Transaction.content_valid (Transaction.t_content tx)) txs) as (txs & -> & Hv).
  { unfold wf in Hw. induction Hw as [|tx l Hx Hl (txs & IH & Hv)]; [by exists []|].
    destruct (Transaction.tx_toAsn1_wf tx Transaction.asn1_new Hx) as (b & Hb & Hbv).
    exists (b :: txs). simpl. rewrite Hb. simpl. rewrite IH. split; [done|by constructor]. }
  simpl. by eexists.
Qed.

Lemma Node_asn1 {L : Asn1Lib} {laws : Asn1Laws L} x a b :
  ok x → toAsn1 x a = Some b → fromAsn1 b = Some (strip x).
Proof.
  intros (Hc & Hs & Hi & Ht). unfold toAsn1.
  destruct (Stack.toStack _ _ (t_votes a) _) as [vs|] eqn:Ev; [|done]. simpl.
  destruct (Stack.toStack _ _ (t_transactions _) _) as [txs|] eqn:Et; [|done].
  intros [= <-]. unfold fromAsn1; simpl.
  assert (Hv : Forall (λ v, ∀ y, Some (Validation.toAsn1 v Validation.asn1_new) = Some y →
                 Some (Validation.fromAsn1 y) = Some v) (votes x)).
  { apply Forall_true. intros v y [= <-]. by autorewrite with fluffy. }
  assert (Htx : Forall (λ v, ∀ y, Transaction.toAsn1 v Transaction.asn1_new = Some y →
                 Transaction.fromAsn1 y = Some v) (transactions x)).
  { eapply Forall_impl; [exact Ht|]. intros v Hok y Hy. by eapply Transaction.Transaction_asn1. }
  rewrite (Stack.from_to_stack _ (λ pt, Some (Validation.fromAsn1 pt)) id _ _ _ _ Hv Ev). simpl.
  rewrite (Stack.from_to_stack _ Transaction.fromAsn1 Transaction.move_construct _ _ _ _ Htx Et).
  simpl. autorewrite with fluffy.
  rewrite Convert.toUInt64_from, !Convert.toUInt32_from by done.
  rewrite list_fmap_id. by destruct x.
Qed.

Lemma node_fromAsn1_eqv {L : Asn1Lib} a b x :
  eqv a b → fromAsn1 a = Some x → ∃ y, fromAsn1 b = Some y ∧ same x y.
Proof.
  intros (Hc & Hs & Hv). unfold fromAsn1, Stack.fromStack.
  rewrite !(Stack.mapM_total _ Validation.fromAsn1) by by apply Forall_true. simpl.
  rewrite Hc, Hs. destruct (mapM _ (t_transactions _)) as [txs|]; [|done]. simpl.
  intros [= <-]. eexists. split; [done|]. unfold same, setVotes; simpl.
  split; [done|]. by rewrite Hv.
Qed.

End Node.

Module Block.

(** [src/src/block/Block.h:37-43] Block::Type *)
Inductive Type_ := TNone | TGenesis | TReconciliation | TNode.

Inductive union :=
  | Nullptr
  | UNull
  | UGenesis (x : Genesis.asn1)
  | UReconciliation (x : Reconciliation.asn1)
  | UNode (x : Node.asn1).

(** [src/src/block/Block.cpp:13-30] asn1::Block *)
Record asn1 := Asn1 {
  c_type : Z;
  c_u : union;
}.

(** [src/src/block/Block.h:27-68] Block *)
Record t := mk {
  type : Type_;
  genesis : option Genesis.t;
  reconciliation : option Reconciliation.t;
  node : option Node.t;
}.

Definition asn1_new : asn1 := Asn1 (-1) Nullptr.

(** [src/src/block/Block.cpp:87-94] Block::resetChoice *)
Definition resetChoice (x : t) : t := mk TNone None None None.

(** [src/src/block/Block.cpp:41-44] Block::Block() *)
Definition dflt : t := mk TNone None None None.

(** [src/src/block/Block.cpp:96-99] Block::getType *)
Definition getType (x : t) : Type_ := type x.

(** [src/src/block/Block.cpp:101-104] Block::getGenesis *)
Definition getGenesis (x : t) : option Genesis.t := genesis x.

(** [src/src/block/Block.cpp:113-116] Block::getReconciliation *)
Definition getReconciliation (x : t) : option Reconciliation.t := reconciliation x.

(** [src/src/block/Block.cpp:125-128] Block::getNode *)
Definition getNode (x : t) : option Node.t := node x.

(** [src/src/block/Block.cpp:106-111] Block::setGenesis *)
Definition setGenesis (v : Genesis.t) (x : t) : t := mk TGenesis (Some v) None None.

(** [src/src/block/Block.cpp:118-123] Block::setReconciliation *)
Definition setReconciliation (v : Reconciliation.t) (x : t) : t := mk TReconciliation None (Some v) None.

(** [src/src/block/Block.cpp:130-135] Block::setNode *)
Definition setNode (v : Node.t) (x : t) : t := mk TNode None None (Some v).

(** [src/src/block/Block.cpp:58-73] Block::operator=(Block &&)

    The target and the moved-from source. *)
Definition move_assign (x rhs : t) : t * t :=
  (mk (type rhs) (genesis rhs) (reconciliation rhs) (node rhs), resetChoice rhs).

(** [src/src/block/Block.cpp:46-50] Block::Block(Block &&) *)
Definition move_construct (rhs : t) : t := fst (move_assign dflt rhs).

(** [src/src/block/Block.cpp:137-187] Block::toAsn1

    Frees what the choice held and replaces it; [None] is a null pointer
    dereferenced. *)
Definition toAsn1 (x : t) (a : asn1) : option asn1 :=
  match type x with
  | TNone => Some (Asn1 0 UNull)
  | TGenesis => g ← genesis x; Some (Asn1 1 (UGenesis (Genesis.toAsn1 g Genesis.asn1_new)))
  | TReconciliation =>
      r ← reconciliation x;
      u ← Reconciliation.toAsn1 r Reconciliation.asn1_new;
      Some (Asn1 2 (UReconciliation u))
  | TNode => n ← node x; u ← Node.toAsn1 n Node.asn1_new; Some (Asn1 3 (UNode u))
  end.

Section Read.
Context {L : Asn1Lib}.

(** [src/src/block/Block.cpp:189-215] Block::fromAsn1

    [None]: the union does not hold what the type says. *)
Definition fromAsn1 (a : asn1) (x : t) : option t :=
  let x := resetChoice x in
  if c_type a =? 0 then Some x
  else if c_type a =? 1 then
    match c_u a with UGenesis u => Some (setGenesis (Genesis.fromAsn1 u) x) | _ => None end
  else if c_type a =? 2 then
    match c_u a with
    | UReconciliation u => r ← Reconciliation.fromAsn1 u; Some (setReconciliation r x)
    | _ => None
    end
  else if c_type a =? 3 then
    match c_u a with UNode u => n ← Node.fromAsn1 u; Some (setNode n x) | _ => None end
  else Some x.

(** [src/src/block/Block.cpp:75-85] Block::operator=(const Block &) *)
Definition copy_assign (x rhs : t) : option t :=
  u ← toAsn1 rhs (Asn1 0 Nullptr);
  fromAsn1 u x.

(** [src/src/block/Block.cpp:52-56] Block::Block(const Block &) *)
Definition copy_construct (rhs : t) : option t := copy_assign dflt rhs.

End Read.

Section Enc.
Context {D : Der asn1}.

(** [src/src/block/Block.cpp:217-224] Block::encode *)
Definition encode (x : t) : option bytes :=
  obj ← toAsn1 x asn1_new;
  Some (BinData.contents (Encode.encode false (i2d obj))).

End Enc.

(** [src/src/block/Block.cpp:226-242] to_string(block::Block::Type) *)
Definition to_string (ty : Type_) : cstr :=
  match ty with
  | TGenesis => $"Genesis"
  | TReconciliation => $"Reconciliation"
  | TNode => $"Node"
  | TNone => $"None"
  end.

#[global] Instance type_eq_dec : EqDecision Type_.
Proof. solve_decision. Defined.
#[global] Instance union_eq_dec : EqDecision union.
Proof. solve_decision. Defined.
#[global] Instance union_countable : Countable union :=
  inj_countable'
    (λ u, match u with
          | Nullptr => inl false | UNull => inl true
          | UGenesis x => inr (inl x) | UReconciliation x => inr (inr (inl x))
          | UNode x => inr (inr (inr x)) end)
    (λ o, match o with
          | inl false => Nullptr | inl true => UNull
          | inr (inl x) => UGenesis x | inr (inr (inl x)) => UReconciliation x
          | inr (inr (inr x)) => UNode x end)
    ltac:(by intros []).
#[global] Instance asn1_eq_dec : EqDecision asn1.
Proof. solve_decision. Defined.
#[global] Instance asn1_countable : Countable asn1 :=
  inj_countable' (λ c, (c_type c, c_u c)) (λ '(a, b), Asn1 a b) ltac:(by intros []).

(** *** The choice invariant *)

(** Exactly the pointer of the current kind is set. *)
Definition wf (x : t) : Prop :=
  match type x with
  | TNone => genesis x = None ∧ reconciliation x = None ∧ node x = None
  | TGenesis => is_Some (genesis x) ∧ reconciliation x = None ∧ node x = None
  | TReconciliation => genesis x = None ∧ is_Some (reconciliation x) ∧ node x = None
  | TNode =>
      genesis x = None ∧ reconciliation x = None ∧
      match node x with Some n => Node.wf n | None => False end
  end.

Definition ok (x : t) : Prop :=
  wf x ∧
  match genesis x with Some g => Genesis.ok g | None => True end ∧
  match reconciliation x with Some r => Reconciliation.ok r | None => True end ∧
  match node x with Some n => Node.ok n | None => True end.

Inductive op :=
  | OpGenesis (v : Genesis.t)
  | OpReconciliation (v : Reconciliation.t)
  | OpNode (v : Node.t)
  | OpMoveFrom (rhs : t)
  | OpMovedAway.

Definition exec (o : op) (x : t) : t :=
  match o with
  | OpGenesis v => setGenesis v x
  | OpReconciliation v => setReconciliation v x
  | OpNode v => setNode v x
  | OpMoveFrom rhs => fst (move_assign x rhs)
  | OpMovedAway => snd (move_assign dflt x)
  end.

Definition op_wf (o : op) : Prop :=
  match o with OpNode n => Node.wf n | OpMoveFrom rhs => wf rhs | _ => True end.

Lemma exec_wf o x : op_wf o → wf x → wf (exec o x).
Proof. destruct o as [v|v|v|[ty g r n]|]; unfold wf; simpl; intros Ho Hx; split_and?; by eauto. Qed.

Lemma block_toAsn1_wf x a : wf x → is_Some (toAsn1 x a).
Proof.
  destruct x as [ty g r n]. unfold wf, toAsn1; simpl. destruct ty.
  - done.
  - intros ([? ->] & _ & _). by eexists.
  - intros (_ & [? ->] & _). simpl. rewrite Reconciliation.recon_toAsn1_total. by eexists.
  - intros (_ & _ & Hn). destruct n as [n|]; [|done]. simpl.
    destruct (Node.node_toAsn1_wf n Node.asn1_new Hn) as (b & -> & _). by eexists.
Qed.

(** A block always holds exactly the content its type names: after any sequence
    of sets and moves, on either side of a move, the other two contents are unset
    and serialising the block never dereferences a null pointer. *)
Theorem block_choice_invariant (os : list op) (a : asn1) :
  Forall op_wf os →
  wf (foldl (λ x o, exec o x) dflt os) ∧ is_Some (toAsn1 (foldl (λ x o, exec o x) dflt os) a).
Proof.
  intros Hos. assert (Hw : wf (foldl (λ x o, exec o x) dflt os)); [|by split; [|apply block_toAsn1_wf]].
  assert (H0 : wf dflt) by done. revert H0. generalize dflt.
  induction Hos as [|o os Ho Hos IH]; intros x Hx; [done|]. simpl. by apply IH, exec_wf.
Qed.

Lemma block_choice_invariant_witness :
  wf (foldl (λ x o, exec o x) dflt [OpGenesis Genesis.dflt; OpMovedAway; OpNode Node.dflt]) ∧
  is_Some (toAsn1 (foldl (λ x o, exec o x) dflt
                     [OpGenesis Genesis.dflt; OpMovedAway; OpNode Node.dflt]) asn1_new).
Proof. apply block_choice_invariant. repeat constructor. Defined.

(** *** Copies and round trips *)

(** What a block is after its transactions went through a move. *)
Definition strip (x : t) : t := mk (type x) (genesis x) (reconciliation x) (Node.strip <$> node x).

Lemma Block_asn1 {L : Asn1Lib} {laws : Asn1Laws L} x a b y :
  ok x → toAsn1 x a = Some b → fromAsn1 b y = Some (strip x).
Proof.
  destruct x as [ty g r n]. intros (Hw & Hg & Hr & Hn). unfold wf, toAsn1, strip in *; simpl in *.
  destruct ty.
  - destruct Hw as (-> & -> & ->). by intros [= <-].
  - destruct Hw as ([g' ->] & -> & ->). intros [= <-]. unfold fromAsn1; simpl.
    by rewrite Genesis.Genesis_asn1.
  - destruct Hw as (-> & [r' ->] & ->). simpl.
    destruct (Reconciliation.toAsn1 r' _) as [u|] eqn:Eu; [|done]. intros [= <-].
    unfold fromAsn1; simpl. by rewrite (Reconciliation.Reconciliation_asn1 _ _ _ Hr Eu).
  - destruct Hw as (-> & -> & Hnw). destruct n as [n|]; [|done]. simpl.
    destruct (Node.toAsn1 n _) as [u|] eqn:Eu; [|done]. intros [= <-].
    unfold fromAsn1; simpl. by rewrite (Node.Node_asn1 _ _ _ Hn Eu).
Qed.

(** Copying a block gives an equal block when it is a genesis or reconciliation
    block or empty; the copy of a node block has the same node except that every
    transaction lost its time, signer, key, new address and signature. *)
Theorem block_copy {L : Asn1Lib} {laws : Asn1Laws L} (x rhs : t) :
  ok rhs →
  copy_assign x rhs = Some (strip rhs) ∧ copy_construct rhs = Some (strip rhs) ∧
  (type rhs ≠ TNode → strip rhs = rhs).
Proof.
  intros Hok. assert (Hcopy : ∀ y, copy_assign y rhs = Some (strip rhs)).
  { intros y. unfold copy_assign. destruct (block_toAsn1_wf rhs (Asn1 0 Nullptr)) as [u Hu]; [apply Hok|].
    rewrite Hu. simpl. by eapply Block_asn1. }
  split_and!; [done|apply Hcopy|]. destruct rhs as [ty g r n], Hok as [Hw _].
  unfold wf in Hw; simpl in *. unfold strip; simpl. intros Hty.
  assert (n = None) as ->; [|done]. destruct ty; [by destruct Hw as (_ & _ & ?)..|done].
Qed.

Lemma block_copy_witness :
  copy_construct (L := Convert.Asn1Z) (setGenesis Genesis.dflt dflt) =
    Some (setGenesis Genesis.dflt dflt).
Proof.
  rewrite <- (proj2 (proj2 (block_copy (L := Convert.Asn1Z) dflt (setGenesis Genesis.dflt dflt)
    ltac:(vm_compute; intuition (try discriminate; eauto)))) ltac:(done)) at 2.
  apply (block_copy (L := Convert.Asn1Z) dflt). vm_compute. intuition (try discriminate; eauto).
Defined.

(** A structure that has an encoding. *)
Definition valid (a : asn1) : Prop :=
  (c_type a = 0 ∧ c_u a = UNull) ∨ (c_type a = 1 ∧ ∃ u, c_u a = UGenesis u) ∨
  (c_type a = 2 ∧ ∃ u, c_u a = UReconciliation u) ∨
  (c_type a = 3 ∧ ∃ u, c_u a = UNode u ∧ Node.content_valid (Node.t_content u)).

(** Equal up to the order of the votes. *)
Definition eqv (a b : asn1) : Prop :=
  c_type a = c_type b ∧
  match c_u a, c_u b with
  | UReconciliation u, UReconciliation v => Reconciliation.eqv u v
  | UNode u, UNode v => Node.eqv u v
  | u, v => u = v
  end.

Definition same (x y : t) : Prop :=
  type x = type y ∧ genesis x = genesis y ∧
  option_Forall2 Reconciliation.same (reconciliation x) (reconciliation y) ∧
  option_Forall2 Node.same (node x) (node y).

Lemma eqv_refl a : eqv a a.
Proof. split; [done|]. destruct (c_u a); done. Qed.

Lemma block_toAsn1_valid x a b : ok x → toAsn1 x a = Some b → valid b.
Proof.
  destruct x as [ty g r n]. intros (Hw & _). unfold wf, toAsn1, valid in *; simpl in *.
  destruct ty.
  - intros [= <-]. by left.
  - destruct Hw as ([g' ->] & _ & _). intros [= <-]. right; left. eauto.
  - destruct Hw as (_ & [r' ->] & _). simpl. rewrite Reconciliation.recon_toAsn1_total.
    intros [= <-]. right; right; left. eauto.
  - destruct Hw as (_ & _ & Hnw). destruct n as [n|]; [|done]. simpl.
    destruct (Node.node_toAsn1_wf n Node.asn1_new Hnw) as (u & -> & Hu). intros [= <-].
    right; right; right. eauto.
Qed.

Ltac same_tac := unfold same; simpl; split_and!; done || by constructor.

Lemma block_fromAsn1_eqv {L : Asn1Lib} a b x y :
  eqv a b → fromAsn1 a y = Some x → ∃ z, fromAsn1 b y = Some z ∧ same x z.
Proof.
  destruct a as [ta ua], b as [tb ub]. intros [Ht Hu]; simpl in *. subst tb.
  unfold fromAsn1; simpl.
  destruct (ta =? 0); [intros [= <-]; eexists; split; [done|same_tac]|].
  destruct (ta =? 1).
  { destruct ua; try done. destruct ub; try done. simplify_eq. intros [= <-].
    eexists. split; [done|same_tac]. }
  destruct (ta =? 2).
  { destruct ua as [| | |u|]; try done. destruct ub as [| | |v|]; try done. simpl.
    destruct (Reconciliation.fromAsn1 u) as [r|] eqn:Er; [|done]. intros [= <-].
    destruct (Reconciliation.recon_fromAsn1_eqv _ _ _ Hu Er) as (r' & -> & Hs). simpl.
    eexists. split; [done|]. same_tac. }
  destruct (ta =? 3); [|intros [= <-]; eexists; split; [done|same_tac]].
  destruct ua as [| | | |u]; try done. destruct ub as [| | | |v]; try done. simpl.
  destruct (Node.fromAsn1 u) as [r|] eqn:Er; [|done]. intros [= <-].
  destruct (Node.node_fromAsn1_eqv _ _ _ Hu Er) as (r' & -> & Hs). simpl.
  eexists. split; [done|]. same_tac.
Qed.

End Block.

(** ** [block/decode] *)
Module Decode.
Section Code.
Context {L : Asn1Lib} {Dh : Der BlockHash.asn1} {Db : Der Block.asn1} {Dg : Der Genesis.asn1}.
Context {Dr : Der Reconciliation.asn1}.

(** [src/src/block/Hash.cpp:74-81] Hash::encode *)
Definition hash_encode (x : BlockHash.t) : bytes :=
  BinData.contents (Encode.encode false (i2d (BlockHash.toAsn1 x BlockHash.asn1_new))).

(** [src/src/block/decode.cpp:6-15] decode(const BinData &, Hash &)

    Whether it succeeded, and the object afterwards. *)
Definition decode_hash (data : bytes) (hash : BlockHash.t) : bool * BlockHash.t :=
  match d2i data with
  | None => (false, hash)
  | Some a => (true, BlockHash.fromAsn1 a)
  end.

(** [src/src/block/decode.cpp:17-26] decode(const BinData &, Block &)

    [None] as in [Block.fromAsn1]. *)
Definition decode_block (data : bytes) (hash : Block.t) : option (bool * Block.t) :=
  match d2i data with
  | None => Some (false, hash)
  | Some a => x ← Block.fromAsn1 a hash; Some (true, x)
  end.

(** [src/src/block/decode.cpp:28-37] decode(const BinData &, Genesis &) *)
Definition decode_genesis (data : bytes) (hash : Genesis.t) : bool * Genesis.t :=
  match d2i data with
  | None => (false, hash)
  | Some a => (true, Genesis.fromAsn1 a)
  end.

(** [src/src/block/decode.cpp:39-48] decode(const BinData &, Reconciliation &) *)
Definition decode_reconciliation (data : bytes) (hash : Reconciliation.t)
  : option (bool * Reconciliation.t) :=
  match d2i data with
  | None => Some (false, hash)
  | Some a => x ← Reconciliation.fromAsn1 a; Some (true, x)
  end.

End Code.

Section Proofs.
Context {L : Asn1Lib} {laws : Asn1Laws L}.
Context {Db : Der Block.asn1} {DbL : DerLaws Block.asn1 Block.valid Block.eqv}.

Lemma decode_encode_block (x y : Block.t) :
  Block.ok x →
  ∃ data z, Block.encode x = Some data ∧ decode_block data y = Some (true, z) ∧
            Block.same (Block.strip x) z.
Proof.
  intros Hok. destruct (Block.block_toAsn1_wf x Block.asn1_new) as [a Ha]; [apply Hok|].
  pose proof (Block.block_toAsn1_valid _ _ _ Hok Ha) as Hv.
  destruct (d2i_i2d a Hv) as (b & Hb & Hab).
  pose proof (Block.Block_asn1 _ _ _ y Hok Ha) as Hfrom.
  destruct (Block.block_fromAsn1_eqv _ _ _ _ Hab Hfrom) as (z & Hz & Hs).
  exists (i2d a), z. split_and!; [|unfold decode_block; by rewrite Hb, Hz|done].
  unfold Block.encode. rewrite Ha. simpl. by rewrite Encode.encode_contents.
Qed.

(** C20: Storing and loading a block preserves it. For every block that has content only of its own
    kind, whose amounts have fewer than 2^63 coins and fewer than 10^8 fluffs, whose times and
    whose node's chain number are below 2^63, and whose other numbers fit 32 bits, encoding
    succeeds and decoding the bytes gives a block of the same kind with the same content, up to
    the order of the votes, and, for a node, up to the transactions' time, signer, key, new
    address and signature, which decoding drops. Larger 64-bit numbers are encoded
    too, but do not come back. *)
Theorem block_decode_encode (x y : Block.t) :
  Block.ok x →
  ∃ data z, Block.encode x = Some data ∧ decode_block data y = Some (true, z) ∧
            Block.same (Block.strip x) z.
Proof. apply decode_encode_block. Qed.

(** C32: No signed transaction survives being loaded: whatever node block is encoded
    and decoded, every transaction of the decoded node has an empty signature, an
    empty signer and the zero time. *)
Theorem node_decode_loses_signatures (x y : Block.t) (n : Node.t) :
  Block.ok x → Block.getNode x = Some n →
  ∃ data z m, Block.encode x = Some data ∧ decode_block data y = Some (true, z) ∧
    Block.getNode z = Some m ∧
    length (Node.getTransactions m) = length (Node.getTransactions n) ∧
    Forall (λ tx, Transaction.getSignature tx = Signature.dflt ∧
                  Transaction.getSigner tx = BlockAddress.dflt ∧
                  Transaction.getTime tx = Time.dflt) (Node.getTransactions m).
Proof.
  intros Hok Hn. destruct (decode_encode_block x y Hok) as (data & z & He & Hd & Hs).
  destruct Hs as (_ & _ & _ & Hnode). unfold Block.getNode in *. unfold Block.strip in Hnode.
  simpl in Hnode. rewrite Hn in Hnode. simpl in Hnode.
  inversion Hnode as [? m [Hset _]|]; subst.
  exists data, z, m. split_and!; [done|done|done| |].
  all: assert (Htx : Node.transactions m = Transaction.move_construct <$> Node.transactions n)
    by (injection Hset; done).
  - unfold Node.getTransactions. by rewrite Htx, length_fmap.
  - unfold Node.getTransactions. rewrite Htx. apply Forall_fmap, Forall_true. by intros [].
Qed.
End Proofs.

Lemma block_decode_encode_witness :
  let D := CountableDer Block.asn1 in
  ∃ data z, Block.encode (D := D) (Block.setReconciliation Reconciliation.dflt Block.dflt) = Some data ∧
    decode_block (L := Convert.Asn1Z) (Db := D) data Block.dflt = Some (true, z) ∧
    Block.same (Block.strip (Block.setReconciliation Reconciliation.dflt Block.dflt)) z.
Proof.
  apply (block_decode_encode (L := Convert.Asn1Z) (Db := CountableDer Block.asn1)
    (DbL := CountableDer_laws _ _ Block.eqv_refl)).
  split; [split_and!; [done|by eexists|done]|]. split; [done|]. split; [|done].
  split_and!; [unfold is_u; simpl; lia..|by constructor].
Defined.

Lemma node_decode_loses_signatures_witness :
  let D := CountableDer Block.asn1 in
  let tx := Transaction.setSignature (Signature.mk [7]) Transaction.dflt in
  let x := Block.setNode (Node.setTransactions [tx] Node.dflt) Block.dflt in
  ∃ data z m, Block.encode (D := D) x = Some data ∧
    decode_block (L := Convert.Asn1Z) (Db := D) data Block.dflt = Some (true, z) ∧
    Block.getNode z = Some m ∧ length (Node.getTransactions m) = 1%nat ∧
    Forall (λ tx, Transaction.getSignature tx = Signature.dflt ∧
                  Transaction.getSigner tx = BlockAddress.dflt ∧
                  Transaction.getTime tx = Time.dflt) (Node.getTransactions m).
Proof.
  apply (node_decode_loses_signatures (L := Convert.Asn1Z) (Db := CountableDer Block.asn1)
    (DbL := CountableDer_laws _ _ Block.eqv_refl) _ Block.dflt
    (Node.setTransactions [Transaction.setSignature (Signature.mk [7]) Transaction.dflt] Node.dflt));
    [|done].
  split; [split_and!; [done..|by repeat constructor]|]. split; [done|]. split; [done|].
  split_and!; [unfold is_u; simpl; lia..|]. repeat constructor; simpl; lia.
Defined.

End Decode.
