(* ===== verification/Strings.v ===== *)
(** * Text conversion: [utils/Strings] and [utils/DelimitedString]

    The C library's [atoi], [atoll] and [strtoull] as glibc defines them
    (leading white space, one sign, digits; out-of-range values saturate), the
    [from_string] family on top of them, and delimiter-separated lists.  The
    list reader is a loop with fuel: [None] means it did not end. *)

From S2P Require Import Prelude.

Module Strings.

Definition is_space (c : Z) : bool := (c =? 32) || ((9 <=? c) && (c <=? 13)).

Fixpoint skip_space (s : cstr) : cstr :=
  match s with
  | c :: rest => if is_space c then skip_space rest else s
  | [] => []
  end.

(** The longest prefix of decimal digits. *)
Fixpoint take_digits (s : cstr) : cstr :=
  match s with
  | c :: rest => if (48 <=? c) && (c <=? 57) then c :: take_digits rest else []
  | [] => []
  end.

(** A C string ends at its first zero byte. *)
Fixpoint c_str (s : cstr) : cstr :=
  match s with
  | c :: rest => if c =? 0 then [] else c :: c_str rest
  | [] => []
  end.

(** The signed number at the start of a C string, without limits. *)
Definition scan (s : cstr) : bool * Z :=
  match skip_space (c_str s) with
  | c :: rest =>
      if c =? chr "-" then (true, dec_val (take_digits rest))
      else if c =? chr "+" then (false, dec_val (take_digits rest))
      else (false, dec_val (take_digits (c :: rest)))
  | [] => (false, 0)
  end.

Definition clamp (lo hi z : Z) : Z := Z.max lo (Z.min hi z).

Definition strtoll (s : cstr) : Z :=
  let '(neg, v) := scan s in clamp (- 2 ^ 63) (2 ^ 63 - 1) (if neg then - v else v).
Definition atoll (s : cstr) : Z := strtoll s.
Definition atoi (s : cstr) : Z := swrap 32 (strtoll s).
Definition strtoull (s : cstr) : Z :=
  let '(neg, v) := scan s in
  if 2 ^ 64 <=? v then 2 ^ 64 - 1 else u64 (if neg then - v else v).

(** [src/src/utils/Strings.cpp:6-9] from_string<std::string> *)
Definition from_string_string (str : cstr) : cstr := str.

(** [src/src/utils/Strings.cpp:12-15] from_string<int8_t> *)
Definition from_string_int8 (str : cstr) : Z := swrap 8 (atoi str).

(** [src/src/utils/Strings.cpp:18-21] from_string<uint8_t> *)
Definition from_string_uint8 (str : cstr) : Z := u8 (atoi str).

(** [src/src/utils/Strings.cpp:24-27] from_string<int16_t> *)
Definition from_string_int16 (str : cstr) : Z := swrap 16 (atoi str).

(** [src/src/utils/Strings.cpp:30-33] from_string<uint16_t> *)
Definition from_string_uint16 (str : cstr) : Z := u16 (atoi str).

(** [src/src/utils/Strings.cpp:36-39] from_string<int32_t> *)
Definition from_string_int32 (str : cstr) : Z := swrap 32 (atoi str).

(** [src/src/utils/Strings.cpp:42-45] from_string<uint32_t> *)
Definition from_string_uint32 (str : cstr) : Z := u32 (atoll str).

(** [src/src/utils/Strings.cpp:48-51] from_string<int64_t> *)
Definition from_string_int64 (str : cstr) : Z := swrap 64 (atoll str).

(** [src/src/utils/Strings.cpp:54-57] from_string<uint64_t> *)
Definition from_string_uint64 (str : cstr) : Z := u64 (strtoull str).

(** [src/src/utils/Strings.cpp:60-63] from_string<bool> *)
Definition from_string_bool (str : cstr) : bool :=
  (0 <? atoi str) || bool_decide (str = $"t") || bool_decide (str = $"true").

(** [src/src/utils/Strings.h:12-17] to_string (integers)

    A stream prints the sign and the decimal digits. *)
Definition to_string_int (z : Z) : cstr :=
  if z <? 0 then $"-" ++ dec_text (- z) else dec_text z.

(** [src/src/utils/Strings.h:57-59] constStrlen *)
Fixpoint constStrlen (str : cstr) : Z :=
  match str with
  | c :: rest => if c =? 0 then 0 else 1 + constStrlen rest
  | [] => 0
  end.

Lemma take_digits_all t : Forall is_dec t → take_digits t = t.
Proof.
  induction 1 as [|c t Hc Ht IH]; [done|]. unfold is_dec in Hc. simpl.
  rewrite (proj2 (Z.leb_le 48 c)), (proj2 (Z.leb_le c 57)) by lia. simpl. by rewrite IH.
Qed.

Lemma c_str_dec t : Forall is_dec t → c_str t = t.
Proof.
  induction 1 as [|c t Hc Ht IH]; [done|]. unfold is_dec in Hc. simpl.
  rewrite (proj2 (Z.eqb_neq c 0)) by lia. by rewrite IH.
Qed.

Lemma dec_text_cons n : 0 ≤ n → ∃ c t, dec_text n = c :: t ∧ is_dec c.
Proof.
  intros Hn. pose proof (dec_text_ok n Hn) as Hok. destruct (dec_text n) as [|c t] eqn:E.
  - exfalso. pose proof (dec_val_text n Hn) as Hv. rewrite E in Hv. unfold dec_val in Hv; simpl in Hv.
    subst n. by vm_compute in E.
  - apply Forall_cons in Hok as [? _]. eauto.
Qed.

Lemma scan_text n : 0 ≤ n → scan (dec_text n) = (false, n).
Proof.
  intros Hn. pose proof (dec_text_ok n Hn) as Hok. pose proof (dec_val_text n Hn) as Hv.
  destruct (dec_text_cons n Hn) as (c & t & E & Hc). unfold scan. rewrite c_str_dec by done.
  rewrite E in *. unfold is_dec in Hc. cbn [skip_space]. unfold is_space.
  rewrite (proj2 (Z.eqb_neq c 32)), (proj2 (Z.leb_gt c 13)) by lia. rewrite andb_false_r. simpl orb.
  cbv iota. change (chr "-") with 45. change (chr "+") with 43.
  rewrite (proj2 (Z.eqb_neq c 45)), (proj2 (Z.eqb_neq c 43)) by lia.
  by rewrite take_digits_all, Hv.
Qed.

Lemma scan_neg_text n : 0 ≤ n → scan (45 :: dec_text n) = (true, n).
Proof.
  intros Hn. pose proof (dec_text_ok n Hn) as Hok. pose proof (dec_val_text n Hn) as Hv.
  unfold scan. cbn [c_str]. change (45 =? 0) with false. cbv iota. rewrite c_str_dec by done.
  cbn [skip_space]. change (is_space 45) with false. cbv iota. change (45 =? chr "-") with true.
  cbv iota. by rewrite take_digits_all, Hv.
Qed.

Lemma swrap_small w z : 0 < w → - 2 ^ (w - 1) ≤ z < 2 ^ (w - 1) → swrap w z = z.
Proof.
  intros Hw Hz. unfold swrap. rewrite wrap_small; [lia|]. unfold is_u.
  replace (2 ^ w) with (2 * 2 ^ (w - 1)); [lia|].
  rewrite <- Z.pow_succ_r by lia. f_equal. lia.
Qed.

Lemma strtoll_text z : - 2 ^ 63 ≤ z < 2 ^ 63 → strtoll (to_string_int z) = z.
Proof.
  intros Hz. unfold strtoll, to_string_int. destruct (Z.ltb_spec z 0).
  - change ($"-") with [45]. simpl app. rewrite scan_neg_text by lia. unfold clamp. lia.
  - rewrite scan_text by lia. unfold clamp. lia.
Qed.

(** Printing an integer and reading it back is the identity at every width the
    code uses: 32 and 64 bits, signed and unsigned. *)
Theorem integer_text_roundtrip (z : Z) :
  (- 2 ^ 31 ≤ z < 2 ^ 31 → from_string_int32 (to_string_int z) = z) ∧
  (is_u 32 z → from_string_uint32 (to_string_int z) = z) ∧
  (- 2 ^ 63 ≤ z < 2 ^ 63 → from_string_int64 (to_string_int z) = z) ∧
  (is_u 64 z → from_string_uint64 (to_string_int z) = z).
Proof.
  unfold from_string_int32, from_string_uint32, from_string_int64, from_string_uint64, atoi, atoll, is_u.
  split_and!; intros Hz.
  - rewrite strtoll_text by lia. rewrite (swrap_small 32 z) by (cbn; lia). by rewrite swrap_small by (cbn; lia).
  - rewrite strtoll_text by lia. rewrite wrap_small; [done|unfold is_u; lia].
  - rewrite strtoll_text by lia. by rewrite swrap_small by (cbn; lia).
  - unfold strtoull, to_string_int. rewrite (proj2 (Z.ltb_ge z 0)) by lia.
    rewrite scan_text by lia. rewrite (proj2 (Z.leb_gt (2 ^ 64) z)) by lia.
    rewrite wrap_wrap by lia. apply wrap_small. unfold is_u; lia.
Qed.

End Strings.

Module DelimitedString.

Section Print.
Context {A : Type} (to_string : A → cstr).

(** [src/src/utils/DelimitedString.h:34-45] DelimitedString::toString *)
Definition toString (elements : list A) (delimiter : Z) : cstr :=
  foldl (λ ret e, (if bool_decide (ret = []) then ret else ret ++ [delimiter]) ++ to_string e)
        [] elements.

End Print.

Section Code.
Context {A : Type} (from_string : cstr → A).

(** [src/src/utils/DelimitedString.h:20-28] DelimitedString::fromString (loop) *)
Fixpoint split_loop (fuel : nat) (str : cstr) (delimiter : Z) (startPos : nat)
    (pos : option nat) (ret : list A) : option (list A) :=
  match fuel with
  | O => None
  | S fuel =>
      if (startPos <? length str)%nat then
        let pos := match pos with None => length str | Some p => p end in
        let ret := ret ++ [from_string (take (pos - startPos) (drop startPos str))] in
        let startPos := pos in
        let pos := str_find [delimiter] str startPos in
        split_loop fuel str delimiter startPos pos ret
      else Some ret
  end.

(** [src/src/utils/DelimitedString.h:14-31] DelimitedString::fromString *)
Definition fromString (fuel : nat) (str : cstr) (delimiter : Z) : option (list A) :=
  split_loop fuel str delimiter 0 (str_find [delimiter] str 0) [].

Lemma find_from_none d s k : d ∉ s → find_from [d] s k = None.
Proof.
  revert k. induction s as [|c s IH]; intros k Hd; [done|]. cbn [find_from is_prefix].
  destruct (Z.eqb_spec d c) as [->|]; [set_solver|]. apply IH. set_solver.
Qed.

Lemma find_from_some d s k :
  d ∈ s → ∃ j, find_from [d] s k = Some (k + j)%nat ∧ s !! j = Some d.
Proof.
  revert k. induction s as [|c s IH]; intros k Hd; [set_solver|]. cbn [find_from is_prefix].
  destruct (Z.eqb_spec d c) as [->|Hne].
  - exists 0%nat. simpl. split; [f_equal; lia|done].
  - apply elem_of_cons in Hd as [|Hin]; [done|]. destruct (IH (S k) Hin) as (j & Hj & Hl).
    exists (S j). simpl. rewrite Hj. split; [f_equal; lia|done].
Qed.

(** Starting at a delimiter, the search finds that same delimiter. *)
Lemma find_at_delimiter d s p : s !! p = Some d → str_find [d] s p = Some p.
Proof.
  intros Hp. pose proof (lookup_lt_Some _ _ _ Hp). unfold str_find.
  rewrite (proj2 (Nat.ltb_ge _ _)) by lia. rewrite (drop_S s d p) by done.
  cbn [find_from is_prefix]. by rewrite Z.eqb_refl.
Qed.

(** Once the loop stands on a delimiter it never moves again. *)
Lemma split_loop_stuck fuel str d p ret :
  str !! p = Some d → split_loop fuel str d p (Some p) ret = None.
Proof.
  intros Hp. revert ret. induction fuel as [|fuel IH]; intros ret; [done|]. cbn [split_loop].
  pose proof (lookup_lt_Some _ _ _ Hp). rewrite (proj2 (Nat.ltb_lt _ _)) by done.
  by rewrite find_at_delimiter.
Qed.

(** Reading a delimited list ends only when there is nothing to split: if the
    text contains the delimiter the loop never terminates, for no amount of fuel;
    otherwise it returns the whole text as one element, or nothing for the empty
    text. *)
Lemma delimited_read (str : cstr) (d : Z) :
  (d ∈ str → ∀ fuel, fromString fuel str d = None) ∧
  (d ∉ str → ∀ fuel, (2 ≤ fuel)%nat →
     fromString fuel str d = Some (if bool_decide (str = []) then [] else [from_string str])).
Proof.
  split.
  - intros Hd fuel. unfold fromString. change (str_find [d] str 0) with (find_from [d] str 0).
    destruct (find_from_some d str 0 Hd) as (j & Hj & Hl). simpl in Hj. rewrite Hj. simpl.
    destruct fuel as [|fuel]; [done|]. cbn [split_loop].
    destruct str as [|c str]; [done|]. simpl Nat.ltb. cbv iota.
    rewrite find_at_delimiter by done. by apply split_loop_stuck.
  - intros Hd fuel Hf. unfold fromString. change (str_find [d] str 0) with (find_from [d] str 0).
    rewrite find_from_none by done.
    destruct fuel as [|[|fuel]]; [lia..|]. destruct str as [|c str]; [done|].
    cbn [split_loop]. simpl Nat.ltb. cbv iota. rewrite Nat.ltb_irrefl.
    rewrite bool_decide_eq_false_2 by done. simpl. by rewrite firstn_all.
Qed.
End Code.

Lemma integer_text_roundtrip_witness :
  Strings.from_string_int64 (Strings.to_string_int (-42)) = -42.
Proof. apply Strings.integer_text_roundtrip. lia. Defined.

End DelimitedString.
