(* ===== verification/Errors.v ===== *)
(** * Error reporting: [utils/ErrorCode], [utils/ErrorStatus], [utils/Details]

    The error an operation carries along with it.  What is written to the log is
    returned beside the new status; the logger's own context is not modelled. *)

From S2P Require Import Prelude Strings.

Module ErrorCode.

(** [src/src/utils/ErrorCode.h:12-55] ErrorCode *)
Inductive t :=
  | None_ | Unknown | InternalError
  | ArgumentMissing | ArgumentParseError | ArgumentInvalid | UnknownCommand | InvalidMessageFormat
  | NotLoggedIn | NotAuthorized | NoPermission | Blocked
  | NotConnected | ResolveError | ConnectError | ConnectionError | HandshakeError | ReadError
  | WriteError | ProtocolError
  | DatabaseError | FileError | DeviceError | SocketError | NotFound | HardwareError | MemoryError
  | IpcTimeout | ServiceTimeout | SocketTimeout.

#[global] Instance t_eq_dec : EqDecision t.
Proof. solve_decision. Defined.

(** [src/src/utils/ErrorCode.h:12-55] ErrorCode (values) *)
Definition to_int (code : t) : Z :=
  match code with
  | None_ => 0 | Unknown => 1 | InternalError => 2
  | ArgumentMissing => 100 | ArgumentParseError => 101 | ArgumentInvalid => 102
  | UnknownCommand => 103 | InvalidMessageFormat => 104
  | NotLoggedIn => 201 | NotAuthorized => 202 | NoPermission => 203 | Blocked => 204
  | NotConnected => 300 | ResolveError => 301 | ConnectError => 302 | ConnectionError => 303
  | HandshakeError => 304 | ReadError => 305 | WriteError => 306 | ProtocolError => 307
  | DatabaseError => 400 | FileError => 401 | DeviceError => 402 | SocketError => 403
  | NotFound => 404 | HardwareError => 405 | MemoryError => 406
  | IpcTimeout => 500 | ServiceTimeout => 501 | SocketTimeout => 502
  end.

(** [src/src/utils/ErrorCode.cpp:3-43] to_string(ErrorCode) *)
Definition to_string (code : t) : cstr :=
  match code with
  | None_ => $"None" | Unknown => $"Unknown" | InternalError => $"Internal Error"
  | ArgumentMissing => $"Argument Missing" | ArgumentParseError => $"Argument Parse Error"
  | ArgumentInvalid => $"Argument Invalid" | UnknownCommand => $"Unknown Command"
  | InvalidMessageFormat => $"Invalid Message Format"
  | NotLoggedIn => $"Not Logged In" | NotAuthorized => $"Not Authorized"
  | NoPermission => $"No Permission" | Blocked => $"Blocked"
  | NotConnected => $"Not Connected" | ResolveError => $"Resolve Error"
  | ConnectError => $"Connect Error" | ConnectionError => $"Connection Error"
  | HandshakeError => $"Handshake Error" | ReadError => $"Read Error"
  | WriteError => $"Write Error" | ProtocolError => $"Protocol Error"
  | DatabaseError => $"Database Error" | FileError => $"File Error" | DeviceError => $"Device Error"
  | SocketError => $"Socket Error" | NotFound => $"Not Found" | HardwareError => $"Hardware Error"
  | MemoryError => $"Memory Error"
  | IpcTimeout => $"Ipc Timeout" | ServiceTimeout => $"Service Timeout" | SocketTimeout => $"Socket Timeout"
  end.

(** Clients can tell errors apart by number and by text. *)
Lemma error_code_inj c d : (to_int c = to_int d → c = d) ∧ (to_string c = to_string d → c = d).
Proof. destruct c, d; split; intros H; (reflexivity || discriminate H). Qed.

End ErrorCode.

Module Level.

(** [src/src/log/Level.h:13-22] log::Level *)
Inductive t := None_ | Error | Warn | Notice | Info | Debug | Traffic.

#[global] Instance t_eq_dec : EqDecision t.
Proof. solve_decision. Defined.

(** [toupper] in the C locale. *)
Definition toupper (c : Z) : Z := if (97 <=? c) && (c <=? 122) then c - 32 else c.

(** [src/src/log/Level.cpp:5-24] from_string(log::Level) *)
Definition from_string (str : cstr) : t :=
  let strUpper := toupper <$> str in
  if bool_decide (strUpper = $"ERROR") then Error
  else if bool_decide (strUpper = $"WARN") then Warn
  else if bool_decide (strUpper = $"NOTICE") then Notice
  else if bool_decide (strUpper = $"INFO") then Info
  else if bool_decide (strUpper = $"DEBUG") then Debug
  else if bool_decide (strUpper = $"TRAFFIC") then Traffic
  else None_.

(** [src/src/log/Level.cpp:26-39] to_string(log::Level) *)
Definition to_string (l : t) : cstr :=
  match l with
  | None_ => $"NONE" | Error => $"ERROR" | Warn => $"WARN" | Notice => $"NOTICE"
  | Info => $"INFO" | Debug => $"DEBUG" | Traffic => $"TRAFFIC"
  end.

(** Level names read back, in any mix of cases. *)
Lemma level_roundtrip l str : toupper <$> str = to_string l → from_string str = l.
Proof. intros H. unfold from_string. rewrite H. by destruct l. Qed.

End Level.

Module ErrorStatus.

(** [src/src/utils/ErrorStatus.h:17-62] ErrorStatus *)
Record t := mk { level : Level.t; errorCode : ErrorCode.t; errorStr : cstr; errorField : cstr }.

(** One line handed to the logger. *)
Record line := Line { l_cat : Z; l_level : Level.t; l_msg : cstr; l_code : Z; l_text : cstr }.

(** [src/src/utils/ErrorStatus.cpp:5-9] ErrorStatus::ErrorStatus *)
Definition new : t := mk Level.Error ErrorCode.None_ [] [].

(** [src/src/utils/ErrorStatus.cpp:16-19] ErrorStatus::setLogLevel *)
Definition setLogLevel (l : Level.t) (x : t) : t := mk l (errorCode x) (errorStr x) (errorField x).

(** [src/src/utils/ErrorStatus.cpp:26-29] ErrorStatus::setCode *)
Definition setCode (c : ErrorCode.t) (x : t) : t := mk (level x) c (errorStr x) (errorField x).

(** [src/src/utils/ErrorStatus.cpp:36-39] ErrorStatus::setStr *)
Definition setStr (s : cstr) (x : t) : t := mk (level x) (errorCode x) s (errorField x).

(** [src/src/utils/ErrorStatus.cpp:46-49] ErrorStatus::setField *)
Definition setField (f : cstr) (x : t) : t := mk (level x) (errorCode x) (errorStr x) f.

(** [src/src/utils/ErrorStatus.cpp:56-67] ErrorStatus::set *)
Definition set (cat : Z) (code : ErrorCode.t) (field : option cstr) (msg : cstr) (x : t) : t * list line :=
  (mk (level x) code msg (default [] field),
   [Line cat (level x) msg (ErrorCode.to_int code) (ErrorCode.to_string code)]).

(** [src/src/utils/ErrorStatus.cpp:70-97] ErrorStatus::extend *)
Definition extend (cat : Z) (field : option cstr) (msg : cstr) (x : t) : t * list line :=
  let f := match field with Some f => f | None => errorField x end in
  if bool_decide (msg = []) then (mk (level x) (errorCode x) (errorStr x) f, [])
  else
    let logged := [Line cat (level x) msg (ErrorCode.to_int (errorCode x)) (ErrorCode.to_string (errorCode x))] in
    if bool_decide (errorStr x = []) then (mk (level x) (errorCode x) msg f, logged)
    else
      let msg := if nth (length msg - 1) msg 0 =? chr "."
                 then <[(length msg - 1)%nat := chr ":"]> msg ++ $" "
                 else msg ++ $": " in
      (mk (level x) (errorCode x) (msg ++ errorStr x) f, logged).

End ErrorStatus.

Module Details.

(** [src/src/utils/Details.h:19-78] Details (error part) *)
Record t := mk { logCat : Z; errorStatus : ErrorStatus.t }.

(** [src/src/utils/Details.cpp:5-8] Details::Details *)
Definition new : t := mk 0 ErrorStatus.new.

(** [src/src/utils/Details.cpp:10-14] Details::Details(Level) *)
Definition new_level (l : Level.t) : t := mk 0 (ErrorStatus.setLogLevel l ErrorStatus.new).

(** [src/src/utils/Details.cpp:16-19] Details::isOk *)
Definition isOk (x : t) : bool := bool_decide (ErrorStatus.errorStr (errorStatus x) = []).

(** [src/src/utils/Details.h:44-49] Details::setError(Category) *)
Definition setError (cat : Z) (code : ErrorCode.t) (field : option cstr) (msg : cstr) (x : t) : t :=
  mk (logCat x) (fst (ErrorStatus.set cat code field msg (errorStatus x))).

(** [src/src/utils/Details.h:51-59] Details::setError(Level, Category) *)
Definition setError_level (l : Level.t) (cat : Z) (code : ErrorCode.t) (field : option cstr) (msg : cstr)
    (x : t) : t :=
  let eOrigLevel := ErrorStatus.level (errorStatus x) in
  let st := fst (ErrorStatus.set cat code field msg (ErrorStatus.setLogLevel l (errorStatus x))) in
  mk (logCat x) (ErrorStatus.setLogLevel eOrigLevel st).

(** [src/src/utils/Details.h:61-66] Details::extendError *)
Definition extendError (cat : Z) (field : option cstr) (msg : cstr) (x : t) : t :=
  mk (logCat x) (fst (ErrorStatus.extend cat field msg (errorStatus x))).

(** [src/src/utils/Details.cpp:36-39] Details::setErrorStatus *)
Definition setErrorStatus (e : ErrorStatus.t) (x : t) : t := mk (logCat x) e.

(** An operation counts as failed exactly when its error has text: a code alone is
    not an error, and text added to a success makes it a failure without a code. *)
Lemma details_ok_text cat code field msg x :
  (isOk (setError cat code field msg x) = true ↔ msg = []) ∧
  (isOk x = true → isOk (extendError cat field msg x) = bool_decide (msg = [])).
Proof.
  unfold isOk, setError, extendError, ErrorStatus.extend; simpl. split; [by rewrite bool_decide_eq_true|].
  intros Hok%bool_decide_eq_true. destruct (decide (msg = [])) as [Hm|Hm].
  - rewrite !(bool_decide_eq_true_2 _ Hm). by apply bool_decide_eq_true_2.
  - rewrite !(bool_decide_eq_false_2 _ Hm), (bool_decide_eq_true_2 _ Hok). by apply bool_decide_eq_false_2.
Qed.

End Details.
