(* ===== verification/ErrorTexts.v ===== *)
(** * Texts made of library errors

    How the messages of OpenSSL, the C library and PostgreSQL become the strings that are
    logged, and the formatting macro.  The messages themselves are the libraries'. *)

From S2P Require Import Prelude Strings.

Module OsslError.
Section Code.

(** The library's text of an error code. *)
Variable error_text : Z → cstr.

(** The thread's queue of error codes, oldest first. *)
Definition queue := list Z.

(** [src/src/ossl/Error.cpp:10-16] errString

    The buffer has 512 bytes, the last of which is the terminator. *)
Definition errString (e : Z) : cstr := take 511 (error_text e).

(** [src/src/ossl/Error.cpp:27-30] Error::peek

    An empty queue has the error 0. *)
Definition peek (q : queue) : cstr := errString (hd 0 q).

(** [src/src/ossl/Error.cpp:32-35] Error::clear *)
Definition clear (q : queue) : queue := [].

(** [src/src/ossl/Error.cpp:20-25] Error::pop *)
Definition pop (q : queue) : cstr * queue := let ret := peek q in (ret, clear q).

(** Taking an error tells of the oldest one and drops them all: a second call has nothing of
    the others to tell. *)
Lemma pop_drops_all e q :
  pop (e :: q) = (errString e, []) ∧ (pop (pop (e :: q)).2).1 = errString 0.
Proof. done. Qed.

End Code.
End OsslError.

Module Errno.

(** [src/src/utils/Errno.cpp:7-14] Errno::error

    [message] is what [strerror_r] leaves in the buffer when its result compares equal to
    zero, none when it does not. *)
Definition error (errno : Z) (message : option cstr) : cstr :=
  match message with
  | Some buf => $"(" ++ dec_text errno ++ $") " ++ take 1023 buf
  | None => $"Error number " ++ dec_text errno
  end.

End Errno.

Module Variadic.

(** [src/src/utils/Variadic.h:13-27] VARIADIC_STRING

    [text] is what the format and its arguments come to; the string is printed into a
    buffer of its own length, whose last byte takes the terminator. *)
Definition variadic_string (text output : cstr) : cstr :=
  if (0 <? length text)%nat then take (length text - 1) text ++ [0] else output.

(** The last character is lost to the terminator, and an empty text leaves what was there. *)
Lemma last_lost t c output :
  variadic_string (t ++ [c]) output = t ++ [0] ∧ variadic_string [] output = output.
Proof.
  unfold variadic_string. rewrite length_app. cbn [length]. split; [|done].
  rewrite (proj2 (Nat.ltb_lt _ _)) by lia. by rewrite Nat.add_sub, take_app_length.
Qed.

End Variadic.

Module OzoError.

(** [std::string::rfind]: the last place where [p] stands. *)
Fixpoint rfind (p s : cstr) : option nat :=
  match s with
  | [] => if is_prefix p [] then Some O else None
  | _ :: s' =>
      match rfind p s' with
      | Some n => Some (S n)
      | None => if is_prefix p s then Some O else None
      end
  end.

Definition drop_newline (s : cstr) : cstr := if bool_decide (last s = Some 10) then take (length s - 1) s else s.

(** [src/src/db/priv/Ozo.h:36-58] Ozo::error

    [conn] is the connection's own message and context, when there is a connection. *)
Definition error (message : cstr) (conn : option (cstr * cstr)) : cstr :=
  let ret := message ++ match conn with
                        | Some (text, context) => $" - " ++ text ++ $" (" ++ context ++ $")"
                        | None => []
                        end in
  let ret := match rfind $" ()" ret with Some pos => take pos ret | None => ret end in
  drop_newline ret.

Lemma rfind_short p s : (length s < length p)%nat → rfind p s = None.
Proof.
  induction s as [|c s IH]; intros Hl; cbn [length] in Hl.
  - by destruct p; [cbn in Hl; lia|].
  - cbn [rfind]. rewrite IH by lia. destruct (is_prefix p (c :: s)) eqn:E; [|done].
    apply is_prefix_spec, (f_equal length) in E. rewrite length_take in E. cbn [length] in E. lia.
Qed.

Lemma rfind_end p s : p ≠ [] → rfind p (s ++ p) = Some (length s).
Proof.
  intros Hp. induction s as [|c s IH].
  - destruct p as [|c p]; [done|]. cbn [app rfind]. rewrite rfind_short by (cbn; lia).
    by rewrite (proj2 (is_prefix_spec (c :: p) (c :: p))) by apply firstn_all.
  - cbn [app rfind length]. by rewrite IH.
Qed.

(** A connection without a context adds its message to that of the error, less the line
    feed the library ends it with; nothing is left of the empty brackets. *)
Lemma empty_context message text :
  error message (Some (text ++ [10], [])) = message ++ $" - " ++ text ∧
  (last text ≠ Some 10 → text ≠ [] → error message (Some (text, [])) = message ++ $" - " ++ text).
Proof.
  unfold error. cbn [app].
  assert (H : ∀ t, take (length (message ++ $" - " ++ t)) (message ++ $" - " ++ t ++ $" (" ++ $")") = message ++ $" - " ++ t ∧
    rfind $" ()" (message ++ $" - " ++ t ++ $" (" ++ $")") = Some (length (message ++ $" - " ++ t))).
  { intros t. change ($" (" ++ $")") with $" ()". rewrite !(assoc_L (++)). split; [by rewrite take_app_length|].
    by apply rfind_end. }
  split.
  - destruct (H (text ++ [10])) as [Ht Hr]. rewrite Hr, Ht. unfold drop_newline.
    rewrite !(assoc_L (++)), last_snoc, bool_decide_true, length_app by done. cbn [length].
    by rewrite Nat.add_sub, take_app_length.
  - intros Hl Hne. destruct (H text) as [Ht Hr]. rewrite Hr, Ht. unfold drop_newline.
    rewrite bool_decide_false; [done|]. rewrite !(assoc_L (++)), last_app. by destruct (last text) eqn:E; [|apply last_None in E].
Qed.

(** Brackets in the server's own message cut it, and the context with it. *)
Lemma brackets_cut :
  error $"error" (Some ($"function now () is gone", $"SELECT")) = $"error - function now".
Proof. reflexivity. Qed.

End OzoError.
