(* ===== verification/Db.v ===== *)
(** * Database access: [db/Session], [db/Database] and the query results

    The Postgres client (ozo and libpq) is a parameter: a server that can begin a
    transaction, run a statement and commit.  A result is the table libpq holds:
    a type per column and a value or NULL per cell.  The world records every
    statement sent, so that what reached the server can be stated. *)

From S2P Require Import Prelude Base58 Strings.

(** A libpq result: column types, and rows of values ([None] is NULL). *)
Record pg_result := PgResult {
  ftypes : list Z;
  tuples : list (list (option bytes));
}.

(** The server behind ozo. *)
Class Ozo := {
  server : Type;
  ozo_begin : server → bool * server;
  ozo_request : server → cstr → option pg_result * server;
  ozo_commit : server → bool * server;
  ozo_get_connection : server → bool * server;
}.

(** What was sent to the server, oldest first. *)
Inductive event := EBegin | EConnect | ERequest (q : cstr) | ECommit.

Record world {O : Ozo} := World { srv : server; trace : list event }.
Arguments World {O} _ _.

(** ** [db/priv/ResultImpl] *)
Module ResultImpl.

(** [src/src/db/priv/pg_type_d.h:19-19] BOOLOID *)
Definition BOOLOID : Z := 16.
(** [src/src/db/priv/pg_type_d.h:21-21] CHAROID *)
Definition CHAROID : Z := 18.
(** [src/src/db/priv/pg_type_d.h:23-23] INT8OID *)
Definition INT8OID : Z := 20.
(** [src/src/db/priv/pg_type_d.h:24-24] INT2OID *)
Definition INT2OID : Z := 21.
(** [src/src/db/priv/pg_type_d.h:26-26] INT4OID *)
Definition INT4OID : Z := 23.
(** [src/src/db/priv/pg_type_d.h:28-28] TEXTOID *)
Definition TEXTOID : Z := 25.
(** [src/src/db/priv/pg_type_d.h:59-59] VARCHAROID *)
Definition VARCHAROID : Z := 1043.

(** [src/src/db/priv/ResultImpl.cpp:20-38] ntohll *)
Definition ntohll (value : Z) : Z :=
  Z.lor (Z.shiftr (Z.land value 0xFF00000000000000) 56)
 (Z.lor (Z.shiftr (Z.land value 0x00FF000000000000) 40)
 (Z.lor (Z.shiftr (Z.land value 0x0000FF0000000000) 24)
 (Z.lor (Z.shiftr (Z.land value 0x000000FF00000000) 8)
 (Z.lor (Z.shiftl (Z.land value 0x00000000FF000000) 8)
 (Z.lor (Z.shiftl (Z.land value 0x0000000000FF0000) 24)
 (Z.lor (Z.shiftl (Z.land value 0x000000000000FF00) 40)
        (Z.shiftl (Z.land value 0x00000000000000FF) 56))))))).

(** The C library's 16- and 32-bit byte swaps. *)
Definition ntohs (v : Z) : Z := v mod 256 * 256 + v / 256 mod 256.
Definition ntohl (v : Z) : Z :=
  v mod 256 * 16777216 + v / 256 mod 256 * 65536 + v / 65536 mod 256 * 256 + v / 16777216 mod 256.

(** The integer [memcpy] builds from the first [n] bytes, little-endian; [None]
    when the value is shorter than what is copied. *)
Definition mem_int (n : nat) (v : bytes) : option Z :=
  if (n <=? length v)%nat then Some (le_val 256 (take n v)) else None.

(** [src/src/db/priv/ResultImpl.h:11-38] ResultCol

    The column cursor into a result. *)
Record ResultCol := mkCol { col : Z; row : Z; numCols : Z; numRows : Z; result : option pg_result }.

(** [src/src/db/priv/ResultImpl.cpp:42-49] ResultCol::ResultCol *)
Definition newCol (r : option pg_result) : ResultCol :=
  mkCol 0 0 (match r with Some r => zlen (ftypes r) | None => 0 end)
        (match r with Some r => zlen (tuples r) | None => 0 end) r.

(** [src/src/db/priv/ResultImpl.cpp:51-55] ResultCol::setCol *)
Definition setCol (row col : Z) (c : ResultCol) : ResultCol :=
  mkCol col row (numCols c) (numRows c) (result c).

(** The cell under the cursor and its type, when it is in range, not NULL and
    not empty: the guards every accessor starts with. *)
Definition cell (c : ResultCol) : option (Z * bytes) :=
  if (numRows c <=? row c) || (numCols c <=? col c) then None
  else
    r ← result c;
    tup ← tuples r !! Z.to_nat (row c);
    v ← tup !! Z.to_nat (col c);
    ty ← ftypes r !! Z.to_nat (col c);
    match v with
    | None => None
    | Some v => if zlen v <=? 0 then None else Some (ty, v)
    end.

(** [src/src/db/priv/ResultImpl.cpp:57-67] ResultCol::data *)
Definition data (c : ResultCol) : bytes :=
  match cell c with Some (_, v) => v | None => [] end.

(** [src/src/db/priv/ResultImpl.cpp:136-190] ResultCol::Int64

    [None]: the copy reads past the value. *)
Definition Int64 (c : ResultCol) : option Z :=
  match cell c with
  | None => Some 0
  | Some (ty, v) =>
      if (ty =? INT8OID) || (ty =? CHAROID) then
        val ← mem_int 8 v; Some (swrap 64 (ntohll val))
      else if ty =? INT2OID then val8 ← mem_int 1 v; Some (ntohs val8)
      else if ty =? INT4OID then val32 ← mem_int 4 v; Some (ntohl val32)
      else if ty =? BOOLOID then val8 ← mem_int 1 v; Some (if val8 =? 0 then 0 else 1)
      else if (ty =? VARCHAROID) || (ty =? TEXTOID) then Some (Strings.from_string_int64 v)
      else Some 0
  end.

(** [src/src/db/priv/ResultImpl.cpp:69-108] ResultCol::str *)
Definition str (c : ResultCol) : option cstr :=
  match cell c with
  | None => Some []
  | Some (ty, v) =>
      if (ty =? INT2OID) || (ty =? INT4OID) || (ty =? INT8OID) then
        n ← Int64 c; Some (Strings.to_string_int n)
      else if ty =? BOOLOID then n ← Int64 c; Some (if n =? 0 then $"0" else $"1")
      else if (ty =? CHAROID) || (ty =? TEXTOID) || (ty =? VARCHAROID) then Some v
      else Some []
  end.

(** [src/src/db/priv/ResultImpl.cpp:110-117] ResultCol::UInt32 *)
Definition UInt32 (c : ResultCol) : option Z :=
  if (numRows c <=? row c) || (numCols c <=? col c) then Some 0
  else
    val ← Int64 c;
    Some (if val <? 0 then 0 else if 4294967295 <? val then 4294967295 else u32 val).

(** [src/src/db/priv/ResultImpl.cpp:119-126] ResultCol::UInt64 *)
Definition UInt64 (c : ResultCol) : option Z :=
  if (numRows c <=? row c) || (numCols c <=? col c) then Some 0
  else val ← Int64 c; Some (if val <? 0 then 0 else u64 val).

(** [src/src/db/priv/ResultImpl.cpp:128-134] ResultCol::Int32 *)
Definition Int32 (c : ResultCol) : option Z :=
  if (numRows c <=? row c) || (numCols c <=? col c) then Some 0
  else
    val ← Int64 c;
    Some (if val <? - 2 ^ 31 then - 2 ^ 31 else if 2 ^ 31 - 1 <? val then 2 ^ 31 - 1 else swrap 32 val).

(** [src/src/db/priv/ResultImpl.cpp:192-225] ResultCol::boolean *)
Definition boolean (c : ResultCol) : option bool :=
  match cell c with
  | None => Some false
  | Some (ty, v) =>
      if (ty =? INT8OID) || (ty =? CHAROID) || (ty =? INT2OID) || (ty =? INT4OID) then
        n ← UInt64 c; Some (negb (n =? 0))
      else if ty =? BOOLOID then val8 ← mem_int 1 v; Some (negb (val8 =? 0))
      else if (ty =? VARCHAROID) || (ty =? TEXTOID) then Some (Strings.from_string_bool v)
      else Some false
  end.

(** [src/src/db/priv/ResultImpl.cpp:227-232] ResultCol::null *)
Definition null (c : ResultCol) : bool :=
  if (numRows c <=? row c) || (numCols c <=? col c) then true
  else match result c with
  | None => true
  | Some r => bool_decide ((tup ← tuples r !! Z.to_nat (row c); tup !! Z.to_nat (col c)) = Some None)
  end.

(** [src/src/db/priv/ResultImpl.h:40-61] ResultRow *)
Record ResultRow := mkRow { rresult : option pg_result; rcol : ResultCol; rnumRows : Z; curRow : Z }.

(** [src/src/db/priv/ResultImpl.cpp:234-240] ResultRow::ResultRow *)
Definition newRow (r : option pg_result) : ResultRow :=
  mkRow r (newCol r) (match r with Some r => zlen (tuples r) | None => 0 end) 0.

(** [src/src/db/priv/ResultImpl.cpp:242-245] ResultRow::operator bool *)
Definition to_bool (r : ResultRow) : bool :=
  bool_decide (is_Some (rresult r)) && (0 <? rnumRows r) && (curRow r <? rnumRows r).

(** [src/src/db/priv/ResultImpl.cpp:247-250] ResultRow::inc *)
Definition inc (r : ResultRow) : ResultRow :=
  mkRow (rresult r) (rcol r) (rnumRows r) (curRow r + 1).

(** [src/src/db/priv/ResultImpl.cpp:252-262] ResultRow::operator[] *)
Definition at_col (r : ResultRow) (pos : Z) : ResultCol :=
  let cur := if curRow r <? 0 then 0 else curRow r in
  setCol cur (swrap 32 pos) (rcol r).

(** [src/src/db/priv/ResultImpl.h:63-81] ResultImpl *)
Record t := mk { presult : option pg_result; prow : ResultRow }.

(** [src/src/db/priv/ResultImpl.cpp:264-268] ResultImpl::ResultImpl *)
Definition make (r : pg_result) : t := mk (Some r) (newRow (Some r)).

(** [src/src/db/priv/ResultImpl.cpp:270-275] ResultImpl::getNumResults *)
Definition getNumResults (x : t) : Z :=
  match presult x with Some r => zlen (tuples r) | None => 0 end.

(** [src/src/db/priv/ResultImpl.cpp:277-280] ResultImpl::cur *)
Definition cur (x : t) : ResultRow := prow x.

(** [src/src/db/priv/ResultImpl.cpp:282-286] ResultImpl::next *)
Definition next (x : t) : ResultRow * t :=
  let r := inc (prow x) in (r, mk (presult x) r).

(** *** Integers as Postgres sends them: big-endian two's complement *)

Definition pg_int (w : nat) (z : Z) : bytes :=
  reverse ((λ i, z / 256 ^ Z.of_nat i mod 256) <$> seq 0 w).

Lemma land_mask v k : 0 ≤ v → 0 ≤ k → Z.land v (Z.shiftl 255 k) = (v / 2 ^ k mod 256) * 2 ^ k.
Proof.
  intros Hv Hk. rewrite <- Z.shiftl_mul_pow2 by lia.
  change 256 with (2 ^ 8). rewrite <- Z.land_ones by lia.
  rewrite <- Z.shiftr_div_pow2 by lia. change (Z.ones 8) with 255.
  apply Z.bits_inj'. intros i Hi. rewrite Z.land_spec, !Z.shiftl_spec by lia.
  destruct (decide (i < k)).
  - rewrite !(Z.testbit_neg_r _ (i - k)) by lia. by rewrite andb_false_r.
  - rewrite Z.land_spec, Z.shiftr_spec by lia. by replace (i - k + k) with i by lia.
Qed.

Lemma lor_step x y j k :
  0 ≤ j → k = j + 8 → 0 ≤ x < 256 → Z.lor (x * 2 ^ j) (y * 2 ^ k) = (x + y * 256) * 2 ^ j.
Proof.
  intros Hj -> Hx. rewrite Z.lor_comm, Z_lor_add; rewrite ?Z.pow_add_r by lia; [lia|lia|].
  split; [apply Z.mul_nonneg_nonneg; lia|].
  rewrite Z.mul_comm. apply Z.mul_lt_mono_pos_l; lia.
Qed.

(** The byte at position [k] of [v]. *)
Abbreviation nth_byte v k := (v / 2 ^ (8 * k) mod 256).

Lemma ntohll_bytes v :
  0 ≤ v < 2 ^ 64 →
  ntohll v = nth_byte v 0 * 2 ^ 56 + nth_byte v 1 * 2 ^ 48 + nth_byte v 2 * 2 ^ 40 +
             nth_byte v 3 * 2 ^ 32 + nth_byte v 4 * 2 ^ 24 + nth_byte v 5 * 2 ^ 16 +
             nth_byte v 6 * 2 ^ 8 + nth_byte v 7.
Proof.
  intros Hv. unfold ntohll.
  change 0xFF00000000000000 with (Z.shiftl 255 56). change 0x00FF000000000000 with (Z.shiftl 255 48).
  change 0x0000FF0000000000 with (Z.shiftl 255 40). change 0x000000FF00000000 with (Z.shiftl 255 32).
  change 0x00000000FF000000 with (Z.shiftl 255 24). change 0x0000000000FF0000 with (Z.shiftl 255 16).
  change 0x000000000000FF00 with (Z.shiftl 255 8). change 0x00000000000000FF with (Z.shiftl 255 0).
  rewrite !land_mask by lia. rewrite !Z.shiftr_div_pow2, !Z.shiftl_mul_pow2 by lia.
  change (8 * 0) with 0. change (8 * 1) with 8. change (8 * 2) with 16. change (8 * 3) with 24.
  change (8 * 4) with 32. change (8 * 5) with 40. change (8 * 6) with 48. change (8 * 7) with 56.
  pose proof (Z.mod_pos_bound (v / 2 ^ 56) 256 ltac:(lia)). set (b7 := v / 2 ^ 56 mod 256) in *.
  pose proof (Z.mod_pos_bound (v / 2 ^ 48) 256 ltac:(lia)). set (b6 := v / 2 ^ 48 mod 256) in *.
  pose proof (Z.mod_pos_bound (v / 2 ^ 40) 256 ltac:(lia)). set (b5 := v / 2 ^ 40 mod 256) in *.
  pose proof (Z.mod_pos_bound (v / 2 ^ 32) 256 ltac:(lia)). set (b4 := v / 2 ^ 32 mod 256) in *.
  pose proof (Z.mod_pos_bound (v / 2 ^ 24) 256 ltac:(lia)). set (b3 := v / 2 ^ 24 mod 256) in *.
  pose proof (Z.mod_pos_bound (v / 2 ^ 16) 256 ltac:(lia)). set (b2 := v / 2 ^ 16 mod 256) in *.
  pose proof (Z.mod_pos_bound (v / 2 ^ 8) 256 ltac:(lia)). set (b1 := v / 2 ^ 8 mod 256) in *.
  pose proof (Z.mod_pos_bound (v / 2 ^ 0) 256 ltac:(lia)). set (b0 := v / 2 ^ 0 mod 256) in *.
  replace (b7 * 2 ^ 56 / 2 ^ 56) with b7 by (rewrite Z.div_mul; lia).
  replace (b6 * 2 ^ 48 / 2 ^ 40) with (b6 * 2 ^ 8) by (change (2 ^ 48) with (2 ^ 8 * 2 ^ 40); rewrite Z.mul_assoc, Z.div_mul; lia).
  replace (b5 * 2 ^ 40 / 2 ^ 24) with (b5 * 2 ^ 16) by (change (2 ^ 40) with (2 ^ 16 * 2 ^ 24); rewrite Z.mul_assoc, Z.div_mul; lia).
  replace (b4 * 2 ^ 32 / 2 ^ 8) with (b4 * 2 ^ 24) by (change (2 ^ 32) with (2 ^ 24 * 2 ^ 8); rewrite Z.mul_assoc, Z.div_mul; lia).
  replace (b0 * 2 ^ 0 * 2 ^ 56) with (b0 * 2 ^ 56) by lia.
  replace (b1 * 2 ^ 8 * 2 ^ 40) with (b1 * 2 ^ 48) by lia.
  replace (b2 * 2 ^ 16 * 2 ^ 24) with (b2 * 2 ^ 40) by lia.
  replace (b3 * 2 ^ 24 * 2 ^ 8) with (b3 * 2 ^ 32) by lia.
  rewrite (lor_step b1 b0 48 56), (lor_step b2 _ 40 48), (lor_step b3 _ 32 40),
    (lor_step b4 _ 24 32), (lor_step b5 _ 16 24), (lor_step b6 _ 8 16) by lia.
  replace b7 with (b7 * 2 ^ 0) at 1 by lia. rewrite (lor_step b7 _ 0 8) by lia. lia.
Qed.

(** The low [w] base-256 digits of a number, least significant first. *)
Definition low_bytes (w : nat) (z : Z) : bytes := (λ i, z / 256 ^ Z.of_nat i mod 256) <$> seq 0 w.

Lemma low_bytes_ok w z : bytes_ok (low_bytes w z).
Proof. apply Forall_fmap, Forall_true. intros i. apply Z.mod_pos_bound. lia. Qed.

Lemma low_bytes_S w z : low_bytes (S w) z = z mod 256 :: low_bytes w (z / 256).
Proof.
  unfold low_bytes. simpl seq. rewrite <- seq_shift. simpl. f_equal.
  - by rewrite Z.div_1_r.
  - rewrite <- list_fmap_compose. apply list_fmap_ext. intros i x _. unfold compose.
    by rewrite Nat2Z.inj_succ, Z.pow_succ_r, Z.div_div by lia.
Qed.

Lemma low_bytes_val w z : le_val 256 (low_bytes w z) = z mod 256 ^ Z.of_nat w.
Proof.
  revert z. induction w as [|w IH]; intros z.
  - simpl. by rewrite Z.mod_1_r.
  - rewrite low_bytes_S. cbn [le_val]. rewrite IH, Nat2Z.inj_succ, Z.pow_succ_r by lia.
    by rewrite Z.rem_mul_r by lia.
Qed.

Lemma le_val_nth (l : bytes) (k : nat) :
  bytes_ok l → le_val 256 l / 2 ^ (8 * Z.of_nat k) mod 256 = nth k l 0.
Proof.
  intros Hl. revert k. induction Hl as [|b l Hb Hl IH]; intros k.
  - simpl. rewrite Z.div_0_l by (apply Z.pow_nonzero; lia). by destruct k.
  - unfold is_byte in Hb. destruct k as [|k]; cbn [le_val nth].
    + rewrite Z.mul_0_r, Z.div_1_r. rewrite (Z.mul_comm 256), Z_mod_plus_full. apply Z.mod_small. lia.
    + rewrite <- IH. replace (8 * Z.of_nat (S k)) with (8 + 8 * Z.of_nat k) by lia.
      rewrite Z.pow_add_r, <- Z.div_div by lia. do 2 f_equal. change (2 ^ 8) with 256. dlia.
Qed.

Lemma ntohll_reverse l :
  length l = 8%nat → bytes_ok l → ntohll (le_val 256 l) = le_val 256 (reverse l).
Proof.
  intros Hl Hok. pose proof (le_val_bound 256 ltac:(lia) l Hok) as Hb.
  pose proof (le_val_nonneg 256 ltac:(lia) l Hok). rewrite Hl in Hb. change (256 ^ Z.of_nat 8) with (2 ^ 64) in Hb.
  rewrite ntohll_bytes by lia.
  pose proof (λ k, le_val_nth l k Hok) as Hn.
  rewrite (Hn 0%nat : nth_byte (le_val 256 l) 0 = _), (Hn 1%nat : nth_byte (le_val 256 l) 1 = _),
    (Hn 2%nat : nth_byte (le_val 256 l) 2 = _), (Hn 3%nat : nth_byte (le_val 256 l) 3 = _),
    (Hn 4%nat : nth_byte (le_val 256 l) 4 = _), (Hn 5%nat : nth_byte (le_val 256 l) 5 = _),
    (Hn 6%nat : nth_byte (le_val 256 l) 6 = _), (Hn 7%nat : nth_byte (le_val 256 l) 7 = _).
  clear -Hl. do 9 (destruct l as [|? l]; try done). simpl. lia.
Qed.

Lemma ntohl_reverse l :
  length l = 4%nat → bytes_ok l → ntohl (le_val 256 l) = le_val 256 (reverse l).
Proof.
  intros Hl Hok. unfold ntohl. pose proof (λ k, le_val_nth l k Hok) as Hn.
  pose proof (Hn 0%nat) as H0. pose proof (Hn 1%nat) as H1.
  pose proof (Hn 2%nat) as H2. pose proof (Hn 3%nat) as H3.
  change (2 ^ (8 * Z.of_nat 0)) with 1 in H0. rewrite Z.div_1_r in H0.
  change (2 ^ (8 * Z.of_nat 1)) with 256 in H1. change (2 ^ (8 * Z.of_nat 2)) with 65536 in H2.
  change (2 ^ (8 * Z.of_nat 3)) with 16777216 in H3. rewrite H0, H1, H2, H3.
  clear -Hl. do 5 (destruct l as [|? l]; try done). simpl. lia.
Qed.

Lemma pg_int_length w z : length (pg_int w z) = w.
Proof. unfold pg_int. by rewrite length_reverse, length_fmap, length_seq. Qed.

Lemma pg_int_ok w z : bytes_ok (pg_int w z).
Proof. apply Forall_reverse, low_bytes_ok. Qed.

Lemma mem_pg_int w z : mem_int w (pg_int w z) = Some (le_val 256 (pg_int w z)).
Proof.
  unfold mem_int. rewrite pg_int_length, Nat.leb_refl. by rewrite take_ge by (rewrite pg_int_length; done).
Qed.

Lemma pg_int_reverse w z : le_val 256 (reverse (pg_int w z)) = z mod 256 ^ Z.of_nat w.
Proof. unfold pg_int. rewrite reverse_involutive. apply low_bytes_val. Qed.

(** Integers come out of a query result as follows: every 8-byte integer is
    read exactly; a 4-byte integer is read exactly when it is not negative, and as
    its value plus 2^32 when it is; of a 2-byte integer only the high byte is read. *)
Theorem pg_integers_read (c : ResultCol) (z : Z) :
  (cell c = Some (INT8OID, pg_int 8 z) → - 2 ^ 63 ≤ z < 2 ^ 63 → Int64 c = Some z) ∧
  (cell c = Some (INT4OID, pg_int 4 z) → 0 ≤ z < 2 ^ 31 → Int64 c = Some z) ∧
  (cell c = Some (INT4OID, pg_int 4 z) → - 2 ^ 31 ≤ z < 0 → Int64 c = Some (z + 2 ^ 32)) ∧
  (cell c = Some (INT2OID, pg_int 2 z) → 0 ≤ z < 2 ^ 15 → Int64 c = Some (z / 256 * 256)).
Proof.
  assert (H4 : ∀ v, cell c = Some (INT4OID, pg_int 4 v) → Int64 c = Some (v mod 2 ^ 32)).
  { intros v Hc. unfold Int64. rewrite Hc. cbn -[mem_int pg_int Z.pow]. rewrite mem_pg_int. cbn [mbind option_bind].
    by rewrite ntohl_reverse, pg_int_reverse by (apply pg_int_length || apply pg_int_ok). }
  split_and!; intros Hc Hz.
  - unfold Int64. rewrite Hc. cbn -[mem_int pg_int Z.pow swrap]. rewrite mem_pg_int. cbn [mbind option_bind].
    rewrite ntohll_reverse, pg_int_reverse by (apply pg_int_length || apply pg_int_ok).
    f_equal. change (256 ^ Z.of_nat 8) with (2 ^ 64). unfold swrap, wrap.
    rewrite Zplus_mod_idemp_l. change (2 ^ (64 - 1)) with (2 ^ 63). rewrite Z.mod_small; lia.
  - rewrite (H4 z Hc). by rewrite Z.mod_small by lia.
  - rewrite (H4 z Hc). f_equal. rewrite <- (Z_mod_plus_full z 1), Z.mul_1_l.
    apply Z.mod_small. lia.
  - assert (Hm : mem_int 1 (pg_int 2 z) = Some (z / 256 mod 256)).
    { change (pg_int 2 z) with [z / 256 ^ 1 mod 256; z / 256 ^ 0 mod 256].
      change (256 ^ 1) with 256. unfold mem_int. simpl. f_equal. lia. }
    unfold Int64. rewrite Hc. cbn -[mem_int pg_int ntohs Z.div Z.mul]. rewrite Hm.
    cbn [mbind option_bind]. unfold ntohs. f_equal. dlia.
Qed.

Lemma pg_integers_read_witness :
  Int64 (newCol (Some (PgResult [INT4OID] [[Some (pg_int 4 (-1))]]))) = Some (-1 + 2 ^ 32).
Proof. apply (pg_integers_read _ (-1)); [reflexivity|lia]. Defined.

End ResultImpl.

(** ** [db/result/DataResult] *)
Module DataResult.

(** [src/src/db/result/DataResult.h:10-28] DataResult *)
Record t := mk { data : option ResultImpl.t }.

(** [src/src/db/result/DataResult.cpp:9-36] nullRow *)
Definition nullRow : ResultImpl.ResultRow := ResultImpl.newRow None.

(** [src/src/db/result/DataResult.cpp:45-48] DataResult::getNumResults *)
Definition getNumResults (x : t) : Z :=
  match data x with Some d => ResultImpl.getNumResults d | None => 0 end.

(** [src/src/db/result/DataResult.cpp:50-53] DataResult::cur *)
Definition cur (x : t) : ResultImpl.ResultRow :=
  match data x with Some d => ResultImpl.cur d | None => nullRow end.

(** [src/src/db/result/DataResult.cpp:55-58] DataResult::next

    Returns the current row and leaves the result as it is. *)
Definition next (x : t) : ResultImpl.ResultRow * t :=
  (match data x with Some d => ResultImpl.cur d | None => nullRow end, x).

Definition of_pg (r : pg_result) : t := mk (Some (ResultImpl.make r)).

Lemma next_of_pg r :
  tuples r ≠ [] → ResultImpl.to_bool (fst (next (of_pg r))) = true.
Proof.
  intros Hne. unfold next, of_pg, ResultImpl.to_bool; simpl. by destruct (tuples r).
Qed.

End DataResult.

(** ** [db/Session] and [db/Database] *)
Module Session.

(** [src/src/db/priv/SessionImpl.h:8-21] priv::SessionImpl *)
Inductive SessionImpl := SConnection | STransaction.

(** [src/src/db/Session.h:23-47] Session *)
Record t := mk { impl : option SessionImpl }.

Section Code.
Context {O : Ozo}.

Definition send (e : event) (w : world) (s : server) : world := World s (trace w ++ [e]).

(** [src/src/db/Session.cpp:58-87] Session::commit

    Whether [details] is still without error, the session, the world. *)
Definition commit (x : t) (w : world) : bool * t * world :=
  match impl x with
  | Some STransaction => let '(ok, s) := ozo_commit (srv w) in (ok, mk None, send ECommit w s)
  | _ => (false, mk None, w)
  end.

(** [src/src/db/Session.cpp:89-150] Session::query *)
Definition query (x : t) (q : cstr) (w : world) : bool * world :=
  match impl x with
  | None => (false, w)
  | Some _ =>
      let '(r, s) := ozo_request (srv w) q in
      (bool_decide (is_Some r), send (ERequest q) w s)
  end.

(** [src/src/db/Session.cpp:152-202] Session::select *)
Definition select (x : t) (q : cstr) (w : world) : bool * DataResult.t * world :=
  match impl x with
  | None => (false, DataResult.mk None, w)
  | Some _ =>
      match ozo_request (srv w) q with
      | (Some r, s) => (true, DataResult.of_pg r, send (ERequest q) w s)
      | (None, s) => (false, DataResult.mk None, send (ERequest q) w s)
      end
  end.

(** [src/src/db/Database.cpp:72-103] Database::newSession

    [connected]: the pool exists. *)
Definition newSession (connected : bool) (w : world) : bool * t * world :=
  if negb connected then (false, mk None, w)
  else
    let '(ok, s) := ozo_begin (srv w) in
    if negb ok then (false, mk None, send EBegin w s)
    else (true, mk (Some STransaction), send EBegin w s).

(** [src/src/db/Database.cpp:105-136] Database::newReadOnlySession *)
Definition newReadOnlySession (connected : bool) (w : world) : bool * t * world :=
  if negb connected then (false, mk None, w)
  else
    let '(ok, s) := ozo_get_connection (srv w) in
    if negb ok then (false, mk None, send EConnect w s)
    else (true, mk (Some SConnection), send EConnect w s).

(** A session is good for one commit: afterwards every further query, select or
    commit on it fails without reaching the server, and a read-only session never
    commits. *)
Theorem session_single_commit (x : t) (w : world) (q : cstr) :
  let '(_, x', w') := commit x w in
  query x' q w' = (false, w') ∧ commit x' w' = (false, mk None, w') ∧
  select x' q w' = (false, DataResult.mk None, w') ∧
  (impl x ≠ Some STransaction → w' = w).
Proof.
  unfold commit. destruct (impl x) as [[]|]; simpl; try done. by destruct (ozo_commit _).
Qed.
End Code.

End Session.
