(* ===== verification/DbLife.v ===== *)
(** * The lifetimes of database objects: [db/]

    Which session holds which connection of the pool while sessions are made, moved,
    committed and destroyed, and the number of rows a query reports.  [Db.v] has what a
    session does with its connection. *)

From S2P Require Import Prelude Strings Db.

Module Result.

(** [src/src/db/result/Result.h:8-23] Result *)
Record t := mk { uiAffectedRows : Z }.

(** [src/src/db/result/Result.cpp:6-9] Result::Result *)
Definition new : t := mk 0.

(** [src/src/db/result/Result.cpp:11-14] Result::getAffectedRows *)
Definition getAffectedRows (x : t) : Z := uiAffectedRows x.

(** [src/src/db/result/Result.cpp:16-19] Result::setAffectedRows *)
Definition setAffectedRows (ui : Z) (x : t) : t := mk ui.

(** [src/src/db/Session.cpp:19-26] getAffectedRows

    [sz] is the library's text of the number of rows, or null. *)
Definition affected (sz : option cstr) : Z :=
  let affectedRows := match sz with Some sz => Strings.atoi sz | None => 0 end in
  if 0 <? affectedRows then u64 affectedRows else 0.

(** The number the server tells is reported as long as it fits an [int]; in the next
    such range it reports none. *)
Lemma affected_rows n :
  (0 ≤ n < 2 ^ 31 → affected (Some (dec_text n)) = n) ∧
  (2 ^ 31 ≤ n < 2 ^ 32 → affected (Some (dec_text n)) = 0) ∧
  affected (Some []) = 0 ∧ affected None = 0.
Proof.
  assert (Ha : 0 ≤ n < 2 ^ 32 → Strings.atoi (dec_text n) = swrap 32 n).
  { intros Hn. unfold Strings.atoi, Strings.strtoll. rewrite Strings.scan_text by lia. f_equal. unfold Strings.clamp. lia. }
  unfold affected. split_and!; [| |done|done]; intros Hn; rewrite Ha by lia.
  - rewrite Strings.swrap_small by lia. destruct (0 <? n) eqn:E; [|lia]. apply wrap_small. unfold is_u. lia.
  - replace (swrap 32 n) with (n - 2 ^ 32).
    { by rewrite (proj2 (Z.ltb_ge _ _)) by lia. }
    unfold swrap, wrap. rewrite (Zmod_eq _ (2 ^ 32)) by lia.
    replace ((n + 2 ^ (32 - 1)) / 2 ^ 32) with 1; [lia|]. apply Z.div_unique_pos with (n + 2 ^ 31 - 2 ^ 32); lia.
Qed.

End Result.

Module SessionLife.

(** [src/src/db/priv/SessionImpl.h:8-21] priv::SessionImpl

    The pooled connection it holds, and whether it has a transaction on it. *)
Record sess := Sess { mode : Session.SessionImpl; conn : Z }.

(** What a [Session] is: its implementation, or null. *)
Notation session := (option sess) (only parsing).

(** [src/src/db/Session.cpp:30-32] Session::Session *)
Definition null : session := None.

(** [src/src/db/Session.cpp:34-37] Session::Session (implementation) *)
Definition of_impl (i : sess) : session := Some i.

(** [src/src/db/Session.cpp:39-42] Session::Session (move)

    The new session and the source. *)
Definition move (rhs : session) : session * session := (rhs, None).

(** The connection that goes back to the pool with an implementation. *)
Definition gives_back (x : session) : list Z := match x with Some i => [conn i] | None => [] end.

(** [src/src/db/Session.cpp:44-50] Session::operator=

    The target, the source, and what goes back to the pool. *)
Definition move_assign (same : bool) (x rhs : session) : session * session * list Z :=
  if same then (x, rhs, []) else (rhs, None, gives_back x).

(** [src/src/db/Session.cpp:52-56] Session::~Session

    Whether it is logged that a transaction was never finalised. *)
Definition destroy (x : session) : bool * list Z :=
  (match x with Some (Sess Session.STransaction _) => true | _ => false end, gives_back x).

(** The sessions of a program, by their variables, with the connections the pool gave out
    and got back and the number of errors logged. *)
Record st := mk { vars : list session; opened : list Z; returned : list Z; errors : nat }.

Inductive op :=
  | Open (mode : Session.SessionImpl) (conn : Z)
  | Assign (target source : nat)
  | Commit (i : nat)
  | Destroy (i : nat).

Definition run_op (o : op) (x : st) : st :=
  match o with
  | Open m c => mk (vars x ++ [of_impl (Sess m c)]) (opened x ++ [c]) (returned x) (errors x)
  | Assign i j =>
      match vars x !! i, vars x !! j with
      | Some a, Some b =>
          let '(a, b, back) := move_assign (i =? j)%nat a b in
          mk (<[i := a]> (<[j := b]> (vars x))) (opened x) (returned x ++ back) (errors x)
      | _, _ => x
      end
  | Commit i =>
      match vars x !! i with
      | Some a => mk (<[i := null]> (vars x)) (opened x) (returned x ++ gives_back a) (errors x)
      | None => x
      end
  | Destroy i =>
      match vars x !! i with
      | Some a =>
          let '(logged, back) := destroy a in
          mk (<[i := null]> (vars x)) (opened x) (returned x ++ back) (if logged then S (errors x) else errors x)
      | None => x
      end
  end.

Definition held (l : list session) : list Z := l ≫= gives_back.

Lemma held_insert (l : list session) i (a b : session) :
  l !! i = Some a → held (<[i := b]> l) ++ gives_back a ≡ₚ held l ++ gives_back b.
Proof.
  intros Hi. unfold held. rewrite (insert_take_drop l i b) by (by eapply lookup_lt_Some).
  rewrite <- (take_drop_middle l i a Hi) at 3. rewrite !bind_app, !bind_cons.
  generalize (take i l ≫= gives_back) (drop (S i) l ≫= gives_back). intros. solve_Permutation.
Qed.

(** A connection has one owner: after any history, each one the pool gave out is held by
    one session or went back once. *)
Lemma one_owner os : ∀ x,
  held (vars x) ++ returned x ≡ₚ opened x →
  let y := foldl (λ x o, run_op o x) x os in held (vars y) ++ returned y ≡ₚ opened y.
Proof.
  induction os as [|o os IH]; intros x Hx; [done|]. apply IH. clear IH os.
  assert (Hset : ∀ i a, vars x !! i = Some a →
    held (<[i := null]> (vars x)) ++ returned x ++ gives_back a ≡ₚ opened x).
  { intros i a Hi. pose proof (held_insert (vars x) i a null Hi) as H. cbn in H. rewrite app_nil_r in H.
    rewrite <- Hx, <- H. solve_Permutation. }
  destruct o as [m c|i j|i|i]; cbn [run_op].
  - cbn [vars returned opened]. unfold held. rewrite bind_app. cbn. rewrite <- Hx. unfold held. solve_Permutation.
  - destruct (vars x !! i) as [a|] eqn:Hi; [|done]. destruct (vars x !! j) as [b|] eqn:Hj; [|done].
    destruct (i =? j)%nat eqn:E; unfold move_assign; cbn [vars returned opened].
    + apply Nat.eqb_eq in E as <-. rewrite Hi in Hj. injection Hj as <-.
      rewrite (list_insert_id _ _ _ Hi), (list_insert_id _ _ _ Hi), app_nil_r. done.
    + apply Nat.eqb_neq in E.
      pose proof (held_insert (vars x) j b null Hj) as H1. cbn in H1. rewrite app_nil_r in H1.
      assert (Hi' : <[j := null]> (vars x) !! i = Some a) by (rewrite list_lookup_insert_ne by done; done).
      pose proof (held_insert _ i a b Hi') as H2.
      rewrite <- Hx, <- H1, <- H2. solve_Permutation.
  - destruct (vars x !! i) as [a|] eqn:Hi; [|done]. cbn [vars returned opened]. by apply Hset.
  - destruct (vars x !! i) as [a|] eqn:Hi; [|done]. cbn [destroy vars returned opened]. by apply Hset.
Qed.

(** A transaction that is destroyed is complained of; one that is assigned over is not. *)
Lemma overwritten_silently c m d :
  let x := mk [Some (Sess Session.STransaction c); Some (Sess m d)] [c; d] [] 0 in
  errors (run_op (Destroy 0) x) = 1%nat ∧
  errors (run_op (Assign 0 1) x) = 0%nat ∧ returned (run_op (Assign 0 1) x) = [c].
Proof. done. Qed.

End SessionLife.

Module DatabaseLife.

(** [src/src/db/Database.cpp:16-19] DatabaseImpl

    The event loop a database refers to, and its pool when it is connected. *)
Record t := mk { io : Z; impl : option Z }.

(** [src/src/db/Database.cpp:23-26] Database::Database *)
Definition new (io : Z) : t := mk io None.

(** [src/src/db/Database.cpp:28-32] Database::Database (move) *)
Definition move (rhs : t) : t * t := (mk (io rhs) (impl rhs), mk (io rhs) None).

(** [src/src/db/Database.cpp:34-39] Database::operator= *)
Definition move_assign (same : bool) (x rhs : t) : t * t :=
  if same then (x, rhs) else (mk (io x) (impl rhs), mk (io rhs) None).

(** The pool has one owner; an assigned one is run on the event loop of the target. *)
Lemma pool_moves x rhs :
  impl (move rhs).1 = impl rhs ∧ impl (move rhs).2 = None ∧ io (move rhs).1 = io rhs ∧
  impl (move_assign false x rhs).1 = impl rhs ∧ impl (move_assign false x rhs).2 = None ∧
  io (move_assign false x rhs).1 = io x.
Proof. done. Qed.

End DatabaseLife.
