(* ===== verification/DbIntegrator.v ===== *)
(** * The curator's database integrator: [curator/core/DbIntegrator]

    Blocks are accepted one at a time: the genesis block, then reconciliation
    blocks that must name the hashes of what was imported before them, and node
    blocks.  The model keeps the cached import state, the statements sent to the
    database and their order.  [None] stands for a call that does not return or
    whose behaviour is undefined. *)

From S2P Require Import Prelude BinData Base58 Ossl Text Strings Db AlgAddress.
From S2P Require Import BlockCore Calendar BlockTx BlockChain.

Module DbIntegrator.

(** [src/src/services/curator/core/DbIntegrator.h:28-41] DbIntegrator::Result *)
Inductive Result :=
  | RNone | Success | NoDatabase | DatabaseError | InvalidState | InvalidIndex | Duplicate
  | BadBlock | NoMatch | NotReady | AlreadyDone.

#[global] Instance Result_eq_dec : EqDecision Result.
Proof. solve_decision. Defined.

(** [src/src/services/curator/core/DbIntegrator.h:77-81] DbIntegrator::ShardInfo *)
Record ShardInfo := mkShard { block : Z; hash : BlockHash.t }.

(** [src/src/services/curator/core/DbIntegrator.h:17-83] DbIntegrator

    [connected] stands for the database reference: its pool exists. *)
Record t := mk {
  connected : bool;
  initialized : bool;
  currentRecon : Z;
  lastImports : gmap Z ShardInfo;
}.

Section Code.
Context {Oz : Ozo} {D : Digests} {B : BigNum} {L : Asn1Lib}.
Context {Dh : Der BlockHash.asn1} {Dg : Der Genesis.asn1} {Dc : Der Reconciliation.content}.

(** [src/src/services/curator/core/DbIntegrator.cpp:12-18] DbIntegrator::DbIntegrator *)
Definition new (connected : bool) : t := mk connected false 0 ∅.

(** [src/src/services/curator/core/DbIntegrator.cpp:42-70] DbIntegrator::init (row loop) *)
Fixpoint init_loop (fuel : nat) (first : bool) (result : DataResult.t) (st : t) : option (Result * t) :=
  match fuel with
  | O => None
  | S fuel =>
      let '(nxt, result) := DataResult.next result in
      if ResultImpl.to_bool nxt then
        let r := DataResult.cur result in
        lastRecon ← ResultImpl.UInt32 (ResultImpl.at_col r 0);
        if negb first && negb (currentRecon st =? lastRecon) then Some (InvalidState, st)
        else
          let cr := if first then lastRecon else currentRecon st in
          shard ← ResultImpl.UInt32 (ResultImpl.at_col r 1);
          let info := default (mkShard 0 BlockHash.dflt) (lastImports st !! shard) in
          b ← ResultImpl.UInt32 (ResultImpl.at_col r 2);
          let h := snd (Decode.decode_hash (ResultImpl.data (ResultImpl.at_col r 3)) (hash info)) in
          init_loop fuel false result
            (mk (connected st) (initialized st) cr (<[shard := mkShard b h]> (lastImports st)))
      else None
  end.

(** [src/src/services/curator/core/DbIntegrator.cpp:20-75] DbIntegrator::init

    After the loop the function ends without returning a value. *)
Definition init (fuel : nat) (s : Session.t) (st : t) (w : world) : option (Result * t * world) :=
  let '(ok, result, w) :=
    Session.select s $"SELECT reconciliation, shard, block, hash FROM imported_blocks" w in
  if negb ok then Some (DatabaseError, st, w)
  else if DataResult.getNumResults result =? 0 then
    Some (Success, mk (connected st) true (currentRecon st) (lastImports st), w)
  else
    '(r, st) ← init_loop fuel true result (mk (connected st) (initialized st) 0 ∅);
    Some (r, st, w).

(** Statements run in order; the first failure ends the sequence. *)
Fixpoint query_seq (s : Session.t) (qs : list cstr) (w : world) : bool * world :=
  match qs with
  | [] => (true, w)
  | q :: qs =>
      let '(ok, w) := Session.query s q w in
      if negb ok then (false, w) else query_seq s qs w
  end.

Definition genesis_hash (g : Genesis.t) : BlockHash.t := BlockHash.of_data (Genesis.encode g).

(** [src/src/services/curator/core/DbIntegrator.cpp:225-273] DbIntegrator::integrateGenesis (statements) *)
Definition genesis_queries (g : Genesis.t) : list cstr :=
  [ $"INSERT INTO validator_joins " ++
    $"(transaction_id, coins, fluffs, validator_address, validator_pubkey, stake_wallet) " ++
    $"VALUES ('0', 1, 0, '" ++ AlgAddress.printable (BlockAddress.get (Genesis.getCreator g)) ++
    $"', " ++ Binary.encode (PublicKey.get (Genesis.getValidatorKey g)) ++ $", 1)";
    $"INSERT INTO wallets (id, coins, fluffs, staked_coins, staked_fluffs)" ++
    $"VALUES (1, " ++ dec_text (u64 (Specie.getCoins (Genesis.getGreed g) - 1)) ++ $", " ++
    dec_text (Specie.getFluffs (Genesis.getGreed g)) ++ $", 1, 0)";
    $"INSERT INTO wallet_addresses (wallet_id, address, pubkey) " ++
    $"VALUES (1, '" ++ AlgAddress.printable (BlockAddress.get (Genesis.getStakeAddress g)) ++ $"', NULL)";
    $"INSERT INTO imported_blocks (reconciliation, shard, block, hash) " ++
    $"VALUES (0,0,0," ++ Binary.encode (Decode.hash_encode (genesis_hash g)) ++ $")" ].

(** [src/src/services/curator/core/DbIntegrator.cpp:211-290] DbIntegrator::integrateGenesis

    The time's text is made for the log, whatever the log's level.  The outcome of the
    commit is not looked at. *)
Definition integrateGenesis (data : Block.t) (s : Session.t) (st : t) (w : world)
  : option (Result * t * world) :=
  g ← Block.getGenesis data;
  _ ← BlockTimeText.to_string (Genesis.getCreation g);
  let '(ok, w) := query_seq s (genesis_queries g) w in
  if negb ok then Some (DatabaseError, st, w)
  else
    let '(_, _, w) := Session.commit s w in
    let li := match lastImports st !! 0 with
              | Some _ => lastImports st
              | None => <[0 := mkShard 0 (genesis_hash g)]> (lastImports st)
              end in
    Some (Success, mk (connected st) (initialized st) 1 li, w).

(** [src/src/services/curator/core/DbIntegrator.cpp:317-348] DbIntegrator::integrateRecon (shard loop)

    [None] when every shard matches, else the result to return. *)
Fixpoint recon_mismatch (infos : list ReconciliationShardInfo.t) (shardIndex : Z)
    (li : gmap Z ShardInfo) : option Result :=
  match infos with
  | [] => None
  | i :: infos =>
      match li !! u32 shardIndex with
      | None => Some NoMatch
      | Some imp =>
          if negb (block imp =? ReconciliationShardInfo.blocks i) then Some NotReady
          else if BlockHash.neqb (hash imp) (ReconciliationShardInfo.hash i) then Some BadBlock
          else recon_mismatch infos (shardIndex + 1) li
      end
  end.

(** [src/src/services/curator/core/DbIntegrator.cpp:353-372] DbIntegrator::integrateRecon (statements) *)
Definition recon_query (n : Z) (h : BlockHash.t) : list cstr :=
  [ $"TRUNCATE imported_blocks";
    $"INSERT INTO imported_blocks (reconciliation, shard, block, hash) " ++
    $"VALUES (" ++ dec_text n ++ $",0,0," ++ Binary.encode (Decode.hash_encode h) ++ $")" ].

(** [src/src/services/curator/core/DbIntegrator.cpp:292-393] DbIntegrator::integrateRecon *)
Definition integrateRecon (data : Block.t) (s : Session.t) (st : t) (w : world)
  : option (Result * t * world) :=
  r ← Block.getReconciliation data;
  if negb (Reconciliation.getChainId r =? currentRecon st) then Some (BadBlock, st, w)
  else if negb (zlen (Reconciliation.getShardInfo r) =? Z.of_nat (size (lastImports st))) then
    Some (BadBlock, st, w)
  else match recon_mismatch (Reconciliation.getShardInfo r) 0 (lastImports st) with
  | Some res => Some (res, st, w)
  | None =>
      encoded ← Reconciliation.toContent r;
      let asn1Hash := BlockHash.of_data encoded in
      let '(ok, w) := query_seq s (recon_query (currentRecon st) asn1Hash) w in
      if negb ok then Some (DatabaseError, st, w)
      else
        let '(_, _, w) := Session.commit s w in
        Some (Success, mk (connected st) (initialized st) (u32 (currentRecon st + 1))
                          {[0 := mkShard 0 asn1Hash]}, w)
  end.

(** [src/src/services/curator/core/DbIntegrator.cpp:395-438] DbIntegrator::integrateNode *)
Definition integrateNode (data : Block.t) (shard blk : Z) (s : Session.t) (st : t) (w : world)
  : option (Result * t * world) :=
  _ ← Block.getNode data;
  let lastBlock := match lastImports st !! shard with Some i => block i | None => 0 end in
  if blk <=? lastBlock then Some (AlreadyDone, st, w)
  else if u32 (lastBlock + 1) <? blk then Some (NotReady, st, w)
  else
    let '(_, _, w) := Session.commit s w in
    Some (Success, st, w).

(** [src/src/services/curator/core/DbIntegrator.cpp:149-193] DbIntegrator::integrate (shard loop)

    [None] when every shard is as the block says, else the result to return. *)
Fixpoint shards_mismatch (infos : list ReconciliationShardInfo.t) (ui : Z) (li : gmap Z ShardInfo)
  : option Result :=
  match infos with
  | [] => None
  | i :: infos =>
      let imported := li !! u32 ui in
      let blocksImported := match imported with Some x => block x | None => 0 end in
      if blocksImported <? ReconciliationShardInfo.blocks i then Some NotReady
      else if ReconciliationShardInfo.blocks i <? blocksImported then Some BadBlock
      else match imported with
      | None =>
          if BlockHash.neqb (ReconciliationShardInfo.hash i) BlockHash.dflt then Some BadBlock
          else shards_mismatch infos (ui + 1) li
      | Some x =>
          if BlockHash.neqb (ReconciliationShardInfo.hash i) (hash x) then Some BadBlock
          else shards_mismatch infos (ui + 1) li
      end
  end.

(** [src/src/services/curator/core/DbIntegrator.cpp:101-209] DbIntegrator::integrate (once initialised) *)
Definition dispatch (data : Block.t) (recon shard blk : Z) (s : Session.t) (st : t) (w : world)
  : option (Result * t * world) :=
  if currentRecon st <? recon then Some (NotReady, st, w)
  else if recon <? currentRecon st then Some (AlreadyDone, st, w)
  else if currentRecon st =? 0 then
    if negb (shard =? 0) then Some (InvalidIndex, st, w)
    else if negb (blk =? 0) then Some (BadBlock, st, w)
    else if negb (bool_decide (Block.getType data = Block.TGenesis)) then Some (BadBlock, st, w)
    else integrateGenesis data s st w
  else if bool_decide (Block.getType data = Block.TReconciliation) then
    r ← Block.getReconciliation data;
    match shards_mismatch (Reconciliation.getShardInfo r) 0 (lastImports st) with
    | Some res => Some (res, st, w)
    | None => integrateRecon data s st w
    end
  else if negb (bool_decide (Block.getType data = Block.TNode)) then Some (BadBlock, st, w)
  else integrateNode data shard blk s st w.

(** [src/src/services/curator/core/DbIntegrator.cpp:77-209] DbIntegrator::integrate *)
Definition integrate (fuel : nat) (data : Block.t) (recon shard blk : Z) (st : t) (w : world)
  : option (Result * t * world) :=
  let '(ok, s, w) := Session.newSession (connected st) w in
  if negb ok then Some (NoDatabase, st, w)
  else if negb (initialized st) then
    '(status, st, w) ← init fuel s st w;
    if negb (bool_decide (status = Success)) then Some (status, st, w)
    else dispatch data recon shard blk s st w
  else dispatch data recon shard blk s st w.
End Code.

(** ** Starting on a database that already holds blocks *)
Section Init.
Context {Oz : Ozo} {D : Digests} {L : Asn1Lib} {Dh : Der BlockHash.asn1}.

Lemma init_loop_diverges fuel first r st :
  tuples r ≠ [] →
  (first = false → ResultImpl.UInt32 (ResultImpl.at_col (DataResult.cur (DataResult.of_pg r)) 0)
                   = Some (currentRecon st)) →
  init_loop fuel first (DataResult.of_pg r) st = None.
Proof.
  intros Hne. revert first st. induction fuel as [|fuel IH]; intros first st Hf; [done|].
  cbn [init_loop]. pose proof (DataResult.next_of_pg r Hne) as Hn.
  destruct (DataResult.next (DataResult.of_pg r)) as [nxt res] eqn:E. simpl in Hn. rewrite Hn.
  assert (res = DataResult.of_pg r) as -> by (unfold DataResult.next in E; by simplify_eq).
  destruct (ResultImpl.UInt32 (ResultImpl.at_col _ 0)) as [lr|] eqn:E0; [|done]. simpl.
  destruct (negb first && negb (currentRecon st =? lr)) eqn:Eg.
  { exfalso. apply andb_true_iff in Eg as [Hfi%negb_true_iff Hne'%negb_true_iff].
    specialize (Hf Hfi). simplify_eq. by rewrite Z.eqb_refl in Hne'. }
  destruct (ResultImpl.UInt32 (ResultImpl.at_col _ 1)) as [sh|]; [|done]. simpl.
  destruct (ResultImpl.UInt32 (ResultImpl.at_col _ 2)) as [b|]; [|done]. simpl.
  apply IH. intros _. cbn [currentRecon]. destruct first; [done|by apply Hf].
Qed.

(** The curator cannot be restarted: on a database that already holds an
    imported block, loading the import state never returns, whatever the rows
    contain, because the row cursor is never advanced; on an empty table it
    succeeds. *)
Theorem init_diverges_on_data (s : Session.t) (st : t) (w w' : world) (r : pg_result) :
  Session.select s $"SELECT reconciliation, shard, block, hash FROM imported_blocks" w =
    (true, DataResult.of_pg r, w') →
  (tuples r ≠ [] → ∀ fuel, init fuel s st w = None) ∧
  (tuples r = [] → ∀ fuel, init fuel s st w =
     Some (Success, mk (connected st) true (currentRecon st) (lastImports st), w')).
Proof.
  intros Hs. unfold init. rewrite Hs. simpl. unfold DataResult.getNumResults, ResultImpl.getNumResults.
  simpl. split.
  - intros Hne fuel. rewrite (proj2 (Z.eqb_neq _ 0)) by (by destruct (tuples r)).
    by rewrite init_loop_diverges.
  - by intros ->.
Qed.
End Init.

(** ** What reaches the database *)
Section Trace.
Context {Oz : Ozo}.

(** Between two worlds only statements other than a commit were sent. *)
Definition quiet (w w' : world) : Prop := ∃ evs, trace w' = trace w ++ evs ∧ ECommit ∉ evs.

#[local] Instance quiet_refl : Reflexive quiet.
Proof. intros w. exists []. rewrite app_nil_r. split; [done|apply not_elem_of_nil]. Qed.

#[local] Instance quiet_trans : Transitive quiet.
Proof.
  intros w1 w2 w3 (e1 & H1 & C1) (e2 & H2 & C2). exists (e1 ++ e2).
  rewrite H2, H1, app_assoc. split; [done|]. by rewrite elem_of_app; intros [].
Qed.

Lemma send_quiet e w s : e ≠ ECommit → quiet w (Session.send e w s).
Proof. intros He. exists [e]. split; [done|]. intros Hin%list_elem_of_singleton. congruence. Qed.

Lemma newSession_quiet c w ok s w' : Session.newSession c w = (ok, s, w') → quiet w w'.
Proof.
  unfold Session.newSession. destruct c; simpl; [|by intros; simplify_eq].
  destruct (ozo_begin (srv w)) as [[] s']; simpl; intros; simplify_eq; by apply send_quiet.
Qed.

Lemma query_quiet s q w ok w' : Session.query s q w = (ok, w') → quiet w w'.
Proof.
  unfold Session.query. destruct (Session.impl s); [|by intros; simplify_eq].
  destruct (ozo_request (srv w) q) as [r s']; intros; simplify_eq. by apply send_quiet.
Qed.

Lemma select_quiet s q w ok r w' : Session.select s q w = (ok, r, w') → quiet w w'.
Proof.
  unfold Session.select. destruct (Session.impl s); [|by intros; simplify_eq].
  destruct (ozo_request (srv w) q) as [[?|] s']; intros; simplify_eq; by apply send_quiet.
Qed.

Lemma query_seq_quiet s qs w ok w' : query_seq s qs w = (ok, w') → quiet w w'.
Proof.
  revert w. induction qs as [|q qs IH]; intros w; simpl; [by intros; simplify_eq|].
  destruct (Session.query s q w) as [ok1 w1] eqn:E. apply query_quiet in E.
  destruct ok1; simpl; intros; simplify_eq; [|done]. etrans; [done|eauto].
Qed.

Lemma select_inv s q w ok r w' :
  Session.select s q w = (ok, r, w') → ok = false ∨ ∃ pg, r = DataResult.of_pg pg.
Proof.
  unfold Session.select. destruct (Session.impl s); [|intros; simplify_eq; by left].
  destruct (ozo_request (srv w) q) as [[?|] s']; intros; simplify_eq; eauto.
Qed.
End Trace.

Section Atomic.
Context {Oz : Ozo} {D : Digests} {B : BigNum} {L : Asn1Lib}.
Context {Dh : Der BlockHash.asn1} {Dg : Der Genesis.asn1} {Dc : Der Reconciliation.content}.
#[local] Existing Instances quiet_refl quiet_trans.

(** The part of the state that says what was imported. *)
Definition imports (st : t) : Z * gmap Z ShardInfo := (currentRecon st, lastImports st).

(** Loading the import state returns only on an empty table or an error. *)
Lemma init_inv fuel s st w r st' w' :
  init fuel s st w = Some (r, st', w') →
  imports st' = imports st ∧ connected st' = connected st ∧ quiet w w' ∧
  (r = Success → initialized st' = true).
Proof.
  unfold init. destruct (Session.select _ _ w) as [[ok res] w1] eqn:E.
  pose proof (select_quiet _ _ _ _ _ _ E) as Hq. destruct (select_inv _ _ _ _ _ _ E) as [->|[pg ->]].
  { simpl. intros; simplify_eq. split_and!; done. }
  destruct ok; simpl; [|intros; simplify_eq; split_and!; done].
  unfold DataResult.getNumResults, ResultImpl.getNumResults; simpl.
  destruct (Z.eqb_spec (zlen (tuples pg)) 0); [by intros; simplify_eq|].
  rewrite init_loop_diverges; [done| |done]. by intros Hnil; rewrite Hnil in *.
Qed.

(** The text for the log is always made: nothing depends on it. *)
Lemma integrateGenesis_eq data s st w :
  integrateGenesis data s st w =
    (g ← Block.getGenesis data;
     let '(ok, w) := query_seq s (genesis_queries g) w in
     if negb ok then Some (DatabaseError, st, w)
     else
       let '(_, _, w) := Session.commit s w in
       let li := match lastImports st !! 0 with
                 | Some _ => lastImports st
                 | None => <[0 := mkShard 0 (genesis_hash g)]> (lastImports st)
                 end in
       Some (Success, mk (connected st) (initialized st) 1 li, w)).
Proof.
  unfold integrateGenesis. destruct (Block.getGenesis data) as [g|]; [|done]. cbn [mbind option_bind].
  by destruct (BlockTimeText.to_string_total (Genesis.getCreation g)) as [? ->].
Qed.

Lemma genesis_fail data s st w r st' w' :
  integrateGenesis data s st w = Some (r, st', w') → r ≠ Success → st' = st ∧ quiet w w'.
Proof.
  rewrite integrateGenesis_eq. destruct (Block.getGenesis data) as [g|]; [|done].
  cbn [mbind option_bind]. destruct (query_seq _ _ w) as [ok w1] eqn:E. apply query_seq_quiet in E.
  destruct ok; simpl; [|by intros; simplify_eq].
  destruct (Session.commit s w1) as [[? ?] ?]. by intros; simplify_eq.
Qed.

Lemma recon_fail data s st w r st' w' :
  integrateRecon data s st w = Some (r, st', w') → r ≠ Success → st' = st ∧ quiet w w'.
Proof.
  unfold integrateRecon. destruct (Block.getReconciliation data) as [rc|]; [|done].
  cbn [mbind option_bind]. destruct (negb _); [by intros; simplify_eq|]. destruct (negb _); [by intros; simplify_eq|].
  destruct (recon_mismatch _ _ _); [by intros; simplify_eq|].
  destruct (Reconciliation.toContent rc) as [enc|]; [|done].
  cbn [mbind option_bind]. destruct (query_seq _ _ w) as [ok w1] eqn:E. apply query_seq_quiet in E.
  destruct ok; simpl; [|by intros; simplify_eq].
  destruct (Session.commit s w1) as [[? ?] ?]. by intros; simplify_eq.
Qed.

Lemma node_state data sh b s st w r st' w' :
  integrateNode data sh b s st w = Some (r, st', w') → st' = st ∧ (r ≠ Success → quiet w w').
Proof.
  unfold integrateNode. destruct (Block.getNode data) as [n|]; [|done]. simpl.
  destruct (b <=? _); [by intros; simplify_eq|]. destruct (_ <? b); [by intros; simplify_eq|].
  destruct (Session.commit s w) as [[? ?] ?]. by intros; simplify_eq.
Qed.

Lemma dispatch_fail data rc sh b s st w r st' w' :
  dispatch data rc sh b s st w = Some (r, st', w') → r ≠ Success → st' = st ∧ quiet w w'.
Proof.
  unfold dispatch. intros Hd Hr.
  destruct (currentRecon st <? rc); [by simplify_eq|]. destruct (rc <? currentRecon st); [by simplify_eq|].
  destruct (currentRecon st =? 0).
  { destruct (negb (sh =? 0)); [by simplify_eq|]. destruct (negb (b =? 0)); [by simplify_eq|].
    destruct (negb (bool_decide _)); [by simplify_eq|]. by eapply genesis_fail. }
  destruct (bool_decide _).
  { destruct (Block.getReconciliation data) as [r'|] eqn:E; [|done]. cbn [mbind option_bind] in Hd.
    destruct (shards_mismatch _ _ _); [by simplify_eq|]. by eapply recon_fail. }
  destruct (negb _); [by simplify_eq|]. apply node_state in Hd as [-> ?]. eauto.
Qed.

(** C16: Integration is all or nothing: when a block is not integrated (bad, early,
    already done or a database error), the cached import state is what it was and
    no commit was sent to the database. *)
Theorem integrate_atomic (fuel : nat) (data : Block.t) (recon shard blk : Z) (st st' : t)
    (w w' : world) (r : Result) :
  integrate fuel data recon shard blk st w = Some (r, st', w') → r ≠ Success →
  imports st' = imports st ∧ quiet w w'.
Proof.
  unfold integrate. intros Hi Hr. destruct (Session.newSession _ w) as [[ok s] w1] eqn:E.
  apply newSession_quiet in E. destruct ok; simpl in Hi; [|by simplify_eq].
  destruct (initialized st); simpl in Hi.
  { destruct (dispatch_fail _ _ _ _ _ _ _ _ _ _ Hi Hr) as [-> ?]. split; [done|by etrans]. }
  destruct (init fuel s st w1) as [[[status st1] w2]|] eqn:E2; [|done]. simpl in Hi.
  apply init_inv in E2 as (Him & _ & Hq & _). case_bool_decide; simpl in Hi.
  - destruct (dispatch_fail _ _ _ _ _ _ _ _ _ _ Hi Hr) as [-> ?].
    split; [done|]. by etrans; [|etrans].
  - injection Hi as <- <- <-. split; [done|by etrans].
Qed.
End Atomic.

(** ** Which reconciliation blocks are accepted *)
Section Accept.
Context {Oz : Ozo} {D : Digests} {B : BigNum} {L : Asn1Lib}.
Context {Dh : Der BlockHash.asn1} {Dg : Der Genesis.asn1} {Dc : Der Reconciliation.content}.

(** The hash recorded for a reconciliation block. *)
Definition recon_hash (r : Reconciliation.t) : BlockHash.t :=
  BlockHash.of_data (default [] (Reconciliation.toContent r)).

(** The block lists exactly the imported shards, with their block counts and hashes. *)
Definition shards_match (infos : list ReconciliationShardInfo.t) (li : gmap Z ShardInfo) : Prop :=
  zlen infos = Z.of_nat (size li) ∧
  ∀ j i, infos !! j = Some i →
    li !! u32 (Z.of_nat j) =
      Some (mkShard (ReconciliationShardInfo.blocks i) (ReconciliationShardInfo.hash i)).

Lemma neqb_false x y : BlockHash.neqb x y = false ↔ x = y.
Proof. unfold BlockHash.neqb. rewrite negb_false_iff. apply BlockHash.BlockHash_eqb. Qed.

Lemma recon_mismatch_None infos k li :
  recon_mismatch infos k li = None ↔
  ∀ j i, infos !! j = Some i →
    li !! u32 (k + Z.of_nat j) =
      Some (mkShard (ReconciliationShardInfo.blocks i) (ReconciliationShardInfo.hash i)).
Proof.
  revert k. induction infos as [|i infos IH]; intros k; [done|]. cbn [recon_mismatch]. split.
  - destruct (li !! u32 k) as [imp|] eqn:E; [|done].
    destruct (Z.eqb_spec (block imp) (ReconciliationShardInfo.blocks i)) as [Hb|]; [|done]. simpl.
    destruct (BlockHash.neqb _ _) eqn:En; [done|]. apply neqb_false in En.
    rewrite IH. intros Hrec [|j] i' Hj; simplify_eq/=.
    + rewrite Z.add_0_r, E. by destruct imp; simplify_eq/=.
    + rewrite <- (Hrec j i' Hj). f_equal. f_equal. lia.
  - intros Hall. pose proof (Hall 0%nat i eq_refl) as H0. rewrite Z.add_0_r in H0. rewrite H0. simpl.
    rewrite Z.eqb_refl. simpl. rewrite (proj2 (neqb_false _ _)) by done. apply IH.
    intros j i' Hj. rewrite <- (Hall (S j) i' Hj). f_equal. f_equal. lia.
Qed.

Lemma shards_mismatch_None infos k li :
  recon_mismatch infos k li = None → shards_mismatch infos k li = None.
Proof.
  revert k. induction infos as [|i infos IH]; intros k; [done|]. cbn [recon_mismatch shards_mismatch].
  destruct (li !! u32 k) as [imp|]; [|done].
  destruct (Z.eqb_spec (block imp) (ReconciliationShardInfo.blocks i)) as [->|]; [|done]. simpl.
  rewrite Z.ltb_irrefl. destruct (BlockHash.neqb (hash imp) _) eqn:En; [done|].
  apply neqb_false in En. rewrite En, (proj2 (neqb_false _ _)) by done. apply IH.
Qed.

(** A mismatch is never reported as a success. *)
Lemma recon_mismatch_result infos k li : recon_mismatch infos k li ≠ Some Success.
Proof.
  revert k. induction infos as [|i infos IH]; intros k; cbn [recon_mismatch]; [done|].
  repeat case_match; done || apply IH.
Qed.

Lemma shards_mismatch_result infos k li : shards_mismatch infos k li ≠ Some Success.
Proof.
  revert k. induction infos as [|i infos IH]; intros k; cbn [shards_mismatch]; [done|].
  repeat case_match; done || apply IH.
Qed.

Lemma toContent_total r : ∃ enc, Reconciliation.toContent r = Some enc.
Proof. unfold Reconciliation.toContent. rewrite Reconciliation.recon_toAsn1_total. by eexists. Qed.

Lemma integrateRecon_success data r s st w st' w' :
  Block.getReconciliation data = Some r →
  integrateRecon data s st w = Some (Success, st', w') →
  Reconciliation.getChainId r = currentRecon st ∧
  shards_match (Reconciliation.getShardInfo r) (lastImports st) ∧
  st' = mk (connected st) (initialized st) (u32 (currentRecon st + 1)) {[0 := mkShard 0 (recon_hash r)]}.
Proof.
  intros Hr. unfold integrateRecon. rewrite Hr. cbn [mbind option_bind].
  destruct (Z.eqb_spec (Reconciliation.getChainId r) (currentRecon st)); simpl negb; cbv iota; [|done].
  destruct (Z.eqb_spec (zlen (Reconciliation.getShardInfo r)) (Z.of_nat (size (lastImports st))));
    simpl negb; cbv iota; [|done].
  destruct (recon_mismatch _ _ _) as [res|] eqn:Em.
  { intros; simplify_eq. by apply recon_mismatch_result in Em. }
  destruct (toContent_total r) as [enc Henc]. rewrite Henc. cbn [mbind option_bind].
  destruct (query_seq _ _ w) as [ok w1]. destruct ok; simpl; [|done].
  destruct (Session.commit s w1) as [[? ?] ?]. intros; simplify_eq.
  unfold recon_hash. rewrite Henc. split_and!; [done| |done].
  split; [by f_equal|]. by apply (recon_mismatch_None _ 0).
Qed.

(** A database that begins every transaction and runs every statement. *)
Definition db_up : Prop :=
  (∀ s, fst (ozo_begin s) = true) ∧ (∀ s q, is_Some (fst (ozo_request s q))).

Lemma query_seq_up qs w :
  db_up → fst (query_seq (Session.mk (Some Session.STransaction)) qs w) = true.
Proof.
  intros [_ Hq]. revert w. induction qs as [|q qs IH]; intros w; [done|]. simpl.
  unfold Session.query; simpl. destruct (Hq (srv w) q) as [r Hr].
  destruct (ozo_request (srv w) q) as [? s']; simpl in *. subst. simpl. apply IH.
Qed.

(** The import state is loaded, or there is none to load: the table is empty. *)
Definition ready (st : t) (w : world) : Prop :=
  initialized st = true ∨
  ∃ pg, fst (ozo_request (snd (ozo_begin (srv w)))
    $"SELECT reconciliation, shard, block, hash FROM imported_blocks") = Some pg ∧ tuples pg = [].

Definition set_initialized (st : t) : t := mk (connected st) true (currentRecon st) (lastImports st).

(** On a working database an integrator that is ready goes straight to the checks. *)
Lemma integrate_ready fuel data recon shard blk st w :
  db_up → connected st = true → ready st w →
  ∃ w1, integrate fuel data recon shard blk st w =
    dispatch data recon shard blk (Session.mk (Some Session.STransaction)) (set_initialized st) w1.
Proof.
  intros Hup Hc Hr. unfold integrate, Session.newSession. rewrite Hc. simpl.
  pose proof (proj1 Hup (srv w)) as Hx. unfold ready in Hr.
  destruct (ozo_begin (srv w)) as [ok s0]. simpl in Hx, Hr. subst ok. simpl.
  destruct (initialized st) eqn:Hi; simpl.
  { replace (set_initialized st) with st by (destruct st; by simplify_eq/=). by eexists. }
  destruct Hr as [|(pg & Hpg & Ht)]; [done|]. unfold init, Session.select. simpl.
  destruct (ozo_request s0 _) as [r1 s1]. simpl in Hpg. subst r1. simpl.
  unfold DataResult.getNumResults, ResultImpl.getNumResults. simpl. rewrite Ht. simpl. by eexists.
Qed.

Lemma recon_accept fuel data r recon shard blk st w :
  db_up → connected st = true → ready st w → currentRecon st ≠ 0 →
  Block.getType data = Block.TReconciliation → Block.getReconciliation data = Some r →
  recon = currentRecon st → Reconciliation.getChainId r = currentRecon st →
  shards_match (Reconciliation.getShardInfo r) (lastImports st) →
  ∃ w', integrate fuel data recon shard blk st w =
    Some (Success, mk true true (u32 (currentRecon st + 1)) {[0 := mkShard 0 (recon_hash r)]}, w').
Proof.
  intros Hup Hc Hi Hne Hty Hr -> Hch [Hm Hall].
  destruct (integrate_ready fuel data (currentRecon st) shard blk st w Hup Hc Hi) as [w1 ->].
  unfold dispatch. simpl currentRecon. simpl lastImports.
  rewrite (bool_decide_eq_true_2 (_ = Block.TReconciliation)) by done.
  rewrite Hr. cbn [mbind option_bind]. rewrite (proj2 (Z.eqb_neq (currentRecon st) 0)), !Z.ltb_irrefl by done.
  assert (Hrm : recon_mismatch (Reconciliation.getShardInfo r) 0 (lastImports st) = None)
    by by apply recon_mismatch_None.
  rewrite shards_mismatch_None by done. unfold integrateRecon. simpl currentRecon. simpl lastImports. rewrite Hr. cbn [mbind option_bind].
  rewrite Hch, Hm, !Z.eqb_refl. simpl negb. cbv iota. rewrite Hrm.
  destruct (toContent_total r) as [enc Henc]. unfold recon_hash. rewrite Henc. cbn [mbind option_bind].
  pose proof (query_seq_up (recon_query (currentRecon st) (BlockHash.of_data enc)) w1 Hup) as Hq.
  destruct (query_seq _ _ w1) as [ok w2]. simpl in Hq. subst ok. simpl negb. cbv iota.
  destruct (Session.commit _ w2) as [[? ?] w3]. exists w3. simpl. by rewrite Hc.
Qed.

Lemma genesis_accept fuel data g ini w :
  db_up → ready (mk true ini 0 ∅) w → Block.getType data = Block.TGenesis → Block.getGenesis data = Some g →
  ∃ w', integrate fuel data 0 0 0 (mk true ini 0 ∅) w =
    Some (Success, mk true true 1 {[0 := mkShard 0 (genesis_hash g)]}, w').
Proof.
  intros Hup Hrd Hty Hg.
  destruct (integrate_ready fuel data 0 0 0 (mk true ini 0 ∅) w Hup eq_refl Hrd) as [w1 ->].
  unfold dispatch. rewrite (bool_decide_eq_true_2 (_ = Block.TGenesis)) by done. simpl.
  rewrite integrateGenesis_eq. rewrite Hg. cbn [mbind option_bind].
  pose proof (query_seq_up (genesis_queries g) w1 Hup) as Hq.
  destruct (query_seq _ _ w1) as [ok w2]. simpl in Hq. subst ok. simpl negb. cbv iota.
  destruct (Session.commit _ w2) as [[? ?] w3]. exists w3. done.
Qed.

(** A block of another round waits or is refused; nothing changes. *)
Lemma other_round fuel data recon shard blk st w :
  db_up → connected st = true → ready st w → recon ≠ currentRecon st →
  ∃ w', integrate fuel data recon shard blk st w =
    Some (if currentRecon st <? recon then NotReady else AlreadyDone, set_initialized st, w').
Proof.
  intros Hup Hc Hi Hne. destruct (integrate_ready fuel data recon shard blk st w Hup Hc Hi) as [w1 ->].
  exists w1. unfold dispatch. simpl currentRecon. destruct (Z.ltb_spec (currentRecon st) recon); [done|].
  by rewrite (proj2 (Z.ltb_lt recon (currentRecon st))) by lia.
Qed.

(** C15: On a working database, once the genesis block is in, a reconciliation block
    is integrated exactly when it is the next one, carries its own number, and lists
    precisely the imported shards with their block counts and hashes; the import
    state then moves to the next number with this block's hash as the only shard.
    Whether the final commit succeeded makes no difference. *)
Theorem recon_accept_iff (fuel : nat) (data : Block.t) (r : Reconciliation.t) (recon shard blk : Z)
    (st : t) (w : world) :
  db_up → connected st = true → initialized st = true → currentRecon st ≠ 0 →
  Block.getType data = Block.TReconciliation → Block.getReconciliation data = Some r →
  (recon = currentRecon st ∧ Reconciliation.getChainId r = currentRecon st ∧
   shards_match (Reconciliation.getShardInfo r) (lastImports st)) ↔
  ∃ w', integrate fuel data recon shard blk st w =
    Some (Success, mk true true (u32 (currentRecon st + 1)) {[0 := mkShard 0 (recon_hash r)]}, w').
Proof.
  intros Hup Hc Hi Hne Hty Hr. split; [intros (? & ? & ?); eapply recon_accept; eauto; by left|].
  intros [w' Hd]. destruct (integrate_ready fuel data recon shard blk st w Hup Hc (or_introl Hi)) as [w1 E].
  rewrite E in Hd. clear E. replace (set_initialized st) with st in Hd by (destruct st; by simplify_eq/=).
  unfold dispatch in Hd.
  rewrite (bool_decide_eq_true_2 (_ = Block.TReconciliation)), Hr in Hd by done. cbn [mbind option_bind] in Hd.
  rewrite (proj2 (Z.eqb_neq (currentRecon st) 0)) in Hd by done.
  destruct (Z.ltb_spec (currentRecon st) recon); [done|].
  destruct (Z.ltb_spec recon (currentRecon st)); [done|].
  destruct (shards_mismatch _ _ _) as [res|] eqn:Em.
  { simplify_eq. by apply shards_mismatch_result in Em. }
  destruct (integrateRecon_success _ _ _ _ _ _ _ Hr Hd) as (Hch & Hm & _).
  split_and!; [lia|done|done].
Qed.
End Accept.


(** ** The chain of accepted blocks *)
Section Chain.
Context {Oz : Ozo} {D : Digests} {B : BigNum} {L : Asn1Lib}.
Context {Dh : Der BlockHash.asn1} {Dg : Der Genesis.asn1} {Dc : Der Reconciliation.content}.

(** One call of [integrate]. *)
Record call := Call { c_data : Block.t; c_recon : Z; c_shard : Z; c_block : Z }.

(** A sequence of calls; [acc] collects the genesis and reconciliation blocks that
    were integrated, newest first. *)
Fixpoint run (fuel : nat) (cs : list call) (st : t) (w : world) (acc : list Block.t)
  : option (t * world * list Block.t) :=
  match cs with
  | [] => Some (st, w, acc)
  | c :: cs =>
      '(r, st', w') ← integrate fuel (c_data c) (c_recon c) (c_shard c) (c_block c) st w;
      let acc' :=
        if bool_decide (r = Success) && negb (bool_decide (Block.getType (c_data c) = Block.TNode))
        then c_data c :: acc else acc in
      run fuel cs st' w' acc'
  end.

(** The hash by which a block is known to its successor. *)
Definition hash_of (b : Block.t) : BlockHash.t :=
  match Block.getGenesis b, Block.getReconciliation b with
  | Some g, _ => genesis_hash g
  | None, Some r => recon_hash r
  | None, None => BlockHash.dflt
  end.

(** Blocks, newest first, each naming the hash of the one before and its position. *)
Inductive linked : list Block.t → Prop :=
  | linked_nil : linked []
  | linked_genesis b g : Block.getGenesis b = Some g → linked [b]
  | linked_recon b r p l :
      linked (p :: l) → Block.getReconciliation b = Some r →
      Reconciliation.getChainId r = zlen (p :: l) →
      Reconciliation.getShardInfo r = [ReconciliationShardInfo.make (hash_of p) 0] →
      linked (b :: p :: l).

Definition chain_inv (st : t) (acc : list Block.t) : Prop :=
  linked acc ∧ currentRecon st = zlen acc ∧
  lastImports st = match acc with [] => ∅ | p :: _ => {[0 := mkShard 0 (hash_of p)]} end.

(** A block holds only the content of its type. *)
Definition block_wf (b : Block.t) : Prop := Block.wf b.

Lemma hash_of_recon b r :
  block_wf b → Block.getReconciliation b = Some r → hash_of b = recon_hash r.
Proof.
  unfold block_wf, Block.wf, hash_of, Block.getGenesis, Block.getReconciliation.
  destruct b as [[] g rc n]; simpl; intros; destruct_and?; simplify_eq; done.
Qed.

Lemma hash_of_genesis b g : Block.getGenesis b = Some g → hash_of b = genesis_hash g.
Proof. unfold hash_of. by intros ->. Qed.

Lemma genesis_step data s st w st' w' :
  chain_inv st [] → integrateGenesis data s st w = Some (Success, st', w') → chain_inv st' [data].
Proof.
  intros (_ & Hc & Hli) Hd. rewrite integrateGenesis_eq in Hd.
  destruct (Block.getGenesis data) as [g|] eqn:Eg; [|done]. cbn [mbind option_bind] in Hd.
  destruct (query_seq _ _ w) as [ok w1]. destruct ok; [|done].
  simpl negb in Hd. cbv iota in Hd. destruct (Session.commit s w1) as [[? ?] ?].
  rewrite Hli, lookup_empty in Hd. injection Hd as <- _. split_and!; simpl; [by econstructor|done|].
  by rewrite (hash_of_genesis _ _ Eg).
Qed.

Lemma recon_step data r s st w st' w' acc :
  block_wf data → chain_inv st acc → currentRecon st ≠ 0 → zlen acc < 2 ^ 32 - 1 →
  Block.getReconciliation data = Some r →
  integrateRecon data s st w = Some (Success, st', w') → chain_inv st' (data :: acc).
Proof.
  intros Hwf (Hl & Hc & Hli) H0 Hb Er Hd.
  destruct (integrateRecon_success _ _ _ _ _ _ _ Er Hd) as (Hch & [Hsz Hm] & ->).
  destruct acc as [|p l]; [by simpl in Hc|]. rewrite Hli, map_size_singleton in Hsz.
  destruct (Reconciliation.getShardInfo r) as [|i [|? ?]] eqn:Es; simpl in Hsz; [lia| |lia].
  specialize (Hm 0%nat i eq_refl). rewrite Hli in Hm.
  change (u32 (Z.of_nat 0)) with 0 in Hm. rewrite lookup_singleton_eq in Hm. injection Hm as Hbl Hh.
  split_and!; simpl.
  - econstructor; [done|done|by rewrite Hch, Hc|]. rewrite Es.
    unfold ReconciliationShardInfo.make. destruct i; simpl in *. by subst.
  - rewrite wrap_small; [simpl in *; lia|]. unfold is_u. simpl in *. lia.
  - by rewrite (hash_of_recon _ _ Hwf Er).
Qed.

Lemma dispatch_step data rc sh b s st w r st' w' acc :
  block_wf data → chain_inv st acc → zlen acc < 2 ^ 32 - 1 →
  dispatch data rc sh b s st w = Some (r, st', w') →
  chain_inv st'
    (if bool_decide (r = Success) && negb (bool_decide (Block.getType data = Block.TNode))
     then data :: acc else acc).
Proof.
  intros Hwf (Hl & Hc & Hli) Hb Hd.
  destruct (decide (r = Success)) as [->|Hr].
  2: { destruct (dispatch_fail _ _ _ _ _ _ _ _ _ _ Hd Hr) as [-> _].
       rewrite bool_decide_eq_false_2 by done. done. }
  rewrite bool_decide_eq_true_2 by done. unfold dispatch in Hd.
  destruct (currentRecon st <? rc); [done|]. destruct (rc <? currentRecon st); [done|].
  destruct (Z.eqb_spec (currentRecon st) 0) as [H0|H0].
  { destruct (negb (sh =? 0)); [done|]. destruct (negb (b =? 0)); [done|].
    destruct (decide (Block.getType data = Block.TGenesis)) as [Hty|];
      [|by rewrite bool_decide_eq_false_2 in Hd].
    rewrite bool_decide_eq_true_2 in Hd by done. simpl in Hd. rewrite Hty. simpl.
    assert (acc = []) as -> by (destruct acc; [done|]; simpl in Hc; lia).
    by eapply genesis_step. }
  destruct (decide (Block.getType data = Block.TReconciliation)) as [Hty|Hty].
  { rewrite (bool_decide_eq_true_2 _ Hty) in Hd. rewrite Hty. simpl negb. simpl andb. cbv iota.
    destruct (Block.getReconciliation data) as [r|] eqn:Er; [|done]. cbn [mbind option_bind] in Hd.
    destruct (shards_mismatch _ _ _) as [res|] eqn:Em.
    { simplify_eq. by apply shards_mismatch_result in Em. }
    by eapply recon_step. }
  rewrite (bool_decide_eq_false_2 _ Hty) in Hd.
  destruct (decide (Block.getType data = Block.TNode)) as [Hn|Hn].
  - rewrite (bool_decide_eq_true_2 _ Hn) in *. simpl in *.
    apply node_state in Hd as [-> _]. done.
  - by rewrite (bool_decide_eq_false_2 _ Hn) in Hd.
Qed.

Lemma integrate_step fuel data rc sh b st w r st' w' acc :
  block_wf data → chain_inv st acc → zlen acc < 2 ^ 32 - 1 →
  integrate fuel data rc sh b st w = Some (r, st', w') →
  chain_inv st'
    (if bool_decide (r = Success) && negb (bool_decide (Block.getType data = Block.TNode))
     then data :: acc else acc).
Proof.
  intros Hwf Hinv Hb. unfold integrate. destruct (Session.newSession _ w) as [[ok s] w1].
  destruct ok; simpl; [|by intros; simplify_eq].
  destruct (initialized st); simpl; [by apply dispatch_step|].
  destruct (init fuel s st w1) as [[[status st1] w2]|] eqn:E; [|done]. simpl.
  apply init_inv in E as ([= Hcr Hli] & _). assert (Hinv1 : chain_inv st1 acc).
  { destruct Hinv as (? & ? & ?). split_and!; congruence. }
  destruct (decide (status = Success)) as [->|Hs].
  - rewrite bool_decide_eq_true_2 by done. simpl. by apply dispatch_step.
  - rewrite bool_decide_eq_false_2 by done. simpl. intros; simplify_eq.
    by rewrite bool_decide_eq_false_2.
Qed.

(** C3: The integrated blocks form one hash-linked chain. Starting from nothing,
    whatever blocks are offered in whatever order and whatever the database does,
    the genesis and reconciliation blocks that were integrated are a genesis block
    followed by reconciliation blocks numbered 1, 2, 3, ..., each of which names the
    hash of the block before it as its only shard, with no node blocks; and the
    cached state is the chain's length and the hash of its last block. *)
Theorem integrated_chain_linked (fuel : nat) (cs : list call) (conn : bool) (w : world)
    (st : t) (w' : world) (acc : list Block.t) :
  Forall (λ c, block_wf (c_data c)) cs → zlen cs < 2 ^ 32 - 1 →
  run fuel cs (new conn) w [] = Some (st, w', acc) →
  linked acc ∧ currentRecon st = zlen acc ∧
  lastImports st = match acc with [] => ∅ | p :: _ => {[0 := mkShard 0 (hash_of p)]} end.
Proof.
  intros Hwf Hlen. assert (Hgen : ∀ st0 w0 acc0, chain_inv st0 acc0 →
    zlen acc0 + zlen cs < 2 ^ 32 - 1 → run fuel cs st0 w0 acc0 = Some (st, w', acc) → chain_inv st acc).
  { clear Hlen. induction Hwf as [|c cs Hc Hwf IH]; intros st0 w0 acc0 Hinv Hb; simpl.
    - intros; by simplify_eq.
    - destruct (integrate _ _ _ _ _ st0 w0) as [[[r st1] w1]|] eqn:E; [|done]. simpl.
      eapply integrate_step in E; [|done|done|simpl in Hb; lia].
      apply IH; [done|]. destruct (_ && _); simpl in *; lia. }
  intros Hrun. apply (Hgen (new conn) w []); [|simpl; lia|exact Hrun]. split_and!; [constructor|done|done].
Qed.

(** Integrating node blocks leaves no trace in the import state: a node block
    that is integrated can be integrated again, and in a shard with no imported
    block the second and later blocks are refused as too early for ever. *)
Theorem node_never_recorded (fuel : nat) (data : Block.t) (n : Node.t) (shard blk : Z)
    (st : t) (w : world) :
  db_up → connected st = true → initialized st = true → currentRecon st ≠ 0 →
  Block.getType data = Block.TNode → Block.getNode data = Some n → lastImports st !! shard = None →
  (blk = 1 → ∃ w', integrate fuel data (currentRecon st) shard blk st w = Some (Success, st, w')) ∧
  (2 ≤ blk → ∃ w', integrate fuel data (currentRecon st) shard blk st w = Some (NotReady, st, w')).
Proof.
  intros Hup Hc Hi Hne Hty Hn Hli. unfold integrate, Session.newSession. rewrite Hc. simpl.
  destruct (ozo_begin (srv w)) as [ok s0] eqn:Eb.
  assert (ok = true) as -> by (pose proof (proj1 Hup (srv w)) as Hx; by rewrite Eb in Hx).
  simpl. rewrite Hi. simpl. unfold dispatch. rewrite !Z.ltb_irrefl.
  rewrite (proj2 (Z.eqb_neq (currentRecon st) 0)) by done. rewrite Hty. simpl.
  unfold integrateNode. rewrite Hn, Hli. simpl. split.
  - intros ->. change (u32 (0 + 1)) with 1. change (1 <=? 0) with false. change (1 <? 1) with false.
    cbv iota. destruct (Session.commit _ _) as [[? ?] ?]. by eexists.
  - intros Hb. rewrite (proj2 (Z.leb_gt blk 0)) by lia. change (u32 (0 + 1)) with 1.
    rewrite (proj2 (Z.ltb_lt 1 blk)) by lia. by eexists.
Qed.
End Chain.


(** The wallet row of the genesis block when no coins were given: one coin is staked
    from nothing and the balance wraps around. *)
Lemma genesis_zero_greed {D : Digests} {B : BigNum} {Dh : Der BlockHash.asn1} {Dg : Der Genesis.asn1} g :
  Specie.getCoins (Genesis.getGreed g) = 0 →
  genesis_queries g !! 1%nat =
    Some ($"INSERT INTO wallets (id, coins, fluffs, staked_coins, staked_fluffs)" ++
          $"VALUES (1, " ++ $"18446744073709551615" ++ $", " ++
          dec_text (Specie.getFluffs (Genesis.getGreed g)) ++ $", 1, 0)").
Proof. intros Hg. unfold genesis_queries. rewrite Hg. reflexivity. Qed.

(** ** Witnesses: a database that accepts everything and holds nothing *)

Definition UpDb : Ozo := {|
  server := unit;
  ozo_begin s := (true, s);
  ozo_request s _ := (Some (PgResult [] []), s);
  ozo_commit s := (true, s);
  ozo_get_connection s := (true, s);
|}.

(** One that holds an imported block. *)
Definition LoadedDb : Ozo := {|
  server := unit;
  ozo_begin s := (true, s);
  ozo_request s _ := (Some (PgResult [23; 23; 23; 17] [[Some [0;0;0;0]; Some [0;0;0;0]; Some [0;0;0;0]; Some [1]]]), s);
  ozo_commit s := (true, s);
  ozo_get_connection s := (true, s);
|}.

#[local] Instance DerHash : Der BlockHash.asn1 := CountableDer BlockHash.asn1.
#[local] Instance DerGenesis : Der Genesis.asn1 := CountableDer Genesis.asn1.
#[local] Instance DerContent : Der Reconciliation.content := CountableDer Reconciliation.content.
#[local] Existing Instances Base58.BigNumZ ToyDigests Convert.Asn1Z.

Lemma init_diverges_on_data_witness :
  init (Oz := LoadedDb) 1000 (Session.mk (Some Session.STransaction)) (new true) (World (O := LoadedDb) tt []) = None.
Proof.
  eapply (proj1 (init_diverges_on_data (Oz := LoadedDb) (Session.mk (Some Session.STransaction)) (new true)
    (World (O := LoadedDb) tt []) _ _ eq_refl)). discriminate.
Defined.

Lemma integrate_atomic_witness :
  let w := World (O := UpDb) tt [] in
  let w' := World (O := UpDb) tt [EBegin] in
  imports (mk true true 0 ∅) = imports (mk true true 0 ∅) ∧ quiet w w'.
Proof.
  apply (integrate_atomic (Oz := UpDb) 1 Block.dflt 5 0 0 (mk true true 0 ∅) (mk true true 0 ∅)
    (World (O := UpDb) tt []) (World (O := UpDb) tt [EBegin]) NotReady); [reflexivity|discriminate].
Defined.

Definition first_recon (h : BlockHash.t) : Block.t :=
  Block.setReconciliation
    (Reconciliation.setChainId 1
      (Reconciliation.setShardInfo [ReconciliationShardInfo.make h 0] Reconciliation.dflt)) Block.dflt.

Lemma up_db : db_up (Oz := UpDb).
Proof. split; [done|]. intros s q. by eexists. Qed.

Lemma recon_accept_iff_witness :
  let h := BlockHash.mk [1] [2] in
  let st := mk true true 1 {[0 := mkShard 0 h]} in
  ∃ st' w', integrate (Oz := UpDb) 1 (first_recon h) 1 0 0 st (World (O := UpDb) tt []) =
    Some (Success, st', w') ∧ currentRecon st' = 2.
Proof.
  intros h st. destruct (Block.getReconciliation (first_recon h)) as [r|] eqn:Hr; [|done].
  destruct (proj1 (recon_accept_iff (Oz := UpDb) 1 (first_recon h) r 1 0 0 st (World (O := UpDb) tt []) up_db
      eq_refl eq_refl ltac:(done) eq_refl Hr)) as [w' Hw].
  - injection Hr as <-. split_and!; [done|done|]. split; [done|].
    intros [|j] i Hj; [|done]. injection Hj as <-. done.
  - eexists _, w'. split; [exact Hw|done].
Defined.

Definition two_blocks : list call :=
  [Call (Block.setGenesis Genesis.dflt Block.dflt) 0 0 0; Call (first_recon (genesis_hash Genesis.dflt)) 1 0 0].

Lemma integrated_chain_linked_witness :
  ∃ st w' acc,
    run (Oz := UpDb) 1 two_blocks (new true) (World (O := UpDb) tt []) [] = Some (st, w', acc) ∧
    linked acc ∧ currentRecon st = zlen acc ∧ zlen acc = 2.
Proof.
  assert (Hok : Forall (λ c, block_wf (c_data c)) two_blocks).
  { constructor; [by eexists|]. constructor; [by eexists|constructor]. }
  destruct (run (Oz := UpDb) 1 two_blocks (new true) (World (O := UpDb) tt []) [])
    as [[[st w'] acc]|] eqn:E; [|by vm_compute in E].
  exists st, w', acc. split; [reflexivity|].
  destruct (integrated_chain_linked (Oz := UpDb) 1 two_blocks true (World (O := UpDb) tt []) st w' acc)
    as (Hl & Hn & _); [exact Hok|reflexivity|exact E|].
  split; [exact Hl|]. split; [exact Hn|]. vm_compute in E. by injection E as <- <- <-.
Defined.

Lemma node_never_recorded_witness :
  let data := Block.setNode Node.dflt Block.dflt in
  let st := mk true true 1 {[0 := mkShard 0 BlockHash.dflt]} in
  ∃ w', integrate (Oz := UpDb) 1 data 1 5 2 st (World (O := UpDb) tt []) = Some (NotReady, st, w').
Proof.
  intros data st.
  apply (node_never_recorded (Oz := UpDb) 1 data Node.dflt 5 2 st (World (O := UpDb) tt []) up_db);
    done.
Defined.

End DbIntegrator.
