(* ===== verification/Sql.v ===== *)
(** * The statements the curator sends, as the server reads them

    [DbIntegrator] builds its statements from the contents of blocks.  The lexer below is the
    part of Postgres' that matters for that: what of a statement is inside string literals,
    and what a literal of type bytea holds.  Postgres has two settings: by default a
    backslash in a literal is a character like any other, and with
    [standard_conforming_strings] off it escapes the next one.  [bs] is true for the latter. *)

From S2P Require Import Prelude BinData Base64 Base58 Ossl Text AlgAddress BlockCore BlockTx BlockChain DbIntegrator.

(** An encoder writes bytes. *)
Class DerBytes (T : Type) {D : Der T} : Prop := { i2d_bytes t : bytes_ok (i2d t) }.

#[global] Instance CountableDer_bytes `{Countable T} : @DerBytes T (CountableDer T).
Proof.
  split. intros t. unfold i2d. simpl. generalize (encode t). intros p.
  induction p; cbn [pos_bits]; by repeat (constructor || done).
Qed.

Module Sql.

(** A statement with the contents of its literals left out; [None] when it ends inside one.
    A doubled quote ends one literal and begins another, which leaves the same text outside. *)
Fixpoint shell (bs inside : bool) (s : cstr) : option cstr :=
  match s with
  | [] => if inside then None else Some []
  | c :: s =>
      if c =? 39 then cons c <$> shell bs (negb inside) s
      else if inside then
        if bs && (c =? 92) then match s with [] => None | _ :: s => shell bs true s end
        else shell bs true s
      else cons c <$> shell bs false s
  end.

(** The text of a literal, given what is between its quotes. *)
Fixpoint literal (bs : bool) (s : cstr) : cstr :=
  match s with
  | [] => []
  | c :: s =>
      if bs && (c =? 92) then match s with [] => [] | c :: s => c :: literal bs s end
      else c :: literal bs s
  end.

(** The value of a bytea in escape format: a doubled backslash is one, a backslash and three
    octal digits are a byte, and a backslash before anything else is an error. *)
Fixpoint bytea (s : cstr) : option bytes :=
  match s with
  | [] => Some []
  | c :: s =>
      if c =? 92 then
        match s with
        | 92 :: s => cons 92 <$> bytea s
        | a :: b :: d :: s =>
            if (48 <=? a) && (a <=? 51) && (48 <=? b) && (b <=? 55) && (48 <=? d) && (d <=? 55)
            then cons ((a - 48) * 64 + (b - 48) * 8 + (d - 48)) <$> bytea s else None
        | _ => None
        end
      else cons c <$> bytea s
  end.

(** A property of the numbers of a range, checked one by one. *)
Lemma range_forall a n (P : Z → Prop) : Forall P (seqZ a n) → ∀ v, a ≤ v < a + n → P v.
Proof. rewrite Forall_forall. intros H v Hv. apply H, elem_of_seqZ. lia. Qed.

(** ** Literals cannot be left *)

(** Neither a quote nor a backslash. *)
Definition plain (c : Z) : Prop := c ≠ 39 ∧ c ≠ 92.

(** What text without backslashes leaves outside, and whether it ends inside a literal. *)
Fixpoint scan (inside : bool) (x : cstr) : cstr * bool :=
  match x with
  | [] => ([], inside)
  | c :: x =>
      if c =? 39 then let '(o, i) := scan (negb inside) x in (c :: o, i)
      else if inside then scan true x
      else let '(o, i) := scan false x in (c :: o, i)
  end.

Lemma shell_scan bs i x r :
  Forall (.≠ 92) x → shell bs i (x ++ r) = app (scan i x).1 <$> shell bs (scan i x).2 r.
Proof.
  intros Hx. revert i. induction Hx as [|c x Hc _ IH]; intros i; [simpl; by destruct (shell bs i r)|].
  cbn [app shell scan]. rewrite (proj2 (Z.eqb_neq c 92)), andb_false_r, !IH by done.
  destruct (c =? 39), i; destruct (scan _ x) as [o i']; simpl; by destruct (shell bs i' r).
Qed.

Lemma shell_plain bs x r : Forall plain x → shell bs true (x ++ r) = shell bs true r.
Proof.
  intros Hx. rewrite shell_scan by (eapply Forall_impl; [exact Hx|by intros ? []]).
  assert (scan true x = ([], true)) as ->; [|simpl; by destruct (shell bs true r)].
  induction Hx as [|c x [Hq _] _ IH]; [done|]. simpl. by rewrite (proj2 (Z.eqb_neq c 39)).
Qed.

(** Digits outside a literal. *)
Lemma shell_dec bs n r : 0 ≤ n → shell bs false (dec_text n ++ r) = app (dec_text n) <$> shell bs false r.
Proof.
  intros Hn. pose proof (dec_text_ok n Hn) as Hd. unfold is_dec in Hd.
  rewrite shell_scan by (eapply Forall_impl; [exact Hd|simpl; lia]).
  assert (scan false (dec_text n) = (dec_text n, false)) as ->; [|done].
  induction Hd as [|c x Hc _ IH]; [done|]. simpl. by rewrite (proj2 (Z.eqb_neq c 39)), IH by lia.
Qed.

Lemma escape_digits uc : is_byte uc → Binary.escape uc = 92 :: 92 :: [48 + uc / 64; 48 + uc / 8 mod 8; 48 + uc mod 8].
Proof. done. Qed.

Lemma shell_body bs l r : bytes_ok l → shell bs true (Binary.body l ++ r) = shell bs true r.
Proof.
  induction 1 as [|uc l Hb Hl IH]; [done|]. rewrite Binary.body_cons, <- app_assoc.
  destruct (Binary.isBinary uc) eqn:E; cbn [negb].
  - rewrite escape_digits by done. unfold is_byte in Hb.
    change (92 :: 92 :: ?t) with ([92; 92] ++ t). rewrite <- app_assoc.
    trans (shell bs true ([48 + uc / 64; 48 + uc / 8 mod 8; 48 + uc mod 8] ++ Binary.body l ++ r));
      [by destruct bs|].
    rewrite shell_plain; [done|]. unfold plain. repeat constructor; dlia.
  - apply Binary.isBinary_false in E as (_ & ? & ?). by rewrite shell_plain by by repeat constructor.
Qed.

(** Printable addresses are plain: they are written in the Base64 and Base58 alphabets. *)
Lemma printable_plain {B : BigNum} {BL : BigNumLaws B} a :
  bytes_ok a → Forall plain (AlgAddress.printable a).
Proof.
  intros Ha. assert (H64 : ∀ v, 0 ≤ v < 64 → plain (Base64.enc_char v)).
  { apply (range_forall 0 64). apply (bool_decide_unpack _). by vm_compute. }
  assert (H58 : ∀ v, 0 ≤ v < 58 → plain (Base58.valToChar v)).
  { apply (range_forall 0 58). apply (bool_decide_unpack _). by vm_compute. }
  assert (Hs : ∀ n, Forall plain (Base64.encode (take n a))).
  { intros n. rewrite Base64.encode_groups_eq by by apply Forall_take.
    apply Base64.encode_groups_all; [done|by apply Forall_take]. }
  unfold AlgAddress.printable. destruct (_ <? _)%nat; [|apply Hs]. apply Forall_app. split; [apply Hs|].
  assert (Hd : bytes_ok (drop AlgAddress.SALT_LENGTH a)) by by apply Forall_drop.
  rewrite Base58.encode_digits by done. apply Forall_app. split; [by apply Forall_replicate|].
  apply Forall_reverse, Forall_fmap. eapply Forall_impl; [apply digits_ok; [lia|by apply Base58.be_val_bound]|].
  intros v Hv. by apply H58.
Qed.


Section Statements.
Context {D : Digests} {B : BigNum} {BL : BigNumLaws B}.
Context {Dh : Der BlockHash.asn1} {Hb : DerBytes BlockHash.asn1} {Dg : Der Genesis.asn1}.

Lemma hash_bytes h : bytes_ok (Decode.hash_encode h).
Proof. unfold Decode.hash_encode. rewrite Encode.encode_contents. apply i2d_bytes. Qed.

(** What the code guarantees of the parts of a genesis block: buffers hold bytes, amounts
    are unsigned. *)
Definition genesis_bytes (g : Genesis.t) : Prop :=
  bytes_ok (BlockAddress.get (Genesis.getCreator g)) ∧ bytes_ok (PublicKey.get (Genesis.getValidatorKey g)) ∧
  bytes_ok (BlockAddress.get (Genesis.getStakeAddress g)) ∧ 0 ≤ Specie.getFluffs (Genesis.getGreed g).

(** The text outside the literals of the statements for a genesis block, given its amounts. *)
Definition genesis_shells (coins fluffs : Z) : list cstr :=
  [ $"INSERT INTO validator_joins " ++
    $"(transaction_id, coins, fluffs, validator_address, validator_pubkey, stake_wallet) " ++
    $"VALUES ('', 1, 0, '', ''::bytea, 1)";
    $"INSERT INTO wallets (id, coins, fluffs, staked_coins, staked_fluffs)" ++
    $"VALUES (1, " ++ dec_text (u64 (coins - 1)) ++ $", " ++ dec_text fluffs ++ $", 1, 0)";
    $"INSERT INTO wallet_addresses (wallet_id, address, pubkey) VALUES (1, '', NULL)";
    $"INSERT INTO imported_blocks (reconciliation, shard, block, hash) VALUES (0,0,0,''::bytea)" ].

(** Reads the next piece of a statement: fixed text, the contents of a literal, a number. *)
Ltac piece :=
  lazymatch goal with
  | |- context [shell ?bs ?i (lit ?x ++ ?r)] =>
      rewrite (shell_scan bs i (lit x) r) by (apply (bool_decide_unpack _); by vm_compute);
      let o := eval vm_compute in (scan i (lit x)) in change (scan i (lit x)) with o; cbn [fst snd]
  | |- context [shell _ _ (AlgAddress.printable _ ++ _)] => rewrite shell_plain by by apply printable_plain
  | |- context [shell _ _ (Binary.body _ ++ _)] => rewrite shell_body by (done || apply hash_bytes)
  | |- context [shell _ _ (dec_text _ ++ _)] => rewrite shell_dec by (done || apply wrap_range; lia)
  end.

(** Reads a whole statement. *)
Ltac statement :=
  lazymatch goal with |- shell _ _ ?q = _ => rewrite <- (app_nil_r q) end;
  unfold Binary.encode; rewrite <- ?app_assoc; repeat piece; reflexivity.

Lemma genesis_shell bs g :
  genesis_bytes g →
  shell bs false <$> DbIntegrator.genesis_queries g =
    Some <$> genesis_shells (Specie.getCoins (Genesis.getGreed g)) (Specie.getFluffs (Genesis.getGreed g)).
Proof.
  intros (H1 & H2 & H3 & H4). unfold DbIntegrator.genesis_queries, genesis_shells. cbn [fmap list_fmap].
  do 4 (apply f_equal2; [statement|]). done.
Qed.

Lemma recon_shell bs n h :
  0 ≤ n → shell bs false <$> DbIntegrator.recon_query n h =
    Some <$> [ $"TRUNCATE imported_blocks";
               $"INSERT INTO imported_blocks (reconciliation, shard, block, hash) VALUES (" ++ dec_text n ++
               $",0,0,''::bytea)" ].
Proof.
  intros Hn. unfold DbIntegrator.recon_query. cbn [fmap list_fmap].
  do 2 (apply f_equal2; [statement|]). done.
Qed.

(** C11: No block can inject SQL. Under either setting of the server, what stands outside the
    literals of the statements sent for a genesis block is fixed text with the two amounts in
    decimal, and for a reconciliation block fixed text with its number; every literal that is
    opened is closed. Addresses, keys and hashes cannot leave their literals, whatever bytes
    they hold. *)
Theorem no_block_injects_sql (bs : bool) (g : Genesis.t) (n : Z) (h : BlockHash.t) :
  genesis_bytes g → 0 ≤ n →
  shell bs false <$> DbIntegrator.genesis_queries g =
    Some <$> genesis_shells (Specie.getCoins (Genesis.getGreed g)) (Specie.getFluffs (Genesis.getGreed g)) ∧
  shell bs false <$> DbIntegrator.recon_query n h =
    Some <$> [ $"TRUNCATE imported_blocks";
               $"INSERT INTO imported_blocks (reconciliation, shard, block, hash) VALUES (" ++ dec_text n ++
               $",0,0,''::bytea)" ].
Proof. split; [by apply genesis_shell|by apply recon_shell]. Qed.
End Statements.

(** ** What a literal of type bytea holds *)

Lemma bytea_plain c s : c ≠ 92 → bytea (c :: s) = cons c <$> bytea s.
Proof. intros Hc. cbn [bytea]. by rewrite (proj2 (Z.eqb_neq c 92)). Qed.

Lemma literal_escape_off uc r : literal true (Binary.escape uc ++ r) =
  92 :: literal true ([48 + uc / 64; 48 + uc / 8 mod 8; 48 + uc mod 8] ++ r).
Proof. done. Qed.

Lemma literal_cons bs c r : c ≠ 92 → literal bs (c :: r) = c :: literal bs r.
Proof. intros Hc. cbn [literal]. by rewrite (proj2 (Z.eqb_neq c 92)), andb_false_r. Qed.

Lemma literal_standard s : literal false s = s.
Proof. induction s as [|c s IH]; [done|]. cbn. by rewrite IH. Qed.

(** What is stored by default: every escaped byte becomes a backslash and three digits. *)
Definition garbled (l : bytes) : bytes :=
  l ≫= λ uc, if Binary.isBinary uc then 92 :: [48 + uc / 64; 48 + uc / 8 mod 8; 48 + uc mod 8] else [uc].

Lemma bytea_octal a b d s :
  48 ≤ a ≤ 51 → 48 ≤ b ≤ 55 → 48 ≤ d ≤ 55 →
  bytea (92 :: a :: b :: d :: s) = cons ((a - 48) * 64 + (b - 48) * 8 + (d - 48)) <$> bytea s.
Proof.
  intros Ha Hb Hd. assert (Hc : (48 <=? a) && (a <=? 51) && (48 <=? b) && (b <=? 55) && (48 <=? d) && (d <=? 55) = true)
    by lia. assert (a = 48 ∨ a = 49 ∨ a = 50 ∨ a = 51) as Hcase by lia.
  destruct Hcase as [-> | [-> | [-> | ->]]]; cbn [bytea]; rewrite Z.eqb_refl; by rewrite Hc.
Qed.

Lemma octal_digits uc : is_byte uc →
  48 ≤ 48 + uc / 64 ≤ 51 ∧ 48 ≤ 48 + uc / 8 mod 8 ≤ 55 ∧ 48 ≤ 48 + uc mod 8 ≤ 55.
Proof. unfold is_byte. intros. dlia. Qed.

Lemma bytea_off l : bytes_ok l → bytea (literal true (Binary.body l)) = Some l.
Proof.
  induction 1 as [|uc l Hb Hl IH]; [done|]. rewrite Binary.body_cons.
  destruct (Binary.isBinary uc) eqn:E; cbn [negb].
  - destruct (octal_digits uc Hb) as (Ha & Hm & Hd). rewrite literal_escape_off. cbn [app].
    rewrite !literal_cons, bytea_octal, IH by lia. simpl. do 2 f_equal. unfold is_byte in Hb. dlia.
  - apply Binary.isBinary_false in E as (_ & _ & ?). cbn [app]. by rewrite literal_cons, bytea_plain, IH.
Qed.

Lemma bytea_on l : bytes_ok l → bytea (literal false (Binary.body l)) = Some (garbled l).
Proof.
  rewrite literal_standard. induction 1 as [|uc l Hb Hl IH]; [done|]. rewrite Binary.body_cons.
  unfold garbled. rewrite bind_cons. fold (garbled l). destruct (Binary.isBinary uc) eqn:E; cbn [negb].
  - destruct (octal_digits uc Hb) as (Ha & Hm & Hd). rewrite escape_digits by done. cbn [app].
    change (bytea (92 :: 92 :: ?s)) with (cons 92 <$> bytea s).
    by rewrite !bytea_plain, IH by lia.
  - apply Binary.isBinary_false in E as (_ & _ & ?). cbn [app]. by rewrite bytea_plain, IH.
Qed.

Lemma garbled_length l : (length l ≤ length (garbled l))%nat.
Proof.
  induction l as [|uc l IH]; [done|]. unfold garbled. rewrite bind_cons. fold (garbled l).
  rewrite length_app. destruct (Binary.isBinary uc); simpl; lia.
Qed.

Lemma garbled_same l : garbled l = l ↔ Forall (λ uc, Binary.isBinary uc = false) l.
Proof.
  split.
  - induction l as [|uc l IH]; [constructor|]. unfold garbled. rewrite bind_cons. fold (garbled l).
    pose proof (garbled_length l). destruct (Binary.isBinary uc) eqn:E.
    + intros Hg. apply (f_equal length) in Hg. rewrite length_app in Hg. simpl in Hg. lia.
    + intros [= Hg]. constructor; [done|by apply IH].
  - induction 1 as [|uc l Hu _ IH]; [done|]. unfold garbled. rewrite bind_cons, Hu. fold (garbled l). by rewrite IH.
Qed.

(** A bytea literal gives the server the bytes it was made from only when backslashes are
    escapes in literals, which has not been the default since Postgres 9.1. By default each
    control character, byte above 126, quote and backslash is stored as four characters, so
    that only data without any of them is stored as it was. *)
Theorem binary_stored (l : bytes) :
  bytes_ok l →
  bytea (literal true (Binary.body l)) = Some l ∧
  bytea (literal false (Binary.body l)) = Some (garbled l) ∧
  (garbled l = l ↔ Forall (λ uc, Binary.isBinary uc = false) l).
Proof. intros Hl. split_and!; [by apply bytea_off|by apply bytea_on|apply garbled_same]. Qed.

(** ** Witnesses *)

Lemma no_block_injects_sql_witness :
  let g := Genesis.setCreator (BlockAddress.of_bin $"'); DROP TABLE wallets; --") Genesis.dflt in
  shell false false <$> (DbIntegrator.genesis_queries (B := Base58.BigNumZ) (D := ToyDigests)
    (Dh := CountableDer _) (Dg := CountableDer _) g !! 0%nat) =
  Some (Some ($"INSERT INTO validator_joins " ++
    $"(transaction_id, coins, fluffs, validator_address, validator_pubkey, stake_wallet) " ++
    $"VALUES ('', 1, 0, '', ''::bytea, 1)")).
Proof.
  intros g. destruct (no_block_injects_sql (B := Base58.BigNumZ) (BL := Base58.BigNumZ_laws) (D := ToyDigests)
    (Dh := CountableDer _) (Hb := CountableDer_bytes) (Dg := CountableDer _) false g 1 BlockHash.dflt) as [H _];
    [split_and!; (apply lit_bytes_ok || constructor || done)|done|].
  by apply (f_equal (lookup 0%nat)) in H.
Defined.

Lemma binary_stored_witness : bytea (literal false (Binary.body [65; 200])) = Some [65; 92; 51; 49; 48].
Proof.
  destruct (binary_stored [65; 200]) as (_ & H & _); [repeat constructor; unfold is_byte; lia|]. exact H.
Defined.
End Sql.
