(* ===== verification/ImportTable.v ===== *)
(** * The import table: [DbIntegrator] against what Postgres keeps

    The curator caches what it imported and keeps it in the table [imported_blocks].  The class
    [ImportTable] is what Postgres documents of that table for the statements the code sends;
    the theorems say what the table holds after any history of offered blocks. *)

From S2P Require Import Prelude BinData Base58 Ossl Text Db AlgAddress BlockCore BlockTx BlockChain DbIntegrator Sql.

(** A row of the table: its three numbers, and the bytes of the hash as the server keeps them. *)
Record row := Row { row_recon : Z; row_shard : Z; row_block : Z; row_hash : bytes }.

(** The values of a row as [integrateGenesis] and [integrateRecon] write them. *)
Definition imported_row (n : Z) (hash : bytes) : cstr :=
  $"(" ++ dec_text n ++ $",0,0," ++ Binary.encode hash ++ $")".

(** What each statement does to the rows of [imported_blocks] when it succeeds: the value of
    a literal is what the server reads it as, and [bs] its setting for backslashes ([Sql]).
    A single statement that inserts into another table leaves the rows alone. *)
Inductive effect (bs : bool) : cstr → (list row → list row) → Prop :=
  | eff_select : effect bs $"SELECT reconciliation, shard, block, hash FROM imported_blocks" id
  | eff_truncate : effect bs $"TRUNCATE imported_blocks" (λ _, [])
  | eff_insert n hash value :
      0 ≤ n → bytes_ok hash → Sql.bytea (Sql.literal bs (Binary.body hash)) = Some value →
      effect bs ($"INSERT INTO imported_blocks (reconciliation, shard, block, hash) VALUES " ++ imported_row n hash)
        (λ rows, rows ++ [Row n 0 0 value])
  | eff_other table q shell :
      table ∈ [$"validator_joins "; $"wallets "; $"wallet_addresses "] →
      ($"INSERT INTO " ++ table) `prefix_of` q →
      Sql.shell bs false q = Some shell → chr ";" ∉ shell → effect bs q id.

(** A server with the table: the rows as they were last committed, and as the transaction that
    is open sees them.  [escapes] is its setting: whether a backslash in a literal escapes the
    next character, which has not been the default since Postgres 9.1.  Nobody else writes
    the table. *)
Class ImportTable (O : Ozo) := {
  escapes : bool;
  committed : server → list row;
  visible : server → list row;
  table_begin s :
    committed (snd (ozo_begin s)) = committed s ∧
    (fst (ozo_begin s) = true → visible (snd (ozo_begin s)) = committed s);
  table_request s q f :
    effect escapes q f →
    committed (snd (ozo_request s q)) = committed s ∧
    (is_Some (fst (ozo_request s q)) → visible (snd (ozo_request s q)) = f (visible s));
  table_select s pg :
    fst (ozo_request s $"SELECT reconciliation, shard, block, hash FROM imported_blocks") = Some pg →
    length (tuples pg) = length (visible s);
  table_commit s :
    committed (snd (ozo_commit s)) = if fst (ozo_commit s) then visible s else committed s;
}.

Module Imports.
Import DbIntegrator.

Section Table.
Context {Oz : Ozo} {T : ImportTable Oz} {D : Digests} {B : BigNum} {BL : BigNumLaws B} {L : Asn1Lib}.
Context {Dh : Der BlockHash.asn1} {Hb : DerBytes BlockHash.asn1}.
Context {Dg : Der Genesis.asn1} {Dc : Der Reconciliation.content}.

(** ** One call at a time *)

Lemma newSession_table c w s w' :
  Session.newSession c w = (true, s, w') →
  s = Session.mk (Some Session.STransaction) ∧
  committed (srv w') = committed (srv w) ∧ visible (srv w') = committed (srv w).
Proof.
  unfold Session.newSession. destruct c; [|done]. simpl. pose proof (table_begin (srv w)) as [Hc Hv].
  destruct (ozo_begin (srv w)) as [[] s']; simpl in *; [|done]. intros; simplify_eq/=. auto.
Qed.

Lemma newSession_failed c w s w' :
  Session.newSession c w = (false, s, w') → committed (srv w') = committed (srv w).
Proof.
  unfold Session.newSession. destruct c; simpl; [|by intros; simplify_eq].
  pose proof (table_begin (srv w)) as [Hc Hv]. destruct (ozo_begin (srv w)) as [[] s']; simpl in *; [done|].
  by intros; simplify_eq/=.
Qed.

Lemma query_table sess q f w ok w' :
  effect escapes q f → Session.query sess q w = (ok, w') →
  committed (srv w') = committed (srv w) ∧ (ok = true → visible (srv w') = f (visible (srv w))).
Proof.
  intros Hq. unfold Session.query. destruct (Session.impl sess); [|by intros; simplify_eq].
  pose proof (table_request (srv w) q f Hq) as [Hc Hv].
  destruct (ozo_request (srv w) q) as [r s']; simpl in *; intros; simplify_eq/=. split; [done|].
  by intros Hr%bool_decide_eq_true_1%Hv.
Qed.

Lemma query_seq_table sess qs fs w ok w' :
  Forall2 (effect escapes) qs fs → query_seq sess qs w = (ok, w') →
  committed (srv w') = committed (srv w) ∧
  (ok = true → visible (srv w') = foldl (λ rows f, f rows) (visible (srv w)) fs).
Proof.
  intros Hq. revert w. induction Hq as [|q f qs fs Hq _ IH]; intros w; [by intros; simplify_eq/=|].
  cbn [query_seq foldl]. destruct (Session.query sess q w) as [ok1 w1] eqn:E.
  apply (query_table _ _ _ _ _ _ Hq) in E as [Hc Hv]. destruct ok1; simpl; [|by intros; simplify_eq].
  rewrite <- Hv, <- Hc by done. apply IH.
Qed.

(** Loading the import state changes no row, and finds none when it succeeds. *)
Lemma init_table fuel st w r st' w' :
  init fuel (Session.mk (Some Session.STransaction)) st w = Some (r, st', w') →
  committed (srv w') = committed (srv w) ∧
  (r = Success → visible (srv w') = visible (srv w) ∧ visible (srv w) = []).
Proof.
  unfold init, Session.select. simpl.
  pose proof (table_request (srv w) _ _ (eff_select escapes)) as [Hc Hv]. pose proof (table_select (srv w)) as Hs.
  destruct (ozo_request (srv w) _) as [[pg|] s']; simpl in *; [|by intros; simplify_eq/=].
  unfold DataResult.getNumResults, ResultImpl.getNumResults; simpl. specialize (Hs pg eq_refl).
  destruct (Z.eqb_spec (zlen (tuples pg)) 0) as [H0|H0].
  - intros; simplify_eq/=. split; [done|]. intros _. rewrite Hv by done. split; [done|].
    apply nil_length_inv. lia.
  - rewrite init_loop_diverges; [done| |done]. by intros Hn; rewrite Hn in *.
Qed.

Lemma commit_table (commits : bool) w ok s w' :
  (∀ s, fst (ozo_commit s) = commits) →
  Session.commit (Session.mk (Some Session.STransaction)) w = (ok, s, w') →
  committed (srv w') = if commits then visible (srv w) else committed (srv w).
Proof.
  intros Hok. unfold Session.commit. simpl. pose proof (table_commit (srv w)) as Hc. rewrite Hok in Hc.
  destruct (ozo_commit (srv w)) as [b s']. intros; by simplify_eq/=.
Qed.

(** ** The statements of a block *)

Lemma no_semicolon a : Forall (.≠ chr ";") a → chr ";" ∉ a.
Proof. rewrite Forall_forall. intros H Hin. by apply (H _ Hin). Qed.

Lemma digits_no_semicolon n : 0 ≤ n → Forall (.≠ chr ";") (dec_text n).
Proof.
  intros Hn. eapply Forall_impl; [by apply dec_text_ok|]. unfold is_dec. change (chr ";") with 59. lia.
Qed.

(** The bytes the server keeps for a hash: its own where backslashes are escapes, and else
    the text of the escapes. *)
Definition kept_hash (h : BlockHash.t) : bytes :=
  if escapes then Decode.hash_encode h else Sql.garbled (Decode.hash_encode h).

Lemma kept_value h : Sql.bytea (Sql.literal escapes (Binary.body (Decode.hash_encode h))) = Some (kept_hash h).
Proof.
  unfold kept_hash. pose proof (Sql.hash_bytes h).
  destruct escapes; [by apply Sql.bytea_off|by apply Sql.bytea_on].
Qed.

(** The row has the hash itself exactly with the setting, or when nothing was escaped. *)
Lemma kept_exact h :
  kept_hash h = Decode.hash_encode h ↔
  escapes = true ∨ Forall (λ uc, Binary.isBinary uc = false) (Decode.hash_encode h).
Proof.
  unfold kept_hash. destruct escapes; [by split; [left|]|]. rewrite Sql.garbled_same.
  split; [by right|by intros [|]].
Qed.

(** The row of block [n] of the chain, whose hash is [h]. *)
Definition stored_row (n : Z) (h : BlockHash.t) : row := Row n 0 0 (kept_hash h).

Lemma recon_effects n h :
  0 ≤ n →
  Forall2 (effect escapes) (recon_query n h) [λ _, []; λ rows, rows ++ [stored_row n h]].
Proof.
  intros Hn. unfold recon_query. constructor; [constructor|]. constructor; [|constructor].
  refine (eff_insert _ n _ _ Hn (Sql.hash_bytes h) (kept_value h)).
Qed.

Lemma shells_no_semicolon coins fluffs :
  0 ≤ fluffs → Forall (Forall (.≠ chr ";")) (Sql.genesis_shells coins fluffs).
Proof.
  intros Hf. unfold Sql.genesis_shells. rewrite !Forall_cons, !Forall_app. split_and!.
  all: lazymatch goal with
       | |- Forall _ (dec_text _) => apply digits_no_semicolon; done || apply wrap_range; lia
       | |- _ => apply (bool_decide_unpack _); by vm_compute
       end.
Qed.

(** What the code guarantees of a block: a genesis block's buffers hold bytes. *)
Definition block_bytes (b : Block.t) : Prop := ∀ g, Block.getGenesis b = Some g → Sql.genesis_bytes g.

(** The statements of a genesis block before the last are inserts into other tables. *)
Lemma genesis_other g k q table :
  Sql.genesis_bytes g → genesis_queries g !! k = Some q →
  table ∈ [$"validator_joins "; $"wallets "; $"wallet_addresses "] →
  ($"INSERT INTO " ++ table) `prefix_of` q → effect escapes q id.
Proof.
  intros Hg Hq Ht Hp. set (sh := Sql.genesis_shells (Specie.getCoins (Genesis.getGreed g))
                                   (Specie.getFluffs (Genesis.getGreed g))).
  assert (Hsh : ∀ bs, Sql.shell bs false <$> Some q = Some <$> sh !! k).
  { intros bs. rewrite <- Hq, <- !list_lookup_fmap. f_equal. by apply Sql.genesis_shell. }
  destruct (sh !! k) as [shell|] eqn:Ek; [|by specialize (Hsh true)].
  apply (eff_other escapes table q shell); [done|done| |].
  - specialize (Hsh escapes). by injection Hsh.
  - apply no_semicolon. apply (Forall_lookup_1 _ sh k); [apply shells_no_semicolon, Hg|done].
Qed.

Lemma genesis_effects g :
  Sql.genesis_bytes g →
  Forall2 (effect escapes) (genesis_queries g)
    [id; id; id; λ rows, rows ++ [stored_row 0 (genesis_hash g)]].
Proof.
  intros Hg. pose proof (λ k q table, genesis_other g k q table Hg) as Ho.
  apply Forall2_cons_2; [apply (Ho 0%nat _ $"validator_joins "); [done|by left|by eexists]|].
  apply Forall2_cons_2; [apply (Ho 1%nat _ $"wallets "); [done|by right; left|by eexists]|].
  apply Forall2_cons_2; [apply (Ho 2%nat _ $"wallet_addresses "); [done|by right; right; left|by eexists]|].
  apply Forall2_cons_2; [|done].
  refine (eff_insert _ 0 _ _ _ (Sql.hash_bytes (genesis_hash g)) (kept_value _)). done.
Qed.

(** ** Every integration, seen in the table *)

(** Either commits succeed, or they fail. *)
Context (commits : bool) (Hcommits : ∀ s, fst (ozo_commit s) = commits).

(** The rows after a block was offered: none change unless it was integrated and the commit
    succeeded; the genesis block adds its row, a reconciliation block replaces them all by its
    own, a node block adds none. *)
Definition rows_after (st : t) (data : Block.t) (r : Result) (rows : list row) : list row :=
  if bool_decide (r = Success) && commits then
    match Block.getType data with
    | Block.TGenesis => rows ++ [stored_row 0 (hash_of data)]
    | Block.TReconciliation => [stored_row (currentRecon st) (hash_of data)]
    | _ => rows
    end
  else rows.

Abbreviation open_session := (Session.mk (Some Session.STransaction)).

(** Statements followed by a commit. *)
Lemma written_table qs fs w w1 ok2 s2 w2 :
  Forall2 (effect escapes) qs fs → query_seq open_session qs w = (true, w1) →
  Session.commit open_session w1 = (ok2, s2, w2) →
  committed (srv w2) = if commits then foldl (λ rows f, f rows) (visible (srv w)) fs else committed (srv w).
Proof.
  intros Hq Hs Hc. apply (query_seq_table _ _ _ _ _ _ Hq) in Hs as [Hsame Hv].
  by rewrite (commit_table _ _ _ _ _ Hcommits Hc), Hv, Hsame.
Qed.

Lemma unwritten_table qs fs w ok w1 :
  Forall2 (effect escapes) qs fs → query_seq open_session qs w = (ok, w1) → committed (srv w1) = committed (srv w).
Proof. intros Hq Hs. by apply (query_seq_table _ _ _ _ _ _ Hq) in Hs as [? _]. Qed.

Lemma genesis_table data st w r st' w' :
  block_bytes data → visible (srv w) = committed (srv w) → Block.getType data = Block.TGenesis →
  integrateGenesis data open_session st w = Some (r, st', w') →
  committed (srv w') = rows_after st data r (committed (srv w)).
Proof.
  intros Hby Hv Hty. rewrite integrateGenesis_eq. unfold rows_after. rewrite Hty.
  destruct (Block.getGenesis data) as [g|] eqn:Eg; [|done]. cbn [mbind option_bind].
  pose proof (genesis_effects g (Hby g Eg)) as Hq.
  destruct (query_seq _ _ w) as [[] w1] eqn:E; simpl negb; cbv iota.
  - destruct (Session.commit _ w1) as [[ok2 s2] w2] eqn:Ec. intros; simplify_eq/=.
    rewrite (written_table _ _ _ _ _ _ _ Hq E Ec), (hash_of_genesis _ _ Eg), Hv. by destruct commits.
  - intros; simplify_eq/=. by eapply unwritten_table.
Qed.

Lemma recon_table data st w r st' w' :
  block_wf data → 0 ≤ currentRecon st → Block.getType data = Block.TReconciliation →
  integrateRecon data open_session st w = Some (r, st', w') →
  committed (srv w') = rows_after st data r (committed (srv w)).
Proof.
  intros Hwf Hcr Hty. unfold integrateRecon, rows_after. rewrite Hty.
  destruct (Block.getReconciliation data) as [rc|] eqn:Er; [|done]. cbn [mbind option_bind].
  destruct (negb _); [by intros; simplify_eq/=|]. destruct (negb _); [by intros; simplify_eq/=|].
  destruct (recon_mismatch _ _ _) as [res|] eqn:Em.
  { intros; simplify_eq. rewrite bool_decide_eq_false_2; [done|]. intros ->. by apply recon_mismatch_result in Em. }
  destruct (toContent_total rc) as [enc Henc]. rewrite Henc. cbn [mbind option_bind].
  pose proof (recon_effects (currentRecon st) (BlockHash.of_data enc) Hcr) as Hq.
  destruct (query_seq _ _ w) as [[] w1] eqn:E; simpl negb; cbv iota.
  - destruct (Session.commit _ w1) as [[ok2 s2] w2] eqn:Ec. intros; simplify_eq/=.
    rewrite (written_table _ _ _ _ _ _ _ Hq E Ec), (hash_of_recon _ _ Hwf Er). unfold recon_hash. rewrite Henc.
    by destruct commits.
  - intros; simplify_eq/=. by eapply unwritten_table.
Qed.

Lemma node_table data sh b st w r st' w' :
  visible (srv w) = committed (srv w) → Block.getType data = Block.TNode →
  integrateNode data sh b open_session st w = Some (r, st', w') →
  committed (srv w') = rows_after st data r (committed (srv w)).
Proof.
  intros Hv Hty. unfold integrateNode, rows_after. rewrite Hty.
  destruct (Block.getNode data) as [n|]; [|done]. cbn [mbind option_bind].
  destruct (b <=? _); [by intros; simplify_eq/=|]. destruct (_ <? b); [by intros; simplify_eq/=|].
  destruct (Session.commit _ w) as [[ok2 s2] w2] eqn:Ec. intros; simplify_eq/=.
  rewrite (commit_table _ _ _ _ _ Hcommits Ec), Hv. by destruct commits.
Qed.

Lemma dispatch_table data rc sh b st w r st' w' :
  block_wf data → block_bytes data → 0 ≤ currentRecon st → visible (srv w) = committed (srv w) →
  dispatch data rc sh b open_session st w = Some (r, st', w') →
  committed (srv w') = rows_after st data r (committed (srv w)).
Proof.
  intros Hwf Hby Hcr Hv. unfold dispatch.
  destruct (_ <? rc); [by intros; simplify_eq/=|]. destruct (rc <? _); [by intros; simplify_eq/=|].
  destruct (currentRecon st =? 0).
  { destruct (negb _); [by intros; simplify_eq/=|]. destruct (negb _); [by intros; simplify_eq/=|].
    case_bool_decide; simpl; [by apply genesis_table|by intros; simplify_eq/=]. }
  case_bool_decide.
  { destruct (Block.getReconciliation data) as [r'|]; [|done]. cbn [mbind option_bind].
    destruct (shards_mismatch _ _ _) as [res|] eqn:Em; [|by apply recon_table].
    intros; simplify_eq. unfold rows_after. rewrite bool_decide_eq_false_2; [done|].
    intros ->. by apply shards_mismatch_result in Em. }
  case_bool_decide; simpl; [by apply node_table|by intros; simplify_eq/=].
Qed.

(** One call of [integrate], whatever its outcome. *)
Lemma integrate_table fuel data rc sh b st w r st' w' :
  block_wf data → block_bytes data → 0 ≤ currentRecon st →
  integrate fuel data rc sh b st w = Some (r, st', w') →
  committed (srv w') = rows_after st data r (committed (srv w)).
Proof.
  intros Hwf Hby Hcr. unfold integrate. destruct (Session.newSession _ w) as [[[] s] w1] eqn:E; simpl.
  2: { intros; simplify_eq. by rewrite (newSession_failed _ _ _ _ E). }
  apply newSession_table in E as (-> & Hc1 & Hv1).
  destruct (initialized st); simpl; [rewrite <- Hc1; apply dispatch_table; try done; by rewrite Hc1|].
  destruct (init fuel _ st w1) as [[[status st1] w2]|] eqn:E2; [|done]. simpl.
  pose proof (init_inv _ _ _ _ _ _ _ E2) as ([= Hcr1 _] & _).
  apply init_table in E2 as [Hc2 Hv2]. case_bool_decide as Hs; simpl.
  - destruct (Hv2 Hs) as [Hv _]. rewrite <- Hc1, <- Hc2. intros Hd.
    replace (rows_after st data r) with (rows_after st1 data r) by (unfold rows_after; by rewrite Hcr1).
    eapply dispatch_table; [done|done|by rewrite Hcr1|congruence|exact Hd].
  - intros; simplify_eq. unfold rows_after. rewrite bool_decide_eq_false_2 by done. simpl. congruence.
Qed.

(** The rows that a chain of integrated blocks leaves, newest block first. *)
Definition chain_rows (acc : list Block.t) : list row :=
  match acc with
  | p :: _ => if commits then [stored_row (zlen acc - 1) (hash_of p)] else []
  | [] => []
  end.

Lemma linked_type b acc :
  linked (b :: acc) → block_wf b →
  Block.getType b = match acc with [] => Block.TGenesis | _ :: _ => Block.TReconciliation end.
Proof.
  unfold block_wf, Block.wf. intros Hl Hwf. unfold Block.getType.
  inversion Hl as [|? g Hg|? r p l _ Hr]; subst; unfold Block.getGenesis, Block.getReconciliation in *;
    destruct (Block.type b); destruct_and?; congruence || done.
Qed.

Lemma chain_table fuel data rc sh b st w r st' w' acc :
  block_wf data → block_bytes data → zlen acc < 2 ^ 32 - 1 →
  chain_inv st acc → committed (srv w) = chain_rows acc →
  integrate fuel data rc sh b st w = Some (r, st', w') →
  let acc' := if bool_decide (r = Success) && negb (bool_decide (Block.getType data = Block.TNode))
              then data :: acc else acc in
  chain_inv st' acc' ∧ committed (srv w') = chain_rows acc'.
Proof.
  intros Hwf Hby Hlen Hinv Hrows Hi acc'. pose proof (integrate_step _ _ _ _ _ _ _ _ _ _ _ Hwf Hinv Hlen Hi) as Hinv'.
  split; [exact Hinv'|]. fold acc' in Hinv'. destruct Hinv as (Hl & Hcr & _), Hinv' as (Hl' & _ & _).
  assert (H0 : 0 ≤ currentRecon st) by lia.
  rewrite (integrate_table _ _ _ _ _ _ _ _ _ _ Hwf Hby H0 Hi), Hrows. unfold rows_after, acc' in *.
  destruct (decide (r = Success)) as [->|Hr]; [|by rewrite bool_decide_eq_false_2].
  rewrite (bool_decide_eq_true_2 (Success = _)) in * by done. simpl andb in *.
  destruct (decide (Block.getType data = Block.TNode)) as [Hn|Hn].
  { rewrite Hn, bool_decide_eq_true_2 by done. by destruct commits. }
  rewrite (bool_decide_eq_false_2 _ Hn) in *. simpl negb in *. cbv iota in *.
  rewrite (linked_type _ _ Hl' Hwf), Hcr. unfold chain_rows. destruct acc as [|p l], commits; try done.
  do 3 f_equal. simpl length. lia.
Qed.

Lemma run_table fuel cs : ∀ st w acc st' w' acc',
  Forall (λ c, block_wf (c_data c) ∧ block_bytes (c_data c)) cs → zlen acc + zlen cs < 2 ^ 32 - 1 →
  chain_inv st acc → committed (srv w) = chain_rows acc →
  run fuel cs st w acc = Some (st', w', acc') →
  chain_inv st' acc' ∧ committed (srv w') = chain_rows acc'.
Proof.
  induction cs as [|c cs IH]; intros st w acc st' w' acc' Hcs Hlen Hinv Hrows; [by intros; simplify_eq/=|].
  apply Forall_cons in Hcs as [[Hwf Hby] Hcs]. cbn [run].
  destruct (integrate _ _ _ _ _ st w) as [[[r st1] w1]|] eqn:E; [|done]. simpl.
  simpl length in Hlen. assert (Hacc : zlen acc < 2 ^ 32 - 1) by lia.
  destruct (chain_table _ _ _ _ _ _ _ _ _ _ acc Hwf Hby Hacc Hinv Hrows E) as [Hinv1 Hrows1].
  apply IH; [done| |done|done].
  destruct (_ && _); simpl length; lia.
Qed.

(** C4: The import table follows the chain of integrated blocks as long as commits succeed: on a
    Postgres server whose table starts empty and whose commits all succeed, after fewer than
    2^32 - 1 blocks, each with content only of its own kind, offered in any order, and any
    failures of connections and statements, the table holds no row if nothing was integrated, and
    else one row, with the number of the last
    block of the chain and what the server reads the literal of that block's hash as, while the
    cache holds the hash. With backslash escapes on, the bytes of the row are those of the
    hash; by default they are not, unless the hash has no byte that is escaped: each such byte is
    stored as a backslash and three digits. When the server's commits all fail, the cache follows
    the chain all the same and the table stays empty, since nobody looks at the outcome of
    a commit. *)
Theorem chain_is_stored (fuel : nat) (cs : list call) (conn : bool) (w : world)
    (st : t) (w' : world) (acc : list Block.t) :
  Forall (λ c, block_wf (c_data c) ∧ block_bytes (c_data c)) cs → zlen cs < 2 ^ 32 - 1 →
  committed (srv w) = [] →
  run fuel cs (new conn) w [] = Some (st, w', acc) →
  currentRecon st = zlen acc ∧
  lastImports st = match acc with [] => ∅ | p :: _ => {[0 := mkShard 0 (hash_of p)]} end ∧
  (if commits then
     match acc, committed (srv w') with
     | [], [] => True
     | p :: _, [r] =>
         let hash := Decode.hash_encode (hash_of p) in
         row_recon r = zlen acc - 1 ∧ row_shard r = 0 ∧ row_block r = 0 ∧
         row_hash r = (if escapes then hash else Sql.garbled hash) ∧
         (row_hash r = hash ↔ escapes = true ∨ Forall (λ uc, Binary.isBinary uc = false) hash)
     | _, _ => False
     end
   else committed (srv w') = []).
Proof.
  intros Hcs Hlen H0 Hrun.
  destruct (run_table fuel cs (new conn) w [] st w' acc Hcs) as [(_ & Hcr & Hli) Hrows]; try done.
  { by split_and!; [constructor| |]. }
  split; [done|]. split; [done|]. rewrite Hrows. unfold chain_rows. destruct commits; [|by destruct acc].
  destruct acc as [|p l]; [done|]. cbn [stored_row row_recon row_shard row_block row_hash].
  split_and!; [done..|]. apply kept_exact.
Qed.
End Table.

(** ** Witness: a server that reads the rows from its statements *)

Definition insert_prefix : cstr := $"INSERT INTO imported_blocks (reconciliation, shard, block, hash) VALUES ".

(** The text before the first [c], and after it. *)
Fixpoint cut (c : Z) (s : cstr) : cstr * cstr :=
  match s with
  | [] => ([], [])
  | x :: s => if x =? c then ([], s) else let '(a, b) := cut c s in (x :: a, b)
  end.

Lemma cut_app c a b : Forall (.≠ c) a → cut c (a ++ c :: b) = (a, b).
Proof.
  induction 1 as [|x a Hx _ IH]; cbn [app cut]; [by rewrite Z.eqb_refl|].
  by rewrite (proj2 (Z.eqb_neq x c)), IH.
Qed.

(** The row that the values of an insert stand for. *)
Definition read_row (bs : bool) (s : cstr) : option row :=
  let n := (cut (chr ",") (drop 1 s)).1 in
  let value := (cut 39 s).2 in
  Row (dec_val n) 0 0 <$> Sql.bytea (Sql.literal bs (take (length value - length $"'::bytea)") value)).

Lemma read_imported_row bs n hash value :
  0 ≤ n → Sql.bytea (Sql.literal bs (Binary.body hash)) = Some value →
  read_row bs (imported_row n hash) = Some (Row n 0 0 value).
Proof.
  intros Hn Hv. unfold read_row, imported_row, Binary.encode. pose proof (dec_text_ok n Hn) as Hd.
  assert (Hc : Forall (.≠ chr ",") (dec_text n))
    by (eapply Forall_impl; [exact Hd|]; unfold is_dec; change (chr ",") with 44; lia).
  set (tail := $"'::bytea").
  replace ($"(" ++ dec_text n ++ $",0,0," ++ ($"'" ++ Binary.body hash ++ tail) ++ $")")
    with (40 :: dec_text n ++ chr "," :: ($"0,0," ++ 39 :: Binary.body hash ++ (tail ++ $")"))) by by rewrite <- !app_assoc.
  change (drop 1 (?c :: ?l)) with l. rewrite cut_app by done. cbn [fst]. rewrite dec_val_text by done.
  replace (40 :: dec_text n ++ chr "," :: ($"0,0," ++ 39 :: Binary.body hash ++ (tail ++ $")")))
    with ((40 :: dec_text n ++ $",0,0,") ++ 39 :: (Binary.body hash ++ (tail ++ $")")))
    by (cbn [app]; by rewrite <- !app_assoc).
  rewrite cut_app; cbn [snd].
  - rewrite length_app, take_app_le, take_ge, Hv by (change (length (tail ++ $")")) with (length $"'::bytea)"); lia). done.
  - constructor; [done|]. apply Forall_app. split; [|by repeat constructor].
    eapply Forall_impl; [exact Hd|]. unfold is_dec. lia.
Qed.

(** The committed rows and those of the open transaction; [ok] says whether commits succeed,
    and [bs] is the setting for backslashes. *)
Definition TextDb (ok bs : bool) : Ozo := {|
  server := list row * list row;
  ozo_begin s := (true, (s.1, s.1));
  ozo_request s q :=
    if decide (q = $"SELECT reconciliation, shard, block, hash FROM imported_blocks")
    then (Some (PgResult [] ((λ _, []) <$> s.2)), s)
    else if decide (q = $"TRUNCATE imported_blocks") then (Some (PgResult [] []), (s.1, []))
    else if decide (insert_prefix `prefix_of` q) then
      (Some (PgResult [] []), (s.1, s.2 ++ option_list (read_row bs (drop (length insert_prefix) q))))
    else (Some (PgResult [] []), s);
  ozo_commit s := (ok, if ok then (s.2, s.2) else (s.1, s.1));
  ozo_get_connection s := (true, s);
|}.

#[global] Instance TextDb_table (ok bs : bool) : ImportTable (TextDb ok bs).
Proof.
  refine {| escapes := bs; committed := fst : @server (TextDb ok bs) → _;
            visible := snd : @server (TextDb ok bs) → _ |}; simpl.
  - done.
  - intros s q f [| |n h value Hn Hh Hv|table q' sh Ht [rest ->] _ _].
    + by rewrite decide_True.
    + done.
    + rewrite !decide_False by done. rewrite decide_True by by eexists.
      change (drop 72 _) with (imported_row n h). by rewrite (read_imported_row _ _ _ value).
    + rewrite !elem_of_cons in Ht. destruct Ht as [-> | [-> | [-> | []%not_elem_of_nil]]];
        (rewrite !decide_False by (done || by intros [? [=]])); done.
  - intros s pg. intros [= <-]. simpl. by rewrite length_fmap.
  - intros s. by destruct ok.
Defined.

#[local] Existing Instances DbIntegrator.DerHash DbIntegrator.DerGenesis DbIntegrator.DerContent
  Base58.BigNumZ ToyDigests Convert.Asn1Z.
#[local] Instance DerHashBytes : DerBytes BlockHash.asn1 := CountableDer_bytes.

Lemma two_blocks_ok : Forall (λ c, block_wf (c_data c) ∧ block_bytes (c_data c)) two_blocks.
Proof.
  constructor; [|constructor; [|constructor]].
  - split; [by eexists|]. intros g [= <-]. by repeat (constructor || done).
  - split; [by eexists|]. by intros g.
Qed.

Abbreviation empty_table ok bs := (World (O := TextDb ok bs) ([], []) []).

Lemma chain_is_stored_witness :
  ∃ st w' p q row, run (Oz := TextDb true false) 1 two_blocks (new true) (empty_table true false) [] =
      Some (st, w', [p; q]) ∧
    committed (srv w') = [row] ∧ row_recon row = 1 ∧ row_hash row = Sql.garbled (Decode.hash_encode (hash_of p)).
Proof.
  assert (Hacc : length ∘ snd <$> run (Oz := TextDb true false) 1 two_blocks (new true)
    (empty_table true false) [] = Some 2%nat) by (vm_compute; reflexivity).
  destruct (run (Oz := TextDb true false) 1 two_blocks (new true) (empty_table true false) [])
    as [[[st w'] acc]|] eqn:E; [|done]. injection Hacc as Hacc. simpl in Hacc.
  destruct (chain_is_stored (T := TextDb_table true false) (B := Base58.BigNumZ) (BL := Base58.BigNumZ_laws)
    true (λ s, eq_refl) 1 two_blocks true (empty_table true false) st w' acc)
    as (_ & _ & Hrows); [exact two_blocks_ok|reflexivity|reflexivity|exact E|].
  destruct acc as [|p [|q [|? ?]]]; [discriminate..| |discriminate].
  destruct (committed (srv w')) as [|r [|? ?]] eqn:Er; [contradiction| |contradiction].
  destruct Hrows as (Hn & _ & _ & Hh & _). exists st, w', p, q, r. split; [reflexivity|].
  split; [exact Er|]. split; [exact Hn|exact Hh].
Defined.

End Imports.
