(* ===== verification/BlockIntegrator.v ===== *)
(** * The curator's pending blocks: [curator/core/BlockIntegrator]

    Blocks wait in a map of maps (reconciliation, shard, block) and are offered to
    the database integrator smallest index first.  The integrator is an interface
    here; [DbIntegrator] is its implementation.  [None] stands for a call that does
    not return or whose behaviour is undefined. *)

From S2P Require Import Prelude BinData Base58 Ossl Text Db BlockCore BlockTx BlockChain DbIntegrator.

Import DbIntegrator(Result, RNone, Success, NoDatabase, DatabaseError, InvalidState, InvalidIndex,
  Duplicate, BadBlock, NoMatch, NotReady, AlreadyDone).

(** What the pending list needs of the integrator: its state and the call. *)
Class Integrator := {
  istate : Type;
  offer : Block.t → Z → Z → Z → istate → option (Result * istate);
}.

(** The database integrator behind the interface: its state and the database. *)
Definition DbIntegratorI {Oz : Ozo} {D : Digests} {B : BigNum} {L : Asn1Lib} {Dh : Der BlockHash.asn1}
    {Dg : Der Genesis.asn1} {Dc : Der Reconciliation.content} (fuel : nat) : Integrator := {|
  istate := DbIntegrator.t * world;
  offer data recon shard blk s :=
    '(r, st, w) ← DbIntegrator.integrate fuel data recon shard blk s.1 s.2; Some (r, (st, w));
|}.

Module BlockIntegrator.

(** [src/src/services/curator/core/BlockIntegrator.h:45-52] BlockIntegrator::PendingBlock *)
Record PendingBlock := mkPending { p_init : bool; p_recon : Z; p_shard : Z; p_block : Z; p_data : Block.t }.

Definition noPending : PendingBlock := mkPending false 0 0 0 Block.dflt.

(** [BlockIntegrator::PendingShard] and [PendingRecon], maps of one member each. *)
Abbreviation PendingShard := (gmap Z Block.t).
Abbreviation PendingRecon := (gmap Z PendingShard).

Section Code.
Context {L : Asn1Lib} {I : Integrator} {Db : Der Block.asn1}.

(** [src/src/services/curator/core/BlockIntegrator.h:18-67] BlockIntegrator *)
Record t := mk {
  pendingRecons : gmap Z PendingRecon;
  shardCursor : Z;
  dbIntegrator : istate;
}.

(** [src/src/services/curator/core/BlockIntegrator.cpp:8-13] BlockIntegrator::BlockIntegrator *)
Definition new (db : istate) : t := mk ∅ 0 db.

(** [src/src/services/curator/core/BlockIntegrator.cpp:65-69] isSuccess *)
Definition isSuccess (ret : Result) : bool := bool_decide (ret = Success).

(** [src/src/services/curator/core/BlockIntegrator.cpp:71-80] isBadBlock *)
Definition isBadBlock (ret : Result) : bool :=
  bool_decide (ret = InvalidIndex) || bool_decide (ret = Duplicate) || bool_decide (ret = BadBlock) ||
  bool_decide (ret = NoMatch) || bool_decide (ret = AlreadyDone).

(** [src/src/services/curator/core/BlockIntegrator.cpp:157-183] BlockIntegrator::removeBlock *)
Definition removeBlock (recon shard block : Z) (st : t) : t :=
  match pendingRecons st !! recon with
  | None => st
  | Some pendingShards =>
      match pendingShards !! shard with
      | None => st
      | Some pendingBlocks =>
          let pendingBlocks := delete block pendingBlocks in
          let pendingShards :=
            if bool_decide (pendingBlocks = ∅) then delete shard pendingShards
            else <[shard := pendingBlocks]> pendingShards in
          let pendingRecons :=
            if bool_decide (pendingShards = ∅) then delete recon (pendingRecons st)
            else <[recon := pendingShards]> (pendingRecons st) in
          mk pendingRecons (shardCursor st) (dbIntegrator st)
      end
  end.

(** [src/src/services/curator/core/BlockIntegrator.cpp:112-134] BlockIntegrator::tryNext (choice of the next block)

    The block is copied, which [None] says is undefined. *)
Fixpoint pick (recon cursor : Z) (shards : list (Z * PendingShard)) : option PendingBlock :=
  match shards with
  | [] => Some noPending
  | (shard, blocks) :: shards =>
      if shard <? cursor then pick recon cursor shards
      else match ordered blocks with
      | (block, data) :: _ =>
          copy ← Block.copy_assign Block.dflt data;
          Some (mkPending true recon shard block copy)
      | [] => pick recon cursor shards
      end
  end.

(** [src/src/services/curator/core/BlockIntegrator.cpp:148-151] BlockIntegrator::tryNext (the answer) *)
Definition settle (nextBlock : PendingBlock) (ret : Result) (st : t) : bool * t :=
  (isSuccess ret,
   if isSuccess ret || isBadBlock ret
   then removeBlock (p_recon nextBlock) (p_shard nextBlock) (p_block nextBlock) st else st).

(** [src/src/services/curator/core/BlockIntegrator.cpp:137-154] BlockIntegrator::tryNext (offering the block) *)
Definition attempt (nextBlock : PendingBlock) (st : t) : option (bool * t) :=
  if p_init nextBlock then
    '(ret, db) ← offer (p_data nextBlock) (p_recon nextBlock) (p_shard nextBlock) (p_block nextBlock)
                   (dbIntegrator st);
    Some (settle nextBlock ret (mk (pendingRecons st) (shardCursor st) db))
  else Some (false, st).

(** What the part of [tryNext] under the lock decides: return, or a block. *)
Inductive choice := Return (retry : bool) (st : t) | Chosen (nextBlock : PendingBlock).

(** [src/src/services/curator/core/BlockIntegrator.cpp:86-135] BlockIntegrator::tryNext (under the lock) *)
Definition choose (st : t) : option choice :=
  match ordered (pendingRecons st) with
  | [] => Some (Return false st)
  | (recon, pendingRecon) :: _ =>
      if bool_decide (pendingRecon = ∅) then
        Some (Return true (mk (delete recon (pendingRecons st)) (shardCursor st) (dbIntegrator st)))
      else
        nextBlock ← pick recon (shardCursor st) (ordered pendingRecon);
        Some (Chosen nextBlock)
  end.

(** [src/src/services/curator/core/BlockIntegrator.cpp:84-155] BlockIntegrator::tryNext *)
Definition tryNext (st : t) : option (bool * t) :=
  c ← choose st;
  match c with
  | Return retry st => Some (retry, st)
  | Chosen nextBlock => attempt nextBlock st
  end.

(** [src/src/services/curator/core/BlockIntegrator.cpp:55-60] BlockIntegrator::tryIntegrate *)
Fixpoint tryIntegrate (fuel : nat) (st : t) : option t :=
  match fuel with
  | O => None
  | S fuel => '(retry, st) ← tryNext st; if (retry : bool) then tryIntegrate fuel st else Some st
  end.

(** [src/src/services/curator/core/BlockIntegrator.cpp:28-48] BlockIntegrator::addBlock (appending)

    [emplace] keeps the block that is already there. *)
Definition enqueue (recon shard block : Z) (data : Block.t) (st : t) : t :=
  let pendingRecon := default ∅ (pendingRecons st !! recon) in
  let pendingShard := default ∅ (pendingRecon !! shard) in
  let pendingShard := match pendingShard !! block with
                      | Some _ => pendingShard
                      | None => <[block := Block.move_construct data]> pendingShard
                      end in
  mk (<[recon := <[shard := pendingShard]> pendingRecon]> (pendingRecons st))
     (if shard <? shardCursor st then shard else shardCursor st) (dbIntegrator st).

(** [src/src/services/curator/core/BlockIntegrator.cpp:15-53] BlockIntegrator::addBlock *)
Definition addBlock (fuel : nat) (binData : bytes) (recon shard block : Z) (st : t) : option t :=
  '(ok, data) ← Decode.decode_block binData Block.dflt;
  if negb ok then Some st else tryIntegrate fuel (enqueue recon shard block data st).

(** ** The specification: one queue sorted by index *)

Definition index : Type := Z * Z * Z.
Definition entry : Type := index * Block.t.

Definition index_lt (i j : index) : Prop :=
  i.1.1 < j.1.1 ∨ i.1.1 = j.1.1 ∧ (i.1.2 < j.1.2 ∨ i.1.2 = j.1.2 ∧ i.2 < j.2).

#[local] Instance index_lt_dec i j : Decision (index_lt i j) := ltac:(unfold index_lt; apply _).

Definition entry_lt (e f : entry) : Prop := index_lt e.1 f.1.

(** Insert in order unless the index is taken. *)
Fixpoint q_insert (e : entry) (q : list entry) : list entry :=
  match q with
  | [] => [e]
  | f :: q' =>
      if decide (index_lt e.1 f.1) then e :: q
      else if decide (e.1 = f.1) then q else f :: q_insert e q'
  end.

(** Offer copies of the blocks in order for as long as they are accepted; a block
    that is refused for good is dropped, and nothing further is offered. *)
Fixpoint q_drain (q : list entry) (db : istate) : option (list entry * istate) :=
  match q with
  | [] => Some ([], db)
  | ((recon, shard, block), data) :: q' =>
      copy ← Block.copy_construct data;
      '(ret, db) ← offer copy recon shard block db;
      if isSuccess ret then q_drain q' db
      else Some (if isBadBlock ret then q' else q, db)
  end.

(** The queue a pending map stands for. *)
Definition flat_shard (recon : Z) (s : Z * PendingShard) : list entry :=
  (λ b, ((recon, s.1, b.1), b.2)) <$> ordered s.2.
Definition flat_recon (r : Z * PendingRecon) : list entry := ordered r.2 ≫= flat_shard r.1.
Definition flat (p : gmap Z PendingRecon) : list entry := ordered p ≫= flat_recon.

(** No empty map is kept, and the shard cursor is where it starts. *)
Definition wf (st : t) : Prop :=
  shardCursor st = 0 ∧
  (∀ r pr, pendingRecons st !! r = Some pr →
    pr ≠ ∅ ∧ ∀ s ps, pr !! s = Some ps → 0 ≤ s ∧ ps ≠ ∅).
End Code.
Arguments t {_}.

(** ** The maps as a sorted queue *)
Section Queue.
#[local] Existing Instance index_lt_dec.

#[local] Instance entry_lt_irrefl : Irreflexive entry_lt.
Proof. intros [[[r s] b] d]. unfold complement, entry_lt, index_lt; simpl. lia. Qed.
#[local] Instance entry_lt_trans : Transitive entry_lt.
Proof. intros [[[? ?] ?] ?] [[[? ?] ?] ?] [[[? ?] ?] ?]. unfold entry_lt, index_lt; simpl. lia. Qed.

Lemma index_lt_total i j : i ≠ j → ¬ index_lt i j → index_lt j i.
Proof.
  destruct i as [[r s] b], j as [[r' s'] b']. unfold index_lt; simpl. intros Hne Hn.
  destruct (decide (r = r')) as [->|]; [|lia]. destruct (decide (s = s')) as [->|]; [|lia].
  destruct (decide (b = b')) as [->|]; [done|lia].
Qed.

Definition pending_at (p : gmap Z PendingRecon) (r s b : Z) : option Block.t :=
  pr ← p !! r; ps ← pr !! s; ps !! b.

Lemma elem_of_flat (p : gmap Z PendingRecon) r s b x :
  ((r, s, b), x) ∈ flat p ↔ pending_at p r s b = Some x.
Proof.
  unfold flat, flat_recon, flat_shard, pending_at. rewrite list_elem_of_bind. split.
  - intros ([r' pr] & Hin & Hr%elem_of_ordered). apply list_elem_of_bind in Hin as ([s' ps] & Hin & Hs%elem_of_ordered).
    apply list_elem_of_fmap in Hin as ([b' x'] & [= -> -> -> ->] & Hb%elem_of_ordered). simpl in *.
    by rewrite Hr; simpl; rewrite Hs.
  - intros (pr & Hr & (ps & Hs & Hb)%bind_Some)%bind_Some. exists (r, pr). rewrite elem_of_ordered. split; [|done].
    apply list_elem_of_bind. exists (s, ps). rewrite elem_of_ordered. split; [|done].
    apply list_elem_of_fmap. exists (b, x). by rewrite elem_of_ordered.
Qed.

Lemma flat_sorted (p : gmap Z PendingRecon) : StronglySorted entry_lt (flat p).
Proof.
  apply (sorted_bind _ _ _ _ (ordered_sorted p)).
  - intros [r pr] _. apply (sorted_bind _ _ _ _ (ordered_sorted pr)).
    + intros [s ps] _. refine (StronglySorted_fmap _ _ _ _ _ (ordered_sorted ps)).
      intros [b x] [b' x']. unfold entry_lt, index_lt; simpl. lia.
    + intros [s ps] [s' ps'] u v. simpl. unfold flat_shard; simpl.
      intros ? ([b x] & -> & _)%list_elem_of_fmap ([b' x'] & -> & _)%list_elem_of_fmap.
      unfold entry_lt, index_lt; simpl. lia.
  - intros [r pr] [r' pr'] u v. simpl. unfold flat_recon, flat_shard; simpl.
    intros ? (? & ([b x] & -> & _)%list_elem_of_fmap & _)%list_elem_of_bind
      (? & ([b' x'] & -> & _)%list_elem_of_fmap & _)%list_elem_of_bind.
    unfold entry_lt, index_lt; simpl. lia.
Qed.

Lemma elem_of_q_insert e f q :
  StronglySorted entry_lt q → f ∈ q_insert e q ↔ f ∈ q ∨ f = e ∧ e.1 ∉ q.*1.
Proof.
  induction 1 as [|g q Hq IH Hg]; cbn [q_insert].
  - rewrite list_elem_of_singleton. simpl. split; [|by intros [[]%not_elem_of_nil|[]]].
    intros ->. right. split; [done|apply not_elem_of_nil].
  - rewrite fmap_cons, not_elem_of_cons. destruct (decide _) as [Hlt|Hlt]; [|destruct (decide _) as [He|He]].
    + assert (Hout : e.1 ≠ g.1 ∧ e.1 ∉ q.*1); [|rewrite elem_of_cons; tauto].
      split; [intros E; rewrite E in Hlt; by apply (irreflexivity entry_lt g)|].
      intros (h & Eh & Hh)%list_elem_of_fmap. rewrite Forall_forall in Hg. specialize (Hg h Hh).
      unfold entry_lt in Hg. rewrite <- Eh in Hg. apply (irreflexivity entry_lt e). unfold entry_lt.
      revert Hlt Hg. unfold index_lt. lia.
    + rewrite elem_of_cons. tauto.
    + rewrite !elem_of_cons, IH. tauto.
Qed.

Lemma q_insert_length e q : (length (q_insert e q) ≤ S (length q))%nat.
Proof. induction q as [|g q IH]; simpl; [lia|]. repeat case_decide; simpl; lia. Qed.

Lemma q_insert_sorted e q : StronglySorted entry_lt q → StronglySorted entry_lt (q_insert e q).
Proof.
  induction 1 as [|g q Hq IH Hg]; cbn [q_insert]; [repeat constructor|].
  destruct (decide _) as [Hlt|Hlt]; [|destruct (decide _) as [He|He]].
  - constructor; [by constructor|]. constructor; [done|].
    eapply Forall_impl; [exact Hg|]. intros h Hh. etrans; [exact Hlt|exact Hh].
  - by constructor.
  - constructor; [done|]. apply Forall_forall. rewrite Forall_forall in Hg.
    intros h [?|[-> _]]%elem_of_q_insert; [by apply Hg| |done]. by apply index_lt_total.
Qed.

Lemma pending_enqueue {I : Integrator} r s b d (st : t) r' s' b' :
  pending_at (pendingRecons (enqueue r s b d st)) r' s' b' =
    if decide ((r', s', b') = (r, s, b)) then Some (default d (pending_at (pendingRecons st) r s b))
    else pending_at (pendingRecons st) r' s' b'.
Proof.
  assert (Hd : Block.move_construct d = d) by (by destruct d). unfold enqueue, pending_at; simpl. rewrite Hd.
  destruct (pendingRecons st !! r) as [pr|] eqn:Er; simpl; [destruct (pr !! s) as [ps|] eqn:Es; simpl|].
  - destruct (ps !! b) as [x|] eqn:Eb; simpl; destruct (decide (r = r')) as [<-|]; simplify_map_eq;
      (destruct (decide (s = s')) as [<-|]; simplify_map_eq; [destruct (decide (b = b')) as [<-|]|]);
      case_decide; simplify_map_eq; try done; congruence.
  - destruct (decide (r = r')) as [<-|]; simplify_map_eq;
      (destruct (decide (s = s')) as [<-|]; simplify_map_eq; [destruct (decide (b = b')) as [<-|]|]);
      case_decide; simplify_map_eq; try done; congruence.
  - destruct (decide (r = r')) as [<-|]; simplify_map_eq;
      (destruct (decide (s = s')) as [<-|]; simplify_map_eq; [destruct (decide (b = b')) as [<-|]|]);
      case_decide; simplify_map_eq; try done; congruence.
Qed.

(** Storing a map, or deleting it when it has become empty, seen through a lookup. *)
Lemma put_bind {A B} (f : gmap Z A → option B) (M : gmap Z (gmap Z A)) k m k' :
  f ∅ = None →
  (if bool_decide (m = ∅) then delete k M else <[k := m]> M) !! k' ≫= f =
    if decide (k' = k) then f m else M !! k' ≫= f.
Proof.
  intros Hf. case_bool_decide as Hm; destruct (decide (k' = k)) as [->|]; by simplify_map_eq.
Qed.

Lemma pending_remove {I : Integrator} r s b (st : t) r' s' b' :
  pending_at (pendingRecons (removeBlock r s b st)) r' s' b' =
    if decide ((r', s', b') = (r, s, b)) then None else pending_at (pendingRecons st) r' s' b'.
Proof.
  unfold removeBlock, pending_at.
  destruct (pendingRecons st !! r) as [pr|] eqn:Er; [destruct (pr !! s) as [ps|] eqn:Es|].
  - simpl pendingRecons. rewrite put_bind by done.
    destruct (decide (r' = r)) as [->|]; [|rewrite decide_False by congruence; done].
    rewrite put_bind by done. rewrite Er. cbn [mbind option_bind].
    destruct (decide (s' = s)) as [->|]; [|rewrite decide_False by congruence; done].
    rewrite Es. cbn [mbind option_bind]. case_decide; simplify_map_eq; [done|].
    by rewrite lookup_delete_ne by congruence.
  - case_decide; simplify_eq; [|done]. by rewrite Er; simpl; rewrite Es.
  - case_decide; simplify_eq; [|done]. by rewrite Er.
Qed.
Lemma not_pending_at (p : gmap Z PendingRecon) r s b : (r, s, b) ∉ (flat p).*1 ↔ pending_at p r s b = None.
Proof.
  split.
  - intros Hn. destruct (pending_at p r s b) as [x|] eqn:E; [|done]. destruct Hn.
    apply list_elem_of_fmap. exists ((r, s, b), x). by rewrite elem_of_flat.
  - intros Hp ([[[r' s'] b'] x] & [= <- <- <-] & Hx%elem_of_flat)%list_elem_of_fmap. congruence.
Qed.

Lemma flat_enqueue {I : Integrator} r s b d (st : t) :
  flat (pendingRecons (enqueue r s b d st)) = q_insert ((r, s, b), d) (flat (pendingRecons st)).
Proof.
  pose proof (flat_sorted (pendingRecons st)) as Hs.
  apply (sorted_ext entry_lt); [apply flat_sorted|by apply q_insert_sorted|].
  intros [[[r' s'] b'] x]. rewrite elem_of_q_insert, !elem_of_flat, pending_enqueue by done.
  change (((r, s, b), d).1) with (r, s, b). rewrite not_pending_at. case_decide as Heq; [injection Heq as -> -> ->|].
  - destruct (pending_at _ r s b); simpl; split; [intros [= ->]; by left|by intros [|[]]| |].
    + intros [= ->]. by right.
    + intros [|[[= ->] _]]; done.
  - split; [by left|]. intros [|[[= -> -> -> ->] _]]; done.
Qed.

Lemma flat_remove {I : Integrator} r s b x q (st : t) :
  flat (pendingRecons st) = ((r, s, b), x) :: q → flat (pendingRecons (removeBlock r s b st)) = q.
Proof.
  intros Hq. pose proof (flat_sorted (pendingRecons st)) as Hs. rewrite Hq in Hs.
  apply StronglySorted_inv in Hs as [Hs Hall]. rewrite Forall_forall in Hall.
  apply (sorted_ext entry_lt); [apply flat_sorted|done|].
  intros [[[r' s'] b'] y]. rewrite elem_of_flat, pending_remove.
  pose proof (elem_of_flat (pendingRecons st) r' s' b' y) as Hy. rewrite Hq, elem_of_cons in Hy.
  case_decide as Heq; [injection Heq as -> -> ->|].
  - split; [done|]. intros Hin%Hall. by destruct (irreflexivity entry_lt ((r, s, b), y)).
  - rewrite <- Hy. split; [by intros [[= -> -> -> ->]|]|by right].
Qed.

Lemma wf_enqueue {I : Integrator} r s b d (st : t) : 0 ≤ s → wf st → wf (enqueue r s b d st).
Proof.
  intros Hs [Hc Hw]. split; simpl.
  - rewrite Hc. by rewrite (proj2 (Z.ltb_ge s 0)).
  - intros r' pr [[<- <-]|[? Hr]]%lookup_insert_Some; [|by eapply Hw].
    split; [apply insert_non_empty|]. intros s' ps [[<- <-]|[? Hs']]%lookup_insert_Some.
    + split; [done|]. case_match eqn:E; [|apply insert_non_empty]. intros Hx. by rewrite Hx in E.
    + destruct (pendingRecons st !! r) as [pr|] eqn:Er; [by eapply Hw|done].
Qed.

Lemma wf_remove {I : Integrator} r s b (st : t) : wf st → wf (removeBlock r s b st).
Proof.
  intros [Hc Hw]. unfold removeBlock.
  destruct (pendingRecons st !! r) as [pr|] eqn:Er; [destruct (pr !! s) as [ps|] eqn:Es|]; [|done..].
  split; [done|]. simpl. destruct (Hw _ _ Er) as [_ Hps].
  assert (Hpr : ∀ s' ps', (if bool_decide (delete b ps = ∅) then delete s pr
    else <[s := delete b ps]> pr) !! s' = Some ps' → 0 ≤ s' ∧ ps' ≠ ∅).
  { intros s' ps'. case_bool_decide; intros Hl; simplify_map_eq.
    - apply lookup_delete_Some in Hl as [? Hl]. by eapply Hps.
    - apply lookup_insert_Some in Hl as [[<- <-]|[? Hl]]; [|by eapply Hps].
      split; [by eapply Hps|done]. }
  revert Hpr. generalize (if bool_decide (delete b ps = ∅) then delete s pr else <[s := delete b ps]> pr).
  intros pr1 Hpr r' pr'. case_bool_decide as He; intros Hl.
  - apply lookup_delete_Some in Hl as [? Hl]. by eapply Hw.
  - apply lookup_insert_Some in Hl as [[<- <-]|[? Hl]]; [by split|by eapply Hw].
Qed.

(** The head of the queue is what [tryNext] finds by walking the maps. *)
Lemma pick_head {L : Asn1Lib} {I : Integrator} (st : t) :
  wf st →
  match ordered (pendingRecons st) with
  | [] => flat (pendingRecons st) = []
  | (r, pr) :: _ =>
      pr ≠ ∅ ∧ ∃ s b x q, flat (pendingRecons st) = ((r, s, b), x) :: q ∧
      pick r (shardCursor st) (ordered pr) =
        (copy ← Block.copy_construct x; Some (mkPending true r s b copy))
  end.
Proof.
  intros [Hc Hw]. unfold flat. rewrite Hc.
  destruct (ordered (pendingRecons st)) as [|[r pr] rs] eqn:Er; [done|].
  assert (Hr : pendingRecons st !! r = Some pr) by (apply elem_of_ordered; rewrite Er; by left).
  destruct (Hw _ _ Hr) as [Hne Hps]. split; [done|]. rewrite bind_cons. unfold flat_recon at 1; simpl.
  destruct (ordered pr) as [|[s ps] ss] eqn:Es; [by apply ordered_nil in Es|].
  destruct (Hps s ps) as [Hs0 Hpsne]; [apply elem_of_ordered; rewrite Es; by left|].
  rewrite bind_cons. unfold flat_shard at 1; simpl. rewrite (proj2 (Z.ltb_ge s 0)) by done.
  destruct (ordered ps) as [|[b x] bs] eqn:Eb; [by apply ordered_nil in Eb|]. by repeat eexists.
Qed.
End Queue.

(** ** The maps refine the queue *)
Section Refinement.
Context {L : Asn1Lib} {I : Integrator}.

Lemma choose_queue (st : t) :
  wf st →
  choose st =
    match flat (pendingRecons st) with
    | [] => Some (Return false st)
    | ((r, s, b), x) :: _ => copy ← Block.copy_construct x; Some (Chosen (mkPending true r s b copy))
    end.
Proof.
  intros Hw. pose proof (pick_head st Hw) as Hp. unfold choose.
  destruct (ordered (pendingRecons st)) as [|[r pr] rs]; [by rewrite Hp|].
  destruct Hp as (Hne & s & b & x & q & -> & ->). rewrite bool_decide_eq_false_2 by done.
  by destruct (Block.copy_construct x).
Qed.

Lemma tryNext_queue (st : t) :
  wf st →
  tryNext st =
    match flat (pendingRecons st) with
    | [] => Some (false, st)
    | ((r, s, b), x) :: _ => copy ← Block.copy_construct x; attempt (mkPending true r s b copy) st
    end.
Proof.
  intros Hw. unfold tryNext. rewrite choose_queue by done.
  destruct (flat _) as [|[[[r s] b] x] q]; [done|]. by destruct (Block.copy_construct x).
Qed.

(** With more fuel than blocks waiting, the retry loop computes the drained queue. *)
Lemma tryIntegrate_drain q : ∀ fuel (st : t),
  wf st → flat (pendingRecons st) = q → (length q < fuel)%nat →
  match q_drain q (dbIntegrator st) with
  | None => tryIntegrate fuel st = None
  | Some (q', db') => ∃ st', tryIntegrate fuel st = Some st' ∧ wf st' ∧
      flat (pendingRecons st') = q' ∧ dbIntegrator st' = db'
  end.
Proof.
  induction q as [|[[[r s] b] x] q IH]; intros [|fuel] st Hw Hq Hf; simpl in Hf; try lia;
    cbn [q_drain tryIntegrate]; rewrite tryNext_queue, Hq by done.
  - by eexists.
  - destruct (Block.copy_construct x) as [c|]; [|done]. cbn [mbind option_bind]. unfold attempt; simpl p_init.
    cbv iota. cbn [p_data p_recon p_shard p_block].
    destruct (offer c r s b (dbIntegrator st)) as [[ret db]|]; [|done]. cbn [mbind option_bind]. unfold settle.
    set (st1 := mk (pendingRecons st) (shardCursor st) db).
    assert (Hw1 : wf st1) by done. pose proof (flat_remove r s b x q st1 Hq) as Hfl.
    pose proof (wf_remove r s b st1 Hw1) as Hwr.
    assert (Hdb : dbIntegrator (removeBlock r s b st1) = db).
    { unfold removeBlock. by repeat case_match. }
    destruct (isSuccess ret); simpl orb; cbv iota.
    + specialize (IH fuel (removeBlock r s b st1) Hwr Hfl ltac:(lia)). by rewrite Hdb in IH.
    + destruct (isBadBlock ret); by eexists.
Qed.

Context {Db : Der Block.asn1}.

(** C7: The pending maps behave as one queue sorted by reconciliation, shard and
    block. Adding a block that decodes inserts it at its place unless its index is
    taken, then offers blocks from the front, each as a copy, for as long as the
    integrator accepts them; a block refused for good is dropped and the offering
    stops there. With more fuel than blocks waiting the loop ends, unless the
    integrator or a copy does not return. Data that does not decode changes nothing. *)
Theorem add_block_refines (fuel : nat) (binData : bytes) (recon shard block : Z) (st : t) :
  wf st → 0 ≤ shard → (S (length (flat (pendingRecons st))) < fuel)%nat →
  match Decode.decode_block binData Block.dflt with
  | None => addBlock fuel binData recon shard block st = None
  | Some (false, _) => addBlock fuel binData recon shard block st = Some st
  | Some (true, data) =>
      match q_drain (q_insert ((recon, shard, block), data) (flat (pendingRecons st))) (dbIntegrator st) with
      | None => addBlock fuel binData recon shard block st = None
      | Some (q', db') => ∃ st', addBlock fuel binData recon shard block st = Some st' ∧ wf st' ∧
          flat (pendingRecons st') = q' ∧ dbIntegrator st' = db'
      end
  end.
Proof.
  intros Hw Hs Hf. unfold addBlock.
  destruct (Decode.decode_block binData Block.dflt) as [[[] data]|]; [|done..]. cbn [mbind option_bind negb].
  apply (tryIntegrate_drain _ fuel (enqueue recon shard block data st)).
  - by apply wf_enqueue.
  - apply flat_enqueue.
  - eapply Nat.le_lt_trans; [apply q_insert_length|done].
Qed.

End Refinement.

(** ** Loading a chain *)

(** What an integrator promises about a chain [B 0], [B 1], ... of [n] blocks, with
    [at_ c] the states in which exactly the first [c] are in: the next block is
    accepted, a later one has to wait, an earlier one is refused. *)
Class ChainLaws {I : Integrator} (n : Z) (B : Z → Block.t) (at_ : Z → istate → Prop) : Prop := {
  chain_next c db : 0 ≤ c < n → at_ c db →
    ∃ db', offer (B c) c 0 0 db = Some (Success, db') ∧ at_ (c + 1) db';
  chain_wait c i db : c < i < n → at_ c db →
    ∃ db', offer (B i) i 0 0 db = Some (NotReady, db') ∧ at_ c db';
  chain_old c i db : 0 ≤ i < c → at_ c db →
    ∃ db', offer (B i) i 0 0 db = Some (AlreadyDone, db') ∧ at_ c db';
}.

Section Load.
Context {L : Asn1Lib} {I : Integrator} {Db : Der Block.asn1}.
Context (n : Z) (B : Z → Block.t) (at_ : Z → istate → Prop) {laws : ChainLaws n B at_}.
Context (data : Z → bytes).
Hypothesis decodes : ∀ i, 0 ≤ i < n → Decode.decode_block (data i) Block.dflt = Some (true, B i).
Hypothesis copies : ∀ i, 0 ≤ i < n → Block.copy_construct (B i) = Some (B i).

Definition chain_entry (i : Z) : entry := ((i, 0, 0), B i).

(** Offering the blocks of the chain one after the other. *)
Fixpoint feed (fuel : nat) (l : list Z) (st : t) : option t :=
  match l with
  | [] => Some st
  | i :: l => st ← addBlock fuel (data i) i 0 0 st; feed fuel l st
  end.

Lemma chain_entry_lt i j : entry_lt (chain_entry i) (chain_entry j) ↔ i < j.
Proof. unfold entry_lt, index_lt; simpl. lia. Qed.

(** Draining a queue of chain blocks advances to the first one missing. *)
Lemma drain_chain q : ∀ c db,
  at_ c db → 0 ≤ c ≤ n → StronglySorted entry_lt q →
  Forall (λ e, ∃ j, e = chain_entry j ∧ c ≤ j < n) q →
  ∃ c' q' db', q_drain q db = Some (q', db') ∧ at_ c' db' ∧ c ≤ c' ≤ n ∧
    (∀ j, c ≤ j < c' → chain_entry j ∈ q) ∧ (chain_entry c' ∉ q) ∧
    (∀ j, chain_entry j ∈ q' ↔ chain_entry j ∈ q ∧ c' < j) ∧
    Forall (λ e, ∃ j, e = chain_entry j ∧ c' < j < n) q' ∧ (length q' ≤ length q)%nat.
Proof.
  induction q as [|e q IH]; intros c db Hat Hc Hs Hall.
  { exists c, [], db. split_and!; [done|done|lia|lia|lia|apply not_elem_of_nil| |done|done].
    intros j. split; [by intros ?%not_elem_of_nil|by intros [?%not_elem_of_nil _]]. }
  apply Forall_cons in Hall as [(j & -> & Hj) Hall]. apply StronglySorted_inv in Hs as [Hs Hlt].
  assert (Hall' : Forall (λ e, ∃ i, e = chain_entry i ∧ j < i < n) q).
  { rewrite Forall_forall in Hall, Hlt |- *. intros e He. destruct (Hall e He) as (i & -> & Hi).
    exists i. split; [done|]. specialize (Hlt _ He). rewrite chain_entry_lt in Hlt. lia. }
  cbn [q_drain chain_entry]. rewrite copies by lia. cbn [mbind option_bind].
  destruct (decide (j = c)) as [->|Hne].
  - destruct (chain_next (n := n) c db ltac:(lia) Hat) as (db1 & -> & Hat1). simpl.
    destruct (IH (c + 1) db1 Hat1 ltac:(lia) Hs) as (c' & q' & db' & -> & Hat' & Hc' & Hin & Hno & Hq & Hf & Hl).
    { eapply Forall_impl; [exact Hall'|]. intros e (i & -> & Hi). exists i. split; [done|lia]. }
    exists c', q', db'. split_and!; [done|done|lia|lia| | | |done|lia].
    + intros i Hi. destruct (decide (i = c)) as [->|]; [by left|]. right. apply Hin. lia.
    + rewrite elem_of_cons. intros [[= ->]|]; [lia|done].
    + intros i. rewrite Hq, elem_of_cons. split; [intros []; split; [by right|lia]|].
      intros [[[= ->]|] ?]; [lia|done].
  - destruct (chain_wait (n := n) c j db ltac:(lia) Hat) as (db1 & -> & Hat1). simpl.
    exists c, (chain_entry j :: q), db1. split_and!; [done|done|lia|lia|lia| | | |done].
    + rewrite elem_of_cons. intros [[= ->]|Hin]; [done|]. rewrite Forall_forall in Hall'.
      destruct (Hall' _ Hin) as (i & [= <-] & Hi). lia.
    + intros i. split; [|by intros []]. intros Hin. split; [done|]. apply elem_of_cons in Hin as [[= ->]|Hin]; [lia|].
      rewrite Forall_forall in Hall'. destruct (Hall' _ Hin) as (i' & [= <-] & Hi). lia.
    + constructor; [exists j; split; [done|lia]|]. eapply Forall_impl; [exact Hall'|].
      intros e (i & -> & Hi). exists i. split; [done|lia].
Qed.

(** After the blocks of [l] were offered, the chain is in up to the first index that
    is not in [l], and the later ones wait. *)
Definition loaded (l : list Z) (c : Z) (st : t) : Prop :=
  wf st ∧ at_ c (dbIntegrator st) ∧ 0 ≤ c ≤ n ∧ (∀ j, 0 ≤ j < c → j ∈ l) ∧ (c ∉ l) ∧
  (∀ j, chain_entry j ∈ flat (pendingRecons st) ↔ j ∈ l ∧ c < j) ∧
  Forall (λ e, ∃ j, e = chain_entry j ∧ c < j < n) (flat (pendingRecons st)) ∧
  (length (flat (pendingRecons st)) ≤ length l)%nat.

Lemma chain_entry_inj i j : chain_entry i = chain_entry j ↔ i = j.
Proof. split; [by intros [= ->]|by intros ->]. Qed.

Lemma q_insert_front i c (q : list entry) :
  i < c → Forall (λ e, ∃ j, e = chain_entry j ∧ c < j < n) q →
  q_insert (chain_entry i) q = chain_entry i :: q.
Proof.
  intros Hi [|? q' (j & -> & Hj) _]; [done|]. cbn [q_insert].
  rewrite decide_True; [done|]. unfold index_lt; simpl. lia.
Qed.

Lemma chain_member i j c (l : list Z) (q : list entry) :
  (∀ k, chain_entry k ∈ q ↔ k ∈ l ∧ c < k) →
  Forall (λ e, ∃ k, e = chain_entry k ∧ c < k < n) q →
  chain_entry j ∈ q ∨ chain_entry j = chain_entry i ∧ (chain_entry i).1 ∉ q.*1 ↔ j = i ∨ j ∈ l ∧ c < j.
Proof.
  intros Hq Hall. rewrite Hq, chain_entry_inj. split; [tauto|]. intros [->|]; [|by left].
  destruct (decide ((chain_entry i).1 ∈ q.*1)) as [Hin|]; [|by right]. left. apply Hq.
  apply list_elem_of_fmap in Hin as (e & He & Hin). rewrite Forall_forall in Hall.
  destruct (Hall e Hin) as (k & -> & _). by injection He as ->.
Qed.

Lemma add_next fuel l c i st :
  0 ≤ i < n → loaded l c st → (S (length l) < fuel)%nat →
  ∃ c' st', addBlock fuel (data i) i 0 0 st = Some st' ∧ loaded (i :: l) c' st'.
Proof.
  intros Hi (Hw & Hat & Hc & Hpre & Hno & Hq & Hall & Hlen) Hf. unfold addBlock.
  rewrite decodes by done. cbn [mbind option_bind negb].
  assert (Hw1 : wf (enqueue i 0 0 (B i) st)) by by apply wf_enqueue.
  pose proof (flat_enqueue i 0 0 (B i) st) as Hfl.
  pose proof (q_insert_length (chain_entry i) (flat (pendingRecons st))) as Hlq.
  pose proof (tryIntegrate_drain _ fuel _ Hw1 Hfl ltac:(unfold chain_entry in Hlq; lia)) as Hd.
  pose proof (flat_sorted (pendingRecons st)) as Hs.
  pose proof (q_insert_sorted (chain_entry i) _ Hs) as Hs1.
  pose proof (λ f, elem_of_q_insert (chain_entry i) f _ Hs) as Hin. fold (chain_entry i) in Hd.
  change (dbIntegrator (enqueue i 0 0 (B i) st)) with (dbIntegrator st) in Hd.
  destruct (decide (i < c)) as [Hic|Hic].
  - rewrite (q_insert_front i c) in Hd by done. cbn [q_drain chain_entry] in Hd. rewrite copies in Hd by done. cbn [mbind option_bind] in Hd.
    destruct (chain_old (n := n) c i (dbIntegrator st) ltac:(lia) Hat) as (db1 & Ho & Hat1).
    rewrite Ho in Hd. simpl in Hd. destruct Hd as (st' & -> & Hw' & Hf' & Hdb').
    exists c, st'. split; [done|]. unfold loaded. rewrite Hf', Hdb'. split_and!; [done|done|lia|lia| | | |done|].
    + intros j Hj. right. by apply Hpre.
    + rewrite elem_of_cons. intros [->|]; [lia|done].
    + intros j. rewrite Hq, elem_of_cons. split; [intros []; split; [by right|lia]|].
      intros [[->|] ?]; [lia|done].
    + simpl. lia.
  - destruct (drain_chain (q_insert (chain_entry i) (flat (pendingRecons st))) c (dbIntegrator st) Hat Hc Hs1)
      as (c' & q' & db' & Hdr & Hat' & Hc' & Hin' & Hno' & Hq' & Hall' & Hlen').
    { apply Forall_forall. rewrite Forall_forall in Hall. intros f [Hf1|[-> _]]%Hin.
      - destruct (Hall f Hf1) as (j & -> & Hj). exists j. split; [done|lia].
      - exists i. split; [done|lia]. }
    rewrite Hdr in Hd. destruct Hd as (st' & -> & Hw' & Hf' & Hdb').
    assert (Hmem : ∀ j, chain_entry j ∈ q_insert (chain_entry i) (flat (pendingRecons st)) ↔
      j = i ∨ j ∈ l ∧ c < j) by (intros j; rewrite Hin; by apply chain_member).
    exists c', st'. split; [done|]. unfold loaded. rewrite Hf', Hdb'. split_and!; [done|done|lia|lia| | | |done|].
    + intros j Hj. rewrite elem_of_cons. destruct (decide (j < c)); [right; apply Hpre; lia|].
      destruct (proj1 (Hmem j) (Hin' j ltac:(lia))) as [|[]]; [by left|by right].
    + rewrite elem_of_cons. rewrite Hmem in Hno'. intros [->|Hl]; [by destruct Hno'; left|].
      destruct (decide (c' = c)) as [->|]; [done|]. apply Hno'. right. split; [done|lia].
    + intros j. rewrite Hq', Hmem, elem_of_cons. split; [tauto|]. intros [[|] ?]; [by split; [left|]|].
      split; [right; split; [done|lia]|done].
    + simpl. lia.
Qed.

Lemma feed_loaded fuel l : ∀ l0 c st,
  Forall (λ i, 0 ≤ i < n) l → loaded l0 c st → (S (length l0 + length l) < fuel)%nat →
  ∃ c' st', feed fuel l st = Some st' ∧ loaded (reverse l ++ l0) c' st'.
Proof.
  induction l as [|i l IH]; intros l0 c st Hl Hst Hf; simpl in Hf; [by exists c, st|].
  apply Forall_cons in Hl as [Hi Hl]. destruct (add_next fuel l0 c i st Hi Hst ltac:(lia)) as (c1 & st1 & E & Hst1).
  destruct (IH (i :: l0) c1 st1 Hl Hst1 ltac:(simpl; lia)) as (c' & st' & E' & Hst').
  exists c', st'. rewrite reverse_cons, <- app_assoc. split; [|done].
  cbn [feed]. by rewrite E.
Qed.

Lemma loaded_new db : at_ 0 db → 0 ≤ n → loaded [] 0 (new db).
Proof.
  intros Hat Hn. unfold loaded, wf; simpl. change (flat ∅) with (@nil entry).
  split_and!; [done|done|done|lia|lia|lia|apply not_elem_of_nil| |by apply Forall_nil|apply le_n].
  intros j. split; [by intros ?%not_elem_of_nil|by intros [?%not_elem_of_nil _]].
Qed.

(** A chain's blocks, offered in any order and with repetitions, are integrated up
    to the first one that was not offered. *)
Lemma feed_integrates fuel l db :
  Forall (λ i, 0 ≤ i < n) l → at_ 0 db → 0 ≤ n → (S (length l) < fuel)%nat →
  ∃ c st, feed fuel l (new db) = Some st ∧ at_ c (dbIntegrator st) ∧
    (∀ j, 0 ≤ j < c → j ∈ l) ∧ (c ∉ l) ∧ 0 ≤ c ≤ n ∧
    (∀ j, chain_entry j ∈ flat (pendingRecons st) ↔ j ∈ l ∧ c < j) ∧
    Forall (λ e, ∃ j, e = chain_entry j ∧ c < j < n) (flat (pendingRecons st)).
Proof.
  intros Hl Hat Hn Hf.
  destruct (feed_loaded fuel l [] 0 (new db) Hl (loaded_new db Hat Hn) ltac:(simpl; lia)) as (c & st & E & Hst).
  rewrite app_nil_r in Hst. destruct Hst as (_ & Hat' & Hc & Hpre & Hno & Hq & Hall & _).
  exists c, st. split_and!; [done|done| | |lia|lia| |done].
  - intros j Hj. by apply elem_of_reverse, Hpre.
  - by rewrite <- elem_of_reverse.
  - intros j. by rewrite Hq, elem_of_reverse.
Qed.
End Load.

(** ** Witness: an integrator that accepts everything *)

#[local] Instance Accepting : Integrator := {| istate := Z; offer _ _ _ _ n := Some (Success, n + 1) |}.
#[local] Instance EmptyBlocks : Der Block.asn1 := {|
  i2d _ := [0];
  d2i _ := Some (Block.Asn1 0 Block.UNull);
|}.

Lemma add_block_refines_witness :
  let st := enqueue 2 0 0 Block.dflt (new 0) in
  ∃ st', addBlock (L := Convert.Asn1Z) 4 [0] 1 0 0 st = Some st' ∧
         flat (pendingRecons st') = [] ∧ dbIntegrator st' = 2.
Proof.
  intros st.
  pose proof (add_block_refines (L := Convert.Asn1Z) 4 [0] 1 0 0 st) as H.
  destruct H as (st' & Hst & _ & Hf & Hd).
  - by apply wf_enqueue.
  - done.
  - vm_compute. lia.
  - exists st'. split_and!; [exact Hst|exact Hf|exact Hd].
Defined.

End BlockIntegrator.
