(* ===== verification/BlockTasks.v ===== *)
(** * Concurrent calls of [BlockIntegrator::addBlock]

    Every call is a coroutine of its own.  The maps are locked while a block is
    chosen and while one is removed, but not while the integrator is awaited, so
    calls interleave there.  A step relation over the tasks; the integrator may
    answer anything, in any order. *)

From S2P Require Import Prelude BinData Ossl Db BlockCore BlockTx BlockChain DbIntegrator BlockIntegrator.
Import DbIntegrator(Result, Success, NotReady, AlreadyDone, Result_eq_dec).
Import BlockIntegrator.

Module BlockTasks.

(** The integrator's own state is not part of this view. *)
#[local] Instance Anything : Integrator := {| istate := unit; offer _ _ _ _ _ := None |}.

Section Tasks.
Context {L : Asn1Lib}.

(** Where a call of [addBlock] is: about to choose, awaiting the integrator, resumed
    with its answer, or done. *)
Inductive task :=
  | Choosing
  | Awaiting (nextBlock : PendingBlock)
  | Resumed (nextBlock : PendingBlock) (ret : Result)
  | Finished.

(** The shared object, the tasks, and what has happened: the indexes that were
    added and the answers that were given. *)
Record sys := Sys {
  shared : BlockIntegrator.t;
  tasks : list task;
  added : list index;
  answers : list (index * Result);
}.

Definition idx (p : PendingBlock) : index := (p_recon p, p_shard p, p_block p).

Definition sys0 : sys := Sys (new tt) [] [] [].

(** [src/src/services/curator/core/BlockIntegrator.cpp:15-155] BlockIntegrator (interleaved) *)
Inductive step : sys → sys → Prop :=
  | step_add x r s b data :
      0 ≤ s →
      step x (Sys (enqueue r s b data (shared x)) (tasks x ++ [Choosing]) ((r, s, b) :: added x) (answers x))
  | step_return x i retry st :
      tasks x !! i = Some Choosing → choose (shared x) = Some (Return retry st) →
      step x (Sys st (<[i := if retry then Choosing else Finished]> (tasks x)) (added x) (answers x))
  | step_choose x i p :
      tasks x !! i = Some Choosing → choose (shared x) = Some (Chosen p) →
      step x (Sys (shared x) (<[i := if p_init p then Awaiting p else Finished]> (tasks x)) (added x) (answers x))
  | step_answer x i p ret :
      tasks x !! i = Some (Awaiting p) →
      step x (Sys (shared x) (<[i := Resumed p ret]> (tasks x)) (added x) ((idx p, ret) :: answers x))
  | step_settle x i p ret :
      tasks x !! i = Some (Resumed p ret) →
      step x (Sys (snd (settle p ret (shared x)))
                  (<[i := if fst (settle p ret (shared x)) then Choosing else Finished]> (tasks x))
                  (added x) (answers x)).

Inductive reachable : sys → Prop :=
  | reach_init : reachable sys0
  | reach_step x y : reachable x → step x y → reachable y.

(** The answers that end a block's wait. *)
Definition final (ret : Result) : bool := isSuccess ret || isBadBlock ret.

Definition settled (k : index) (x : sys) : Prop := ∃ ret, (k, ret) ∈ answers x ∧ final ret = true.

Definition waits (k : index) (x : sys) : Prop :=
  is_Some (pending_at (pendingRecons (shared x)) k.1.1 k.1.2 k.2).

Definition task_ok (x : sys) (t : task) : Prop :=
  match t with
  | Awaiting p => idx p ∈ added x
  | Resumed p ret => idx p ∈ added x ∧ (idx p, ret) ∈ answers x
  | _ => True
  end.

Definition inv (x : sys) : Prop :=
  wf (shared x) ∧ Forall (task_ok x) (tasks x) ∧
  (∀ k, waits k x → k ∈ added x) ∧ (∀ k, k ∈ added x → waits k x ∨ settled k x) ∧
  (∀ k ret, (k, ret) ∈ answers x → k ∈ added x).

Lemma waits_flat k x : waits k x ↔ k ∈ (flat (pendingRecons (shared x))).*1.
Proof.
  destruct k as [[r s] b]. unfold waits; simpl. split.
  - intros [y Hy]. apply list_elem_of_fmap. exists ((r, s, b), y). by rewrite elem_of_flat.
  - intros ([[[r' s'] b'] y] & [= <- <- <-] & Hy%elem_of_flat)%list_elem_of_fmap. by eexists.
Qed.

Lemma inv_add x r s b data :
  0 ≤ s → inv x →
  inv (Sys (enqueue r s b data (shared x)) (tasks x ++ [Choosing]) ((r, s, b) :: added x) (answers x)).
Proof.
  intros Hs (Hw & Ht & Hwa & Had & Han). split_and!; simpl.
  - by apply wf_enqueue.
  - apply Forall_app. split; [|by repeat constructor]. eapply Forall_impl; [exact Ht|].
    intros []; simpl; rewrite ?elem_of_cons; tauto.
  - intros [[r' s'] b']. unfold waits; cbn [shared fst snd]. rewrite pending_enqueue. case_decide as Heq; [intros _; rewrite Heq; by left|].
    intros Hk. right. by apply (Hwa (r', s', b')).
  - intros [[r' s'] b']. unfold waits, settled; cbn [shared fst snd answers]. rewrite pending_enqueue. intros Hin.
    case_decide as Heq; [left; by eexists|]. apply elem_of_cons in Hin as [Hin|Hin]; [by rewrite Hin in Heq|].
    by apply (Had (r', s', b')).
  - intros k ret Hin. right. by eapply Han.
Qed.

Lemma inv_settle x i p ret :
  tasks x !! i = Some (Resumed p ret) → inv x →
  inv (Sys (snd (settle p ret (shared x)))
           (<[i := if fst (settle p ret (shared x)) then Choosing else Finished]> (tasks x))
           (added x) (answers x)).
Proof.
  intros Hi (Hw & Ht & Hwa & Had & Han).
  pose proof (Forall_lookup_1 _ _ _ _ Ht Hi) as [Hpa Hpr].
  unfold settle. simpl fst. simpl snd. fold (final ret). split_and!; cbn [shared tasks added answers].
  - destruct (final ret); [by apply wf_remove|done].
  - apply Forall_insert; [done|by destruct (isSuccess ret)].
  - intros [[r s] b]. unfold waits; cbn [shared fst snd]. destruct (final ret); [|by apply (Hwa (r, s, b))].
    rewrite pending_remove. case_decide; [by intros []|]. by apply (Hwa (r, s, b)).
  - intros [[r s] b] Hin. destruct (Had _ Hin) as [Hk|Hk]; [|by right].
    unfold waits, settled in *; cbn [shared answers fst snd] in *. destruct (final ret) eqn:Ef; [|by left]. rewrite pending_remove.
    case_decide as Heq; [|by left]. right. exists ret. split; [|done]. rewrite Heq. apply Hpr.
  - done.
Qed.

Lemma step_inv x y : inv x → step x y → inv y.
Proof.
  intros Hinv Hstep. destruct Hstep as [x r s b data Hs|x i retry st Hi Hc|x i p Hi Hc|x i p ret Hi|x i p ret Hi].
  - by apply inv_add.
  - destruct Hinv as (Hw & Ht & Hrest). rewrite choose_queue in Hc by done.
    destruct (flat _) as [|[[[r s] b] y] q]; [|by destruct (Block.copy_construct y)].
    injection Hc as <- <-. split; [exact Hw|]. split; [by apply Forall_insert|exact Hrest].
  - destruct Hinv as (Hw & Ht & Hrest). rewrite choose_queue in Hc by done.
    destruct (flat _) as [|[[[r s] b] y] q] eqn:Eq; [done|].
    destruct (Block.copy_construct y) as [c|]; [|done]. injection Hc as <-. simpl.
    split; [exact Hw|]. split; [|exact Hrest]. apply Forall_insert; [done|]. simpl.
    apply (proj1 Hrest), waits_flat. rewrite Eq. by left.
  - destruct Hinv as (Hw & Ht & Hwa & Had & Han). pose proof (Forall_lookup_1 _ _ _ _ Ht Hi) as Hp.
    split; [exact Hw|]. split; [|split; [done|split]]; cbn [tasks added answers].
    + apply Forall_insert; [|split; [done|by left]]. eapply Forall_impl; [exact Ht|].
      intros []; simpl; rewrite ?elem_of_cons; tauto.
    + intros k Hk. destruct (Had k Hk) as [|(ret' & Hin & Hf)]; [by left|]. right. exists ret'.
      split; [by right|done].
    + intros k ret' [[= -> ->]|Hin]%elem_of_cons; [done|by eapply Han].
  - by apply inv_settle.
Qed.

(** C10: No block is lost, however calls interleave and whatever the integrator
    answers: at every moment each index that was added is still waiting or the
    integrator has accepted it or refused it for good; nothing waits, and nothing was
    answered for, that was not added; and the maps hold no empty map. *)
Theorem no_block_lost (x : sys) :
  reachable x →
  wf (shared x) ∧ (∀ k, k ∈ added x → waits k x ∨ settled k x) ∧
  (∀ k, waits k x ∨ settled k x → k ∈ added x).
Proof.
  intros Hr. assert (Hinv : inv x).
  { induction Hr as [|x y Hx IH Hs]; [|by eapply step_inv]. split_and!; simpl; try done.
    - intros k Hk%waits_flat. by apply not_elem_of_nil in Hk.
    - by intros k ?%not_elem_of_nil.
    - by intros k ret ?%not_elem_of_nil. }
  destruct Hinv as (Hw & _ & Hwa & Had & Han). split; [exact Hw|]. split; [exact Had|].
  intros k [Hk|(ret & Hk & _)]; [by apply Hwa|by eapply Han].
Qed.

(** A run in which two calls hold the same block. *)
Definition g : Block.t := Block.setGenesis Genesis.dflt Block.dflt.
Definition p : PendingBlock := mkPending true 0 0 0 Block.dflt.
Definition holding (b : Block.t) : BlockIntegrator.t := mk {[0 := {[0 := {[0 := b]}]}]} 0 tt.
Definition k0 : index := (0, 0, 0).

Lemma choose_holding : choose (holding Block.dflt) = Some (Chosen p).
Proof. vm_compute. reflexivity. Qed.
Lemma enqueue_empty b : enqueue 0 0 0 b (new tt) = holding (Block.move_construct b).
Proof. vm_compute. reflexivity. Qed.
Lemma enqueue_holding b c : enqueue 0 0 0 c (holding b) = holding b.
Proof. vm_compute. reflexivity. Qed.
Lemma settle_holding b ret : final ret = true → settle p ret (holding b) = (isSuccess ret, new tt).
Proof. intros Hf. unfold settle. fold (final ret). rewrite Hf. f_equal. Qed.

Lemma run_two_awaiting :
  reachable (Sys (holding Block.dflt) [Awaiting p; Awaiting p] [k0; k0] []).
Proof.
  eapply reach_step; [|exact (step_choose (Sys (holding Block.dflt) [Awaiting p; Choosing] [k0; k0] []) 1 p eq_refl choose_holding)].
  eapply reach_step; [|pose proof (step_add (Sys (holding Block.dflt) [Awaiting p] [k0] []) 0 0 0 Block.dflt ltac:(lia)) as H;
    cbn [shared] in H; rewrite enqueue_holding in H; exact H].
  eapply reach_step; [|exact (step_choose (Sys (holding Block.dflt) [Choosing] [k0] []) 0 p eq_refl choose_holding)].
  eapply reach_step; [apply reach_init|]. pose proof (step_add sys0 0 0 0 Block.dflt ltac:(lia)) as H.
  unfold sys0 in H at 2. cbn [shared] in H. rewrite enqueue_empty in H. exact H.
Qed.

Lemma run_replaced :
  reachable (Sys (holding g) [Finished; Resumed p AlreadyDone; Choosing] [k0; k0; k0]
    [(k0, AlreadyDone); (k0, Success)]).
Proof.
  eapply reach_step; [|exact (step_answer (Sys (holding g) [Finished; Awaiting p; Choosing] [k0; k0; k0] [(k0, Success)]) 1 p
    AlreadyDone eq_refl)].
  eapply reach_step; [|pose proof (step_add (Sys (new tt) [Finished; Awaiting p] [k0; k0] [(k0, Success)]) 0 0 0 g ltac:(lia)) as H;
    cbn [shared] in H; rewrite enqueue_empty in H; exact H].
  eapply reach_step; [|exact (step_return (Sys (new tt) [Choosing; Awaiting p] [k0; k0] [(k0, Success)]) 0 false (new tt)
    eq_refl eq_refl)].
  eapply reach_step; [|pose proof (step_settle (Sys (holding Block.dflt) [Resumed p Success; Awaiting p] [k0; k0] [(k0, Success)])
    0 p Success eq_refl) as H; cbn [shared] in H; rewrite settle_holding in H by done; exact H].
  eapply reach_step; [apply run_two_awaiting|].
  exact (step_answer (Sys (holding Block.dflt) [Awaiting p; Awaiting p] [k0; k0] []) 0 p Success eq_refl).
Qed.

(** One block can be offered to the integrator by two calls at once: while the
    first call awaits the answer, a second one chooses the same block again. The
    accepted block can then be replaced and removed under the second call's answer:
    there is a run in which a block is dropped that was never offered. *)
Theorem same_block_offered_twice :
  (∃ x p q, reachable x ∧ tasks x !! 0%nat = Some (Awaiting p) ∧ tasks x !! 1%nat = Some (Awaiting q) ∧
     idx p = idx q) ∧
  (∃ x y p ret, reachable x ∧ step x y ∧ tasks x = [Finished; Resumed p ret; Choosing] ∧
     tasks y = [Finished; Finished; Choosing] ∧ waits (idx p) x ∧ ¬ waits (idx p) y ∧
     pending_at (pendingRecons (shared x)) 0 0 0 = Some g ∧
     p_data p = Block.dflt).
Proof.
  split; [eexists _, p, p; split; [apply run_two_awaiting|done]|].
  pose proof (step_settle (Sys (holding g) [Finished; Resumed p AlreadyDone; Choosing] [k0; k0; k0]
    [(k0, AlreadyDone); (k0, Success)]) 1 p AlreadyDone eq_refl) as Hs.
  cbn [shared] in Hs. rewrite settle_holding in Hs by done.
  eexists _, _, p, AlreadyDone. split; [apply run_replaced|]. split; [exact Hs|].
  split; [reflexivity|]. split; [reflexivity|]. split; [by exists g|]. split; [|by split]. by intros [].
Qed.

End Tasks.

Lemma no_block_lost_witness :
  waits k0 (Sys (holding g) [Finished; Resumed p AlreadyDone; Choosing] [k0; k0; k0]
    [(k0, AlreadyDone); (k0, Success)]) ∨
  settled k0 (Sys (holding g) [Finished; Resumed p AlreadyDone; Choosing] [k0; k0; k0]
    [(k0, AlreadyDone); (k0, Success)]).
Proof.
  apply (no_block_lost (L := Convert.Asn1Z) (Sys (holding g) [Finished; Resumed p AlreadyDone; Choosing]
    [k0; k0; k0] [(k0, AlreadyDone); (k0, Success)])); [apply run_replaced|by left].
Defined.
End BlockTasks.
