(* ===== verification/LoadFromFs.v ===== *)
(** * Loading the curator from disk

    [utils/FileTools], [curator/fs/BlockStorage] and [curator/events/LoadFromFs]:
    at start the curator reads every block file of a directory, in whatever order
    the directory lists them, and hands each to the pending list of
    [BlockIntegrator].  The operating system's files are an interface. *)

From S2P Require Import Prelude BinData Base58 Ossl Text Db BlockCore BlockTx BlockChain.
From S2P Require Import DbIntegrator BlockIntegrator.

(** The C and C++ libraries' view of the file system: the home directory; opening
    for reading, with what [ftell] says and what can be read; writing, with how much
    was written; removing; the regular files of a directory, [None] when there is none that can
    be opened; what a path is; and making a directory and setting its permissions, [false]
    being an exception. *)
Class Files := {
  files : Type;
  f_home : files → option cstr;
  f_open_read : files → cstr → option (Z * bytes);
  f_write : files → cstr → bytes → option (Z * files);
  f_remove : files → cstr → bool * files;
  f_list : files → cstr → option (list cstr);
  f_exists : files → cstr → bool;
  f_is_file : files → cstr → bool;
  f_is_dir : files → cstr → bool;
  f_mkdir : files → cstr → bool * files;
  f_chmod : files → cstr → bool * files;
}.

Module FileTools.
Section Code.
Context {F : Files}.

(** [src/src/utils/FileTools.cpp:12-22] expandTilde *)
Definition expandTilde (fs : files) (path : cstr) : cstr :=
  match path with
  | c :: rest =>
      if c =? chr "~" then
        match f_home fs with
        | Some (h :: home) => (h :: home) ++ rest
        | _ => path
        end
      else path
  | [] => path
  end.

(** [src/src/utils/FileTools.cpp:26-29] FileTools::exists

    The path is used as it is. *)
Definition exists_ (fs : files) (path : cstr) : bool := f_exists fs path.

(** [src/src/utils/FileTools.cpp:31-34] FileTools::isFile *)
Definition isFile (fs : files) (path : cstr) : bool := f_is_file fs path.

(** [src/src/utils/FileTools.cpp:36-39] FileTools::isDir *)
Definition isDir (fs : files) (path : cstr) : bool := f_is_dir fs path.

(** [src/src/utils/FileTools.cpp:44-74] readT

    [resize] is the buffer's own, [fill] writes at its start. *)
Definition readT {Output} (resize : Output → Z → Output) (fill : Output → bytes → Output)
    (fs : files) (path : cstr) (data : Output) : bool * Output :=
  match f_open_read fs (expandTilde fs path) with
  | None => (false, data)
  | Some (size, content) =>
      if size <? 0 then (false, data)
      else
        let data := resize data size in
        let read := ztake size content in
        (zlen read =? size, fill data read)
  end.

Definition fill_string (s : cstr) (read : bytes) : cstr := read ++ zdrop (zlen read) s.
Definition resize_string (s : cstr) (n : Z) : cstr := ztake n s ++ zrep (n - zlen s) 0.
Definition fill_bin (b : BinData.t) (read : bytes) : BinData.t :=
  BinData.mk (BinData.bSecure b) ((λ blk, read ++ zdrop (zlen read) blk) <$> BinData.buffer b) (BinData.len b).

(** [src/src/utils/FileTools.cpp:78-83] FileTools::read(std::string) *)
Definition read_string := readT resize_string fill_string.

(** [src/src/utils/FileTools.cpp:85-90] FileTools::read(BinData) *)
Definition read_bin := readT (λ b n, fst (BinData.resize b n)) fill_bin.

(** [src/src/utils/FileTools.cpp:106-129] FileTools::write(unsigned char, size_t) *)
Definition write (fs : files) (path : cstr) (data : bytes) : bool * files :=
  match f_write fs (expandTilde fs path) data with
  | None => (false, fs)
  | Some (written, fs') => (written =? zlen data, fs')
  end.

(** [src/src/utils/FileTools.cpp:92-97] FileTools::write(std::string) *)
Definition write_string (fs : files) (path : cstr) (data : cstr) : bool * files := write fs path data.

(** [src/src/utils/FileTools.cpp:99-104] FileTools::write(BinData) *)
Definition write_bin (fs : files) (path : cstr) (data : BinData.t) : bool * files :=
  write fs path (BinData.contents data).

(** [src/src/utils/FileTools.cpp:131-152] FileTools::createDir *)
Definition createDir (fs : files) (path : cstr) : bool * files :=
  let fullPath := expandTilde fs path in
  let '(ok, fs) := f_mkdir fs fullPath in
  if negb ok then (false, fs) else f_chmod fs fullPath.

(** [src/src/utils/FileTools.cpp:154-182] FileTools::listFiles (not recursive)

    The path is used as it is, and names are added to those already there.  [None] is the
    exception of the iterator for a path that is there but cannot be opened as a directory. *)
Definition listFiles (fs : files) (path : cstr) (names : list cstr) : option bool * list cstr :=
  match f_list fs path with
  | None => (if f_exists fs path then None else Some false, names)
  | Some found => (Some true, names ++ found)
  end.

(** [src/src/utils/FileTools.cpp:184-188] FileTools::unlink *)
Definition unlink (fs : files) (file : cstr) : bool * files := f_remove fs file.
End Code.

(** A file that can be read to its end is read whole. *)
Lemma read_bin_whole {F : Files} fs path c :
  f_open_read fs (expandTilde fs path) = Some (zlen c, c) →
  ∃ b, read_bin fs path BinData.empty_data = (true, b) ∧ BinData.contents b = c ∧
       BinData.empty b = bool_decide (c = []).
Proof.
  intros Hf. unfold read_bin, readT. rewrite Hf, (proj2 (Z.ltb_ge _ _)) by lia.
  rewrite take_ge, Z.eqb_refl by lia. eexists. split; [done|].
  unfold BinData.resize. simpl BinData.len. destruct c as [|x c]; [done|].
  change (0 =? zlen (x :: c)) with false. unfold BinData.contents, BinData.empty, fill_bin.
  cbn [BinData.buffer BinData.empty_data fst BinData.bSecure BinData.len fmap option_fmap option_map default].
  rewrite drop_ge by (rewrite length_replicate; lia). rewrite app_nil_r. unfold id. by rewrite take_ge by lia.
Qed.
End FileTools.

Module BlockStorage.
Section Code.
Context {F : Files}.

(** [src/src/services/curator/fs/BlockStorage.h:15-51] BlockStorage *)
Record t := mk { dir : cstr }.

(** [src/src/services/curator/fs/BlockStorage.cpp:11-15] BlockStorage::setDirectory *)
Definition setDirectory (d : cstr) (st : t) : t := mk d.

Definition block_path (st : t) (reconciliation shard block : Z) : cstr :=
  dir st ++ $"/" ++ BlockFilename.get reconciliation shard block.

(** [src/src/services/curator/fs/BlockStorage.cpp:17-28] BlockStorage::readBlock *)
Definition readBlock (fs : files) (st : t) (reconciliation shard block : Z) : BinData.t :=
  let '(ok, data) := FileTools.read_bin fs (block_path st reconciliation shard block) BinData.empty_data in
  if negb ok then fst (BinData.clear data) else data.

(** [src/src/services/curator/fs/BlockStorage.cpp:30-38] BlockStorage::writeBlock *)
Definition writeBlock (fs : files) (st : t) (reconciliation shard block : Z) (data : bytes) : bool * files :=
  FileTools.write fs (block_path st reconciliation shard block) data.

(** [src/src/services/curator/fs/BlockStorage.cpp:40-47] BlockStorage::clearBlock *)
Definition clearBlock (fs : files) (st : t) (reconciliation shard block : Z) : files :=
  snd (FileTools.unlink fs (block_path st reconciliation shard block)).

(** [src/src/services/curator/fs/BlockStorage.cpp:49-53] BlockStorage::getFiles *)
Definition getFiles (fs : files) (st : t) (names : list cstr) : option bool * list cstr :=
  FileTools.listFiles fs (dir st) names.
End Code.
End BlockStorage.

Module LoadFromFs.
Section Code.
Context {F : Files} {L : Asn1Lib} {I : Integrator} {Db : Der Block.asn1}.

(** [src/src/services/curator/events/LoadFromFs.cpp:17-49] loadFile *)
Definition loadFile (fuel : nat) (fs : files) (storage : BlockStorage.t) (reloadFrom : Z) (file : cstr)
    (st : BlockIntegrator.t) : option BlockIntegrator.t :=
  match BlockFilename.parse file with
  | None => Some st
  | Some (curRecon, curShard, curBlock) =>
      if curRecon <? reloadFrom then Some st
      else
        let blockData := BlockStorage.readBlock fs storage curRecon curShard curBlock in
        if BinData.empty blockData then Some st
        else BlockIntegrator.addBlock fuel (BinData.contents blockData) curRecon curShard curBlock st
  end.

(** [src/src/services/curator/events/LoadFromFs.cpp:68-70] LoadFromFs::init (file loop) *)
Fixpoint load_loop (fuel : nat) (fs : files) (storage : BlockStorage.t) (reloadFrom : Z) (names : list cstr)
    (st : BlockIntegrator.t) : option BlockIntegrator.t :=
  match names with
  | [] => Some st
  | file :: names =>
      st ← loadFile fuel fs storage reloadFrom file st;
      load_loop fuel fs storage reloadFrom names st
  end.

(** [src/src/services/curator/events/LoadFromFs.cpp:53-73] LoadFromFs::init

    The round to start from is not used; an exception of the listing leaves the coroutine. *)
Definition init (fuel : nat) (fs : files) (storage : BlockStorage.t) (reloadFrom : Z)
    (st : BlockIntegrator.t) : option BlockIntegrator.t :=
  let reloadFrom := 0 in
  let '(ok, names) := BlockStorage.getFiles fs storage [] in
  ok ← ok; if negb ok then Some st else load_loop fuel fs storage reloadFrom names st.
End Code.

(** ** The stored chain reaches the database *)

Section Chain.
Context {Oz : Ozo} {D : Digests} {B58 : BigNum} {L : Asn1Lib} {laws : Asn1Laws L}.
Context {Dh : Der BlockHash.asn1} {Dg : Der Genesis.asn1} {Dc : Der Reconciliation.content}.
Context {Db : Der Block.asn1}.
Context (n : Z) (B : Z → Block.t).

(** The first [n] blocks are a genesis block and reconciliation blocks, each of
    which carries its number and names the block before as its only shard. *)
Definition chained : Prop :=
  ∀ i, 0 ≤ i < n → Block.ok (B i) ∧
    if i =? 0 then Block.getType (B i) = Block.TGenesis ∧ is_Some (Block.getGenesis (B i))
    else Block.getType (B i) = Block.TReconciliation ∧
         ∃ r, Block.getReconciliation (B i) = Some r ∧ Reconciliation.getChainId r = i ∧
           Reconciliation.getShardInfo r = [ReconciliationShardInfo.make (DbIntegrator.hash_of (B (i - 1))) 0].

(** The first [c] blocks are in, and nothing else. *)
Definition chain_at (c : Z) (s : DbIntegrator.t * world) : Prop :=
  DbIntegrator.connected s.1 = true ∧ DbIntegrator.ready s.1 s.2 ∧ DbIntegrator.currentRecon s.1 = c ∧
  DbIntegrator.lastImports s.1 =
    if c =? 0 then ∅ else {[0 := DbIntegrator.mkShard 0 (DbIntegrator.hash_of (B (c - 1)))]}.

Lemma chain_laws (fuel : nat) :
  DbIntegrator.db_up → n < 2 ^ 32 → chained →
  BlockIntegrator.ChainLaws (I := DbIntegratorI fuel) n B chain_at.
Proof.
  intros Hup Hn Hch. split.
  - intros c [st w] Hc (Hco & Hrd & Hcr & Hli). simpl in *. destruct (Hch c Hc) as [[Hwf _] Hb].
    destruct (Z.eqb_spec c 0) as [->|Hc0].
    + destruct Hb as [Hty [g Hg]]. destruct st as [co ini cr li]. simpl in *. subst.
      destruct (DbIntegrator.genesis_accept fuel (B 0) g ini w Hup Hrd Hty Hg) as [w' ->].
      eexists. split; [done|]. split_and!; simpl; [done|by left|done|].
      by rewrite (DbIntegrator.hash_of_genesis _ g).
    + destruct Hb as (Hty & r & Hr & Hid & Hsi).
      destruct (DbIntegrator.recon_accept fuel (B c) r c 0 0 st w Hup Hco Hrd) as [w' ->]; try (done || congruence).
      { split; rewrite Hsi, Hli; [by rewrite map_size_singleton|].
        intros [|j] i Hj; [|done]. injection Hj as <-. done. }
      eexists. split; [done|]. split_and!; simpl; [done|by left| |].
      * rewrite Hcr. apply wrap_small. unfold is_u. lia.
      * rewrite (proj2 (Z.eqb_neq (c + 1) 0)) by lia. replace (c + 1 - 1) with c by lia.
        by rewrite (DbIntegrator.hash_of_recon _ r).
  - intros c i [st w] Hc (Hco & Hrd & Hcr & Hli). simpl in *.
    destruct (DbIntegrator.other_round fuel (B i) i 0 0 st w Hup Hco Hrd ltac:(lia)) as [w' ->].
    rewrite Hcr, (proj2 (Z.ltb_lt c i)) by lia. eexists. split; [done|]. by split_and!; [|left|..].
  - intros c i [st w] Hc (Hco & Hrd & Hcr & Hli). simpl in *.
    destruct (DbIntegrator.other_round fuel (B i) i 0 0 st w Hup Hco Hrd ltac:(lia)) as [w' ->].
    rewrite Hcr, (proj2 (Z.ltb_ge c i)) by lia. eexists. split; [done|]. by split_and!; [|left|..].
Qed.

Lemma chain_copies i : chained → 0 ≤ i < n → Block.copy_construct (B i) = Some (B i).
Proof.
  intros Hch Hi. destruct (Hch i Hi) as [Hok Hb]. destruct (Block.block_toAsn1_wf (B i) (Block.Asn1 0 Block.Nullptr)) as [u Hu];
    [apply Hok|].
  unfold Block.copy_construct, Block.copy_assign. rewrite Hu. simpl. rewrite (Block.Block_asn1 _ _ _ _ Hok Hu).
  f_equal. unfold Block.strip. destruct (B i) as [ty g r nd], Hok as [Hw _]. unfold Block.wf in Hw. simpl in *.
  assert (nd = None) as ->; [|done]. destruct ty; try (by destruct Hw as (_ & _ & ?)). by case_match; destruct_and?.
Qed.

Lemma load_loop_feed {F : Files} (fuel fuel' : nat) fs storage (data : Z → bytes) l st :
  n ≤ 10 ^ 8 → Forall (λ i, 0 ≤ i < n ∧ data i ≠ [] ∧
    f_open_read fs (FileTools.expandTilde fs (BlockStorage.block_path storage i 0 0)) =
      Some (zlen (data i), data i)) l →
  load_loop (I := DbIntegratorI fuel) fuel' fs storage 0 ((λ i, BlockFilename.get i 0 0) <$> l) st =
    BlockIntegrator.feed (I := DbIntegratorI fuel) data fuel' l st.
Proof.
  intros Hn Hl. revert st. induction Hl as [|i l (Hi & Hne & Hf) Hl IH]; intros st; [done|].
  cbn [load_loop fmap list_fmap BlockIntegrator.feed]. unfold loadFile.
  rewrite BlockFilename.parse_get by lia. rewrite (proj2 (Z.ltb_ge i 0)) by lia. unfold BlockStorage.readBlock.
  destruct (FileTools.read_bin_whole fs _ _ Hf) as (b & -> & Hb & He). cbn [negb].
  rewrite He, bool_decide_eq_false_2, Hb by done.
  destruct (BlockIntegrator.addBlock _ _ _ _ _ _); [apply IH|done].
Qed.

(** Reading a directory that holds blocks of the chain, for an integrator that follows it. *)
Lemma load_follows {F : Files} (at_ : Z → DbIntegrator.t * world → Prop) (fuel fuel' : nat) (fs : files)
    (storage : BlockStorage.t) (data : Z → bytes) (l : list Z) (st : DbIntegrator.t) (w : world) :
  n ≤ 10 ^ 8 → 0 ≤ n → chained → BlockIntegrator.ChainLaws (I := DbIntegratorI fuel) n B at_ → at_ 0 (st, w) →
  (∀ i, 0 ≤ i < n → Decode.decode_block (data i) Block.dflt = Some (true, B i)) →
  f_list fs (BlockStorage.dir storage) = Some ((λ i, BlockFilename.get i 0 0) <$> l) →
  Forall (λ i, 0 ≤ i < n ∧ data i ≠ [] ∧
    f_open_read fs (FileTools.expandTilde fs (BlockStorage.block_path storage i 0 0)) =
      Some (zlen (data i), data i)) l →
  (S (length l) < fuel')%nat →
  ∃ c bi, init (I := DbIntegratorI fuel) fuel' fs storage 0
            (BlockIntegrator.new (I := DbIntegratorI fuel) (st, w)) = Some bi ∧
    at_ c (BlockIntegrator.dbIntegrator bi) ∧ (∀ j, 0 ≤ j < c → j ∈ l) ∧ (c ∉ l) ∧
    (∀ e, e ∈ BlockIntegrator.flat (BlockIntegrator.pendingRecons bi) ↔
      ∃ j, e = BlockIntegrator.chain_entry B j ∧ j ∈ l ∧ c < j) ∧
    ((∀ j, 0 ≤ j < n → j ∈ l) →
      c = n ∧ BlockIntegrator.flat (BlockIntegrator.pendingRecons bi) = []).
Proof.
  intros Hn Hn0 Hch Hlaws Hat Hdec Hls Hl Hf.
  unfold init, BlockStorage.getFiles, FileTools.listFiles. rewrite Hls. cbn [app negb mbind option_bind].
  rewrite (load_loop_feed fuel fuel' fs storage data l _ Hn Hl).
  destruct (BlockIntegrator.feed_integrates (I := DbIntegratorI fuel) n B at_ data Hdec
    (λ i, chain_copies i Hch) fuel' l (st, w)) as (c & bi & -> & Hc & Hpre & Hno & Hcn & Hq & Hall);
    [eapply Forall_impl; [exact Hl|by intros ? []]|done|done|done|].
  rewrite Forall_forall in Hall. exists c, bi. split_and!; [done|done|done|done| |].
  - intros e. split; [|by intros (j & -> & Hj); apply Hq].
    intros He. destruct (Hall e He) as (j & -> & Hj). exists j. split; [done|]. by apply Hq.
  - intros Hcov. assert (c = n) as ->.
    { destruct (decide (c < n)); [|lia]. destruct Hno. apply Hcov. lia. }
    split; [done|]. apply elem_of_nil_inv. intros e He. destruct (Hall e He) as (j & -> & Hj). lia.
Qed.

Lemma load_chain {F : Files} (fuel fuel' : nat) (fs : files) (storage : BlockStorage.t)
    (data : Z → bytes) (l : list Z) (st : DbIntegrator.t) (w : world) :
  n ≤ 10 ^ 8 → 0 ≤ n → chained → DbIntegrator.db_up → chain_at 0 (st, w) →
  (∀ i, 0 ≤ i < n → Decode.decode_block (data i) Block.dflt = Some (true, B i)) →
  f_list fs (BlockStorage.dir storage) = Some ((λ i, BlockFilename.get i 0 0) <$> l) →
  Forall (λ i, 0 ≤ i < n ∧ data i ≠ [] ∧
    f_open_read fs (FileTools.expandTilde fs (BlockStorage.block_path storage i 0 0)) =
      Some (zlen (data i), data i)) l →
  (S (length l) < fuel')%nat →
  ∃ c bi, init (I := DbIntegratorI fuel) fuel' fs storage 0
            (BlockIntegrator.new (I := DbIntegratorI fuel) (st, w)) = Some bi ∧
    chain_at c (BlockIntegrator.dbIntegrator bi) ∧ (∀ j, 0 ≤ j < c → j ∈ l) ∧ (c ∉ l) ∧
    (∀ e, e ∈ BlockIntegrator.flat (BlockIntegrator.pendingRecons bi) ↔
      ∃ j, e = BlockIntegrator.chain_entry B j ∧ j ∈ l ∧ c < j) ∧
    ((∀ j, 0 ≤ j < n → j ∈ l) →
      c = n ∧ BlockIntegrator.flat (BlockIntegrator.pendingRecons bi) = []).
Proof. intros Hn Hn0 Hch Hup. apply load_follows; [done..|]. apply chain_laws; [done|lia|done]. Qed.

(** C2: A stored chain is rebuilt from disk whatever order the directory lists its
    files in. On a working database with an empty import table, reading a directory
    that holds blocks of a hash-linked chain, possibly some more than once and some
    missing, integrates exactly the blocks before the first one missing and leaves
    the later ones waiting; when none is missing, the whole chain is integrated and
    nothing waits. *)
Theorem load_rebuilds_chain {F : Files} (fuel fuel' : nat) (fs : files) (storage : BlockStorage.t)
    (data : Z → bytes) (l : list Z) (st : DbIntegrator.t) (w : world) :
  n ≤ 10 ^ 8 → 0 ≤ n → chained → DbIntegrator.db_up → chain_at 0 (st, w) →
  (∀ i, 0 ≤ i < n → Decode.decode_block (data i) Block.dflt = Some (true, B i)) →
  f_list fs (BlockStorage.dir storage) = Some ((λ i, BlockFilename.get i 0 0) <$> l) →
  Forall (λ i, 0 ≤ i < n ∧ data i ≠ [] ∧
    f_open_read fs (FileTools.expandTilde fs (BlockStorage.block_path storage i 0 0)) =
      Some (zlen (data i), data i)) l →
  (S (length l) < fuel')%nat →
  ∃ c bi, init (I := DbIntegratorI fuel) fuel' fs storage 0
            (BlockIntegrator.new (I := DbIntegratorI fuel) (st, w)) = Some bi ∧
    chain_at c (BlockIntegrator.dbIntegrator bi) ∧ (∀ j, 0 ≤ j < c → j ∈ l) ∧ (c ∉ l) ∧
    (∀ e, e ∈ BlockIntegrator.flat (BlockIntegrator.pendingRecons bi) ↔
      ∃ j, e = BlockIntegrator.chain_entry B j ∧ j ∈ l ∧ c < j) ∧
    ((∀ j, 0 ≤ j < n → j ∈ l) →
      c = n ∧ BlockIntegrator.flat (BlockIntegrator.pendingRecons bi) = []).
Proof. apply load_chain. Qed.
End Chain.

(** ** Witness: two blocks, listed newest first *)

#[local] Existing Instances Base58.BigNumZ ToyDigests Convert.Asn1Z DbIntegrator.UpDb
  DbIntegrator.DerHash DbIntegrator.DerGenesis DbIntegrator.DerContent.

Definition chain2 (i : Z) : Block.t :=
  if i =? 0 then Block.setGenesis Genesis.dflt Block.dflt
  else DbIntegrator.first_recon (DbIntegrator.genesis_hash Genesis.dflt).

(** Block [i] is stored as the byte [i]. *)
#[local] Instance ByteDer : Der Block.asn1 := {|
  i2d _ := [];
  d2i b := match b with
           | [i] => Block.toAsn1 (chain2 i) (Block.Asn1 0 Block.Nullptr)
           | _ => None
           end;
|}.

Definition store : BlockStorage.t := BlockStorage.mk $"/blocks".

#[local] Instance TwoFiles : Files := {|
  files := unit;
  f_home _ := None;
  f_open_read _ p :=
    if decide (p = BlockStorage.block_path store 0 0 0) then Some (1, [0])
    else if decide (p = BlockStorage.block_path store 1 0 0) then Some (1, [1]) else None;
  f_write _ _ _ := None;
  f_remove _ _ := (false, tt);
  f_list _ _ := Some [BlockFilename.get 1 0 0; BlockFilename.get 0 0 0];
  f_exists _ _ := true; f_is_file _ _ := true; f_is_dir _ _ := false;
  f_mkdir _ _ := (false, tt); f_chmod _ _ := (false, tt);
|}.

Lemma chain2_chained : chained 2 chain2.
Proof.
  intros i Hi. assert (i = 0 ∨ i = 1) as [-> | ->] by lia.
  - split; [split; [by split_and!|by split_and!]|]. split; [done|by eexists].
  - split; [split; [by split_and!|split_and!; by repeat constructor]|]. split; [done|by eexists].
Qed.

Lemma load_rebuilds_chain_witness :
  ∃ bi, init (I := DbIntegratorI 1) 4 tt store 0
          (BlockIntegrator.new (I := DbIntegratorI 1) (DbIntegrator.new true, World (O := DbIntegrator.UpDb) tt [])) = Some bi ∧
    DbIntegrator.currentRecon (BlockIntegrator.dbIntegrator bi).1 = 2 ∧
    BlockIntegrator.flat (BlockIntegrator.pendingRecons bi) = [].
Proof.
  destruct (load_rebuilds_chain (F := TwoFiles) 2 chain2 1 4 tt store (λ i, [i]) [1; 0]
    (DbIntegrator.new true) (World (O := DbIntegrator.UpDb) tt []))
    as (c & bi & E & (_ & _ & Hc & _) & _ & _ & _ & Hall).
  - lia.
  - lia.
  - apply chain2_chained.
  - apply DbIntegrator.up_db.
  - split_and!; [done| |done|done]. right. by eexists.
  - intros i Hi. assert (i = 0 ∨ i = 1) as [-> | ->] by lia; reflexivity.
  - reflexivity.
  - repeat constructor; try lia; done.
  - simpl. lia.
  - destruct Hall as [Hn Hf].
    { intros j Hj. assert (j = 0 ∨ j = 1) as [-> | ->] by lia; [right|]; by left. }
    exists bi. split_and!; [exact E|by rewrite Hc|exact Hf].
Defined.

End LoadFromFs.
