(* ===== verification/FileTree.v ===== *)
(** * Listing a directory with all its subdirectories

    The recursive half of [FileTools::listFiles].  A directory is a tree; the standard library's
    recursive iterator walks it from the top, each directory before what it holds, and does
    not follow links to directories. *)

From S2P Require Import Prelude LoadFromFs.

(** What the iterator finds under a name: a regular file (or a link to one), a directory with its
    entries in the order the system lists them, a directory that may not be opened, or anything
    else. *)
Inductive node :=
  | Regular
  | Directory (entries : list (cstr * node))
  | Unreadable
  | Other.

(** What is at a path, if anything. *)
Class Tree (F : Files) := { f_tree : files → cstr → option node }.

Module FileTree.

(** [std::filesystem::path::operator/] of a path and a file name: no separator is added after one. *)
Definition join (dir name : cstr) : cstr :=
  match last dir with
  | None => name
  | Some c => if c =? chr "/" then dir ++ name else dir ++ $"/" ++ name
  end.

(** [src/src/utils/FileTools.cpp:166-169] FileTools::listFiles (one entry and what is below it)

    The names added, and whether the iterator threw, which ends the walk. *)
Fixpoint visit (path dir name : cstr) (n : node) : list cstr * bool :=
  let p := join dir name in
  match n with
  | Regular => ([drop (length path + 1) p], false)
  | Directory entries =>
      (fix go (entries : list (cstr * node)) : list cstr * bool :=
         match entries with
         | [] => ([], false)
         | (x, m) :: entries =>
             let '(l, threw) := visit path p x m in
             if threw : bool then (l, true) else let '(l', threw) := go entries in (l ++ l', threw)
         end) entries
  | Unreadable => ([], true)
  | Other => ([], false)
  end.

(** [src/src/utils/FileTools.cpp:165-170] FileTools::listFiles (the walk of a directory) *)
Fixpoint walk (path dir : cstr) (entries : list (cstr * node)) : list cstr * bool :=
  match entries with
  | [] => ([], false)
  | (x, m) :: entries =>
      let '(l, threw) := visit path dir x m in
      if threw : bool then (l, true) else let '(l', threw) := walk path dir entries in (l ++ l', threw)
  end.

Section Code.
Context {F : Files} {T : Tree F}.

(** [src/src/utils/FileTools.cpp:154-182] FileTools::listFiles (recursive)

    [None] as the answer is an exception of the iterator, which leaves the names found so far. *)
Definition listFiles (fs : files) (path : cstr) (names : list cstr) : option bool * list cstr :=
  if negb (f_exists fs path) then (Some false, names)
  else match f_tree fs path with
  | Some (Directory entries) =>
      let '(found, threw) := walk path path entries in
      (if threw then None else Some true, names ++ found)
  | _ => (None, names)
  end.
End Code.

(** ** What is listed *)

(** Induction over trees, with the hypothesis for every entry of a directory. *)
Lemma node_tree_ind (P : node → Prop) :
  P Regular → (∀ entries, Forall (λ e, P e.2) entries → P (Directory entries)) → P Unreadable → P Other →
  ∀ n, P n.
Proof.
  intros HR HD HU HO. fix IH 1. intros [|entries| |]; [exact HR| |exact HU|exact HO].
  apply HD. induction entries as [|[x m] entries IHe]; constructor; [apply IH|exact IHe].
Qed.

(** The paths of the regular files below a name, relative to where the name is. *)
Fixpoint paths (name : cstr) (n : node) : list cstr :=
  match n with
  | Regular => [name]
  | Directory entries =>
      (fix go (entries : list (cstr * node)) : list cstr :=
         match entries with
         | [] => []
         | (x, m) :: entries => ((λ p, name ++ $"/" ++ p) <$> paths x m) ++ go entries
         end) entries
  | Unreadable | Other => []
  end.

Definition paths_of (entries : list (cstr * node)) : list cstr := entries ≫= λ e, paths e.1 e.2.

(** Every directory can be opened, and entries have names without separators. *)
Fixpoint readable (n : node) : Prop :=
  match n with
  | Regular | Other => True
  | Unreadable => False
  | Directory entries =>
      (fix go (entries : list (cstr * node)) : Prop :=
         match entries with
         | [] => True
         | (x, m) :: entries => (x ≠ [] ∧ chr "/" ∉ x ∧ readable m) ∧ go entries
         end) entries
  end.

Lemma visit_directory path dir name entries :
  visit path dir name (Directory entries) = walk path (join dir name) entries.
Proof. cbn [visit]. induction entries as [|[x m] entries IH]; [done|]. cbn [walk]. by rewrite IH. Qed.

Lemma paths_directory name entries :
  paths name (Directory entries) = (λ p, name ++ $"/" ++ p) <$> paths_of entries.
Proof.
  cbn [paths]. unfold paths_of. induction entries as [|[x m] entries IH]; [done|].
  rewrite bind_cons, fmap_app, IH. done.
Qed.

Lemma readable_directory entries :
  readable (Directory entries) ↔ Forall (λ e, e.1 ≠ [] ∧ chr "/" ∉ e.1 ∧ readable e.2) entries.
Proof.
  cbn [readable]. induction entries as [|[x m] entries IH]; [by split|].
  rewrite Forall_cons, IH. done.
Qed.

Lemma join_plain dir name : dir ≠ [] → last dir ≠ Some (chr "/") → join dir name = dir ++ $"/" ++ name.
Proof.
  intros Hd Hl. unfold join. destruct (last dir) as [c|] eqn:E; [|by apply last_None in E].
  destruct (Z.eqb_spec c (chr "/")) as [->|]; done.
Qed.

Lemma join_slash dir name : last dir = Some (chr "/") → join dir name = dir ++ name.
Proof. intros Hl. unfold join. by rewrite Hl, Z.eqb_refl. Qed.

Lemma join_name pre name x :
  name ≠ [] → chr "/" ∉ name → join (pre ++ name) x = (pre ++ name ++ $"/") ++ x.
Proof.
  intros Hn Hs. rewrite join_plain; [by rewrite <- !app_assoc| |].
  - intros [_ ?]%app_nil. done.
  - rewrite last_app. destruct (last name) as [c|] eqn:E; [|by apply last_None in E].
    intros [= ->]. apply last_Some in E as [l ->]. apply Hs, elem_of_app. right. by left.
Qed.

(** A walk that adds what a specification says of each entry adds what it says of all. *)
Lemma walk_lists path dir (f : cstr → cstr) entries :
  Forall (λ e, visit path dir e.1 e.2 = (f <$> paths e.1 e.2, false)) entries →
  walk path dir entries = (f <$> paths_of entries, false).
Proof.
  unfold paths_of. induction 1 as [|[x m] entries He _ IH]; [done|]. cbn [walk]. simpl in He.
  rewrite He, IH, bind_cons, fmap_app. done.
Qed.

(** Below a directory to whose path names are appended after [pre]. *)
Lemma visit_lists path n : ∀ dir pre name,
  readable n → name ≠ [] → chr "/" ∉ name → (∀ x, join dir x = pre ++ x) →
  visit path dir name n = ((λ p, drop (length path + 1) (pre ++ p)) <$> paths name n, false).
Proof.
  induction n as [|entries IH| |] using node_tree_ind; intros dir pre name Hr Hn Hs Hj; try done.
  - cbn [visit paths]. by rewrite Hj.
  - rewrite visit_directory, paths_directory, <- list_fmap_compose, Hj.
    apply readable_directory in Hr.
    rewrite (walk_lists _ _ (λ p, drop (length path + 1) ((pre ++ name ++ $"/") ++ p))).
    + f_equal. apply list_fmap_ext. intros i p _. unfold compose. by rewrite <- !app_assoc.
    + rewrite Forall_forall in *. intros [x m] Hin. destruct (Hr _ Hin) as (Hx & Hxs & Hm).
      apply (IH _ Hin); [done..|]. intros y. by apply join_name.
Qed.

Section Listing.
Context {F : Files} {T : Tree F}.

Lemma list_under fs path pre names entries :
  f_exists fs path = true → f_tree fs path = Some (Directory entries) → readable (Directory entries) →
  (∀ x, join path x = pre ++ x) →
  listFiles fs path names =
    (Some true, names ++ ((λ p, drop (length path + 1) (pre ++ p)) <$> paths_of entries)).
Proof.
  intros He Ht Hr%readable_directory Hj. unfold listFiles. rewrite He, Ht. cbn [negb].
  rewrite (walk_lists _ _ (λ p, drop (length path + 1) (pre ++ p))); [done|].
  eapply Forall_impl; [exact Hr|]. intros [x m] (Hx & Hs & Hm). by apply visit_lists.
Qed.

(** A recursive listing adds the path of every regular file below the directory, relative to it and in
    the order of the walk, when the directory is given without a separator at its end; given
    with one, every path loses its first character, and a file with a one-letter name in
    the directory itself is listed as nothing at all. *)
Theorem recursive_listing (fs : files) (path : cstr) (names : list cstr) (entries : list (cstr * node)) :
  path ≠ [] → f_exists fs path = true → f_tree fs path = Some (Directory entries) →
  readable (Directory entries) →
  listFiles fs path names =
    (Some true, names ++ (if bool_decide (last path = Some (chr "/")) then drop 1 <$> paths_of entries
                          else paths_of entries)).
Proof.
  intros Hp He Ht Hr. case_bool_decide as Hl.
  - rewrite (list_under fs path path names entries) by (done || intros; by apply join_slash).
    do 2 f_equal. apply list_fmap_ext. intros i p _. by rewrite drop_app_add.
  - rewrite (list_under fs path (path ++ $"/") names entries)
      by (done || intros; rewrite join_plain by done; by rewrite <- app_assoc).
    do 2 f_equal. rewrite <- (list_fmap_id (paths_of entries)) at 2. apply list_fmap_ext. intros i p _.
    rewrite drop_app_length'; [done|]. rewrite length_app. done.
Qed.
End Listing.

(** ** Witness: a directory with a file, and a file in a subdirectory *)

Definition two_files : list (cstr * node) := [($"a", Regular); ($"d", Directory [($"b", Regular)])].

#[local] Existing Instance LoadFromFs.TwoFiles.
#[local] Instance TwoTree : Tree LoadFromFs.TwoFiles := {| f_tree _ _ := Some (Directory two_files) |}.

Lemma recursive_listing_witness :
  listFiles (tt : files (Files := LoadFromFs.TwoFiles)) $"/x" [] = (Some true, [$"a"; $"d/b"]) ∧
  listFiles (tt : files (Files := LoadFromFs.TwoFiles)) $"/x/" [] = (Some true, [[]; $"/b"]).
Proof.
  assert (Hr : readable (Directory two_files)).
  { apply readable_directory. repeat constructor; try done; by apply (bool_decide_unpack _). }
  split.
  - apply (recursive_listing (tt : files (Files := LoadFromFs.TwoFiles)) $"/x" [] two_files); done.
  - apply (recursive_listing (tt : files (Files := LoadFromFs.TwoFiles)) $"/x/" [] two_files); done.
Defined.
End FileTree.
