(* ===== verification/Restart.v ===== *)
(** * Starting the curator again

    One life of the curator after another on the same database: what the first leaves in the
    import table ([ImportTable]) decides what becomes of the second ([LoadFromFs] feeding
    [BlockIntegrator] feeding [DbIntegrator]).  There are no definitions of code here. *)

From S2P Require Import Prelude BinData Base58 Ossl Text Db AlgAddress BlockCore BlockTx BlockChain DbIntegrator Sql.
From S2P Require Import ImportTable BlockIntegrator LoadFromFs.

Module Restart.

(** ** A pending list whose integrator does not return *)
Section Stuck.
Context {F : Files} {L : Asn1Lib} {I : Integrator} {Db : Der Block.asn1}.
Context (db : istate) (stuck : ∀ data recon shard blk, offer data recon shard blk db = None).

Lemma parse_index file r s b : BlockFilename.parse file = Some (r, s, b) → 0 ≤ r ∧ 0 ≤ s.
Proof.
  unfold BlockFilename.parse. repeat case_match; intros; simplify_eq.
  split; [unfold BlockFilename.from8|unfold BlockFilename.from4]; apply wrap_range; lia.
Qed.

Lemma new_wf : BlockIntegrator.wf (BlockIntegrator.new db).
Proof. by split; [|intros r pr ?]. Qed.

Lemma enqueued_stuck fuel r s b data :
  0 ≤ s → BlockIntegrator.tryIntegrate fuel (BlockIntegrator.enqueue r s b data (BlockIntegrator.new db)) = None.
Proof.
  intros Hs. destruct fuel as [|fuel]; [done|]. cbn [BlockIntegrator.tryIntegrate].
  rewrite BlockIntegrator.tryNext_queue by (apply BlockIntegrator.wf_enqueue; [done|apply new_wf]).
  rewrite BlockIntegrator.flat_enqueue. cbn [BlockIntegrator.new BlockIntegrator.pendingRecons].
  change (BlockIntegrator.flat ∅) with (@nil BlockIntegrator.entry). cbn [BlockIntegrator.q_insert].
  destruct (Block.copy_construct data) as [copy|]; [|done]. cbn [mbind option_bind].
  unfold BlockIntegrator.attempt. simpl. by rewrite stuck.
Qed.

(** A file that holds a block. *)
Definition holds_block (fs : files) (storage : BlockStorage.t) (file : cstr) : Prop :=
  ∃ r s b d x, BlockFilename.parse file = Some (r, s, b) ∧ d ≠ [] ∧
    f_open_read fs (FileTools.expandTilde fs (BlockStorage.block_path storage r s b)) = Some (zlen d, d) ∧
    Decode.decode_block d Block.dflt = Some (true, x).

(** Reading one file either leaves the new list as it is or does not return. *)
Lemma loadFile_stuck fuel fs storage file :
  LoadFromFs.loadFile fuel fs storage 0 file (BlockIntegrator.new db) = Some (BlockIntegrator.new db) ∨
  LoadFromFs.loadFile fuel fs storage 0 file (BlockIntegrator.new db) = None.
Proof.
  unfold LoadFromFs.loadFile. destruct (BlockFilename.parse file) as [[[r s] b]|] eqn:E; [|by left].
  destruct (r <? 0); [by left|]. destruct (BinData.empty _); [by left|]. unfold BlockIntegrator.addBlock.
  destruct (Decode.decode_block _ _) as [[[] x]|]; [|by left|by right]. simpl. right.
  apply enqueued_stuck. apply (parse_index _ _ _ _ E).
Qed.

Lemma loadFile_holds fuel fs storage file :
  holds_block fs storage file → LoadFromFs.loadFile fuel fs storage 0 file (BlockIntegrator.new db) = None.
Proof.
  intros (r & s & b & d & x & Hp & Hd & Hf & Hx). unfold LoadFromFs.loadFile. rewrite Hp.
  rewrite (proj2 (Z.ltb_ge r 0)) by apply (parse_index _ _ _ _ Hp). unfold BlockStorage.readBlock.
  destruct (FileTools.read_bin_whole fs _ _ Hf) as (buf & -> & Hb & He). cbn [negb].
  rewrite He, bool_decide_eq_false_2, Hb by done. unfold BlockIntegrator.addBlock. rewrite Hx. simpl.
  apply enqueued_stuck. apply (parse_index _ _ _ _ Hp).
Qed.

Lemma load_stuck fuel fs storage reload names file :
  f_list fs (BlockStorage.dir storage) = Some names → file ∈ names → holds_block fs storage file →
  LoadFromFs.init fuel fs storage reload (BlockIntegrator.new db) = None.
Proof.
  intros Hl Hin Hh. unfold LoadFromFs.init, BlockStorage.getFiles, FileTools.listFiles. rewrite Hl. cbn [app negb mbind option_bind].
  clear Hl. induction names as [|n names IH]; [by apply not_elem_of_nil in Hin|]. cbn [LoadFromFs.load_loop].
  apply elem_of_cons in Hin as [<-|Hin]; [by rewrite loadFile_holds|].
  destruct (loadFile_stuck fuel fs storage n) as [-> | ->]; [by apply IH|done].
Qed.
End Stuck.

Section Lives.
Context {Oz : Ozo} {T : ImportTable Oz} {D : Digests} {B : BigNum} {BL : BigNumLaws B} {L : Asn1Lib}.
Context {Dh : Der BlockHash.asn1} {Hb : DerBytes BlockHash.asn1}.
Context {Dg : Der Genesis.asn1} {Dc : Der Reconciliation.content} {Db : Der Block.asn1}.

(** A new integrator does not return from its first block when the table has a row. *)
Lemma new_stuck fuel data recon shard blk w :
  DbIntegrator.db_up → committed (srv w) ≠ [] →
  DbIntegrator.integrate fuel data recon shard blk (DbIntegrator.new true) w = None.
Proof.
  intros [Hup1 Hup2] Hrow. unfold DbIntegrator.integrate.
  destruct (Session.newSession _ w) as [[ok s] w1] eqn:E.
  assert (ok = true) as ->.
  { unfold Session.newSession in E. simpl in E. specialize (Hup1 (srv w)).
    destruct (ozo_begin (srv w)) as [[] ?]; by simplify_eq/=. }
  apply Imports.newSession_table in E as (-> & Hc & Hv). simpl.
  destruct (DbIntegrator.init fuel _ _ w1) as [[[r st] w2]|] eqn:Ei; [|done]. exfalso.
  unfold DbIntegrator.init, Session.select in Ei. simpl in Ei.
  pose proof (table_select (srv w1)) as Hs. destruct (Hup2 (srv w1)
    $"SELECT reconciliation, shard, block, hash FROM imported_blocks") as [pg Hpg].
  destruct (ozo_request (srv w1) _) as [[?|] s']; simplify_eq/=. specialize (Hs pg eq_refl).
  assert (Hne : tuples pg ≠ []) by (intros Hn; rewrite Hn, Hv in Hs; by destruct (committed (srv w))).
  unfold DataResult.getNumResults, ResultImpl.getNumResults in Ei; simpl in Ei.
  rewrite (proj2 (Z.eqb_neq _ 0)) in Ei by (by destruct (tuples pg)).
  by rewrite DbIntegrator.init_loop_diverges in Ei.
Qed.

(** On an empty table a new integrator has nothing to load. *)
Lemma new_ready w : DbIntegrator.db_up → committed (srv w) = [] → DbIntegrator.ready (DbIntegrator.new true) w.
Proof.
  intros [Hup1 Hup2] H0. right. pose proof (table_begin (srv w)) as [_ Hv]. rewrite Hup1, H0 in Hv.
  destruct (Hup2 (snd (ozo_begin (srv w)))
    $"SELECT reconciliation, shard, block, hash FROM imported_blocks") as [pg Hpg].
  exists pg. split; [done|]. apply table_select in Hpg. rewrite Hv in Hpg by done. by apply nil_length_inv.
Qed.

(** C6: The curator cannot be restarted once it has imported anything. Take any life on a
    Postgres server whose table started empty and whose commits succeed, and start
    the curator again on what it left: if a block was integrated, reading a directory
    that holds a block file never ends, whatever the fuel and whatever the other files, because
    the loop over the table's rows never moves on to the next; if none was, the new curator starts
    like the first. *)
Theorem curator_cannot_restart {F : Files} (fuel : nat) (cs : list DbIntegrator.call) (conn : bool)
    (w w' w2 : world) (st : DbIntegrator.t) (acc : list Block.t)
    (fs : files) (storage : BlockStorage.t) (names : list cstr) (file : cstr) :
  (∀ s, fst (ozo_commit s) = true) → DbIntegrator.db_up →
  Forall (λ c, DbIntegrator.block_wf (DbIntegrator.c_data c) ∧ Imports.block_bytes (DbIntegrator.c_data c)) cs →
  zlen cs < 2 ^ 32 - 1 → committed (srv w) = [] →
  DbIntegrator.run fuel cs (DbIntegrator.new conn) w [] = Some (st, w', acc) →
  committed (srv w2) = committed (srv w') →
  f_list fs (BlockStorage.dir storage) = Some names → file ∈ names → holds_block fs storage file →
  (acc ≠ [] → ∀ fuel1 fuel2 reload,
     LoadFromFs.init (I := DbIntegratorI fuel1) fuel2 fs storage reload
       (BlockIntegrator.new (I := DbIntegratorI fuel1) (DbIntegrator.new true, w2)) = None) ∧
  (acc = [] → DbIntegrator.ready (DbIntegrator.new true) w2).
Proof.
  intros Hco Hup Hcs Hlen H0 Hrun H2 Hl Hin Hh.
  destruct (Imports.run_table true Hco fuel cs (DbIntegrator.new conn) w [] st w' acc Hcs) as [_ Hrows];
    [done|by split_and!; [constructor| |]|done|done|]. split.
  - intros Hacc fuel1 fuel2 reload. apply (load_stuck _) with names file; [|done..].
    intros data recon shard blk. simpl. rewrite new_stuck; [done|done|].
    rewrite H2, Hrows. by destruct acc.
  - intros ->. apply new_ready; [done|]. by rewrite H2, Hrows.
Qed.

(** ** A directory read twice *)

Section Twice.
Context {laws : Asn1Laws L} (commits : ∀ s, fst (ozo_commit s) = true).
Context (n : Z) (Bs : Z → Block.t).

(** The rows that the first [c] blocks of a chain leave. *)
Definition rows_at (c : Z) : list row :=
  if c =? 0 then [] else [Imports.stored_row (c - 1) (DbIntegrator.hash_of (Bs (c - 1)))].

(** The first [c] blocks are in the cache and in the table. *)
Definition stored_at (c : Z) (s : DbIntegrator.t * world) : Prop :=
  0 ≤ c ≤ n ∧ LoadFromFs.chain_at Bs c s ∧ committed (srv s.2) = rows_at c.

Lemma stored_laws (fuel : nat) :
  DbIntegrator.db_up → n < 2 ^ 32 → LoadFromFs.chained n Bs → (∀ i, 0 ≤ i < n → Imports.block_bytes (Bs i)) →
  BlockIntegrator.ChainLaws (I := DbIntegratorI fuel) n Bs stored_at.
Proof.
  intros Hup Hn Hch Hby. pose proof (LoadFromFs.chain_laws n Bs fuel Hup Hn Hch) as Hl.
  assert (Hrows : ∀ i c s r s', 0 ≤ i < n → stored_at c s →
    offer (Integrator := DbIntegratorI fuel) (Bs i) i 0 0 s = Some (r, s') →
    committed (srv s'.2) = Imports.rows_after true s.1 (Bs i) r (rows_at c)).
  { intros i c [st w] r [st' w'] Hi (Hc & (_ & _ & Hcr & _) & Hcom) Ho. simpl in *.
    destruct (DbIntegrator.integrate fuel (Bs i) i 0 0 st w) as [[[r1 st1] w1]|] eqn:E; [|done].
    simpl in Ho. simplify_eq. rewrite <- Hcom. eapply Imports.integrate_table; [done| |by apply Hby|lia|exact E].
    apply (Hch i Hi). }
  split.
  - intros c s Hc Hat. destruct (BlockIntegrator.chain_next c s Hc (proj1 (proj2 Hat))) as (s' & Ho & Hat').
    exists s'. split; [done|]. split; [lia|]. split; [done|]. rewrite (Hrows c c s _ s') by done.
    unfold Imports.rows_after. simpl. destruct Hat as (_ & (_ & _ & Hcr & _) & _), (Hch c Hc) as [_ Hty]. unfold rows_at.
    rewrite (proj2 (Z.eqb_neq (c + 1) 0)), Z.add_simpl_r by lia.
    destruct (Z.eqb_spec c 0) as [->|]; destruct Hty as [-> _]; [done|]. by rewrite Hcr.
  - intros c i s Hi Hat. pose proof Hat as (Hc & Hch' & _).
    destruct (BlockIntegrator.chain_wait c i s Hi Hch') as (s' & Ho & Hat').
    exists s'. split; [done|]. split; [lia|]. split; [done|]. by rewrite (Hrows i c s _ s') by (done || lia).
  - intros c i s Hi Hat. pose proof Hat as (Hc & Hch' & _).
    destruct (BlockIntegrator.chain_old c i s Hi Hch') as (s' & Ho & Hat').
    exists s'. split; [done|]. split; [lia|]. split; [done|]. by rewrite (Hrows i c s _ s') by (done || lia).
Qed.

(** A new curator on an empty table. *)
Lemma stored_new w : DbIntegrator.db_up → 0 ≤ n → committed (srv w) = [] → stored_at 0 (DbIntegrator.new true, w).
Proof.
  intros Hup Hn H0. split; [lia|]. split; [|done]. split_and!; [done| |done|done]. simpl. by apply new_ready.
Qed.

(** Reading a directory of blocks of a chain on an empty table leaves the last of those that were
    integrated in the table, and reading it a second time on what the first left never ends. *)
Lemma load_twice {F : Files} (fuel fuel' : nat) (fs : files) (storage : BlockStorage.t) (data : Z → bytes)
    (l : list Z) (w : world) :
  n ≤ 10 ^ 8 → 0 ≤ n → LoadFromFs.chained n Bs → (∀ i, 0 ≤ i < n → Imports.block_bytes (Bs i)) →
  DbIntegrator.db_up → committed (srv w) = [] →
  (∀ i, 0 ≤ i < n → Decode.decode_block (data i) Block.dflt = Some (true, Bs i)) →
  f_list fs (BlockStorage.dir storage) = Some ((λ i, BlockFilename.get i 0 0) <$> l) →
  Forall (λ i, 0 ≤ i < n ∧ data i ≠ [] ∧
    f_open_read fs (FileTools.expandTilde fs (BlockStorage.block_path storage i 0 0)) =
      Some (zlen (data i), data i)) l →
  (S (length l) < fuel')%nat →
  ∃ c bi, LoadFromFs.init (I := DbIntegratorI fuel) fuel' fs storage 0
            (BlockIntegrator.new (I := DbIntegratorI fuel) (DbIntegrator.new true, w)) = Some bi ∧
    LoadFromFs.chain_at Bs c (BlockIntegrator.dbIntegrator bi) ∧
    (∀ j, 0 ≤ j < c → j ∈ l) ∧ (c ∉ l) ∧ ((∀ j, 0 ≤ j < n → j ∈ l) → c = n) ∧
    committed (srv (BlockIntegrator.dbIntegrator bi).2) = rows_at c ∧
    (0 ∈ l → ∀ w2 fuel1 fuel2, committed (srv w2) = rows_at c →
       LoadFromFs.init (I := DbIntegratorI fuel1) fuel2 fs storage 0
         (BlockIntegrator.new (I := DbIntegratorI fuel1) (DbIntegrator.new true, w2)) = None).
Proof.
  intros Hn Hn0 Hch Hby Hup H0 Hdec Hls Hl Hf.
  destruct (LoadFromFs.load_follows (L := L) n Bs stored_at fuel fuel' fs storage data l (DbIntegrator.new true) w)
    as (c & bi & Hi & (Hc & Hat & Hrows) & Hpre & Hno & _ & Hall); try done.
  { apply stored_laws; [done|lia|done..]. } { by apply stored_new. }
  exists c, bi. split_and!; [done..|by intros [? _]%Hall|done|].
  intros Hin w2 fuel1 fuel2 H2. rewrite Forall_forall in Hl. destruct (Hl 0 Hin) as (Hr & Hne & Hread).
  apply (load_stuck _) with ((λ i, BlockFilename.get i 0 0) <$> l) (BlockFilename.get 0 0 0); [|done| |].
  - intros d r s b. simpl. rewrite new_stuck; [done|done|]. rewrite H2. unfold rows_at.
    destruct (Z.eqb_spec c 0) as [->|]; done.
  - apply list_elem_of_fmap. by exists 0.
  - exists 0, 0, 0, (data 0), (Bs 0). split_and!; [by apply BlockFilename.parse_get|done|done|by apply Hdec].
Qed.
End Twice.
End Lives.

(** ** Witness: the two blocks of [LoadFromFs], and the directory they are in *)

#[local] Existing Instances DbIntegrator.DerHash DbIntegrator.DerGenesis DbIntegrator.DerContent
  Base58.BigNumZ ToyDigests Convert.Asn1Z LoadFromFs.ByteDer LoadFromFs.TwoFiles.
#[local] Instance DerHashBytes : DerBytes BlockHash.asn1 := CountableDer_bytes.

Lemma text_db_up ok bs : DbIntegrator.db_up (Oz := Imports.TextDb ok bs).
Proof. split; [done|]. intros s q. simpl. repeat case_decide; by eexists. Qed.

Lemma store_holds : holds_block (F := LoadFromFs.TwoFiles) tt LoadFromFs.store (BlockFilename.get 1 0 0).
Proof. exists 1, 0, 0, [1], (LoadFromFs.chain2 1). by split_and!. Qed.

Lemma curator_cannot_restart_witness :
  ∃ st w' acc, DbIntegrator.run (Oz := Imports.TextDb true false) 1 DbIntegrator.two_blocks (DbIntegrator.new true)
      (World (O := Imports.TextDb true false) ([], []) []) [] = Some (st, w', acc) ∧
    ∀ fuel1 fuel2, LoadFromFs.init (I := DbIntegratorI (Oz := Imports.TextDb true false) fuel1) fuel2 tt LoadFromFs.store 0
      (BlockIntegrator.new (I := DbIntegratorI (Oz := Imports.TextDb true false) fuel1)
        (DbIntegrator.new true, World (O := Imports.TextDb true false) (srv w') [])) = None.
Proof.
  assert (Hacc : length ∘ snd <$> DbIntegrator.run (Oz := Imports.TextDb true false) 1 DbIntegrator.two_blocks
    (DbIntegrator.new true) (World (O := Imports.TextDb true false) ([], []) []) [] = Some 2%nat) by (vm_compute; reflexivity).
  destruct (DbIntegrator.run (Oz := Imports.TextDb true false) 1 DbIntegrator.two_blocks (DbIntegrator.new true)
    (World (O := Imports.TextDb true false) ([], []) []) []) as [[[st w'] acc]|] eqn:E; [|done].
  injection Hacc as Hacc. simpl in Hacc. exists st, w', acc. split; [done|]. intros fuel1 fuel2.
  refine (proj1 (curator_cannot_restart (F := LoadFromFs.TwoFiles) (T := Imports.TextDb_table true false)
    (B := Base58.BigNumZ) (BL := Base58.BigNumZ_laws) 1 DbIntegrator.two_blocks true
    (World (O := Imports.TextDb true false) ([], []) []) w' (World (O := Imports.TextDb true false) (srv w') []) st acc
    tt LoadFromFs.store [BlockFilename.get 1 0 0; BlockFilename.get 0 0 0] (BlockFilename.get 1 0 0)
    (λ s, eq_refl) (text_db_up true false) Imports.two_blocks_ok eq_refl eq_refl E eq_refl eq_refl _ store_holds)
    _ fuel1 fuel2 0); [by left|by destruct acc].
Defined.
End Restart.
