(* ===== verification/P2p.v ===== *)
(** * The p2p service: brute-force guard, peer sessions, stake key and handshake

    [services/p2p].  Times are readings of the steady clock in nanoseconds and are
    arguments; its epoch, 0, is what a default time point holds.  [None] stands for
    a null reference being used. *)

From S2P Require Import Prelude BinData Base58 Ossl Text AlgAddress Strings Errors.

(** A number of seconds in clock ticks. *)
Definition seconds (n : Z) : Z := n * 1000000000.

Module BruteForce.

(** [src/src/services/p2p/auth/BruteForce.cpp:9-9] MAX_OFFENSES *)
Definition MAX_OFFENSES : Z := 3.
(** [src/src/services/p2p/auth/BruteForce.cpp:10-10] LOCKOUT_SECONDS *)
Definition LOCKOUT_SECONDS : Z := 60.
(** [src/src/services/p2p/auth/BruteForce.cpp:11-11] CLEANUP_INTERVAL_SECONDS *)
Definition CLEANUP_INTERVAL_SECONDS : Z := 20.

(** [src/src/services/p2p/auth/BruteForce.h:36-41] BruteForce::BruteForceOffender *)
Record Offender := mkOffender { address : cstr; offenses : Z; lastOffense : Z }.

(** [src/src/services/p2p/auth/BruteForce.h:16-47] BruteForce *)
Record t := mk {
  offenders : gmap cstr Offender;
  mapAddressToForgiveness : gmap cstr Z;
  nextCleanup : Z;
}.

Definition new : t := mk ∅ ∅ 0.

(** [src/src/services/p2p/auth/BruteForce.cpp:57-86] BruteForce::cleanup *)
Definition cleanup (now : Z) (st : t) : t :=
  if nextCleanup st <? now then st
  else
    mk (filter (λ p, (lastOffense p.2 + seconds LOCKOUT_SECONDS <? now) = false) (offenders st))
       (filter (λ p, (p.2 <? now) = false) (mapAddressToForgiveness st))
       (now + seconds CLEANUP_INTERVAL_SECONDS).

(** [src/src/services/p2p/auth/BruteForce.cpp:15-23] BruteForce::checkAddress *)
Definition checkAddress (now : Z) (address : cstr) (st : t) : bool * t :=
  let st := cleanup now st in
  (bool_decide (mapAddressToForgiveness st !! address = None), st).

(** [src/src/services/p2p/auth/BruteForce.cpp:25-55] BruteForce::addOffense *)
Definition addOffense (now : Z) (address : cstr) (st : t) : t :=
  match mapAddressToForgiveness st !! address with
  | Some _ => st
  | None =>
      match offenders st !! address with
      | None =>
          mk (<[address := mkOffender address (u32 (0 + 1)) now]> (offenders st))
             (mapAddressToForgiveness st) (nextCleanup st)
      | Some o =>
          let n := u32 (offenses o + 1) in
          if MAX_OFFENSES <=? n then
            mk (delete address (offenders st))
               (<[address := now + seconds LOCKOUT_SECONDS]> (mapAddressToForgiveness st)) (nextCleanup st)
          else
            mk (<[address := mkOffender (BruteForce.address o) n now]> (offenders st))
               (mapAddressToForgiveness st) (nextCleanup st)
      end
  end.

(** ** Lock-out *)

Inductive op := OpCheck (now : Z) (address : cstr) | OpOffense (now : Z) (address : cstr).

Definition op_now (o : op) : Z := match o with OpCheck now _ | OpOffense now _ => now end.

Definition exec (o : op) (st : t) : t :=
  match o with
  | OpCheck now a => snd (checkAddress now a st)
  | OpOffense now a => addOffense now a st
  end.

Definition run (os : list op) : t := foldl (λ st o, exec o st) new os.

(** How often an address offended. *)
Definition offends (a : cstr) (o : op) : bool :=
  match o with OpOffense _ a' => bool_decide (a' = a) | OpCheck _ _ => false end.

Definition offended (a : cstr) (os : list op) : nat := length (List.filter (offends a) os).

(** The state after the operations [os]. *)
Definition counted (os : list op) (st : t) : Prop :=
  nextCleanup st = 0 ∧
  ∀ a, (is_Some (mapAddressToForgiveness st !! a) ↔ (3 ≤ offended a os)%nat) ∧
       match offenders st !! a with
       | Some o => offenses o = Z.of_nat (offended a os) ∧ (0 < offended a os < 3)%nat
       | None => offended a os = 0%nat ∨ (3 ≤ offended a os)%nat
       end.

Lemma offended_snoc a os o :
  offended a (os ++ [o]) = (offended a os + if offends a o then 1 else 0)%nat.
Proof. unfold offended. rewrite List.filter_app, length_app. simpl. by destruct (offends a o). Qed.

(** Once the clock runs, the clean-up returns at once. *)
Lemma cleanup_never now st : nextCleanup st = 0 → 0 < now → cleanup now st = st.
Proof. intros Hn Hp. unfold cleanup. rewrite Hn. by rewrite (proj2 (Z.ltb_lt 0 now)). Qed.

Lemma addOffense_counted now a os st :
  counted os st → counted (os ++ [OpOffense now a]) (addOffense now a st).
Proof.
  intros [Hn Hc]. unfold addOffense. pose proof (Hc a) as [Hb Ho].
  assert (Hoff : ∀ b, offended b (os ++ [OpOffense now a]) = (offended b os + if decide (a = b) then 1 else 0)%nat).
  { intros b. rewrite offended_snoc. simpl. by destruct (decide (a = b)); [rewrite bool_decide_eq_true_2|rewrite bool_decide_eq_false_2]. }
  destruct (mapAddressToForgiveness st !! a) as [tm|] eqn:Em.
  { split; [done|]. intros b. rewrite Hoff. destruct (decide (a = b)) as [<-|]; [|rewrite Nat.add_0_r; apply Hc].
    rewrite Em. pose proof (proj1 Hb ltac:(by eexists)). split; [split; [lia|by eexists]|].
    destruct (offenders st !! a); [lia|right; lia]. }
  assert (Hlt : (offended a os < 3)%nat).
  { destruct (decide (offended a os < 3)%nat); [done|]. destruct (proj2 Hb) as [? [=]]. lia. }
  destruct (offenders st !! a) as [o|] eqn:Eo.
  - destruct Ho as [Ho Hr]. assert (Hu : u32 (offenses o + 1) = offenses o + 1) by (apply wrap_small; unfold is_u; lia).
    rewrite Hu. unfold MAX_OFFENSES. destruct (Z.leb_spec 3 (offenses o + 1)) as [H3|H3];
      (split; [done|]); intros b; rewrite Hoff; simpl;
      (destruct (decide (a = b)) as [<-|Hne]; [|simplify_map_eq; rewrite Nat.add_0_r; apply Hc]); simplify_map_eq.
    + split; [split; [lia|by eexists]|]. right; lia.
    + rewrite Em. split; [|lia]. split; [by intros [? [=]]|lia].
  - split; [done|]. intros b; rewrite Hoff; simpl.
    destruct (decide (a = b)) as [<-|Hne]; [|simplify_map_eq; rewrite Nat.add_0_r; apply Hc]. simplify_map_eq.
    destruct Ho as [Ho|Ho]; [|lia]. rewrite Em, Ho. split; [|split; [done|lia]].
    split; [by intros [? [=]]|lia].
Qed.

(** C31: The brute-force guard blocks an address exactly from its third offense on,
    and never forgives: whatever checks and offenses happened at whatever times
    after the clock's epoch, an address is let through if and only if it offended
    fewer than three times since the service started. The lock-out time and the
    reset of old offenses have no effect, since the clean-up never runs. *)
Theorem lockout_is_permanent (os : list op) (now : Z) (a : cstr) :
  Forall (λ o, 0 < op_now o) os → 0 < now →
  fst (checkAddress now a (run os)) = negb (3 <=? offended a os)%nat ∧
  snd (checkAddress now a (run os)) = run os.
Proof.
  intros Hos Hnow. assert (Hc : counted os (run os)).
  { induction os as [|o os IH] using rev_ind.
    - split; [done|]. intros b. simpl. rewrite !lookup_empty. split; [|by left].
      split; [by intros [? [=]]|cbn; lia].
    - apply Forall_app in Hos as [Hos [Ho _]%Forall_cons]. specialize (IH Hos).
      unfold run. rewrite foldl_app. fold (run os). destruct o as [t0 b|t0 b]; simpl.
      + simpl in Ho. rewrite cleanup_never by (done || apply IH). destruct IH as [Hn IH].
        split; [done|]. intros c. rewrite offended_snoc, Nat.add_0_r. apply IH.
      + by apply addOffense_counted. }
  destruct Hc as [Hn Hc]. unfold checkAddress. rewrite cleanup_never by done. split; [|done]. cbn [fst].
  destruct (Nat.leb_spec 3 (offended a os)) as [H3|H3]; cbn [negb].
  - apply bool_decide_eq_false_2. destruct (proj2 (proj1 (Hc a)) H3) as [? E]. by rewrite E.
  - apply bool_decide_eq_true_2. destruct (mapAddressToForgiveness (run os) !! a) eqn:E; [|done].
    pose proof (proj1 (proj1 (Hc a))). rewrite E in *. specialize (H ltac:(by eexists)). lia.
Qed.

(** Three offenses, a day of silence, still refused. *)
Lemma lockout_is_permanent_witness :
  fst (checkAddress (seconds 86400) $"peer"
    (run [OpOffense 1 $"peer"; OpCheck 2 $"peer"; OpOffense 3 $"peer"; OpOffense 4 $"peer"])) = false.
Proof.
  apply (lockout_is_permanent
    [OpOffense 1 $"peer"; OpCheck 2 $"peer"; OpOffense 3 $"peer"; OpOffense 4 $"peer"] (seconds 86400) $"peer").
  - repeat constructor; simpl; lia.
  - reflexivity.
Defined.
End BruteForce.

Module PeerSessions.

(** [src/src/services/p2p/auth/PeerSessions.cpp:9-9] SESSION_TIMEOUT_SECONDS *)
Definition SESSION_TIMEOUT_SECONDS : Z := 300.

(** [src/src/services/p2p/auth/PeerSessions.h:13-20] PeerSession *)
Record PeerSession := mkSession {
  protocolVersion : Z;
  address : cstr;
  sessionId : cstr;
  hmacKey : BinData.t;
  lastUse : Z;
}.

Definition noSession : PeerSession := mkSession 0 [] [] SafeData.new 0.

(** [src/src/services/p2p/auth/PeerSessions.h:25-51] PeerSessions *)
Record t := mk { sessions : gmap cstr PeerSession; nextCleanup : Z }.

Definition new : t := mk ∅ 0.

(** [src/src/services/p2p/auth/PeerSessions.cpp:48-66] PeerSessions::cleanup *)
Definition cleanup (now : Z) (st : t) : t :=
  if now <? nextCleanup st then st
  else mk (filter (λ p, (lastUse p.2 + seconds SESSION_TIMEOUT_SECONDS <? now) = false) (sessions st))
          (nextCleanup st).

(** [src/src/services/p2p/auth/PeerSessions.cpp:16-31] PeerSessions::addSession

    The clock is read for the clean-up and again for the session. *)
Definition addSession (now1 now2 : Z) (protocolVersion : Z) (peerAddress sessionId : cstr)
    (key : BinData.t) (st : t) : t :=
  let st := cleanup now1 st in
  let old := default noSession (sessions st !! sessionId) in
  mk (<[sessionId := mkSession protocolVersion peerAddress sessionId
                       (fst (fst (SafeData.move_assign (hmacKey old) key))) now2]> (sessions st))
     (nextCleanup st).

(** [src/src/services/p2p/auth/PeerSessions.cpp:33-46] PeerSessions::getSession

    A copy is returned; the stored session's last use is set. *)
Definition getSession (now : Z) (id : cstr) (st : t) : PeerSession * t :=
  match sessions st !! id with
  | Some s =>
      let s := mkSession (protocolVersion s) (address s) (sessionId s) (hmacKey s) now in
      (mkSession (protocolVersion s) (address s) (sessionId s) (SafeData.copy (hmacKey s)) now,
       mk (<[id := s]> (sessions st)) (nextCleanup st))
  | None => (noSession, st)
  end.

(** ** Sessions and their timeout *)

Inductive op :=
  | OpAdd (now1 now2 : Z) (v : Z) (peer id : cstr) (key : BinData.t)
  | OpGet (now : Z) (id : cstr).

Definition exec (st : t) (o : op) : t :=
  match o with
  | OpAdd now1 now2 v peer id key => addSession now1 now2 v peer id key st
  | OpGet now id => snd (getSession now id st)
  end.

Definition run (os : list op) (st : t) : t := foldl exec st os.

Definition uses (id : cstr) (o : op) : bool :=
  match o with OpAdd _ _ _ _ id' _ => bool_decide (id' = id) | OpGet _ id' => bool_decide (id' = id) end.

(** No session was added at a time more than the timeout after [t0]. *)
Definition adds_before (t0 : Z) (o : op) : Prop :=
  match o with OpAdd now1 _ _ _ _ _ => now1 ≤ t0 + seconds SESSION_TIMEOUT_SECONDS | OpGet _ _ => True end.

Definition other (id : cstr) (o : op) : Prop := uses id o = false.

Lemma move_key b key : fst (fst (SafeData.move_assign b key)) = key.
Proof. destruct key. unfold SafeData.move_assign, BinData.move_assign. by destruct (BinData.cleanup b). Qed.

Lemma exec_keeps id s t0 st o :
  sessions st !! id = Some s → t0 = lastUse s → other id o → adds_before t0 o →
  sessions (exec st o) !! id = Some s.
Proof.
  intros Hs -> Ho Hb. destruct o as [n1 n2 v p id' k|n id']; unfold other in Ho; simpl in *;
    apply bool_decide_eq_false in Ho.
  - unfold addSession; simpl. rewrite lookup_insert_ne by done. unfold cleanup.
    destruct (n1 <? nextCleanup st); [done|]. simpl. apply map_lookup_filter_Some. split; [done|].
    simpl. apply Z.ltb_ge. lia.
  - unfold getSession. destruct (sessions st !! id'); [|done]. simpl. by rewrite lookup_insert_ne.
Qed.

(** A session is found under its identifier, with its peer, version and key, for
    as long as no session is added more than the timeout after its last use: the
    passing of time alone never ends a session, however long it was idle, and every
    look-up starts its timeout afresh. When one is added later than that, the
    session is gone. *)
Theorem session_lifetime (now1 now2 v : Z) (peer id : cstr) (key : BinData.t) (os : list op)
    (st : t) (now : Z) :
  nextCleanup st = 0 →
  Forall (other id) os → Forall (adds_before now2) os →
  let st' := run os (addSession now1 now2 v peer id key st) in
  (let '(s, st'') := getSession now id st' in
   protocolVersion s = v ∧ address s = peer ∧ sessionId s = id ∧
   BinData.contents (hmacKey s) = BinData.contents (SafeData.copy key) ∧
   sessions st'' !! id = Some (mkSession v peer id key now)) ∧
  (∀ n1 n2 v' p' id' k', 0 ≤ n1 → now2 + seconds SESSION_TIMEOUT_SECONDS < n1 → id' ≠ id →
     fst (getSession now id (addSession n1 n2 v' p' id' k' st')) = noSession).
Proof.
  intros Hn Hos Had. set (st1 := addSession now1 now2 v peer id key st).
  assert (Hnext : ∀ os st0, nextCleanup st0 = 0 → nextCleanup (run os st0) = 0).
  { clear. induction os as [|o os IH]; intros st0 H0; [done|]. simpl. apply IH.
    destruct o; simpl; unfold cleanup, getSession; by repeat case_match. }
  assert (Hs : sessions (run os st1) !! id = Some (mkSession v peer id key now2)).
  { assert (H1 : sessions st1 !! id = Some (mkSession v peer id key now2)).
    { subst st1. unfold addSession. cbn [sessions]. by rewrite lookup_insert_eq, move_key. }
    assert (Hn1 : True) by done. revert H1. clear Hn1. generalize st1.
    induction os as [|o os IH]; intros st0 H1; [done|]. apply Forall_cons in Hos as [Ho Hos].
    apply Forall_cons in Had as [Ha Had]. simpl. apply IH; [done|done|]. by eapply exec_keeps. }
  split.
  - unfold getSession. rewrite Hs. simpl. split_and!; [done..|]. by rewrite lookup_insert_eq.
  - intros n1 n2 v' p' id' k' Hn1 Hlate Hid. unfold getSession, addSession; simpl.
    rewrite lookup_insert_ne by done. unfold cleanup. rewrite (Hnext os st1).
    2: { subst st1. unfold addSession, cleanup; simpl. by case_match. }
    rewrite (proj2 (Z.ltb_ge n1 0)) by done. simpl.
    destruct (filter _ _ !! id) as [s|] eqn:E; [|done].
    apply map_lookup_filter_Some in E as [E Hf]. rewrite Hs in E. injection E as <-. simpl in Hf.
    apply Z.ltb_ge in Hf. lia.
Qed.

(** A year later the session is still there. *)
Lemma session_lifetime_witness :
  address (fst (getSession (seconds 31536000) $"id" (addSession 1 2 1 $"peer" $"id" SafeData.new new))) = $"peer".
Proof.
  destruct (session_lifetime 1 2 1 $"peer" $"id" SafeData.new [] new (seconds 31536000)) as [H _].
  - reflexivity.
  - constructor.
  - constructor.
  - simpl run in H. destruct (getSession _ _ _) as [s st]. apply H.
Defined.
End PeerSessions.

Module StakeKey.
Section Code.
Context {K : EvpKeys}.

(** [src/src/services/p2p/auth/StakeKey.h:13-39] StakeKey *)
Record t := mk { address : cstr; key : option EVP_PKEY; pub : bytes; priv : BinData.t }.

Definition new : t := mk [] None [] SafeData.new.

(** [src/src/services/p2p/auth/StakeKey.cpp:8-11] StakeKey::getPub *)
Definition getPub (x : t) : bytes := pub x.
(** [src/src/services/p2p/auth/StakeKey.cpp:13-16] StakeKey::getPriv *)
Definition getPriv (x : t) : BinData.t := priv x.
(** [src/src/services/p2p/auth/StakeKey.cpp:18-21] StakeKey::getKey *)
Definition getKey (x : t) : option EVP_PKEY := key x.
(** [src/src/services/p2p/auth/StakeKey.cpp:23-26] StakeKey::getAddress *)
Definition getAddress (x : t) : cstr := address x.

(** [src/src/services/p2p/auth/StakeKey.cpp:28-45] StakeKey::setKey *)
Definition setKey (a : cstr) (k : option EVP_PKEY) (x : t) : t :=
  match k with
  | Some k' => mk a k (Curve25519.toPublic k') (fst (fst (SafeData.move_assign (priv x) (Curve25519.toPrivate k'))))
  | None => mk a k [] (fst (BinData.clear (priv x)))
  end.
End Code.
End StakeKey.

(** [src/src/services/p2p/auth/ValidatorLookup.h:10-32] ValidatorLookup, ValidatorInfo

    What the handshake needs of the directory of validators. *)
Class Validators := {
  vinfo : Type;
  getValidator : cstr → Details.t → vinfo * Details.t;
  getPubKey : vinfo → bytes;
  isActive : vinfo → bool;
}.

Module ValidatorLookup.
Section Code.
Variable catAuth : Z.

(** [src/src/services/p2p/auth/ValidatorLookup.cpp:6-11] ValidatorInfo::getPubKey *)
Definition info_getPubKey (_ : unit) : bytes := [].

(** [src/src/services/p2p/auth/ValidatorLookup.cpp:13-17] ValidatorInfo::isActive *)
Definition info_isActive (_ : unit) : bool := false.

(** [src/src/services/p2p/auth/ValidatorLookup.cpp:19-27] ValidatorLookup::getValidator *)
Definition lookup_getValidator (address : cstr) (details : Details.t) : unit * Details.t :=
  (tt, Details.setError catAuth ErrorCode.InternalError (Some $"p2p_lookup") $"Not implemented" details).

(** The directory as it is shipped. *)
Definition Shipped : Validators := {|
  vinfo := unit;
  getValidator := lookup_getValidator;
  getPubKey := info_getPubKey;
  isActive := info_isActive;
|}.
End Code.
End ValidatorLookup.

Module Handshake.

(** [src/src/alg/P2pProtocol.h:8-8] P2pProtocol::VERSION *)
Definition VERSION : Z := 1.

(** [src/src/alg/PeerAuth.h:17-17] PeerAuth::AUTH_NONCE_LENGTH *)
Definition AUTH_NONCE_LENGTH : Z := 8.

(** [src/proto/p2p/v1/auth/AuthenticateSession.proto:10-17] AuthenticateSession *)
Record AuthenticateSession := mkReq { version : Z; client_session_id : bytes; auth_address : cstr }.

(** [src/proto/p2p/v1/auth/AuthenticateSession.proto:22-27] AuthenticateSessionResponse *)
Record AuthenticateSessionResponse := mkRsp { rsp_version : Z; server_session_id : bytes }.

(** The clock readings of one request: the brute-force check, an offense, and the
    two of adding a session. *)
Record times := mkTimes { t_check : Z; t_offense : Z; t_clean : Z; t_use : Z }.

Section Code.
Context {R : Rng} {D : Digests} {K : EvpKeys} {A : KeyAgreement K} {V : Validators}.
Variable catAuth catApi : Z.

(** [src/src/svc/api/RequestScene.h:20-65] RequestScene

    The request's error and the objects the service put into the scene; one that was
    not put there is a null reference. *)
Record scene := Scene {
  details : Details.t;
  s_bruteForce : option BruteForce.t;
  s_lookup : bool;
  s_stakeKey : option (StakeKey.t (K := K));
  s_sessions : option PeerSessions.t;
  s_rng : rng;
}.

(** [src/src/services/p2p/core/P2pServiceParams.cpp:22-26] P2pServiceParams::setupScene

    What a new request of the service finds: only these two objects were set. *)
Definition setupScene (stakeKey : StakeKey.t (K := K)) (bruteForce : BruteForce.t) (g : rng) : scene :=
  Scene Details.new (Some bruteForce) false (Some stakeKey) None g.

Definition with_details (d : Details.t) (s : scene) : scene :=
  Scene d (s_bruteForce s) (s_lookup s) (s_stakeKey s) (s_sessions s) (s_rng s).
Definition with_bruteForce (b : BruteForce.t) (s : scene) : scene :=
  Scene (details s) (Some b) (s_lookup s) (s_stakeKey s) (s_sessions s) (s_rng s).
Definition with_sessions (p : PeerSessions.t) (s : scene) : scene :=
  Scene (details s) (s_bruteForce s) (s_lookup s) (s_stakeKey s) (Some p) (s_rng s).
Definition with_rng (g : rng) (s : scene) : scene :=
  Scene (details s) (s_bruteForce s) (s_lookup s) (s_stakeKey s) (s_sessions s) g.

Definition fail (cat : Z) (code : ErrorCode.t) (field msg : cstr) (s : scene) : scene :=
  with_details (Details.setError cat code (Some field) msg (details s)) s.

Definition with_offense (t : Z) (address : cstr) (b : BruteForce.t) (s : scene) : scene :=
  with_bruteForce (BruteForce.addOffense t address b) s.

(** [src/src/services/p2p/api/server/Handshake.cpp:74-110] Handshake::process (session)

    From the server's nonce on, for a validator that was found active. *)
Definition establish (tm : times) (clientAddress : cstr) (clientNonce : bytes) (ver : Z) (info : vinfo)
    (s : scene) : option (option AuthenticateSessionResponse * scene) :=
  let '(serverNonce, g) := Prng.rand (Z.to_nat AUTH_NONCE_LENGTH) (s_rng s) in
  let s := with_rng g s in
  stake ← s_stakeKey s;
  key ← StakeKey.getKey stake;
  let hmacKey := PeerAuth.createMessageAuthKey key (getPubKey info) clientNonce serverNonce in
  if bool_decide (hmacKey = []) then
    Some (None, fail catAuth ErrorCode.InternalError $"derive" $"Failed to derive message authentication key." s)
  else
    let sessionId := PeerAuth.createSessionId clientNonce serverNonce in
    sessions ← s_sessions s;
    let sessions := PeerSessions.addSession (t_clean tm) (t_use tm) (u32 ver) clientAddress sessionId
                      (SafeData.of_memory (Some hmacKey) (zlen hmacKey)) sessions in
    Some (Some (mkRsp VERSION serverNonce), with_sessions sessions s).

(** [src/src/services/p2p/api/server/Handshake.cpp:20-110] Handshake::process *)
Definition process (tm : times) (handshake : AuthenticateSession) (s : scene)
  : option (option AuthenticateSessionResponse * scene) :=
  let clientAddress := auth_address handshake in
  bforce ← s_bruteForce s;
  let '(ok, bforce) := BruteForce.checkAddress (t_check tm) clientAddress bforce in
  let s := with_bruteForce bforce s in
  if negb ok then
    Some (None, fail catAuth ErrorCode.Blocked $"brute_force"
                  ($"Refusing address '" ++ clientAddress ++ $"' due to brute force check.") s)
  else if version handshake <=? 0 then
    let s := fail catApi ErrorCode.ArgumentInvalid $"version"
               ($"Invalid protocol version " ++ Strings.to_string_int (version handshake) ++ $".") s in
    Some (None, with_offense (t_offense tm) clientAddress bforce s)
  else
    let clientNonce := client_session_id handshake in
    if negb (zlen clientNonce =? AUTH_NONCE_LENGTH) then
      let s := fail catAuth ErrorCode.ArgumentInvalid $"client_session_id"
                 $"Invalid client session ID length." s in
      Some (None, with_offense (t_offense tm) clientAddress bforce s)
    else if negb (s_lookup s) then None
    else
      let '(info, d) := getValidator clientAddress (details s) in
      let s := with_details d s in
      if negb (Details.isOk (details s)) then Some (None, s)
      else if negb (isActive info) then
        let s := fail catAuth ErrorCode.NotAuthorized $"auth_address"
                   ($"Validator '" ++ clientAddress ++ $"' is not currently active.") s in
        Some (None, with_offense (t_offense tm) clientAddress bforce s)
      else establish tm clientAddress clientNonce (version handshake) info s.
End Code.

Section Proofs.
Context {R : Rng} {laws : RngLaws R} {D : Digests} {K : EvpKeys} {A : KeyAgreement K} {V : Validators}.
Variable catAuth catApi : Z.

(** What a request must be to open a session, at the time it is checked. *)
Definition well_formed (h : AuthenticateSession) : Prop :=
  0 < version h ∧ zlen (client_session_id h) = AUTH_NONCE_LENGTH.

(** C21: With a running clock and everything in place, a handshake opens a session
    exactly when the address is not locked out, the version is positive, the nonce
    has eight bytes, the directory knows the validator and says it is active, and a
    message key can be derived. The answer then carries an eight-byte nonce, and the
    session is on file under the identifier both sides compute, with the derived
    key; otherwise no session changes. An offense is counted exactly for a malformed
    request of an address that is not locked out, or of a known, inactive one. *)
Theorem handshake_opens_session (tm : times) (h : AuthenticateSession) (s : scene)
    (b : BruteForce.t) (stake : StakeKey.t) (k : EVP_PKEY) (ps : PeerSessions.t) :
  s_bruteForce s = Some b → s_lookup s = true → s_stakeKey s = Some stake →
  StakeKey.getKey stake = Some k → s_sessions s = Some ps →
  let a := auth_address h in
  let cn := client_session_id h in
  let sn := fst (Prng.rand (Z.to_nat AUTH_NONCE_LENGTH) (s_rng s)) in
  let '(free, b') := BruteForce.checkAddress (t_check tm) a b in
  let '(info, d) := getValidator a (details s) in
  let key := PeerAuth.createMessageAuthKey k (getPubKey info) cn sn in
  let accepted := free = true ∧ well_formed h ∧ Details.isOk d = true ∧ isActive info = true ∧ key ≠ [] in
  let offense := free = true ∧ (¬ well_formed h ∨ Details.isOk d = true ∧ isActive info = false) in
  ∃ r s', process catAuth catApi tm h s = Some (r, s') ∧
    (accepted → r = Some (mkRsp VERSION sn) ∧ zlen sn = 8 ∧
       s_sessions s' = Some (PeerSessions.addSession (t_clean tm) (t_use tm) (u32 (version h)) a
                               (PeerAuth.createSessionId cn sn) (SafeData.of_memory (Some key) (zlen key)) ps)) ∧
    (¬ accepted → r = None ∧ s_sessions s' = Some ps ∧ Details.isOk (details s') = false) ∧
    (offense → s_bruteForce s' = Some (BruteForce.addOffense (t_offense tm) a b')) ∧
    (¬ offense → s_bruteForce s' = Some b').
Proof.
  intros Hb Hl Hst Hk Hp. cbv zeta. unfold process. rewrite Hb. cbn [mbind option_bind].
  destruct (BruteForce.checkAddress _ _ b) as [free b'].
  destruct (getValidator (auth_address h) (details s)) as [info d] eqn:Ei.
  destruct free; cbn [negb].
  2: { do 2 eexists. split; [done|]. split_and!; [by intros []|done|by intros []|done]. }
  destruct (Z.leb_spec (version h) 0) as [Hv|Hv].
  { do 2 eexists. split; [done|]. unfold well_formed. split_and!; [intros (_ & [? _] & _); lia|done|done|].
    intros Hn. destruct Hn. split; [done|]. left. lia. }
  destruct (Z.eqb_spec (zlen (client_session_id h)) AUTH_NONCE_LENGTH) as [Hcn|Hcn]; cbn [negb].
  2: { do 2 eexists. split; [done|]. unfold well_formed. split_and!; [intros (_ & [_ ?] & _); done|done|done|].
       intros Hn. destruct Hn. split; [done|]. left. by intros []. }
  cbn [s_lookup with_bruteForce details]. rewrite Hl. cbn [negb]. rewrite Ei.
  cbn [details with_details].
  assert (Hwf : well_formed h) by done.
  destruct (Details.isOk d) eqn:Hd; cbn [negb].
  2: { do 2 eexists. split; [done|]. split_and!; [by intros (_ & _ & ? & _)|done|by intros (_ & [|[]])|done]. }
  destruct (isActive info) eqn:Ha; cbn [negb].
  2: { do 2 eexists. split; [done|]. split_and!; [by intros (_ & _ & _ & ? & _)|done|done|].
       intros Hn. destruct Hn. split; [done|]. by right. }
  unfold establish. cbn [s_rng with_details with_bruteForce].
  destruct (Prng.rand _ (s_rng s)) as [sn g] eqn:Er. apply Prng.rand_ok in Er as [Hlen _].
  cbn [fst with_rng s_stakeKey with_details with_bruteForce s_sessions]. rewrite Hst. cbn [mbind option_bind]. rewrite Hk.
  cbn [mbind option_bind].
  case_bool_decide as Hkey.
  - do 2 eexists. split; [done|]. split_and!; [by intros (_ & _ & _ & _ & ?)|done| |done].
    by intros (_ & [|[_ ?]]).
  - rewrite Hp. cbn [mbind option_bind]. do 2 eexists. split; [done|].
    split_and!; [intros _; split_and!; [done|by rewrite Hlen|done]| | |done].
    + intros Hn. by destruct Hn.
    + by intros (_ & [|[_ ?]]).
Qed.

(** A request that is answered opened the session it was answered for. *)
Lemma answered tm h s ps rsp s' :
  s_sessions s = Some ps → process catAuth catApi tm h s = Some (Some rsp, s') →
  ∃ stake k info d, s_stakeKey s = Some stake ∧ StakeKey.getKey stake = Some k ∧
    getValidator (auth_address h) (details s) = (info, d) ∧
    let key := PeerAuth.createMessageAuthKey k (getPubKey info) (client_session_id h) (server_session_id rsp) in
    key ≠ [] ∧ rsp_version rsp = VERSION ∧
    s_sessions s' = Some (PeerSessions.addSession (t_clean tm) (t_use tm) (u32 (version h)) (auth_address h)
      (PeerAuth.createSessionId (client_session_id h) (server_session_id rsp))
      (SafeData.of_memory (Some key) (zlen key)) ps).
Proof.
  intros Hp. unfold process. destruct (s_bruteForce s) as [b|]; [|done]. cbn [mbind option_bind].
  destruct (BruteForce.checkAddress _ _ b) as [[] b']; cbn [negb]; [|done].
  destruct (version h <=? 0); [done|]. destruct (negb (_ =? _)); [done|].
  destruct (negb (s_lookup _)); [done|]. cbn [details with_bruteForce].
  destruct (getValidator (auth_address h) (details s)) as [info d] eqn:Ei.
  destruct (negb (Details.isOk _)); [done|]. destruct (negb (isActive info)); [done|].
  unfold establish. destruct (Prng.rand _ _) as [sn g].
  cbn [with_rng s_stakeKey with_details with_bruteForce s_sessions].
  destruct (s_stakeKey s) as [stake|]; [|done]. cbn [mbind option_bind].
  destruct (StakeKey.getKey stake) as [k|] eqn:Ek; [|done]. cbn [mbind option_bind].
  case_bool_decide as Hkey; [done|]. rewrite Hp. cbn [mbind option_bind]. intros; simplify_eq.
  by exists stake, k, info, d.
Qed.

(** As shipped, no handshake ever succeeds: the validator directory answers
    every look-up with an error, so no request gets a response and no session is
    ever opened; and with the objects the service really puts into its scene, which
    do not include the directory, a well-formed request of an address that is not
    locked out uses a null reference. *)
Theorem handshake_never_succeeds_as_shipped (tm : times) (h : AuthenticateSession) (s : scene) :
  (∀ r s', process (V := ValidatorLookup.Shipped catAuth) catAuth catApi tm h s = Some (r, s') →
     r = None ∧ s_sessions s' = s_sessions s ∧ (s_bruteForce s ≠ None → Details.isOk (details s') = false)) ∧
  (∀ stake b g, well_formed h → fst (BruteForce.checkAddress (t_check tm) (auth_address h) b) = true →
     process (V := V) catAuth catApi tm h (setupScene stake b g) = None).
Proof.
  split.
  - intros r s'. unfold process. destruct (s_bruteForce s) as [b|]; [|done]. cbn [mbind option_bind].
    destruct (BruteForce.checkAddress _ _ b) as [[] b']; cbn [negb]; [|intros; by simplify_eq].
    destruct (version h <=? 0); [intros; by simplify_eq|].
    destruct (zlen _ =? _); cbn [negb]; [|intros; by simplify_eq].
    cbn [s_lookup with_bruteForce]. destruct (s_lookup s); cbn [negb]; [|done]. simpl.
    intros; by simplify_eq.
  - intros stake b g [Hv Hn] Hf. unfold process. cbn [setupScene s_bruteForce mbind option_bind].
    destruct (BruteForce.checkAddress _ _ b) as [free b']. simpl in Hf. subst free. cbn [negb].
    by rewrite (proj2 (Z.leb_gt _ _)), Hn by done.
Qed.
End Proofs.

(** ** Witnesses: a directory that knows one active validator *)

#[local] Existing Instances Curve25519.ToyKeys ToyDigests PeerAuth.ToyAgreement CounterRng.

#[local] Instance OneValidator : Validators := {|
  vinfo := unit;
  getValidator _ d := (tt, d);
  getPubKey _ := Curve25519.toPublic (K := Curve25519.ToyKeys) false;
  isActive _ := true;
|}.

Definition toy_scene : scene (R := CounterRng) (K := Curve25519.ToyKeys) :=
  Scene Details.new (Some BruteForce.new) true
    (Some (StakeKey.setKey (K := Curve25519.ToyKeys) $"me" (Some true) StakeKey.new))
    (Some PeerSessions.new) (3 : rng (Rng := CounterRng)).

Definition toy_request : AuthenticateSession := mkReq 1 [1; 2; 3; 4; 5; 6; 7; 8] $"peer".

Lemma handshake_opens_session_witness :
  ∃ s', process 1 2 (mkTimes 10 20 30 40) toy_request toy_scene =
    Some (Some (mkRsp 1 (replicate 8 3)), s').
Proof.
  destruct (handshake_opens_session 1 2 (mkTimes 10 20 30 40) toy_request toy_scene BruteForce.new
    (StakeKey.setKey (K := Curve25519.ToyKeys) $"me" (Some true) StakeKey.new) true PeerSessions.new
    eq_refl eq_refl eq_refl eq_refl eq_refl) as (r & s' & Hp & Hacc & _).
  exists s'. rewrite Hp. destruct Hacc as (-> & _); [|reflexivity].
  split_and!; [reflexivity|split; [reflexivity|reflexivity]|reflexivity|reflexivity|]. vm_compute. discriminate.
Defined.

Lemma handshake_never_succeeds_as_shipped_witness :
  process 1 2 (mkTimes 10 20 30 40) toy_request
    (setupScene (R := CounterRng) (K := Curve25519.ToyKeys) StakeKey.new BruteForce.new 3) = None.
Proof.
  apply (proj2 (handshake_never_succeeds_as_shipped 1 2 (mkTimes 10 20 30 40) toy_request toy_scene)
    StakeKey.new BruteForce.new (3 : rng (Rng := CounterRng))); [split|]; reflexivity.
Defined.
End Handshake.

(** ** Both ends of a connection *)
Module PeerLink.
Import Handshake.

Section Link.
Context {R : Rng} {RL : RngLaws R} {D : Digests} {DL : DigestLaws D} {K : EvpKeys} {A : KeyAgreement K} {V : Validators}.
Variable catAuth catApi : Z.

Lemma stored_key key :
  BinData.contents (SafeData.copy (SafeData.of_memory (Some key) (zlen key))) = key.
Proof.
  unfold SafeData.copy, SafeData.of_memory, BinData.copy_assign, BinData.setData. destruct key as [|x key]; [done|].
  rewrite (proj2 (Z.ltb_lt 0 _)) by (simpl length; lia). cbn [fst snd BinData.cleanup BinData.new_secure BinData.buffer BinData.len].
  rewrite (proj2 (Z.ltb_lt 0 _)) by (simpl length; lia). cbn [fst snd BinData.buffer BinData.len BinData.bSecure].
  rewrite !BinData.ztake_len. by apply BinData.contents_exact.
Qed.

(** A handshake that is answered gives both ends the same session. Take a validator with
    key [c] that the directory lists under its address with its public point, and a node
    with the staking key [k]; if the node answers the validator's request, then the identifier
    and the 32-byte message key that the validator computes from its own key, the node's public
    point and the nonce of the response are those under which the node has it on file, with its
    address and version, whatever happens to other sessions until one is added more than the
    timeout later. The keys must be of a kind that can agree on a secret, which the program's own
    are not ([ed25519_opens_no_session]). *)
Theorem handshake_shares_session (tm : times) (h : AuthenticateSession) (s s' : scene)
    (rsp : AuthenticateSessionResponse) (ps : PeerSessions.t) (c k c' k' : EVP_PKEY)
    (os : list PeerSessions.op) (now : Z) :
  s_sessions s = Some ps → PeerSessions.nextCleanup ps = 0 →
  (∀ stake, s_stakeKey s = Some stake → StakeKey.getKey stake = Some k) →
  getPubKey (getValidator (auth_address h) (details s)).1 = Curve25519.toPublic c →
  Curve25519.fromPublic (Curve25519.toPublic c) = Some c' →
  Curve25519.fromPublic (Curve25519.toPublic k) = Some k' →
  PeerAuth.usable c k' → PeerAuth.usable k c' → PeerAuth.agree c k c' k' →
  process catAuth catApi tm h s = Some (Some rsp, s') →
  let cn := client_session_id h in
  let sn := server_session_id rsp in
  let id := PeerAuth.createSessionId cn sn in
  let key := PeerAuth.createMessageAuthKey c (Curve25519.toPublic k) cn sn in
  Forall (PeerSessions.other id) os → Forall (PeerSessions.adds_before (t_use tm)) os →
  rsp_version rsp = VERSION ∧ zlen key = PeerAuth.MESSAGE_AUTH_KEY_LEN ∧
  ∃ ps', s_sessions s' = Some ps' ∧
    let session := (PeerSessions.getSession now id (PeerSessions.run os ps')).1 in
    PeerSessions.address session = auth_address h ∧
    PeerSessions.protocolVersion session = u32 (version h) ∧ PeerSessions.sessionId session = id ∧
    BinData.contents (PeerSessions.hmacKey session) = key.
Proof.
  intros Hs Hn Hk Hdir Hc Hk' Hu1 Hu2 Hag Hp cn sn id key Hos Had.
  apply (answered _ _ _ _ _ ps) in Hp as (stake & k1 & info & d & Hst & Hk1 & Hinfo & Hkey & Hv & Hs'); [|done].
  specialize (Hk stake Hst). simplify_eq. rewrite Hinfo in Hdir. simpl in Hdir. rewrite Hdir in *.
  destruct (PeerAuth.peer_keys_agree c k c' k' cn cn sn Hc Hk' Hu1 Hu2 Hag) as [Hsame Hlen].
  fold cn sn id key in Hs', Hkey, Hsame, Hlen. rewrite <- Hsame in Hs', Hkey.
  split_and!; [done|by destruct Hlen|]. eexists. split; [done|].
  destruct (PeerSessions.session_lifetime (t_clean tm) (t_use tm) (u32 (version h)) (auth_address h) id
    (SafeData.of_memory (Some key) (zlen key)) os ps now Hn Hos Had) as [Hget _].
  destruct (PeerSessions.getSession now id _) as [session st'']. destruct Hget as (? & ? & ? & Hkc & _).
  by rewrite stored_key in Hkc.
Qed.
End Link.

(** ** The keys the program has *)
Section Ed25519.
Context {R : Rng} {D : Digests} {K : EvpKeys} {KL : Curve25519.EvpKeyLaws K} {A : KeyAgreement K} {V : Validators}.
Context {AL : KeyAgreementLaws K}.
Variable catAuth catApi : Z.

Lemma ed_establish tm a cn ver info s stake k :
  s_stakeKey s = Some stake → StakeKey.getKey stake = Some k → Curve25519.is_ed k →
  establish catAuth tm a cn ver info s =
    let s := with_rng (snd (Prng.rand (Z.to_nat AUTH_NONCE_LENGTH) (s_rng s))) s in
    Some (None, fail catAuth ErrorCode.InternalError $"derive" $"Failed to derive message authentication key." s).
Proof.
  intros Hst Hk Hed. unfold establish. destruct (Prng.rand _ _) as [sn g]. simpl s_stakeKey. rewrite Hst.
  cbn [mbind option_bind]. rewrite Hk. cbn [mbind option_bind].
  by rewrite PeerAuth.ed_derives_nothing, bool_decide_eq_true_2 by done.
Qed.

(** C22: No node can open a session. The staking keys of nodes are Ed25519 keys, which sign but take no part
    in a key agreement, so the message key cannot be derived: whatever the
    directory of validators says, no handshake is answered and no session changes; one that
    passes every check, of an active validator with a well-formed request, ends in an
    internal error, and that is not counted as an offense. *)
Theorem ed25519_opens_no_session (tm : times) (h : AuthenticateSession) (s : scene)
    (stake : StakeKey.t) (k : EVP_PKEY) :
  s_stakeKey s = Some stake → StakeKey.getKey stake = Some k → Curve25519.is_ed k →
  (∀ r s', process catAuth catApi tm h s = Some (r, s') → r = None ∧ s_sessions s' = s_sessions s) ∧
  (∀ b, s_bruteForce s = Some b → s_lookup s = true → well_formed h →
     let '(free, b') := BruteForce.checkAddress (t_check tm) (auth_address h) b in
     let '(info, d) := getValidator (auth_address h) (details s) in
     free = true → Details.isOk d = true → isActive info = true →
     ∃ s', process catAuth catApi tm h s = Some (None, s') ∧ s_bruteForce s' = Some b' ∧
       details s' = Details.setError catAuth ErrorCode.InternalError (Some $"derive")
                      $"Failed to derive message authentication key." d).
Proof.
  intros Hst Hk Hed. split.
  - intros r s'. unfold process. destruct (s_bruteForce s) as [b|]; [|done]. cbn [mbind option_bind].
    destruct (BruteForce.checkAddress _ _ b) as [[] b']; cbn [negb]; [|by intros; simplify_eq].
    destruct (version h <=? 0); [by intros; simplify_eq|]. destruct (negb (_ =? _)); [by intros; simplify_eq|].
    destruct (negb (s_lookup _)); [done|]. destruct (getValidator _ _) as [info d].
    destruct (negb (Details.isOk _)); [by intros; simplify_eq|]. destruct (negb (isActive info)); [by intros; simplify_eq|].
    rewrite (ed_establish _ _ _ _ _ _ stake k) by done. cbv zeta. by intros; simplify_eq.
  - intros b Hb Hl [Hv Hcn]. destruct (BruteForce.checkAddress _ _ b) as [free b'] eqn:Eb.
    destruct (getValidator _ (details s)) as [info d] eqn:Ei. intros -> Hd Ha.
    unfold process. rewrite Hb. cbn [mbind option_bind]. rewrite Eb. cbn [negb].
    rewrite (proj2 (Z.leb_gt _ _)), Hcn by done. cbn [negb Z.eqb Pos.eqb AUTH_NONCE_LENGTH s_lookup with_bruteForce].
    rewrite Hl. cbn [negb details with_bruteForce]. rewrite Ei. cbn [details with_details]. rewrite Hd. cbn [negb]. rewrite Ha. cbn [negb].
    rewrite (ed_establish _ _ _ _ _ _ stake k) by done. by eexists.
Qed.
End Ed25519.

(** ** Witnesses *)

#[local] Existing Instances Curve25519.ToyKeys Curve25519.ToyKeys_laws ToyDigests CounterRng Handshake.OneValidator.

(** Keys that can agree. *)
Lemma handshake_shares_session_witness :
  ∃ s', process (A := PeerAuth.ToyAgreement) 1 2 (mkTimes 10 20 30 40) toy_request toy_scene =
      Some (Some (mkRsp 1 (replicate 8 3)), s') ∧
    zlen (PeerAuth.createMessageAuthKey (A := PeerAuth.ToyAgreement) (false : EVP_PKEY (EvpKeys := Curve25519.ToyKeys))
      (Curve25519.toPublic true) [1; 2; 3; 4; 5; 6; 7; 8] (replicate 8 3)) = 32.
Proof.
  assert (Hr : fst <$> process (A := PeerAuth.ToyAgreement) 1 2 (mkTimes 10 20 30 40) toy_request toy_scene =
    Some (Some (mkRsp 1 (replicate 8 3)))) by reflexivity.
  destruct (process (A := PeerAuth.ToyAgreement) 1 2 (mkTimes 10 20 30 40) toy_request toy_scene) as [[r s']|] eqn:E;
    [|done]. injection Hr as ->.
  exists s'. split; [done|].
  apply (handshake_shares_session (A := PeerAuth.ToyAgreement) 1 2 (mkTimes 10 20 30 40) toy_request toy_scene s'
    (mkRsp 1 (replicate 8 3)) PeerSessions.new false true false true [] 50); try exact E; try (split_and!; reflexivity);
    try constructor.
  by intros stake [= <-].
Defined.

Lemma ed25519_opens_no_session_witness :
  ∃ s', process (A := PeerAuth.SigningOnly) 1 2 (mkTimes 10 20 30 40) toy_request toy_scene = Some (None, s').
Proof.
  pose proof (proj2 (ed25519_opens_no_session (A := PeerAuth.SigningOnly) (AL := PeerAuth.SigningOnly_laws) 1 2 (mkTimes 10 20 30 40)
    toy_request toy_scene (StakeKey.setKey (K := Curve25519.ToyKeys) $"me" (Some true) StakeKey.new) true
    eq_refl eq_refl I) BruteForce.new eq_refl eq_refl (conj eq_refl eq_refl)) as H.
  destruct (H eq_refl eq_refl eq_refl) as (s' & Hs & _). by exists s'.
Defined.
End PeerLink.
