(* ===== verification/Args.v ===== *)
(** * Command line: [utils/ArgParser], [svc/service/LogArgs]

    [argv] is the process memory that holds the arguments: a list of C strings
    that [maskArg] writes to.  A [const char *] is either the index of an argument
    or a string literal.  Parsing is structural on what is left of [argv]; the help
    text needs [DelimitedString::fromString], which may not end, so a parse returns
    an [option] with the fuel of that loop. *)

From S2P Require Import Prelude Strings.

Module Args.

(** A [const char *] kept by the parser: into [argv], or a string literal. *)
Inductive ptr := Argv (i : nat) | Literal (s : cstr).

#[global] Instance ptr_eq_dec : EqDecision ptr.
Proof. solve_decision. Defined.

(** [src/src/utils/ArgParser.h:18-53] Args *)
Record t := mk {
  bError : bool;
  args : gmap cstr (list cstr);
  originals : gmap cstr (list ptr)
}.

(** [src/src/utils/ArgParser.cpp:10-13] Args::Args *)
Definition new : t := mk false ∅ ∅.

(** [src/src/utils/ArgParser.cpp:15-18] Args::hasError *)
Definition hasError (x : t) : bool := bError x.

(** [src/src/utils/ArgParser.cpp:20-23] Args::setError *)
Definition setError (x : t) : t := mk true (args x) (originals x).

(** [src/src/utils/ArgParser.cpp:25-28] Args::hasArg *)
Definition hasArg (arg : cstr) (x : t) : bool := bool_decide (is_Some (args x !! arg)).

(** [src/src/utils/ArgParser.cpp:30-34] Args::getArg

    [back()] of an empty list is undefined; the parser never stores one. *)
Definition getArg (arg : cstr) (x : t) : option cstr :=
  match args x !! arg with
  | None => Some []
  | Some l => last l
  end.

(** [src/src/utils/ArgParser.cpp:36-40] Args::getArgs *)
Definition getArgs (arg : cstr) (x : t) : list cstr := default [] (args x !! arg).

(** [src/src/utils/ArgParser.cpp:42-45] Args::getInt *)
Definition getInt (arg : cstr) (x : t) : option Z := Strings.atoi <$> getArg arg x.

(** [std::stoul]: [None] for the exceptions it throws, on text without a number and
    on numbers above [ULONG_MAX]. *)
Definition stoul (s : cstr) : option Z :=
  let body := match Strings.skip_space (Strings.c_str s) with
              | c :: rest => if (c =? chr "-") || (c =? chr "+") then rest else c :: rest
              | [] => []
              end in
  if bool_decide (Strings.take_digits body = []) then None
  else let '(neg, v) := Strings.scan s in
       if 2 ^ 64 <=? v then None else Some (u64 (if neg then - v else v)).

(** [src/src/utils/ArgParser.cpp:53-62] Args::getSizeT *)
Definition getSizeT (arg : cstr) (x : t) : option Z :=
  v ← getArg arg x; Some (default 0 (stoul v)).

Definition UINT_MAX : Z := 2 ^ 32 - 1.

(** [src/src/utils/ArgParser.cpp:47-51] Args::getUInt *)
Definition getUInt (arg : cstr) (x : t) : option Z :=
  val ← getSizeT arg x; Some (if UINT_MAX <? val then UINT_MAX else u32 val).

(** [tolower] in the C locale. *)
Definition tolower (c : Z) : Z := if (65 <=? c) && (c <=? 90) then c + 32 else c.

(** [src/src/utils/ArgParser.cpp:64-75] Args::getBool *)
Definition getBool (arg : cstr) (x : t) : option bool :=
  if negb (hasArg arg x) then Some false
  else
    value ← getArg arg x;
    if (0 <? Strings.atoi value) || bool_decide (value = $"true") || bool_decide (value = $"t")
    then Some true
    else let value := tolower <$> value in
         Some (bool_decide (value = $"true") || bool_decide (value = $"t")).

(** [m[arg].push_back(v)] *)
Definition push_back {A} (arg : cstr) (v : A) (m : gmap cstr (list A)) : gmap cstr (list A) :=
  <[arg := default [] (m !! arg) ++ [v]]> m.

(** [src/src/utils/ArgParser.cpp:77-80] Args::addArg(string) *)
Definition addArg_string (arg value : cstr) (x : t) : t :=
  mk (bError x) (push_back arg value (args x)) (originals x).

(** What a pointer points at. *)
Definition deref (argv : list cstr) (p : ptr) : cstr :=
  match p with Argv i => Strings.c_str (nth i argv []) | Literal s => s end.

(** [src/src/utils/ArgParser.cpp:82-86] Args::addArg(pointer) *)
Definition addArg (argv : list cstr) (arg : cstr) (value : ptr) (x : t) : t :=
  mk (bError x) (push_back arg (deref argv value) (args x)) (push_back arg value (originals x)).

(** [*p = 0]: a literal is in read-only memory. *)
Definition zero_first (p : ptr) (argv : list cstr) : option (list cstr) :=
  match p with
  | Argv i => Some (alter (λ s, <[0%nat := 0]> s) i argv)
  | Literal _ => None
  end.

(** [src/src/utils/ArgParser.cpp:88-96] Args::maskArg *)
Definition maskArg (arg : cstr) (x : t) (argv : list cstr) : option (list cstr) :=
  match originals x !! arg with
  | None => Some argv
  | Some l => foldl (λ m p, m ≫= zero_first p) (Some argv) l
  end.

End Args.

Module ArgParser.
Import Args.

(** [src/src/utils/ArgParser.h:58-113] ArgParser

    [shortArgs] is keyed by the value of a signed [char]. *)
Record t := mk {
  order : list cstr;
  shortArgs : gmap Z cstr;
  descriptions : gmap cstr cstr;
  switches : gset cstr
}.

Definition new : t := mk [] ∅ ∅ ∅.

(** [src/src/utils/ArgParser.cpp:98-109] ArgParser::addParam(char) *)
Definition addParam_short (shortcut : Z) (param description : cstr) (x : t) : t :=
  mk (order x ++ [param]) (<[swrap 8 shortcut := param]> (shortArgs x))
     (<[param := description]> (descriptions x)) (switches x).

(** [src/src/utils/ArgParser.cpp:111-119] ArgParser::addParam *)
Definition addParam (param description : cstr) (x : t) : t :=
  mk (order x ++ [param]) (shortArgs x) (<[param := description]> (descriptions x)) (switches x).

(** [src/src/utils/ArgParser.cpp:121-133] ArgParser::addSwitch(char) *)
Definition addSwitch_short (shortcut : Z) (flag description : cstr) (x : t) : t :=
  mk (order x ++ [flag]) (<[swrap 8 shortcut := flag]> (shortArgs x))
     (<[flag := description]> (descriptions x)) ({[flag]} ∪ switches x).

(** [src/src/utils/ArgParser.cpp:135-144] ArgParser::addSwitch *)
Definition addSwitch (flag description : cstr) (x : t) : t :=
  mk (order x ++ [flag]) (shortArgs x) (<[flag := description]> (descriptions x))
     ({[flag]} ∪ switches x).

(** [src/src/utils/ArgParser.cpp:222-226] ArgParser::addCategory *)
Definition addCategory (category : cstr) (x : t) : t :=
  mk (order x ++ [category]) (shortArgs x) (descriptions x) (switches x).

(** ** The help text *)

Definition DESCRIPTION_INDENTION : Z := 40.

(** [src/src/utils/ArgParser.cpp:235-243] printDesc

    The text written and the next column. *)
Definition printDesc (pos : Z) (desc : cstr) : cstr * Z :=
  (replicate (Z.to_nat (DESCRIPTION_INDENTION - pos)) 32 ++ Strings.c_str desc ++ [10], 0).

(** The first short flag of a parameter, in the order of the map; zero if none. *)
Definition shortcut_of (param : cstr) (x : t) : Z :=
  match list_find (λ kv, kv.2 = param) (ordered (shortArgs x)) with
  | Some (_, (c, _)) => c
  | None => 0
  end.

(** [src/src/utils/ArgParser.cpp:249-288] ArgParser::printHelp (one entry) *)
Definition help_entry (fuel : nat) (x : t) (param : cstr) : option cstr :=
  match descriptions x !! param with
  | None => Some ([10] ++ Strings.c_str param ++ [10])
  | Some desc =>
      let shortcut := shortcut_of param x in
      let bSwitch := bool_decide (param ∈ switches x) in
      let text := $"    " ++ (if shortcut =? 0 then [] else $"-" ++ [u8 shortcut] ++ $" ")
                  ++ $"--" ++ Strings.c_str param ++ (if bSwitch then [] else $" <Value>") in
      lines ← DelimitedString.fromString Strings.from_string_string fuel desc 10;
      Some (foldl (λ '(out, pos) line, let '(o, p) := printDesc pos line in (out ++ o, p))
                  (text, zlen text) lines).1
  end.

(** [src/src/utils/ArgParser.cpp:228-291] ArgParser::printHelp *)
Definition printHelp (fuel : nat) (x : t) : option cstr :=
  let head := $"Usage:" ++ [10; 10] ++ $"General" ++ [10] ++ $"    --help" in
  let head := head ++ (printDesc (zlen ($"    --help")) $"This help menu").1 in
  entries ← mapM (help_entry fuel x) (order x);
  Some (head ++ concat entries).

(** ** Parsing *)

(** The flag a word names: after two dashes, or through its one-letter form. *)
Definition flag_of (x : t) (tk : cstr) : option cstr :=
  if is_prefix $"--" tk then Some (drop 2 tk)
  else if (zlen tk =? 2) && is_prefix $"-" tk then
    shortArgs x !! swrap 8 (nth 1 tk 0)
  else None.

(** [src/src/utils/ArgParser.cpp:153-213] ArgParser::parse (loop)

    [rest] is [argv] from position [pos] on. *)
Fixpoint parse_loop (x : t) (argv : list cstr) (rest : list cstr) (pos : nat) (a : Args.t) : Args.t :=
  match rest with
  | [] => a
  | word :: rest =>
      match flag_of x (Strings.c_str word) with
      | None => parse_loop x argv rest (S pos) a
      | Some tk =>
          if bool_decide (tk = $"help") then parse_loop x argv rest (S pos) (setError a)
          else match descriptions x !! tk with
          | None => parse_loop x argv rest (S pos) (setError a)
          | Some _ =>
              if bool_decide (tk ∈ switches x) then
                parse_loop x argv rest (S pos) (addArg argv tk (Literal $"1") a)
              else match rest with
              | [] => setError a
              | _ :: rest => parse_loop x argv rest (S (S pos)) (addArg argv tk (Argv (S pos)) a)
              end
          end
      end
  end.

(** [src/src/utils/ArgParser.cpp:146-220] ArgParser::parse

    A null [argv] gives no arguments.  [None]: the help text is being printed forever. *)
Definition parse (fuel : nat) (x : t) (argc : nat) (argv : option (list cstr)) : option Args.t :=
  match argv with
  | None => Some Args.new
  | Some argv =>
      let a := parse_loop x argv (drop 1 (take argc argv)) 1 Args.new in
      if hasError a then printHelp fuel x ≫= λ _, Some a else Some a
  end.

(** ** What a parse records *)

(** A value kept for flag [f] of a command line: a switch counts as the text 1, any
    other flag takes the word after it. *)
Definition came_from (x : t) (argv : list cstr) (f : cstr) (p : ptr) : Prop :=
  (f ∈ switches x ∧ p = Literal $"1") ∨
  ((f ∉ switches x) ∧ ∃ i, p = Argv (S i) ∧ (1 ≤ i)%nat ∧ (S i < length argv)%nat ∧
     flag_of x (Strings.c_str (nth i argv [])) = Some f).

(** The invariant of the parser's result: a value for every pointer, in order, no
    empty list, only flags that were set up, and every pointer accounted for. *)
Record wf (x : t) (argv : list cstr) (a : Args.t) : Prop := {
  wf_values : args a = (λ l : list ptr, deref argv <$> l) <$> originals a;
  wf_nonempty f l : originals a !! f = Some l → l ≠ [];
  wf_known f l : originals a !! f = Some l → is_Some (descriptions x !! f);
  wf_from f l p : originals a !! f = Some l → p ∈ l → came_from x argv f p
}.

Lemma wf_new x argv : wf x argv Args.new.
Proof. split; simpl; [by rewrite fmap_empty|intros f l; by rewrite lookup_empty..|]. intros f l p. by rewrite lookup_empty. Qed.

Lemma wf_setError x argv a : wf x argv a → wf x argv (setError a).
Proof. by intros []; split. Qed.

Lemma wf_addArg x argv a f p :
  wf x argv a → is_Some (descriptions x !! f) → came_from x argv f p → wf x argv (addArg argv f p a).
Proof.
  intros [Hv Hn Hk Hf] Hd Hp. unfold addArg, push_back. split; simpl.
  - rewrite Hv, fmap_insert, lookup_fmap. f_equal. destruct (originals a !! f); simpl; by rewrite ?fmap_app.
  - intros g l. rewrite lookup_insert. case_decide; [|apply Hn]. intros [= <-]. by destruct (default _ _).
  - intros g l. rewrite lookup_insert. case_decide as E; [by subst|apply Hk].
  - intros g l q. rewrite lookup_insert. case_decide as E; [|apply Hf]. subst g. intros [= <-].
    rewrite elem_of_app, list_elem_of_singleton. intros [Hq | ->]; [|done].
    destruct (originals a !! f) eqn:E; [by eapply Hf|set_solver].
Qed.

Lemma drop_cons_inv {A} (d : A) (l : list A) n y rest :
  drop n l = y :: rest → nth n l d = y ∧ (n < length l)%nat ∧ drop (S n) l = rest.
Proof.
  revert n. induction l as [|z l IH]; intros [|n]; simpl; try done.
  - intros [= -> ->]. split_and!; [done|lia|done].
  - intros (? & ? & ?)%IH. split_and!; [done|lia|done].
Qed.

Lemma parse_loop_wf x argv rest pos a n :
  (length rest ≤ n)%nat → rest = drop pos argv → (1 ≤ pos)%nat → wf x argv a →
  wf x argv (parse_loop x argv rest pos a).
Proof.
  revert rest pos a. induction n as [|n IH]; intros [|word rest] pos a Hn Hrest Hpos Ha;
    simpl in *; [done|lia|done|].
  symmetry in Hrest. apply (drop_cons_inv []) in Hrest as (Hnth & Hlt & Hdrop).
  assert (Hone : ∀ a, wf x argv a → wf x argv (parse_loop x argv rest (S pos) a)).
  { intros a' Ha'. apply IH; [lia|done|lia|done]. }
  destruct (flag_of x _) as [tk|] eqn:Hflag; [|by apply Hone].
  case_bool_decide; [by apply Hone, wf_setError|].
  destruct (descriptions x !! tk) as [d|] eqn:Hd; [|by apply Hone, wf_setError].
  case_bool_decide as Hsw; [apply Hone, wf_addArg; [done|by eexists|by left]|].
  destruct rest as [|v rest]; [by apply wf_setError|].
  apply (drop_cons_inv []) in Hdrop as (_ & Hlt' & Hdrop).
  apply IH; [simpl in *; lia|done|lia|]. apply wf_addArg; [done|by eexists|]. right.
  split; [done|]. exists pos. by rewrite Hnth.
Qed.

(** [parse] on the whole command line: what the loop leaves. *)
Lemma parse_some fuel x argv a :
  parse fuel x (length argv) (Some argv) = Some a → a = parse_loop x argv (drop 1 argv) 1 Args.new.
Proof.
  unfold parse. rewrite firstn_all. case_match; [|congruence].
  destruct (printHelp fuel x); [|done]. simpl. congruence.
Qed.

(** An option the parser does not have is never recorded. *)
Lemma parse_unknown fuel x argv a f :
  parse fuel x (length argv) (Some argv) = Some a → descriptions x !! f = None →
  originals a !! f = None ∧ args a !! f = None.
Proof.
  intros ->%parse_some Hf. destruct (parse_loop_wf x argv (drop 1 argv) 1 Args.new _ (le_n _)) as [Hv _ Hk _];
    [done|lia|apply wf_new|]. revert Hv Hk. generalize (parse_loop x argv (drop 1 argv) 1 Args.new). intros a Hv Hk.
  assert (Ho : originals a !! f = None).
  { destruct (originals a !! f) as [l|] eqn:E; [|done]. apply Hk in E as [? E]. congruence. }
  split; [done|]. by rewrite Hv, lookup_fmap, Ho.
Qed.

(** ** What every word of a command line is, by its position alone *)
Section Words.
Context (x : t) (argv : list cstr).

Definition word (i : nat) : cstr := Strings.c_str (nth i argv []).

(** The word is a flag that takes the next word as its value. *)
Definition takes_value (w : cstr) : bool :=
  match flag_of x w with
  | Some f => bool_decide (f ≠ $"help") && bool_decide (is_Some (descriptions x !! f)) && bool_decide (f ∉ switches x)
  | None => false
  end.

(** The word at a position is a value: the one before it takes one, and is not a value itself. *)
Fixpoint value_at (i : nat) : bool :=
  match i with
  | O => false
  | S j => (0 <? j)%nat && negb (value_at j) && takes_value (word j)
  end.

(** A word is passed over, is refused, or gives a flag a value, the text 1 or the next word. *)
Inductive reading := Over | Refused | Given (f : cstr) (p : ptr).

Definition reading_at (i : nat) : reading :=
  if value_at i then Over
  else match flag_of x (word i) with
  | None => Over
  | Some f =>
      if bool_decide (f = $"help") || bool_decide (descriptions x !! f = None) then Refused
      else if bool_decide (f ∈ switches x) then Given f (Literal $"1")
      else if (S i <? length argv)%nat then Given f (Argv (S i)) else Refused
  end.

(** The positions from [pos] on. *)
Definition from (pos : nat) : list nat := seq pos (length argv - pos).

Definition given_to (f : cstr) (i : nat) : option ptr :=
  match reading_at i with Given g p => if decide (g = f) then Some p else None | _ => None end.
Definition given (f : cstr) (l : list nat) : list ptr := omap (given_to f) l.
Definition refused (l : list nat) : bool := existsb (λ i, match reading_at i with Refused => true | _ => false end) l.

(** What the parser keeps of the words at [l], added to what it had. *)
Definition records (l : list nat) (a a' : Args.t) : Prop :=
  bError a' = bError a || refused l ∧
  ∀ f, default [] (originals a' !! f) = default [] (originals a !! f) ++ given f l.

Lemma addArg_given f p g a :
  default [] (originals (addArg argv f p a) !! g) =
    default [] (originals a !! g) ++ (if decide (f = g) then [p] else []).
Proof.
  unfold addArg, push_back; simpl. rewrite lookup_insert.
  destruct (decide (f = g)) as [->|]; simpl; by rewrite ?app_nil_r.
Qed.

Lemma records_nil a : records [] a a.
Proof. split; [by rewrite orb_false_r|]. intros f. by rewrite app_nil_r. Qed.

Lemma records_cons i l a a' :
  match reading_at i with
  | Over => records l a a'
  | Refused => records l (setError a) a'
  | Given f p => records l (addArg argv f p a) a'
  end → records (i :: l) a a'.
Proof.
  unfold records, refused, given. intros H. cbn [existsb omap list_omap]. unfold given_to at 1.
  destruct (reading_at i) as [| |f p] eqn:E; destruct H as [He Hg].
  - split; [done|]. exact Hg.
  - split; [|exact Hg]. rewrite He. simpl. by rewrite orb_true_r.
  - split; [exact He|]. intros g. rewrite Hg, addArg_given, <- app_assoc. by destruct (decide (f = g)).
Qed.

Lemma from_cons pos : (pos < length argv)%nat → from pos = pos :: from (S pos).
Proof. intros Hp. unfold from. replace (length argv - pos)%nat with (S (length argv - S pos)) by lia. done. Qed.

Lemma from_end pos : (length argv ≤ pos)%nat → from pos = [].
Proof. intros Hp. unfold from. by replace (length argv - pos)%nat with 0%nat by lia. Qed.

(** The loop reads the words one by one as their positions say. *)
Lemma parse_loop_records rest pos a n :
  (length rest ≤ n)%nat → rest = drop pos argv → (1 ≤ pos)%nat → value_at pos = false →
  records (from pos) a (parse_loop x argv rest pos a).
Proof.
  revert rest pos a. induction n as [|n IH]; intros [|w rest] pos a Hn Hrest Hpos Hval; cbn [parse_loop].
  1,3: symmetry in Hrest; apply drop_nil_inv in Hrest; rewrite from_end by done; apply records_nil.
  { simpl in Hn. lia. }
  symmetry in Hrest. apply (drop_cons_inv []) in Hrest as (Hw & Hlt & Hrest). simpl in Hn.
  rewrite from_cons by done. apply records_cons. unfold reading_at. rewrite Hval. unfold word. rewrite Hw.
  assert (Hnext : value_at (S pos) = takes_value (Strings.c_str w)).
  { cbn [value_at]. rewrite Hval, (proj2 (Nat.ltb_lt 0 pos)) by lia. unfold word. by rewrite Hw. }
  assert (Hone : ∀ a, takes_value (Strings.c_str w) = false → records (from (S pos)) a (parse_loop x argv rest (S pos) a)).
  { intros a' Ht. apply IH; [lia|done|lia|by rewrite Hnext]. }
  unfold takes_value in Hnext, Hone. destruct (flag_of x (Strings.c_str w)) as [f|]; [|by apply Hone].
  destruct (decide (f = $"help")) as [Hh|Hh].
  { rewrite !(bool_decide_eq_true_2 (f = _)) by done. cbn [orb]. apply Hone. by rewrite bool_decide_eq_false_2 by auto. }
  rewrite !(bool_decide_eq_false_2 (f = _)) by done. cbn [orb].
  destruct (descriptions x !! f) as [d|] eqn:Hd.
  2: { rewrite (bool_decide_eq_true_2 (None = None)) by done. apply Hone.
       by rewrite (bool_decide_eq_false_2 (is_Some None)), andb_false_r by by intros []. }
  rewrite (bool_decide_eq_false_2 (Some d = None)) by done.
  destruct (decide (f ∈ switches x)) as [Hs|Hs].
  { rewrite !(bool_decide_eq_true_2 (f ∈ _)) by done. apply Hone. by rewrite (bool_decide_eq_false_2 (f ∉ _)), andb_false_r by auto. }
  rewrite !(bool_decide_eq_false_2 (f ∈ _)) by done. clear Hone.
  rewrite !bool_decide_eq_true_2 in Hnext by (done || by eexists). cbn [andb] in Hnext.
  destruct rest as [|v rest].
  - symmetry in Hrest. pose proof (drop_nil_inv _ _ (eq_sym Hrest)) as Hlen.
    rewrite (proj2 (Nat.ltb_ge _ _)) by done. rewrite from_end by done. apply records_nil.
  - pose proof (drop_cons_inv [] _ _ _ _ Hrest) as (_ & Hlt' & Hrest'). rewrite (proj2 (Nat.ltb_lt _ _)) by done.
    cbn iota. rewrite from_cons by done. apply records_cons. unfold reading_at. rewrite Hnext. simpl in Hn.
    apply IH; [lia|done|lia|]. change (value_at (S (S pos))) with ((0 <? S pos)%nat && negb (value_at (S pos)) && takes_value (word (S pos))).
    by rewrite Hnext.
Qed.
End Words.

(** C26: The command line parser records exactly what the words say. Call a word, after the
    program's name, a value if the word before it is a flag that takes one and is not a value
    itself. Whatever the command line, the values recorded for a flag are, in order, one for
    every word that is not a value and names the flag, in its long or short form: the text 1 for
    a switch, and the next word for any other flag. No occurrence is lost, no value is read as
    a flag, nothing is recorded for a flag that was not set up; a flag counts as given exactly
    when it has an occurrence, and asking for one value gives the last. The error is set exactly
    when a word that is no value asks for help, names an unknown flag in its long form, or takes
    a value and is the last. *)
Theorem parse_invariant (fuel : nat) (x : t) (argv : list cstr) (a : Args.t)
    (Hparse : parse fuel x (length argv) (Some argv) = Some a) :
  let values f := deref argv <$> given x argv f (from argv 1) in
  (∀ f, default [] (originals a !! f) = given x argv f (from argv 1) ∧ getArgs f a = values f ∧
        hasArg f a = bool_decide (values f ≠ []) ∧ getArg f a = Some (default [] (last (values f))) ∧
        (values f ≠ [] → is_Some (descriptions x !! f))) ∧
  (hasError a = true ↔ ∃ i, (1 ≤ i < length argv)%nat ∧ reading_at x argv i = Refused).
Proof.
  apply parse_some in Hparse as ->. intros values.
  destruct (parse_loop_wf x argv (drop 1 argv) 1 Args.new _ (le_n _)) as [Hv Hn Hk _]; [done|lia|apply wf_new|].
  destruct (parse_loop_records x argv (drop 1 argv) 1 Args.new _ (le_n _)) as [He Hg]; [done|lia|done|].
  revert Hv Hn Hk He Hg. generalize (parse_loop x argv (drop 1 argv) 1 Args.new). intros a Hv Hn Hk He Hg. split.
  - intros f. specialize (Hg f). simpl in Hg. rewrite lookup_empty in Hg. simpl in Hg.
    unfold getArgs, hasArg, getArg, values. rewrite <- Hg, Hv, lookup_fmap.
    destruct (originals a !! f) as [l|] eqn:E; cbn [fmap option_fmap option_map default from_option].
    + assert (deref argv <$> l ≠ []) as Hne by (intros Hl%fmap_nil_inv; by apply (Hn f l)).
      rewrite !bool_decide_eq_true_2 by (done || by eexists). split_and!; [done..| |intros _; by eapply Hk].
      unfold id. destruct (last (deref argv <$> l)) eqn:El; [done|]. by apply last_None in El.
    + rewrite bool_decide_eq_false_2 by by intros []. by rewrite bool_decide_eq_false_2 by auto.
  - unfold hasError. rewrite He. simpl. unfold refused. rewrite existsb_exists. split.
    + intros (i & [Hi1 Hi2]%in_seq & Hr). exists i. split; [lia|]. by destruct (reading_at x argv i).
    + intros (i & Hi & Hr). exists i. rewrite Hr. split; [apply in_seq; lia|done].
Qed.

(** ** Command lines that mean something *)

Inductive item :=
  | Long (flag value : cstr)
  | Short (c : Z) (flag value : cstr)
  | LongSwitch (flag : cstr)
  | ShortSwitch (c : Z) (flag : cstr).

Definition render (it : item) : list cstr :=
  match it with
  | Long f v => [$"--" ++ f; v]
  | Short c _ v => [$"-" ++ [c]; v]
  | LongSwitch f => [$"--" ++ f]
  | ShortSwitch c _ => [$"-" ++ [c]]
  end.

Definition item_flag (it : item) : cstr :=
  match it with Long f _ | Short _ f _ | LongSwitch f | ShortSwitch _ f => f end.
Definition item_value (it : item) : cstr :=
  match it with Long _ v | Short _ _ v => v | _ => $"1" end.

(** The flag is set up, spelt as it was set up, and is a switch exactly if it has no
    value of its own; arguments are C strings. *)
Definition item_ok (x : t) (it : item) : Prop :=
  is_Some (descriptions x !! item_flag it) ∧ item_flag it ≠ $"help" ∧
  match it with
  | Long f v => (f ∉ switches x) ∧ (0 ∉ f) ∧ (0 ∉ v)
  | Short c f v => (f ∉ switches x) ∧ shortArgs x !! swrap 8 c = Some f ∧ c ≠ 0 ∧ c ≠ chr "-" ∧ (0 ∉ v)
  | LongSwitch f => (f ∈ switches x) ∧ (0 ∉ f)
  | ShortSwitch c f => (f ∈ switches x) ∧ shortArgs x !! swrap 8 c = Some f ∧ c ≠ 0 ∧ c ≠ chr "-"
  end.

Lemma c_str_id s : 0 ∉ s → Strings.c_str s = s.
Proof.
  induction s as [|c s IH]; [done|]. intros Hs. simpl. rewrite (proj2 (Z.eqb_neq c 0)) by set_solver.
  rewrite IH by set_solver. done.
Qed.

Lemma flag_of_long x f : 0 ∉ f → flag_of x (Strings.c_str ($"--" ++ f)) = Some f.
Proof. intros Hf. rewrite c_str_id; [done|]. change ($"--" ++ f) with (45 :: 45 :: f). by rewrite !not_elem_of_cons. Qed.

Lemma flag_of_short x c f :
  shortArgs x !! swrap 8 c = Some f → c ≠ 0 → c ≠ chr "-" → flag_of x (Strings.c_str ($"-" ++ [c])) = Some f.
Proof.
  intros Hf Hc Hd. change ($"-" ++ [c]) with [45; c].
  rewrite c_str_id by (rewrite !not_elem_of_cons; auto using not_elem_of_nil).
  unfold flag_of. change ($"--") with [45; 45]. change ($"-") with [45]. change (chr "-") with 45 in Hd.
  cbn [is_prefix length]. rewrite (proj2 (Z.eqb_neq 45 c)) by done. simpl. by rewrite Hf.
Qed.

(** What the items say, flag by flag and in order. *)
Definition values_of (f : cstr) (items : list item) : list cstr :=
  item_value <$> filter (λ it, item_flag it = f) items.

Lemma addArg_values argv f g p a :
  getArgs g (addArg argv f p a) = getArgs g a ++ (if decide (f = g) then [deref argv p] else []).
Proof.
  unfold getArgs, addArg, push_back; simpl. rewrite lookup_insert.
  destruct (decide (f = g)) as [->|]; simpl; by rewrite ?app_nil_r.
Qed.

Lemma parse_loop_render x argv items pos a :
  Forall (item_ok x) items → drop pos argv = concat (render <$> items) →
  let a' := parse_loop x argv (drop pos argv) pos a in
  bError a' = bError a ∧ ∀ f, getArgs f a' = getArgs f a ++ values_of f items.
Proof.
  intros Hok. revert pos a. induction Hok as [|it items (Hd & Hh & Hit) _ IH]; intros pos a Hdrop a'; subst a'.
  { rewrite Hdrop. simpl. unfold values_of. simpl. split; [done|]. intros f. by rewrite app_nil_r. }
  destruct Hd as [d Hd]. rewrite fmap_cons in Hdrop. cbn [concat] in Hdrop.
  assert (Hstep : ∀ pos' p, deref argv p = item_value it → drop pos' argv = concat (render <$> items) →
    let a' := parse_loop x argv (drop pos' argv) pos' (addArg argv (item_flag it) p a) in
    bError a' = bError a ∧ ∀ f, getArgs f a' = getArgs f a ++ values_of f (it :: items)).
  { intros pos' p Hp Hdr. destruct (IH pos' (addArg argv (item_flag it) p a) Hdr) as [He Hv]. split; [done|].
    intros f. rewrite Hv, addArg_values, Hp, <- app_assoc. unfold values_of. rewrite filter_cons.
    by destruct (decide (item_flag it = f)). }
  destruct it as [f v|c f v|f|c f]; cbn [render app item_flag] in *; rewrite Hdrop; cbn [parse_loop].
  - destruct Hit as (Hs & Hf & Hv). apply (drop_cons_inv []) in Hdrop as (_ & _ & Hdrop).
    rewrite flag_of_long, bool_decide_eq_false_2, Hd, bool_decide_eq_false_2 by done.
    pose proof (drop_cons_inv [] _ _ _ _ Hdrop) as (Hn & _ & Hdr). rewrite <- Hdr. apply Hstep; [|done].
    cbn [deref item_value]. rewrite Hn. by apply c_str_id.
  - destruct Hit as (Hs & Hf & Hc & Hm & Hv). apply (drop_cons_inv []) in Hdrop as (_ & _ & Hdrop).
    rewrite (flag_of_short x c f), bool_decide_eq_false_2, Hd, bool_decide_eq_false_2 by done.
    pose proof (drop_cons_inv [] _ _ _ _ Hdrop) as (Hn & _ & Hdr). rewrite <- Hdr. apply Hstep; [|done].
    cbn [deref item_value]. rewrite Hn. by apply c_str_id.
  - destruct Hit as (Hs & Hf). apply (drop_cons_inv []) in Hdrop as (_ & _ & Hdrop). rewrite <- Hdrop.
    rewrite flag_of_long, bool_decide_eq_false_2, Hd, bool_decide_eq_true_2 by done. by apply Hstep.
  - destruct Hit as (Hs & Hf & Hc & Hm). apply (drop_cons_inv []) in Hdrop as (_ & _ & Hdrop).
    rewrite <- Hdrop. rewrite (flag_of_short x c f), bool_decide_eq_false_2, Hd, bool_decide_eq_true_2 by done.
    by apply Hstep.
Qed.

(** A command line written from flags and values is read back exactly: for every
    flag the values given for it, in order, the last of them being the one returned
    when a single value is asked for, whatever mixture of long and short spellings;
    no error, and the parse ends. *)
Theorem parse_render (fuel : nat) (x : t) (prog : cstr) (items : list item)
    (Hok : Forall (item_ok x) items) :
  ∃ a, let argv := prog :: concat (render <$> items) in
    parse fuel x (length argv) (Some argv) = Some a ∧ hasError a = false ∧
    (∀ f, getArgs f a = values_of f items) ∧
    (∀ f v, last (values_of f items) = Some v → getArg f a = Some v).
Proof.
  set (argv := prog :: concat (render <$> items)).
  destruct (parse_loop_render x argv items 1 Args.new Hok eq_refl) as [He Hv].
  exists (parse_loop x argv (drop 1 argv) 1 Args.new). unfold parse. rewrite firstn_all.
  unfold hasError. rewrite He. split_and!; [done..|].
  intros f v Hl. rewrite <- (app_nil_l (values_of f items)) in Hl.
  change [] with (getArgs f Args.new) in Hl. rewrite <- Hv in Hl. unfold getArg, getArgs in *.
  by destruct (_ !! f).
Qed.

(** ** The help text *)

(** The description of a parameter has more than one line. *)
Definition long_help (x : t) (param : cstr) : Prop := 10 ∈ default [] (descriptions x !! param).
#[global] Instance long_help_dec x param : Decision (long_help x param) := ltac:(unfold long_help; apply _).

Lemma help_entry_long x param fuel : long_help x param → help_entry fuel x param = None.
Proof.
  unfold long_help, help_entry. destruct (descriptions x !! param) as [d|]; simpl; [|by intros ?%not_elem_of_nil].
  intros Hd. by rewrite (proj1 (DelimitedString.delimited_read _ _ _) Hd).
Qed.

Lemma help_entry_short x param fuel : (2 ≤ fuel)%nat → ¬ long_help x param → is_Some (help_entry fuel x param).
Proof.
  unfold long_help, help_entry. intros Hf. destruct (descriptions x !! param) as [d|]; simpl; [|by eexists].
  intros Hd. rewrite (proj2 (DelimitedString.delimited_read _ _ _) Hd fuel Hf). by eexists.
Qed.

Definition multiline (x : t) : Prop := Exists (long_help x) (order x).
#[global] Instance multiline_dec x : Decision (multiline x) := ltac:(unfold multiline; apply _).

Lemma printHelp_long x fuel : multiline x → printHelp fuel x = None.
Proof.
  intros H. unfold printHelp. rewrite (proj2 (mapM_None _ _)); [done|].
  eapply Exists_impl; [apply H|]. intros param. apply help_entry_long.
Qed.

Lemma printHelp_short x fuel : (2 ≤ fuel)%nat → ¬ multiline x → is_Some (printHelp fuel x).
Proof.
  intros Hf H%not_Exists_Forall; [|apply _]. unfold printHelp.
  destruct (mapM (help_entry fuel x) (order x)) eqn:E; [by eexists|].
  apply mapM_None in E. exfalso. induction E as [p l Hp|p l E IH]; apply Forall_cons in H as [Hd H]; [|auto].
  by destruct (help_entry_short x p fuel Hf Hd) as [? ?]; simplify_eq.
Qed.

(** When the parser does not return: exactly when some word of the command line is
    refused (or is --help) and some listed parameter has a description of more than one
    line, since the help text that is then printed never ends.  Otherwise a little fuel
    is enough, for every command line. *)
Theorem parse_returns_iff (x : t) (argc : nat) (argv : list cstr) :
  let a := parse_loop x argv (drop 1 (take argc argv)) 1 Args.new in
  ((∀ fuel, parse fuel x argc (Some argv) = None) ↔ hasError a = true ∧ multiline x) ∧
  (¬ (hasError a = true ∧ multiline x) → ∀ fuel, (2 ≤ fuel)%nat → parse fuel x argc (Some argv) = Some a).
Proof.
  intros a. unfold parse. fold a. destruct (hasError a); [|split; [|done]].
  - assert (Hshort : ∀ fuel, ¬ multiline x → (2 ≤ fuel)%nat → (printHelp fuel x ≫= λ _, Some a) = Some a).
    { intros fuel Hn Hf. by destruct (printHelp_short x fuel Hf Hn) as [? ->]. }
    split; [split; [intros H; split; [done|]|intros [_ H] fuel]|].
    + destruct (decide (multiline x)) as [|Hn]; [done|]. specialize (H 2%nat). by rewrite Hshort in H by (done || lia).
    + by rewrite printHelp_long.
    + intros Hn fuel Hf. apply Hshort; [|done]. by intros ?; apply Hn.
  - split; [intros H; by specialize (H 0%nat)|by intros [? _]].
Qed.

(** ** Masking *)

Lemma zero_all l argv :
  (∀ p, p ∈ l → ∃ i, p = Argv i) →
  ∃ argv', foldl (λ m p, m ≫= zero_first p) (Some argv) l = Some argv' ∧ length argv' = length argv ∧
    ∀ i, nth i argv' [] = if decide (Argv i ∈ l) then <[0%nat := 0]> (nth i argv []) else nth i argv [].
Proof.
  revert argv. induction l as [|p l IH]; intros argv Hl; [by exists argv|].
  destruct (Hl p) as [i ->]; [by left|]. cbn [foldl mbind option_bind zero_first].
  destruct (IH (alter (λ s, <[0%nat := 0]> s) i argv)) as (argv' & -> & Hlen & Hn).
  { intros q Hq. apply Hl. by right. }
  exists argv'. rewrite length_alter in Hlen. split_and!; [done..|]. intros j. rewrite Hn.
  assert (Halt : nth j (alter (λ s, <[0%nat:=0]> s) i argv) [] =
                 if decide (i = j) then <[0%nat := 0]> (nth j argv []) else nth j argv []).
  { rewrite !nth_lookup. destruct (decide (i = j)) as [->|].
    - rewrite list_lookup_alter_eq. by destruct (argv !! j).
    - by rewrite list_lookup_alter_ne. }
  rewrite Halt. destruct (decide (i = j)) as [->|]; destruct (decide (Argv j ∈ Argv _ :: l)) as [Hin|Hin];
    destruct (decide (Argv j ∈ l)) as [Hin'|Hin']; try set_solver.
  by destruct (nth j argv []).
Qed.

(** Masking a flag that takes a value empties, as C strings, exactly the words its values
    came from and touches nothing else; only their first byte is overwritten, so the rest
    of each value is still readable in memory.  Masking a switch that was given writes to
    a string literal. *)
Lemma mask_first_byte_only x argv a f :
  wf x argv a →
  (f ∈ switches x → hasArg f a = true → maskArg f a argv = None) ∧
  (f ∉ switches x → ∃ argv', maskArg f a argv = Some argv' ∧ length argv' = length argv ∧
     ∀ i, drop 1 (nth i argv' []) = drop 1 (nth i argv []) ∧
       (nth i argv' [] = nth i argv [] ∨
        (Strings.c_str (nth i argv' []) = [] ∧ Argv i ∈ default [] (originals a !! f)))).
Proof.
  intros [Hv Hn Hk Hf]. unfold maskArg, hasArg. rewrite Hv, lookup_fmap, bool_decide_eq_true.
  destruct (originals a !! f) as [l|] eqn:E; cbn [fmap option_fmap option_map default from_option].
  - split; intros Hs.
    + intros _. pose proof (Hn _ _ E). destruct l as [|p l]; [done|].
      destruct (Hf f (p :: l) p E ltac:(by left)) as [[_ ->]|[? _]]; [|done].
      cbn [foldl mbind option_bind zero_first]. clear. by induction l.
    + destruct (zero_all l argv) as (argv' & -> & Hlen & Hnth).
      { intros p Hp. destruct (Hf f l p E Hp) as [[? _]|(_ & i & -> & _)]; [done|by eexists]. }
      exists argv'. split_and!; [done..|]. intros i. rewrite Hnth.
      destruct (decide (Argv i ∈ l)) as [Hi|Hi]; [|by split; [|left]].
      destruct (nth i argv []) as [|c w]; simpl; split; [done|by left|done|by right].
  - split; [intros _; by intros []|]. intros _. exists argv. split_and!; [done..|]. intros i. split; [done|by left].
Qed.

End ArgParser.

Module ArgExamples.
Import Args ArgParser.

Definition parser : ArgParser.t :=
  addSwitch_short (chr "v") $"verbose" $"Say more"
    (addParam_short (chr "p") $"port" ($"Port" ++ [10] ++ $"Default: any")
      (addParam $"name" $"Name" ArgParser.new)).

Definition items : list item :=
  [Long $"name" $"--help"; ShortSwitch (chr "v") $"verbose"; Short (chr "p") $"port" $"17"; Long $"port" $"18"].

Definition argv : list cstr := $"prog" :: concat (render <$> items).

Lemma parse_invariant_witness :
  ∃ a, parse 0 parser (length argv) (Some argv) = Some a ∧
    getArgs $"port" a = [$"17"; $"18"] ∧ getArgs $"name" a = [$"--help"] ∧ hasArg $"verbose" a = true ∧ getArgs $"help" a = [].
Proof.
  exists (parse_loop parser argv (drop 1 argv) 1 Args.new).
  assert (H : parse 0 parser (length argv) (Some argv) = Some (parse_loop parser argv (drop 1 argv) 1 Args.new)).
  { by vm_compute. }
  destruct (parse_invariant 0 parser argv _ H) as [Hf _]. split; [exact H|].
  destruct (Hf $"port") as (_ & -> & _), (Hf $"name") as (_ & -> & _), (Hf $"verbose") as (_ & _ & -> & _), (Hf $"help") as (_ & -> & _).
  split_and!; by vm_compute.
Defined.

Lemma parse_render_witness :
  ∃ a, parse 0 parser (length argv) (Some argv) = Some a ∧ getArg $"port" a = Some $"18" ∧
       getArgs $"name" a = [$"--help"].
Proof.
  destruct (parse_render 0 parser $"prog" items) as (a & Hp & _ & Hs & Hl).
  { repeat apply Forall_cons_2; try apply Forall_nil_2;
      (split; [vm_compute; by eexists|split; [by apply (bool_decide_unpack _)|]]);
      cbn [item_ok]; repeat split; by apply (bool_decide_unpack _). }
  exists a. split; [exact Hp|]. split; [apply Hl; by vm_compute|rewrite Hs; by vm_compute].
Defined.

Lemma parse_returns_iff_witness :
  parse 1000 parser 2 (Some [$"prog"; $"--help"]) = None.
Proof. apply (proj2 (proj1 (parse_returns_iff parser 2 [$"prog"; $"--help"]))). split; [by vm_compute|by apply (bool_decide_unpack _)]. Defined.

(** The password of a command line after masking: its first byte only is gone. *)
Example mask_leaves_rest :
  maskArg $"port" (parse_loop parser argv (drop 1 argv) 1 Args.new) argv =
    Some ($"prog" :: [$"--name"; $"--help"; $"-v"; $"-p"; [0] ++ $"7"; $"--port"; [0] ++ $"8"]).
Proof. vm_compute. reflexivity. Qed.

End ArgExamples.
