(* ===== verification/Log.v ===== *)
(** * Logging: [log/], [svc/service/LogArgs]

    The process-wide logger: its configuration, the console and the log file with its
    rotation, categories, the contextual [Logger], and the command line options that
    configure it.  The JSON library and the file system's refusals are interfaces; the
    clock's text is an argument. *)

From S2P Require Import Prelude Text Calendar Strings Errors Args.

(** Ordered JSON objects: setting a key, and the printed text ([None] when the library
    throws, as it does on text that is not UTF-8). *)
Inductive jvalue := JString (s : cstr) | JInt (z : Z) | JBool (b : bool) | JArray (l : list jvalue).
Class JsonLog := {
  json : Type;
  j_new : json;
  j_set : cstr → jvalue → json → json;
  j_dump : json → option cstr;
}.

(** Which file operations the operating system refuses. *)
Class LogDisk := {
  d_fopen : cstr → bool;
  d_rename : cstr → bool;
  d_remove : cstr → bool;
}.

Module Category.
Section Code.

(** The value of [typeid(Category).hash_code()] for an enumeration, by name. *)
Context (type_hash : cstr → Z).

(** [src/src/log/Category.h:27-30] Category::catToInt *)
Definition catToInt (enum : cstr) (cat : Z) : Z := u64 (type_hash enum + cat).

(** [src/src/log/Category.h:12-19] BasicCategory *)
Inductive BasicCategory := General | Comm | Db | Auth | Init.
Definition basic_value (c : BasicCategory) : Z :=
  match c with General => 0 | Comm => 1 | Db => 2 | Auth => 3 | Init => 4 end.
Definition basic (c : BasicCategory) : Z := catToInt $"BasicCategory" (basic_value c).

(** [src/src/log/Category.cpp:27-30] Category::addInternal *)
Definition addInternal (cat : Z) (name : cstr) (categories : gmap Z cstr) : gmap Z cstr :=
  <[cat := name]> categories.

(** [src/src/log/Category.cpp:18-25] Category::init *)
Definition init (categories : gmap Z cstr) : gmap Z cstr :=
  foldl (λ m p, addInternal (basic p.1) p.2 m) categories
    [(General, $"GENERAL"); (Comm, $"COMM"); (Db, $"DATABASE"); (Auth, $"AUTH"); (Init, $"INIT")].

(** [src/src/svc/service/Log.cpp:9-15] svc::initLogger

    Without the protobuf library's own logger. *)
Definition initLogger (categories : gmap Z cstr) : gmap Z cstr :=
  foldl (λ m p, addInternal (catToInt $"svc::Log" p.1) p.2 m) categories
    [(0, $"SERVICE"); (1, $"API"); (2, $"EVENT")].

(** [src/src/log/Category.cpp:32-39] Category::get *)
Definition get (cat : Z) (categories : gmap Z cstr) : cstr :=
  let cat := if cat =? 0 then basic General else cat in
  default $"UNKNOWN" (categories !! cat).

(** After start-up the five basic categories have their names, and no category at all
    counts as the general one. *)
Lemma basic_names m :
  is_u 64 (type_hash $"BasicCategory") →
  get (basic General) (init m) = $"GENERAL" ∧ get 0 (init m) = $"GENERAL" ∧
  (basic Db ≠ 0 → get (basic Db) (init m) = $"DATABASE").
Proof.
  intros Hh. assert (Hne : ∀ c d, basic c = basic d → c = d).
  { intros c d. unfold basic, catToInt, wrap. intros E.
    assert (basic_value c = basic_value d); [|by destruct c, d].
    unfold is_u in Hh. destruct c, d; simpl in *; dlia. }
  assert (Hd : ∀ c d, c ≠ d → basic c ≠ basic d) by (intros c d Hcd E; by apply Hcd, Hne).
  unfold get, init, addInternal; simpl. split_and!.
  - destruct (basic General =? 0) eqn:E; rewrite !lookup_insert_ne by (by apply Hd); by rewrite lookup_insert_eq.
  - rewrite !lookup_insert_ne by (by apply Hd). by rewrite lookup_insert_eq.
  - intros H. rewrite (proj2 (Z.eqb_neq _ _)) by done. rewrite !lookup_insert_ne by (by apply Hd).
    by rewrite lookup_insert_eq.
Qed.

End Code.
End Category.

Module Log.

(** [src/src/log/Log.cpp:17-23] log configuration *)
Record config := Config {
  bConsole : bool;
  logFile : cstr;
  level : Level.t;
  maxFileSizeKB : Z;
  bUtc : bool
}.

Definition initial : config := Config false [] Level.Info (1024 * 1024) true.

(** [src/src/log/Log.cpp:27-33] log::setConsole *)
Definition setConsole (b : bool) (c : config) : config :=
  Config b (logFile c) (level c) (maxFileSizeKB c) (bUtc c).

(** [src/src/log/Log.cpp:35-38] log::setFile *)
Definition setFile (file : cstr) (c : config) : config :=
  Config (bConsole c) file (level c) (maxFileSizeKB c) (bUtc c).

(** [src/src/log/Log.cpp:40-43] log::setFileSize *)
Definition setFileSize (kb : Z) (c : config) : config :=
  Config (bConsole c) (logFile c) (level c) kb (bUtc c).

(** [src/src/log/Log.cpp:45-48] log::setLevel *)
Definition setLevel (l : Level.t) (c : config) : config :=
  Config (bConsole c) (logFile c) l (maxFileSizeKB c) (bUtc c).

(** [src/src/log/LogTime.cpp:18-21] LogTime::setUtc *)
Definition setUtc (c : config) : config := Config (bConsole c) (logFile c) (level c) (maxFileSizeKB c) true.

(** [src/src/log/LogTime.cpp:23-26] LogTime::setLocal *)
Definition setLocal (c : config) : config := Config (bConsole c) (logFile c) (level c) (maxFileSizeKB c) false.

(** [src/src/log/Level.h:13-22] log::Level (values) *)
Definition level_int (l : Level.t) : Z :=
  match l with
  | Level.None_ => 0 | Level.Error => 1 | Level.Warn => 2 | Level.Notice => 3
  | Level.Info => 4 | Level.Debug => 5 | Level.Traffic => 6
  end.

(** The log goes to a file. *)
Definition to_file (c : config) : bool := negb (bool_decide (logFile c = [])) && (0 <? maxFileSizeKB c).

(** [src/src/log/Log.cpp:120-123] log::check *)
Definition check (eLevel : Level.t) (c : config) : bool :=
  (bConsole c || to_file c) && (level_int eLevel <=? level_int (level c)).

(** The outside world of the logger: standard output and the files, by name. *)
Record world := World { console : bytes; disk : gmap cstr bytes }.

Section Code.
Context {J : JsonLog} {D : LogDisk}.

(** Moving the log file out of the way, or removing it when that fails. *)
Definition rotate (file : cstr) (d : gmap cstr bytes) : gmap cstr bytes :=
  match d !! file with
  | None => d
  | Some content =>
      if d_rename file then <[file ++ $".bak" := content]> (delete file d)
      else if d_remove file then delete file d else d
  end.

(** [src/src/log/Log.cpp:79-110] log::msg (file)

    [ftell] after appending is the size of the file. *)
Definition write_file (c : config) (text : cstr) (d : gmap cstr bytes) : gmap cstr bytes :=
  if negb (d_fopen (logFile c)) then d
  else
    let content := default [] (d !! logFile c) ++ Strings.c_str text ++ [10] in
    let d := <[logFile c := content]> d in
    if (0 <? zlen content) && (maxFileSizeKB c <=? zlen content / 1024) then rotate (logFile c) d else d.

(** [src/src/log/Log.cpp:74-118] log::msg(text) *)
Definition msg_text (c : config) (text : cstr) (w : world) : world :=
  if negb (bConsole c) && negb (to_file c) then w
  else
    let out := if bConsole c then console w ++ Strings.c_str text ++ [10] else console w in
    World out (if to_file c then write_file c text (disk w) else disk w).

(** [src/src/log/Log.cpp:55-72] log::msg(category)

    [None]: the JSON library's exception leaves the function. *)
Definition msg_category (type_hash : cstr → Z) (cats : gmap Z cstr) (time : cstr) (c : config)
    (category : Z) (eLevel : Level.t) (str : cstr) (w : world) : option world :=
  if negb (check eLevel c) then Some w
  else
    let j := j_set $"time" (JString time) j_new in
    let j := j_set $"level" (JString (Level.to_string eLevel)) j in
    let j := j_set $"category" (JString (Category.get type_hash category cats)) j in
    let j := j_set $"msg" (JString str) j in
    text ← j_dump j; Some (msg_text c text w).

(** [src/src/log/Log.cpp:50-53] log::msg(level) *)
Definition msg (type_hash : cstr → Z) (cats : gmap Z cstr) (time : cstr) (c : config)
    (eLevel : Level.t) (str : cstr) (w : world) : option world :=
  msg_category type_hash cats time c 0 eLevel str w.

(** ** The contextual logger *)

(** [src/src/log/Logger.cpp:72-106] Logger::addContext *)
Definition addContext (attr : cstr) (value : jvalue) (context : gmap cstr jvalue) : gmap cstr jvalue :=
  <[attr := value]> context.

(** [src/src/log/Logger.cpp:108-133] Logger::addListContext *)
Definition addListContext (attr value : cstr) (context : gmap cstr jvalue) : gmap cstr jvalue :=
  match context !! attr with
  | None => <[attr := JArray [JString value]]> context
  | Some (JArray l) => <[attr := JArray (l ++ [JString value])]> context
  | Some existing => <[attr := JArray [existing; JString value]]> context
  end.

(** The order of a [std::map] with string keys: unsigned characters, a prefix first. *)
Fixpoint str_le (a b : cstr) : bool :=
  match a, b with
  | [], _ => true
  | _ :: _, [] => false
  | x :: a, y :: b => if x =? y then str_le a b else x <? y
  end.
Definition entry_le (p q : cstr * jvalue) : Prop := str_le p.1 q.1 = true.
#[global] Instance entry_le_dec p q : Decision (entry_le p q) := ltac:(unfold entry_le; apply _).

(** [src/src/log/Logger.cpp:135-160] Logger::msg

    Exceptions are caught and only written to the error output. *)
Definition logger_msg (type_hash : cstr → Z) (cats : gmap Z cstr) (time : cstr) (c : config)
    (context : gmap cstr jvalue) (cat : Z) (l : Level.t) (str : cstr) (errorCode : Z)
    (errorStr : option cstr) (w : world) : world :=
  if negb (check l c) then w
  else
    let j := j_set $"time" (JString time) j_new in
    let j := j_set $"level" (JString (Level.to_string l)) j in
    let j := j_set $"category" (JString (Category.get type_hash cat cats)) j in
    let j := if negb (errorCode =? 0) then j_set $"code" (JInt errorCode) j else j in
    let j := match errorStr with
             | Some (e :: rest) => j_set $"error" (JString (e :: rest)) j
             | _ => j
             end in
    let j := foldl (λ j p, j_set p.1 p.2 j) j (merge_sort entry_le (map_to_list context)) in
    let j := j_set $"msg" (JString str) j in
    match j_dump j with
    | Some text => msg_text c text w
    | None => w
    end.

End Code.
End Log.

(** ** Rotation *)
Module Rotation.
Import Log.
Section Proofs.
Context {D : LogDisk}.

Definition line (text : cstr) : bytes := Strings.c_str text ++ [10].
Definition current (c : config) (w : world) : bytes := default [] (disk w !! logFile c).
Definition backup (c : config) (w : world) : bytes := default [] (disk w !! (logFile c ++ $".bak")).

Lemma bak_ne (file : cstr) : file ++ $".bak" ≠ file.
Proof. intros E. apply (f_equal length) in E. rewrite length_app in E. simpl in E. lia. Qed.

(** One message, when the file can be opened and renamed: appended, and the whole file
    becomes the backup when it has reached its size. *)
Lemma msg_text_step c text w :
  to_file c = true → d_fopen (logFile c) = true → d_rename (logFile c) = true →
  let content := current c w ++ line text in
  let w' := msg_text c text w in
  if maxFileSizeKB c <=? zlen content / 1024
  then current c w' = [] ∧ backup c w' = content
  else current c w' = content ∧ backup c w' = backup c w.
Proof.
  intros Hf Ho Hr content w'. subst w' content. unfold msg_text, write_file, current, backup, line.
  rewrite Hf, Ho, andb_false_r. cbn [disk negb].
  set (content := default [] (disk w !! logFile c) ++ Strings.c_str text ++ [10]).
  assert (Hpos : 0 < zlen content) by (unfold content; rewrite !length_app; simpl; lia).
  rewrite (proj2 (Z.ltb_lt _ _) Hpos). cbn [andb].
  destruct (maxFileSizeKB c <=? _).
  - unfold rotate. rewrite lookup_insert_eq, Hr. rewrite lookup_insert_ne by apply bak_ne.
    by rewrite lookup_delete_eq, lookup_insert_eq.
  - rewrite lookup_insert_eq, lookup_insert_ne by (apply not_eq_sym, bak_ne). done.
Qed.

(** The log file with its rotation, over any number of messages, when the file can be
    opened and renamed: it stays below its configured size, what is in the backup and in
    the file together is the most recent part of all that was logged, in order and
    without a gap, and a backup that was made here holds at least a full file. *)
Theorem log_rotation (c : config) (texts : list cstr) (w : world)
    (Hfile : to_file c = true) (Hopen : d_fopen (logFile c) = true)
    (Hrename : d_rename (logFile c) = true) (Hsize : zlen (current c w) / 1024 < maxFileSizeKB c) :
  let w' := foldl (λ w text, msg_text c text w) w texts in
  zlen (current c w') / 1024 < maxFileSizeKB c ∧
  suffix (backup c w' ++ current c w') (backup c w ++ current c w ++ concat (line <$> texts)) ∧
  (backup c w' = backup c w ∨ maxFileSizeKB c ≤ zlen (backup c w') / 1024).
Proof.
  revert w Hsize. induction texts as [|text texts IH]; intros w Hsize; cbn [foldl fmap list_fmap concat].
  { rewrite app_nil_r. split_and!; [done|done|by left]. }
  pose proof (msg_text_step c text w Hfile Hopen Hrename) as Hstep. cbn zeta in Hstep.
  assert (Hmax : 0 < maxFileSizeKB c) by (unfold to_file in Hfile; zbool; lia).
  destruct (Z.leb_spec (maxFileSizeKB c) (zlen (current c w ++ line text) / 1024)) as [Hge|Hlt];
    destruct Hstep as [Hc Hb]; destruct (IH (msg_text c text w)) as (Hs & Hsuf & Hbak);
    rewrite ?Hc; [done| |done|].
  - split_and!; [done| |].
    + etrans; [apply Hsuf|]. rewrite Hb, Hc. exists (backup c w). by rewrite app_nil_l, <- !app_assoc.
    + right. destruct Hbak as [-> | ?]; [by rewrite Hb|done].
  - split_and!; [done| |].
    + etrans; [apply Hsuf|]. rewrite Hb, Hc, <- !app_assoc. done.
    + by rewrite <- Hb.
Qed.

End Proofs.

#[local] Instance all_ok : LogDisk := { d_fopen _ := true; d_rename _ := true; d_remove _ := true }.

Lemma log_rotation_witness :
  let c := Config false $"log" Level.Info 1 true in
  let w' := foldl (λ w text, msg_text c text w) (World [] ∅) (replicate 3 (replicate 600 65)) in
  zlen (current c w') / 1024 < 1.
Proof.
  apply (log_rotation (Config false $"log" Level.Info 1 true)); [reflexivity..|vm_compute; reflexivity].
Defined.

End Rotation.

Module LogArgs.
Import Args.

(** [src/src/svc/service/LogArgs.cpp:9-19] LogArgs::initCmdLineParams *)
Definition initCmdLineParams (parser : ArgParser.t) : ArgParser.t :=
  let parser := ArgParser.addCategory $"Logging" parser in
  let parser := ArgParser.addSwitch $"log-console" $"Log to console" parser in
  let parser := ArgParser.addParam $"log-file" $"Log to a specific file" parser in
  let parser := ArgParser.addParam $"log-file-size"
                  ($"Maximum size (in KB) for log file" ++ [10] ++ $"0=Don't log to file") parser in
  let parser := ArgParser.addSwitch $"log-debug" $"Log debug information" parser in
  let parser := ArgParser.addSwitch_short (chr "v") $"log-verbose" $"Log verbose information" parser in
  ArgParser.addSwitch $"log-localtime" $"Log using local time (default: UTC)" parser.

(** [src/src/svc/service/LogArgs.cpp:21-45] LogArgs::setCmdLineArgs *)
Definition setCmdLineArgs (args : Args.t) (c : Log.config) : option Log.config :=
  let c := if hasArg $"log-console" args then Log.setConsole true c else c in
  c ← (if hasArg $"log-file" args then file ← getArg $"log-file" args; Some (Log.setFile file c) else Some c);
  c ← (if hasArg $"log-file-size" args then kb ← getSizeT $"log-file-size" args; Some (Log.setFileSize kb c)
       else Some c);
  let c := if hasArg $"log-verbose" args then Log.setLevel Level.Traffic c
           else if hasArg $"log-debug" args then Log.setLevel Level.Debug c
           else Log.setLevel Level.Info c in
  Some (if hasArg $"log-localtime" args then Log.setLocal c else c).

(** [src/src/svc/service/LogArgs.cpp:47-50] LogArgs::logFile *)
Definition logFile (args : Args.t) : option cstr := getArg $"log-file" args.

(** The help text of every program with the logging options never ends. *)
Lemma log_help_long parser : ArgParser.multiline (initCmdLineParams parser).
Proof.
  unfold ArgParser.multiline. apply Exists_exists. exists $"log-file-size". split.
  - unfold initCmdLineParams; simpl. rewrite !elem_of_app, !list_elem_of_singleton. by do 3 left; right.
  - unfold ArgParser.long_help, initCmdLineParams, ArgParser.addSwitch, ArgParser.addSwitch_short,
      ArgParser.addParam, ArgParser.addCategory; cbn [ArgParser.descriptions].
    rewrite !lookup_insert_ne by (by apply (bool_decide_unpack _)). rewrite lookup_insert_eq.
    by apply (bool_decide_unpack _).
Qed.

End LogArgs.

(** ** The time stamps *)
Module LogTime.

(** [src/src/log/LogTime.cpp:28-42] LogTime::get

    [localtime] is the C library's, of the machine's time zone; a text that does not fit
    the 32 bytes of the buffer leaves them unspecified. *)
Definition get (localtime : Z → Calendar.tm) (c : Log.config) (now : Z) : option cstr :=
  let s := Calendar.stamp (if Log.bUtc c then Calendar.gmtime now else localtime now) in
  if (length s <? 32)%nat then Some s else None.

(** With universal time, every moment a [time_t] can tell of has a time stamp, and no two
    of them the same. *)
Lemma utc_stamps_tell localtime c a b :
  Log.bUtc c = true → 0 ≤ a < 2 ^ 63 → 0 ≤ b < 2 ^ 63 →
  is_Some (get localtime c a) ∧ (get localtime c a = get localtime c b → a = b).
Proof.
  intros Hc Ha Hb. unfold get. rewrite Hc.
  rewrite !(proj2 (Nat.ltb_lt _ _)) by (eapply Nat.le_lt_trans; [by apply Calendar.stamp_length|lia]).
  split; [by eexists|]. intros [= H].
  destruct (Calendar.gmtime_timegm a ltac:(lia)) as (Va & Ya & Ta), (Calendar.gmtime_timegm b ltac:(lia)) as (Vb & Yb & Tb).
  rewrite <- Ta, <- Tb. f_equal. apply Calendar.stamp_inj; [done..| | |done]; lia.
Qed.

(** The seconds of a known moment. *)
Lemma stamp_example : get Calendar.gmtime (Log.setUtc (Log.Config true [] Level.Info 0 false)) 951827696 = Some $"2000-02-29 12:34:56".
Proof. vm_compute. reflexivity. Qed.

End LogTime.
