(* ===== verification/LogFront.v ===== *)
(** * How the program logs: [log/Log.h], [log/Logger.h], [pb/Logger]

    The functions the rest of the code calls, one for each level, with and without a category;
    the [Logger] object that carries a context; and the sink that takes what the protobuf
    library logs.  The text is what [fmt] made of the format and its arguments. *)

From S2P Require Import Prelude Strings Errors Args Log.

(** ** Functions for each level *)
Module LogLevels.
Section Code.
Context {J : JsonLog} {D : LogDisk}.
Variable type_hash : cstr → Z.
Variable cats : gmap Z cstr.
Variable time : cstr.
Variable c : Log.config.

(** What all of them do. *)
Definition at_level (l : Level.t) (s : cstr) (w : Log.world) : option Log.world :=
  if Log.check l c then Log.msg type_hash cats time c l s w else Some w.

Definition at_level_in (enum : cstr) (cat : Z) (l : Level.t) (s : cstr) (w : Log.world) : option Log.world :=
  if Log.check l c then Log.msg_category type_hash cats time c (Category.catToInt type_hash enum cat) l s w else Some w.

(** [src/src/log/Log.h:30-36] log::error

    So that a function can return what it logs. *)
Definition error (s : cstr) (w : Log.world) : option (bool * Log.world) := w ← at_level Level.Error s w; Some (false, w).
(** [src/src/log/Log.h:38-43] log::warn *)
Definition warn := at_level Level.Warn.
(** [src/src/log/Log.h:45-50] log::notice *)
Definition notice := at_level Level.Notice.
(** [src/src/log/Log.h:52-57] log::info *)
Definition info := at_level Level.Info.
(** [src/src/log/Log.h:59-64] log::debug *)
Definition debug := at_level Level.Debug.
(** [src/src/log/Log.h:66-71] log::traffic *)
Definition traffic := at_level Level.Traffic.

(** [src/src/log/Log.h:73-80] log::error(category) *)
Definition error_in (enum : cstr) (cat : Z) (s : cstr) (w : Log.world) : option (bool * Log.world) :=
  w ← at_level_in enum cat Level.Error s w; Some (false, w).
(** [src/src/log/Log.h:82-88] log::warn(category) *)
Definition warn_in enum cat := at_level_in enum cat Level.Warn.
(** [src/src/log/Log.h:90-96] log::notice(category) *)
Definition notice_in enum cat := at_level_in enum cat Level.Notice.
(** [src/src/log/Log.h:98-104] log::info(category) *)
Definition info_in enum cat := at_level_in enum cat Level.Info.
(** [src/src/log/Log.h:106-112] log::debug(category) *)
Definition debug_in enum cat := at_level_in enum cat Level.Debug.
(** [src/src/log/Log.h:114-120] log::traffic(category) *)
Definition traffic_in enum cat := at_level_in enum cat Level.Traffic.

End Code.

Section Proofs.
Context {J : JsonLog} {D : LogDisk} (type_hash : cstr → Z) (cats : gmap Z cstr) (time : cstr).

(** The object that is logged. *)
Definition line (cat : Z) (l : Level.t) (s : cstr) : json :=
  j_set $"msg" (JString s) (j_set $"category" (JString (Category.get type_hash cat cats))
    (j_set $"level" (JString (Level.to_string l)) (j_set $"time" (JString time) j_new))).

Lemma at_level_in_spec c enum cat l s w :
  at_level_in type_hash cats time c enum cat l s w =
  if Log.check l c then text ← j_dump (line (Category.catToInt type_hash enum cat) l s); Some (Log.msg_text c text w) else Some w.
Proof. unfold at_level_in. destruct (Log.check l c) eqn:E; [|done]. unfold Log.msg_category. by rewrite E. Qed.

(** What is logged at one level is logged at every level that is more detailed, and the
    same: the console gets the line, and only if the message is at least as important as the
    level asks.  Text the JSON library cannot print is not dropped but throws, out of the
    function that only meant to log. *)
Theorem log_threshold (c : Log.config) (l : Level.t) (enum : cstr) (cat : Z) (s : cstr) (w : Log.world)
    (Hcon : Log.bConsole c = true) :
  match at_level_in type_hash cats time c enum cat l s w with
  | Some w' =>
      if Log.level_int l <=? Log.level_int (Log.level c)
      then ∃ text, j_dump (line (Category.catToInt type_hash enum cat) l s) = Some text ∧
           Log.console w' = Log.console w ++ Strings.c_str text ++ [10] ∧
           ∀ more, Log.level_int (Log.level c) ≤ Log.level_int more →
             at_level_in type_hash cats time (Log.setLevel more c) enum cat l s w = Some w'
      else w' = w
  | None => j_dump (line (Category.catToInt type_hash enum cat) l s) = None ∧ Log.level_int l ≤ Log.level_int (Log.level c)
  end.
Proof.
  assert (Hck : ∀ more, Log.check l (Log.setLevel more c) = (Log.level_int l <=? Log.level_int more)).
  { intros more. unfold Log.check. simpl. by rewrite Hcon. }
  assert (H0 : Log.check l c = (Log.level_int l <=? Log.level_int (Log.level c))) by (unfold Log.check; by rewrite Hcon).
  rewrite at_level_in_spec, H0. destruct (Z.leb_spec (Log.level_int l) (Log.level_int (Log.level c))) as [Hle|Hgt]; [|done].
  destruct (j_dump _) as [text|] eqn:Ed; simpl; [|done]. exists text.
  split_and!; [done|unfold Log.msg_text; by rewrite Hcon|].
  intros more Hm. rewrite at_level_in_spec, Hck, (proj2 (Z.leb_le _ _)) by lia. by rewrite Ed.
Qed.

End Proofs.
End LogLevels.

(** ** The logger that carries a context *)
Module Logger.
Section Code.
Context {J : JsonLog} {D : LogDisk}.

(** [src/src/log/Logger.cpp:16-29] LoggerImpl

    The context; the other member is not used.  A [Logger] always has one. *)
Record t := mk { context : gmap cstr jvalue }.

(** [src/src/log/Logger.cpp:33-36] Logger::Logger *)
Definition new : t := mk ∅.

(** [src/src/log/Logger.cpp:38-42] Logger::Logger(Logger &&)

    The new object and the one moved from. *)
Definition move_construct (rhs : t) : t * t := (rhs, new).

(** [src/src/log/Logger.cpp:44-47] Logger::Logger(const Logger &) *)
Definition copy_construct (rhs : t) : t := rhs.

(** [src/src/log/Logger.cpp:49-57] Logger::operator=(Logger &&)

    [None] as the right side is the object itself. *)
Definition move_assign (x : t) (rhs : option t) : t * option t :=
  match rhs with None => (x, None) | Some r => (r, Some new) end.

(** [src/src/log/Logger.cpp:59-66] Logger::operator=(const Logger &) *)
Definition copy_assign (x : t) (rhs : option t) : t := match rhs with None => x | Some r => r end.

Definition addContext (attr : cstr) (value : jvalue) (x : t) : t := mk (Log.addContext attr value (context x)).
Definition addListContext (attr value : cstr) (x : t) : t := mk (Log.addListContext attr value (context x)).

Section Levels.
Variable type_hash : cstr → Z.
Variable cats : gmap Z cstr.
Variable time : cstr.
Variable c : Log.config.

Definition at_level (l : Level.t) (enum : cstr) (cat : Z) (s : cstr) (x : t) (w : Log.world) : Log.world :=
  if Log.check l c
  then Log.logger_msg type_hash cats time c (context x) (Category.catToInt type_hash enum cat) l s 0 None w
  else w.

(** [src/src/log/Logger.h:35-40] Logger::error *)
Definition error := at_level Level.Error.
(** [src/src/log/Logger.h:42-47] Logger::warn *)
Definition warn := at_level Level.Warn.
(** [src/src/log/Logger.h:49-54] Logger::info *)
Definition info := at_level Level.Info.
(** [src/src/log/Logger.h:56-61] Logger::debug *)
Definition debug := at_level Level.Debug.
(** [src/src/log/Logger.h:63-68] Logger::traffic *)
Definition traffic := at_level Level.Traffic.

End Levels.

(** Copies are independent: what is added to one is not in the other, whichever it is. *)
Lemma copies_apart x attr v a :
  context (addContext attr v (copy_construct x)) !! a = (if decide (a = attr) then Some v else context x !! a) ∧
  copy_construct x = x.
Proof.
  split; [|done]. unfold addContext, Log.addContext. simpl. case_decide as E; [subst; by rewrite lookup_insert_eq|].
  by rewrite lookup_insert_ne.
Qed.

Lemma list_grows x attr l vs :
  context x !! attr = Some (JArray l) →
  context (foldl (λ x v, addListContext attr v x) x vs) !! attr = Some (JArray (l ++ (JString <$> vs))).
Proof.
  revert x l. induction vs as [|v vs IH]; intros x l Hx; [by rewrite app_nil_r|]. cbn [foldl].
  rewrite (IH _ (l ++ [JString v])); [by rewrite <- app_assoc|].
  unfold addListContext, Log.addListContext. rewrite Hx. apply lookup_insert_eq.
Qed.

(** A list attribute collects every value that is added to it, in order. *)
Lemma list_context x attr vs :
  context x !! attr = None → vs ≠ [] →
  context (foldl (λ x v, addListContext attr v x) x vs) !! attr = Some (JArray (JString <$> vs)).
Proof.
  intros Hx Hne. destruct vs as [|v vs]; [done|]. cbn [foldl]. rewrite (list_grows _ attr [JString v]); [done|].
  unfold addListContext, Log.addListContext. rewrite Hx. apply lookup_insert_eq.
Qed.

End Code.
End Logger.

(** ** What the protobuf library logs *)
Module PbLogger.
Section Code.
Context {J : JsonLog} {D : LogDisk}.
Variable type_hash : cstr → Z.

Inductive severity := kInfo | kWarning | kError | kFatal.

(** [src/src/pb/Logger.cpp:28-42] Send (level) *)
Definition level_of (s : severity) : Level.t :=
  match s with kInfo => Level.Debug | kWarning => Level.Warn | kError | kFatal => Level.Error end.

(** [src/src/pb/Logger.cpp:26-46] Send

    With no category, which is the general one. *)
Definition Send (cats : gmap Z cstr) (time : cstr) (c : Log.config) (s : severity) (text : cstr) (w : Log.world)
  : option Log.world := Log.msg type_hash cats time c (level_of s) text w.

(** [src/src/pb/Logger.cpp:51-59] Logger::init

    Whether it was done, the categories, and how many sinks are registered. *)
Definition init (st : bool * gmap Z cstr * nat) : bool * gmap Z cstr * nat :=
  let '(bInit, cats, sinks) := st in
  if bInit then st
  else (true, Category.addInternal (Category.catToInt type_hash $"ProtobufCategory" 0) $"PROTOBUF" cats, S sinks).

(** [src/src/svc/service/Log.cpp:9-15] svc::initLogger (with the sink) *)
Definition initLogger (st : bool * gmap Z cstr * nat) : bool * gmap Z cstr * nat :=
  init (st.1.1, Category.initLogger type_hash st.1.2, st.2).

(** However often it is called, there is one sink. *)
Lemma one_sink cats n : (Nat.iter (S n) initLogger (false, cats, 0%nat)).2 = 1%nat ∧ (Nat.iter (S n) initLogger (false, cats, 0%nat)).1.1 = true.
Proof.
  induction n as [|n [IH1 IH2]]; [done|]. rewrite Nat.iter_succ.
  destruct (Nat.iter (S n) initLogger (false, cats, 0%nat)) as [[b m] k]. simpl in *. by subst.
Qed.

End Code.
End PbLogger.
