(* ===== verification/AnyMap.v ===== *)
(** * Typed containers: [utils/AnyMap] and the [AnyMap] part of [utils/Details]

    A map from the hash of a type to one owned object of that type.  The types a program
    stores, their hashes, default values and whether they can be copied are an interface;
    reading an object as another type than its own, or through a null pointer, is
    undefined behaviour ([None]). *)

From S2P Require Import Prelude Strings Errors.

(** The types stored in such maps and their objects. *)
Class Types := {
  ty : Type;
  #[global] ty_eq_dec :: EqDecision ty;
  obj : Type;
  ty_of : obj → ty;
  default_obj : ty → obj;
  hash_code : ty → Z;
  copyable : ty → bool;
}.

(** A default-constructed object has its type. *)
Class TypesLaws (T : Types) := { ty_default c : ty_of (default_obj c) = c }.

(** The language does not promise that two types have different hash codes.  This is the
    condition on a program that its types do; only what needs it asks for it. *)
Class DistinctTypes (T : Types) := { hash_inj c d : hash_code c = hash_code d → c = d }.

Module AnyMap.
Section Code.
Context {T : Types}.

(** [src/src/utils/AnyMap.h:112-176] AnyMap::ObjHolder

    [h_ty] is the template parameter, [pt] the owned object. *)
Record holder := Holder { h_ty : ty; pt : option obj }.

(** The map of the class; a moved-from entry keeps its key with a null holder. *)
#[local] Abbreviation map := (gmap Z (option holder)).

(** [src/src/utils/AnyMap.h:144-163] ObjHolder::clone

    [None] is the null pointer given for objects that cannot be copied. *)
Definition clone (h : holder) : option holder :=
  if copyable (h_ty h) then
    match pt h with
    | None => None
    | Some o => Some (Holder (h_ty h) (Some o))
    end
  else None.

(** The object an entry holds, read as type [c]. *)
Definition read (c : ty) (e : option holder) : option obj :=
  h ← e; o ← pt h; if decide (h_ty h = c) then Some o else None.

(** [src/src/utils/AnyMap.h:25-31] AnyMap::get *)
Definition get (c : ty) (m : map) : option (obj * map) :=
  match m !! hash_code c with
  | None => let o := default_obj c in Some (o, <[hash_code c := Some (Holder c (Some o))]> m)
  | Some e => o ← read c e; Some (o, m)
  end.

(** [src/src/utils/AnyMap.h:35-41] AnyMap::get (rvalue) *)
Definition get_move (c : ty) (m : map) : option obj :=
  match m !! hash_code c with
  | None => Some (default_obj c)
  | Some e => read c e
  end.

(** [src/src/utils/AnyMap.h:44-47] AnyMap::get (const)

    The map it is called on grows all the same. *)
Definition get_const (c : ty) (m : map) : option (obj * map) := get c m.

(** Writing through the reference [get] returned. *)
Definition assign (c : ty) (o : obj) (m : map) : map := <[hash_code c := Some (Holder c (Some o))]> m.

(** [src/src/utils/AnyMap.h:50-59] AnyMap::set

    Its template parameter is the type of the object. *)
Definition set (o : obj) (m : map) : map := <[hash_code (ty_of o) := Some (Holder (ty_of o) (Some o))]> m.

(** [src/src/utils/AnyMap.h:62-70] AnyMap::set(unique_ptr) *)
Definition set_ptr (c : ty) (p : option obj) (m : map) : map := <[hash_code c := Some (Holder c p)]> m.

(** [src/src/utils/AnyMap.h:73-76] AnyMap::has *)
Definition has (c : ty) (m : map) : bool := bool_decide (is_Some (m !! hash_code c)).

(** [src/src/utils/AnyMap.h:79-82] AnyMap::clear *)
Definition clear (c : ty) (m : map) : map := delete (hash_code c) m.

(** One entry copied into [m]; a null holder cannot be asked for a copy. *)
Definition copy_entry (insert : Z → holder → map → map) (p : Z * option holder) (m : map) : option map :=
  h ← p.2; Some (match clone h with Some h' => insert p.1 h' m | None => m end).

Definition copy_all (insert : Z → holder → map → map) (from : map) (m : map) : option map :=
  foldl (λ acc p, acc ≫= copy_entry insert p) (Some m) (ordered from).

(** [emplace] leaves an entry that is there. *)
Definition emplace (k : Z) (h : holder) (m : map) : map :=
  match m !! k with Some _ => m | None => <[k := Some h]> m end.

(** [src/src/utils/AnyMap.cpp:10-23] AnyMap::operator=(copy) *)
Definition copy_assign (same : bool) (x rhs : map) : option map :=
  if same then Some x else copy_all emplace rhs ∅.

(** [src/src/utils/AnyMap.cpp:5-8] AnyMap::AnyMap(copy) *)
Definition copy_construct (rhs : map) : option map := copy_assign false ∅ rhs.

(** [src/src/utils/AnyMap.cpp:25-34] AnyMap::operator+=(move)

    Both maps after it. *)
Definition plus_move (same : bool) (x rhs : map) : map * map :=
  if same then (x, rhs)
  else (foldl (λ m p, <[p.1 := p.2]> m) x (ordered rhs), (λ _, None) <$> rhs).

(** [src/src/utils/AnyMap.cpp:36-49] AnyMap::operator+=(copy) *)
Definition plus_copy (same : bool) (x rhs : map) : option map :=
  if same then Some x else copy_all (λ k h m, <[k := Some h]> m) rhs x.

(** ** Walking a map *)

Lemma ordered_keys {A} (m : gmap Z A) : NoDup (ordered m).*1.
Proof. unfold ordered. rewrite merge_sort_Permutation. apply NoDup_fst_map_to_list. Qed.

Lemma ordered_to_map {A} (m : gmap Z A) : list_to_map (ordered m) = m.
Proof.
  rewrite <- (list_to_map_to_list m) at 2. apply list_to_map_proper; [apply ordered_keys|apply merge_sort_Permutation].
Qed.

Lemma foldl_insert {A} (l : list (Z * A)) (m : gmap Z A) :
  NoDup l.*1 → foldl (λ m p, <[p.1 := p.2]> m) m l = list_to_map l ∪ m.
Proof.
  revert m. induction l as [|[k a] l IH]; intros m Hnd; [simpl; by rewrite map_empty_union|].
  apply NoDup_cons in Hnd as [Hk Hnd]. rewrite list_to_map_cons. cbn [foldl fst snd]. rewrite IH by done.
  apply map_eq. intros j. rewrite !lookup_union. destruct (decide (j = k)) as [->|].
  - rewrite (not_elem_of_list_to_map_1 l k Hk), !lookup_insert_eq; by destruct (m !! k).
  - by rewrite !lookup_insert_ne by done.
Qed.

(** ** The invariant: every entry owns an object of the type its key is the hash of *)

Definition entry_ok (k : Z) (e : option holder) : Prop :=
  ∃ c o, e = Some (Holder c (Some o)) ∧ ty_of o = c ∧ k = hash_code c.
Definition wf (m : map) : Prop := map_Forall entry_ok m.

(** What survives a copy. *)
Definition kept (e : option holder) : option (option holder) :=
  match e with Some h => if copyable (h_ty h) then Some e else None | None => None end.

Lemma copy_entry_ok insert k h m :
  entry_ok k (Some h) →
  copy_entry insert (k, Some h) m = Some (if copyable (h_ty h) then insert k h m else m).
Proof. intros (c & o & [= ->] & _ & _). unfold copy_entry, clone; simpl. by destruct (copyable c). Qed.

Lemma copy_list_ok (P : Prop) insert (l : list (Z * option holder)) (m : map) :
  NoDup l.*1 → Forall (λ p, entry_ok p.1 p.2) l →
  (∀ k h (m' : map), P ∨ m' !! k = None → insert k h m' = <[k := Some h]> m') →
  P ∨ (∀ k, k ∈ l.*1 → m !! k = None) →
  foldl (λ acc p, acc ≫= copy_entry insert p) (Some m) l = Some (omap kept (list_to_map l : map) ∪ m).
Proof.
  intros Hnd Hok Hins. revert m. induction l as [|[k e] l IH]; intros m Hm.
  { rewrite list_to_map_nil, omap_empty. cbn [foldl]. by rewrite map_empty_union. }
  apply NoDup_cons in Hnd as [Hk Hnd]. apply Forall_cons in Hok as [He Hok].
  destruct He as (c & o & Ee & Ho & Hkc). simpl in Ee. subst e. rewrite list_to_map_cons. cbn [foldl mbind option_bind fst snd].
  rewrite copy_entry_ok by (by exists c, o). cbn [h_ty].
  assert (Hl : (list_to_map l : map) !! k = None) by (by apply not_elem_of_list_to_map_1).
  destruct (copyable c) eqn:Hc.
  - rewrite Hins by (destruct Hm as [|Hm]; [by left|right; apply Hm; by left]).
    rewrite IH; [|done|done|].
    + f_equal. rewrite omap_insert; simpl. rewrite Hc. rewrite <- insert_union_l. rewrite <- insert_union_r; [done|].
      by rewrite lookup_omap, Hl.
    + destruct Hm as [|Hm]; [by left|right]. intros j Hj. rewrite lookup_insert_ne by (intros ->; done).
      apply Hm. by right.
  - rewrite IH; [|done|done|].
    + f_equal. rewrite omap_insert; simpl. rewrite Hc, delete_id; [done|]. by rewrite lookup_omap, Hl.
    + destruct Hm as [|Hm]; [by left|right]. intros j Hj. apply Hm. by right.
Qed.

Lemma wf_ordered m : wf m → Forall (λ p, entry_ok p.1 p.2) (ordered m).
Proof. intros Hm. apply Forall_forall. intros [k e] He%elem_of_ordered. by apply Hm. Qed.

Lemma copy_construct_wf m : wf m → copy_construct m = Some (omap kept m).
Proof.
  intros Hm. unfold copy_construct, copy_assign, copy_all.
  rewrite (copy_list_ok False); [by rewrite ordered_to_map, map_union_empty|apply ordered_keys|by apply wf_ordered| |].
  - intros k h m' [[]|Hk]. unfold emplace. by rewrite Hk.
  - right. intros k _. apply lookup_empty.
Qed.

Lemma plus_copy_wf x m : wf m → plus_copy false x m = Some (omap kept m ∪ x).
Proof.
  intros Hm. unfold plus_copy, copy_all.
  rewrite (copy_list_ok True); [by rewrite ordered_to_map|apply ordered_keys|by apply wf_ordered|done|by left].
Qed.

Lemma plus_move_fst x m : (plus_move false x m).1 = m ∪ x.
Proof. unfold plus_move; simpl. by rewrite foldl_insert, ordered_to_map by apply ordered_keys. Qed.

(** ** What a map holds for each type *)

Definition view (m : map) (c : ty) : option obj := m !! hash_code c ≫= read c.

Lemma wf_insert c o m : ty_of o = c → wf m → wf (<[hash_code c := Some (Holder c (Some o))]> m).
Proof. intros Ho Hm. apply map_Forall_insert_2; [by exists c, o|done]. Qed.

Lemma wf_union m x : wf m → wf x → wf (m ∪ x).
Proof. apply map_Forall_union_2. Qed.

Lemma wf_kept m : wf m → wf (omap kept m).
Proof.
  intros Hm k e He. rewrite lookup_omap in He. apply bind_Some in He as (e' & He' & Hk).
  destruct (Hm k e' He') as (c & o & -> & ? & ->). simpl in Hk.
  destruct (copyable c); [|done]. injection Hk as <-. by exists c, o.
Qed.

Context {L : TypesLaws T}.

(** ** The maps a program can build

    By storing objects, through pointers too, asking for them, writing through the references
    it gets, clearing, copying, and merging by copy or move.  [strict] programs store no
    null pointer and leave a map alone that they moved something out of. *)
Inductive reach (strict : bool) : map → Prop :=
  | reach_empty : reach strict ∅
  | reach_set o m : reach strict m → reach strict (set o m)
  | reach_set_ptr c p m :
      reach strict m → match p with Some o => ty_of o = c | None => strict = false end → reach strict (set_ptr c p m)
  | reach_get c o m m' : reach strict m → get c m = Some (o, m') → reach strict m'
  | reach_assign o o' m m' : reach strict m → get (ty_of o) m = Some (o', m') → reach strict (assign (ty_of o) o m')
  | reach_clear c m : reach strict m → reach strict (clear c m)
  | reach_copy m m' : reach strict m → copy_construct m = Some m' → reach strict m'
  | reach_plus_copy x m x' : reach strict x → reach strict m → plus_copy false x m = Some x' → reach strict x'
  | reach_plus_move x m : reach strict x → reach strict m → reach strict (plus_move false x m).1
  | reach_moved x m : strict = false → reach strict x → reach strict m → reach strict (plus_move false x m).2.

(** What an entry is, whatever was done: moved away, a null pointer, or an object of the type
    of its holder, whose hash code is the key. *)
Definition slot_ok (strict : bool) (k : Z) (e : option holder) : Prop :=
  match e with
  | None => strict = false
  | Some h => k = hash_code (h_ty h) ∧ match pt h with None => strict = false | Some o => ty_of o = h_ty h end
  end.
Definition slots (strict : bool) (m : map) : Prop := map_Forall (slot_ok strict) m.

Lemma slots_wf m : slots true m → wf m.
Proof.
  intros Hm k e He. specialize (Hm k e He). destruct e as [[d [o|]]|]; [|by destruct Hm as [_ ?]|done].
  destruct Hm as [-> Ho]. by exists d, o.
Qed.

Lemma slots_insert strict c p m :
  match p with Some o => ty_of o = c | None => strict = false end → slots strict m →
  slots strict (<[hash_code c := Some (Holder c p)]> m).
Proof. intros Hp Hm. apply map_Forall_insert_2; [|done]. by split. Qed.

(** A copy holds what it was copied from. *)
Lemma clone_same h h' : clone h = Some h' → h' = h ∧ is_Some (pt h).
Proof. unfold clone. destruct (copyable _), h as [c [o|]]; simpl; intros; simplify_eq; by split. Qed.

Lemma slots_copy strict insert l : ∀ m m',
  (∀ k h m, slot_ok strict k (Some h) → slots strict m → slots strict (insert k h m)) →
  Forall (λ p, slot_ok strict p.1 p.2) l → slots strict m →
  foldl (λ acc p, acc ≫= copy_entry insert p) (Some m) l = Some m' → slots strict m'.
Proof.
  induction l as [|[k e] l IH]; intros m m' Hins Hl Hm; cbn [foldl]; [by intros [= <-]|].
  apply Forall_cons in Hl as [He Hl]. destruct e as [h|].
  - cbn. destruct (clone h) as [h'|] eqn:Ec; [|by apply IH].
    apply clone_same in Ec as [-> _]. apply IH; [done..|]. by apply Hins.
  - cbn. intros H. exfalso. revert H. clear. by induction l.
Qed.

Lemma slots_ordered strict m : slots strict m → Forall (λ p, slot_ok strict p.1 p.2) (ordered m).
Proof. intros Hm. apply Forall_forall. intros [k e] He%elem_of_ordered. by apply Hm. Qed.

Lemma get_slots strict c o m m' :
  slots strict m → get c m = Some (o, m') → ty_of o = c ∧ get_move c m = Some o ∧ slots strict m'.
Proof.
  unfold get, get_move. intros Hm. destruct (m !! hash_code c) as [e|] eqn:E.
  - specialize (Hm _ _ E) as He. destruct e as [[d [o1|]]|]; cbn; [|done..]. case_decide as Hd; [|done].
    cbn. destruct He as [_ He]. intros [= <- <-]. cbn in He. by subst.
  - intros [= <- <-]. split_and!; [apply ty_default|done|]. apply slots_insert; [apply ty_default|done].
Qed.

Lemma reach_slots strict m : reach strict m → slots strict m.
Proof.
  induction 1 as [|o m _ IH|c p m _ IH Hp|c o m m' _ IH Hget|o o' m m' _ IH Hget|c m _ IH|m m' _ IH Hc
                 |x m x' _ IHx _ IHm Hp|x m _ IHx _ IHm|x m Hs _ IHx _ IHm].
  - apply map_Forall_empty.
  - by apply slots_insert.
  - by apply slots_insert.
  - by apply (get_slots _ _ _ _ _ IH Hget).
  - apply slots_insert; [done|]. by apply (get_slots _ _ _ _ _ IH Hget).
  - by apply map_Forall_delete.
  - eapply slots_copy; [| |apply map_Forall_empty|exact Hc]; [|by apply slots_ordered].
    intros k h m0 Hh Hm0. unfold emplace. destruct (m0 !! k); [done|]. by apply map_Forall_insert_2.
  - eapply slots_copy; [| |exact IHx|exact Hp]; [|by apply slots_ordered].
    intros k h m0 Hh Hm0. by apply map_Forall_insert_2.
  - rewrite plus_move_fst. by apply map_Forall_union_2.
  - intros k e He. cbn in He. rewrite lookup_fmap in He. by destruct (m !! k); simplify_eq/=.
Qed.

(** An entry that cannot be read as type [c]: it was moved away, it is a null pointer, or it
    is an object of another type. *)
Definition unreadable (c : ty) (e : option holder) : Prop :=
  match e with None => True | Some h => match pt h with None => True | Some o => ty_of o ≠ c end end.

Lemma get_fails strict c m : slots strict m →
  get c m = None ↔ ∃ e, m !! hash_code c = Some e ∧ unreadable c e.
Proof.
  intros Hm. unfold get. destruct (m !! hash_code c) as [e|] eqn:E.
  - specialize (Hm _ _ E). destruct e as [[d [o|]]|]; cbn in *; [|by split; [intros _; eexists|]..].
    destruct Hm as [_ Ho]. case_decide as Hd; cbn.
    + split; [done|]. intros (e & [= <-] & Hu). cbn in Hu. congruence.
    + split; [|done]. intros _. eexists. split; [done|]. cbn. congruence.
  - split; [done|]. by intros (e & ? & _).
Qed.

Lemma get_move_fails c m : get_move c m = None ↔ get c m = None.
Proof. unfold get_move, get. destruct (m !! hash_code c) as [e|]; [|done]. by destruct (read c e). Qed.

(** Copying fails exactly on an entry that was moved away. *)
Lemma copy_fails insert l : ∀ m,
  foldl (λ acc p, acc ≫= copy_entry insert p) (Some m) l = None ↔ ∃ k, (k, None) ∈ l.
Proof.
  induction l as [|[k e] l IH]; intros m; cbn [foldl].
  - split; [done|]. by intros [k ?%not_elem_of_nil].
  - destruct e as [h|].
    + cbn. replace (foldl _ _ l = None ↔ ∃ k0, (k0, None) ∈ (k, Some h) :: l)
        with (foldl (λ acc p, acc ≫= copy_entry insert p)
          (Some (match clone h with Some h' => insert k h' m | None => m end)) l = None ↔
          ∃ k0, (k0, None) ∈ (k, Some h) :: l) by done.
      rewrite IH. split; intros [k' Hk]; exists k'; [by right|]. by apply elem_of_cons in Hk as [[=]|].
    + split; [intros _; exists k; by left|]. intros _. cbn. clear. by induction l.
Qed.

Lemma copy_all_fails insert m x : copy_all insert m x = None ↔ ∃ k, m !! k = Some None.
Proof. unfold copy_all. rewrite copy_fails. split; intros [k Hk]; exists k; by apply elem_of_ordered. Qed.

(** C19: Type safety of the typed container, and its limits. Take any map a program can build,
    null pointers stored and maps moved from included. What it gives when asked for a type is
    an object of that very type (a new one if it has none), and the map then is again such
    a map. Asking is undefined exactly when the entry under the type's hash code was moved
    away, is a null pointer, or is an object of another type with the same hash code; copying and
    merging by copy are undefined exactly when an entry was moved away. A program that stores no
    null pointers and leaves moved-from maps alone meets only the last case, two of its
    types with the same hash code, which the language does not exclude: then storing one and asking
    for the other is undefined, always. So is asking for a null pointer that was just stored,
    and asking a map for what was moved out of it. *)
Theorem anymap_type_safe (strict : bool) (m : map) (Hm : reach strict m) :
  (∀ c o m', get c m = Some (o, m') → ty_of o = c ∧ get_move c m = Some o ∧ reach strict m') ∧
  (∀ c, (get c m = None ↔ ∃ e, m !! hash_code c = Some e ∧ unreadable c e) ∧ (get_move c m = None ↔ get c m = None)) ∧
  (copy_construct m = None ↔ ∃ k, m !! k = Some None) ∧
  (∀ x, plus_copy false x m = None ↔ ∃ k, m !! k = Some None) ∧
  (strict = true → (∀ k, m !! k ≠ Some None) ∧
     ∀ c, get c m = None → ∃ o, m !! hash_code c = Some (Some (Holder (ty_of o) (Some o))) ∧
       ty_of o ≠ c ∧ hash_code (ty_of o) = hash_code c) ∧
  (∀ o c, ty_of o ≠ c → hash_code (ty_of o) = hash_code c → get c (set o m) = None) ∧
  (∀ c, get c (set_ptr c None m) = None) ∧
  (∀ x c, has c m = true → get c (plus_move false x m).2 = None).
Proof.
  pose proof (reach_slots strict m Hm) as Hs. split_and!.
  - intros c o m' Hg. destruct (get_slots _ _ _ _ _ Hs Hg) as (Ho & Hmv & _). eauto using reach_get.
  - intros c. split; [by eapply get_fails|apply get_move_fails].
  - apply copy_all_fails.
  - intros x. apply copy_all_fails.
  - intros ->. split; [by intros k Hk; destruct (slots_wf m Hs _ _ Hk) as (? & ? & [=] & _)|].
    intros c (e & He & Hu)%(get_fails true); [|done].
    destruct (slots_wf m Hs _ _ He) as (d & o & -> & <- & Hd). by exists o.
  - intros o c Hne Hh. unfold get, set. rewrite Hh, lookup_insert_eq. cbn. by rewrite decide_False.
  - intros c. unfold get, set_ptr. by rewrite lookup_insert_eq.
  - intros x c. unfold has, get. rewrite bool_decide_eq_true. intros [e He]. simpl. by rewrite lookup_fmap, He.
Qed.

(** ** Programs whose types have different hash codes *)
Context {DT : DistinctTypes T}.

(** Looking a type up in a well-formed map finds nothing, or an object of that type. *)
Lemma wf_lookup m c :
  wf m → (m !! hash_code c = None ∧ view m c = None) ∨
         ∃ o, m !! hash_code c = Some (Some (Holder c (Some o))) ∧ ty_of o = c ∧ view m c = Some o.
Proof.
  intros Hm. unfold view. destruct (m !! hash_code c) as [e|] eqn:E; [right|by left].
  destruct (Hm _ _ E) as (d & o & -> & Ho & Hd). apply hash_inj in Hd as <-. exists o.
  split_and!; [done..|]. simpl. by rewrite decide_True.
Qed.

Lemma get_wf c m : wf m →
  ∃ o m', get c m = Some (o, m') ∧ ty_of o = c ∧ wf m' ∧ o = default (default_obj c) (view m c) ∧
          ∀ d, view m' d = if decide (d = c) then Some o else view m d.
Proof.
  intros Hm. unfold get. destruct (wf_lookup m c Hm) as [[-> Hv]|(o & -> & Ho & Hv)]; rewrite Hv.
  - eexists _, _. split_and!; [done|apply ty_default|by apply wf_insert; [apply ty_default|]|done|].
    intros d. unfold view. rewrite lookup_insert. destruct (decide (d = c)) as [->|Hd].
    + rewrite decide_True by done. simpl. by rewrite decide_True.
    + by rewrite decide_False by (intros ?%hash_inj; congruence).
  - exists o, m. split_and!; [simpl; by rewrite decide_True|done..|].
    intros d. by destruct (decide (d = c)) as [->|].
Qed.

Lemma map_reach_wf m : reach true m → wf m.
Proof. intros Hm. by apply slots_wf, reach_slots. Qed.

Lemma view_insert c o m d : view (<[hash_code c := Some (Holder c (Some o))]> m) d =
  if decide (d = c) then Some o else view m d.
Proof.
  unfold view. rewrite lookup_insert. destruct (decide (d = c)) as [->|Hd].
  - rewrite decide_True by done. simpl. by rewrite decide_True.
  - by rewrite decide_False by (intros ?%hash_inj; congruence).
Qed.

Lemma view_kept m c : wf m → omap kept m !! hash_code c =
  if copyable c then m !! hash_code c else None.
Proof.
  intros Hm. rewrite lookup_omap. destruct (wf_lookup m c Hm) as [[-> _]|(o & -> & _)]; simpl; by destruct (copyable c).
Qed.

(** The typed container refines a partial function from types to objects: each
    operation acts on what the map holds for each type as its name says.  Asking for a
    type that is not there creates its default object; copies keep the copyable types;
    merging prefers the right-hand side, by copy only its copyable types.  This is for
    programs whose types have different hash codes, that store no null pointer and leave
    moved-from maps alone. *)
Theorem anymap_refines (m x : map) (Hm : reach true m) (Hx : reach true x) :
  (∀ c, ∃ m', get c m = Some (default (default_obj c) (view m c), m') ∧
     ∀ d, view m' d = if decide (d = c) then Some (default (default_obj c) (view m c)) else view m d) ∧
  (∀ o d, view (set o m) d = if decide (d = ty_of o) then Some o else view m d) ∧
  (∀ c d, view (clear c m) d = if decide (d = c) then None else view m d) ∧
  (∀ c, has c m = bool_decide (is_Some (view m c))) ∧
  (∃ m', copy_construct m = Some m' ∧ ∀ d, view m' d = if copyable d then view m d else None) ∧
  (∃ x', plus_copy false x m = Some x' ∧
     ∀ d, view x' d = if copyable d && bool_decide (is_Some (view m d)) then view m d else view x d) ∧
  (∀ d, view (plus_move false x m).1 d = match view m d with Some o => Some o | None => view x d end).
Proof.
  apply map_reach_wf in Hm, Hx. split_and!.
  - intros c. destruct (get_wf c m Hm) as (o & m' & Hg & _ & _ & -> & Hd). eauto.
  - intros o d. apply view_insert.
  - intros c d. unfold view, clear. rewrite lookup_delete. destruct (decide (d = c)) as [->|Hd].
    + by rewrite decide_True.
    + by rewrite decide_False by (intros ?%hash_inj; congruence).
  - intros c. unfold has. by destruct (wf_lookup m c Hm) as [[-> ->]|(o & -> & _ & ->)].
  - eexists. split; [by apply copy_construct_wf|]. intros d. unfold view. rewrite view_kept by done.
    by destruct (copyable d).
  - eexists. split; [by apply plus_copy_wf|]. intros d. unfold view at 1. rewrite lookup_union, view_kept by done.
    destruct (wf_lookup m d Hm) as [[E Hv]|(o & E & _ & Hv)]; rewrite E, Hv; destruct (copyable d); simpl;
      rewrite ?(left_id_L None (∪)); try done.
    + by destruct (x !! hash_code d); simpl; rewrite decide_True.
  - intros d. rewrite plus_move_fst. unfold view at 1. rewrite lookup_union.
    destruct (wf_lookup m d Hm) as [[E Hv]|(o & E & _ & Hv)]; rewrite E, Hv; simpl.
    + by rewrite (left_id_L None (∪)).
    + by destruct (x !! hash_code d); simpl; rewrite decide_True.
Qed.

End Code.
End AnyMap.

(** [Details] as a whole: its error and, as its base class, a typed container. *)
Module DetailsMap.
Section Code.
Context {T : Types}.

(** [src/src/utils/Details.h:19-78] Details *)
Record t := mk { error : Details.t; any : gmap Z (option AnyMap.holder) }.

Definition new : t := mk Details.new ∅.
Definition isOk (x : t) : bool := Details.isOk (error x).

(** [src/src/utils/AnyMap.cpp:25-34] Details, through its base class

    The base class's operator is all there is: the error is not part of it. *)
Definition plus_move (x rhs : t) : t * t :=
  let '(a, b) := AnyMap.plus_move false (any x) (any rhs) in (mk (error x) a, mk (error rhs) b).

(** [src/src/utils/AnyMap.cpp:5-23] Details, through its base class

    A copy: the error and the objects that can be copied.  None where an entry was moved
    away before. *)
Definition copy_construct (x : t) : option t := a ← AnyMap.copy_construct (any x); Some (mk (error x) a).

(** Merging details keeps the error of the left side: the failure of an operation whose
    details are merged into a caller's is lost. *)
Lemma plus_move_drops_error x rhs :
  isOk (plus_move x rhs).1 = isOk x ∧ error (plus_move x rhs).1 = error x ∧
  any (plus_move x rhs).1 = any rhs ∪ any x.
Proof. split_and!; [done..|]. apply AnyMap.plus_move_fst. Qed.

End Code.
End DetailsMap.

Module AnyExamples.
Import AnyMap.

(** Objects are a type number and a value; type 2 cannot be copied. *)
#[local] Instance ToyTypes : Types := {
  ty := Z; obj := Z * Z; ty_of := fst; default_obj c := (c, 0); hash_code c := c + 1000;
  copyable c := negb (c =? 2) }.
#[local] Instance ToyTypesLaws : TypesLaws ToyTypes.
Proof. by split. Qed.
#[local] Instance ToyDistinct : DistinctTypes ToyTypes.
Proof. split. simpl. intros c d H. lia. Qed.

Lemma stored_reach : reach true (set (2, 5) (set (1, 7) ∅)).
Proof. by repeat constructor. Qed.

Lemma anymap_type_safe_witness :
  ∃ o m', get 1 (set (2, 5) (set (1, 7) ∅)) = Some (o, m') ∧ ty_of o = 1 ∧ reach true m'.
Proof.
  destruct (anymap_type_safe true _ stored_reach) as (Hget & _).
  assert (E : ∃ o m', get 1 (set (2, 5) (set (1, 7) ∅)) = Some (o, m')) by (do 2 eexists; vm_compute; reflexivity).
  destruct E as (o & m' & E). destruct (Hget _ o m' E) as (Ho & _ & Hr). exists o, m'.
  split; [exact E|]. split; [exact Ho|exact Hr].
Defined.

Lemma anymap_refines_witness :
  ∃ m', copy_construct (set (2, 5) (set (1, 7) ∅)) = Some m' ∧ view m' 2 = None ∧ view m' 1 = Some (1, 7).
Proof.
  destruct (anymap_refines _ ∅ stored_reach (reach_empty true)) as (_ & _ & _ & _ & (m' & Hc & Hv) & _).
  exists m'. split; [exact Hc|]. rewrite !Hv. by vm_compute.
Defined.

(** Two types with one hash code: what was stored as the one cannot be asked for as the other. *)
Lemma collision_example :
  let T : Types := {| ty := Z; obj := Z * Z; ty_of := fst; default_obj c := (c, 0); hash_code c := 0; copyable c := true |} in
  get (T := T) 1 (set (T := T) (2, 5) ∅) = None ∧ get (T := T) 2 (set (T := T) (2, 5) ∅) = Some ((2, 5), set (T := T) (2, 5) ∅).
Proof. by vm_compute. Qed.

End AnyExamples.
