(* ===== verification/KeyWrap.v ===== *)
(** * Private keys at rest: [ossl/PbkdfKey], [ossl/Pkcs8Key]

    Two ways of protecting a private key with a password.  Key derivation, the cipher,
    the MAC, object identifiers and the ASN.1 codec of OpenSSL are an interface.  An
    [option] around a result is undefined behaviour: here, a cipher writing past the end
    of the buffer the code made for it.  The signature of a key file is checked as the code
    does it: a signing that fails gives an empty value, which an empty signature equals. *)

From S2P Require Import Prelude BinData Ossl BlockCore BlockTx.

(** OpenSSL's password based building blocks; algorithms are named by their NID. *)
Class Pbe := {
  ASN1_OBJECT : Type;
  OBJ_obj2nid : ASN1_OBJECT → Z;
  OBJ_nid2obj : Z → ASN1_OBJECT;
  (** [EVP_get_digestbynid] and [EVP_get_cipherbynid] find something *)
  is_digest : Z → bool;
  is_cipher : Z → bool;
  key_length : Z → Z;
  iv_length : Z → Z;
  (** password, salt, iterations, digest, output length *)
  PKCS5_PBKDF2_HMAC : bytes → bytes → Z → Z → Z → option bytes;
  (** cipher, key, data *)
  CMAC : Z → bytes → bytes → option bytes;
  (** cipher, key, initialisation vector, data: all that update and final wrote *)
  EVP_Encrypt : Z → bytes → bytes → bytes → bytes;
  (** likewise, with whether the last block was well formed: bytes are written either way *)
  EVP_Decrypt : Z → bytes → bytes → bytes → bytes * bool;
}.

Module PbkdfKey.

(** [src/src/ossl/PbkdfKey.cpp:23-23] SALT_LEN *)
Definition SALT_LEN : nat := 8.
(** [src/src/ossl/PbkdfKey.cpp:24-24] KDF_NID *)
Definition KDF_NID : Z := 1099.
(** [src/src/ossl/PbkdfKey.cpp:25-25] KEY_NID *)
Definition KEY_NID : Z := 427.
(** [src/src/ossl/PbkdfKey.cpp:26-26] IV_LEN *)
Definition IV_LEN : nat := 16.
(** [src/src/ossl/PbkdfKey.cpp:28-28] KDF_ITERS_MIN *)
Definition KDF_ITERS_MIN : Z := 1024.
(** [src/src/ossl/PbkdfKey.cpp:29-29] KDF_ITERS_MAX *)
Definition KDF_ITERS_MAX : Z := 10 * 1024 * 1024.
(** [src/src/ossl/PbkdfKey.h:19-19] KDF_ITERS_DEFAULT *)
Definition KDF_ITERS_DEFAULT : Z := 1024 * 1024.
(** [src/src/ossl/PbkdfKey.cpp:30-30] SALT_LEN_MIN *)
Definition SALT_LEN_MIN : Z := 8.
(** [src/src/ossl/PbkdfKey.cpp:31-31] SALT_LEN_MAX *)
Definition SALT_LEN_MAX : Z := 1024.

Section Code.
Context {P : Pbe}.

(** [src/src/ossl/PbkdfKey.cpp:38-59] FluffyPbkdfInfo *)
Record info := Info {
  version : Z;
  iters : Z;
  salt : bytes;
  iv : option bytes;
  kdf : ASN1_OBJECT;
  keytype : ASN1_OBJECT
}.

(** [src/src/ossl/PbkdfKey.cpp:61-74] FluffyPbkdfContent *)
Record content := Content { c_info : info; payload : bytes }.

(** [src/src/ossl/PbkdfKey.cpp:76-90] FluffyPbkdfKey *)
Record key := Key { k_content : content; signature : bytes }.

Context {R : Rng} {K : EvpKeys} {A : Asn1Lib} {DC : Der content} {DK : Der key}.

(** [src/src/ossl/PbkdfKey.cpp:94-127] pbkdf

    The data and MAC keys are the two halves of the derived bytes. *)
Definition pbkdf (keyLen : Z) (pass salt : bytes) (iters md : Z) : option (bytes * bytes) :=
  keys ← PKCS5_PBKDF2_HMAC pass salt iters md (keyLen * 2);
  Some (ztake keyLen keys, ztake keyLen (zdrop keyLen keys)).

(** [src/src/ossl/PbkdfKey.cpp:129-184] sign

    Empty when the MAC cannot be set up or computed. *)
Definition sign (content : bytes) (cipher : Z) (mak : bytes) : bytes := default [] (CMAC cipher mak content).

(** Writing [out] at the start of a buffer of [cap] bytes. *)
Definition write_into (cap : Z) (out : bytes) : option bytes :=
  if zlen out <=? cap then Some out else None.

(** [src/src/ossl/PbkdfKey.cpp:252-268] PbkdfKey::wrap (structure) *)
Definition build (iters : Z) (salt iv enciphered : bytes) : content :=
  Content
    (Info (Convert.fromUInt32 0 0) (Convert.fromUInt32 0 iters) (Convert.fromBin [] salt)
          (Some (Convert.fromBin [] iv)) (OBJ_nid2obj KDF_NID) (OBJ_nid2obj KEY_NID))
    (Convert.fromBin [] enciphered).

(** [src/src/ossl/PbkdfKey.cpp:188-284] PbkdfKey::wrap

    [stack] is what the arrays for the initialisation vector and the salt hold before
    they are filled.  The empty result is the failure value. *)
Definition wrap (stack : bytes * bytes) (k : EVP_PKEY) (pass : bytes) (iters : Z) (g : rng)
  : option (bytes * rng) :=
  if bool_decide (pass = []) then Some ([], g)
  else if (iters <? KDF_ITERS_MIN) || (KDF_ITERS_MAX <? iters) then Some ([], g)
  else
    let encoded := BinData.contents (Curve25519.toPrivate k) in
    if bool_decide (encoded = []) then Some ([], g)
    else
      let '(iv, g) := Prng.rand_into stack.1 g in
      let '(salt, g) := Prng.rand_into stack.2 g in
      match pbkdf (key_length KEY_NID) pass salt iters KDF_NID with
      | None => Some ([], g)
      | Some (dek, mak) =>
          enciphered ← write_into ((zlen encoded + 16) / 16 * 16) (EVP_Encrypt KEY_NID dek iv encoded);
          let c := build iters salt iv enciphered in
          let sig := sign (BinData.contents (Encode.encode false (i2d c))) KEY_NID mak in
          if bool_decide (sig = []) then Some ([], g)
          else Some (BinData.contents (Encode.encode false (i2d (Key c (Convert.fromBin [] sig)))), g)
      end.

(** [src/src/ossl/PbkdfKey.cpp:318-341] PbkdfKey::unwrap (parameters) *)
Definition valid_params (i : info) (cipher : Z) : bool :=
  let iters := Convert.toUInt64 (iters i) in
  let salt := Convert.toBin (salt i) in
  let iv := match iv i with Some v => Convert.toBin v | None => [] end in
  (Convert.toUInt64 (version i) =? 0)
  && negb ((iters <? KDF_ITERS_MIN) || (KDF_ITERS_MAX <? iters))
  && negb ((zlen salt <? SALT_LEN_MIN) || (SALT_LEN_MAX <? zlen salt))
  && (zlen iv =? iv_length cipher).

(** [src/src/ossl/PbkdfKey.cpp:286-401] PbkdfKey::unwrap *)
Definition unwrap (data pass : bytes) : option (option EVP_PKEY) :=
  if bool_decide (pass = []) then Some None
  else match Encode.decode data d2i with
  | None => Some None
  | Some encodedKey =>
      let c := k_content encodedKey in
      let i := c_info c in
      let md := OBJ_obj2nid (kdf i) in
      let cipher := OBJ_obj2nid (keytype i) in
      if negb (is_digest md) then Some None
      else if negb (is_cipher cipher) then Some None
      else if negb (valid_params i cipher) then Some None
      else
        let iv := match iv i with Some v => Convert.toBin v | None => [] end in
        match pbkdf (key_length cipher) pass (Convert.toBin (salt i)) (Convert.toUInt64 (iters i)) md with
        | None => Some None
        | Some (dek, mak) =>
            let verify := sign (BinData.contents (Encode.encode false (i2d c))) cipher mak in
            let signature := Convert.toBin (signature encodedKey) in
            if negb (zlen signature =? zlen verify) || negb (bool_decide (signature = verify)) then Some None
            else
              let payload := Convert.toBin (payload c) in
              let '(clear, wellFormed) := EVP_Decrypt cipher dek iv payload in
              decrypted ← write_into (zlen payload) clear;
              if negb wellFormed then Some None else Some (Curve25519.fromPrivate decrypted)
        end
  end.

End Code.
End PbkdfKey.

(** What OpenSSL documents of these algorithms: AES-256-CBC with padding, SHA3-512, object
    identifiers, and an encoder whose output is never empty. *)
Class PbeLaws (P : Pbe) {DC : Der PbkdfKey.content} {DK : Der PbkdfKey.key} : Prop := {
  obj_nid n : n = PbkdfKey.KDF_NID ∨ n = PbkdfKey.KEY_NID → OBJ_obj2nid (OBJ_nid2obj n) = n;
  digest_known : is_digest PbkdfKey.KDF_NID = true;
  cipher_known : is_cipher PbkdfKey.KEY_NID = true;
  aes_key_length : key_length PbkdfKey.KEY_NID = 32;
  aes_iv_length : iv_length PbkdfKey.KEY_NID = 16;
  pbkdf2_length p s i m n l : PKCS5_PBKDF2_HMAC p s i m n = Some l → zlen l = n;
  pbkdf2_works p s i n : 0 < i → 0 < n → is_Some (PKCS5_PBKDF2_HMAC p s i PbkdfKey.KDF_NID n);
  cmac_works k d : zlen k = 32 → ∃ s, CMAC PbkdfKey.KEY_NID k d = Some s ∧ s ≠ [];
  encrypt_length k v d : zlen k = 32 → zlen v = 16 →
    zlen (EVP_Encrypt PbkdfKey.KEY_NID k v d) = (zlen d / 16 + 1) * 16;
  decrypt_encrypt k v d : zlen k = 32 → zlen v = 16 →
    EVP_Decrypt PbkdfKey.KEY_NID k v (EVP_Encrypt PbkdfKey.KEY_NID k v d) = (d, true);
  der_key (t : PbkdfKey.key) : d2i (i2d t) = Some t;
  der_nonempty (t : PbkdfKey.key) : i2d t ≠ [];
  der_bytes (t : PbkdfKey.key) : bytes_ok (i2d t);
}.

Module PbkdfProofs.
Import PbkdfKey.
Section Proofs.
Context {P : Pbe} {DC : Der content} {DK : Der key} {PL : PbeLaws P}.
Context {R : Rng} {RL : RngLaws R} {K : EvpKeys} {KL : Curve25519.EvpKeyLaws K} {A : Asn1Lib} {AL : Asn1Laws A}.

Lemma toPrivate_ed k : Curve25519.is_ed k →
  zlen (BinData.contents (Curve25519.toPrivate k)) = 32 ∧
  Curve25519.fromPrivate (BinData.contents (Curve25519.toPrivate k)) = Some k.
Proof.
  intros Hk. destruct (Curve25519.curve_key_roundtrip k Hk) as (_ & Hf & _).
  destruct (Curve25519.i2d_PrivateKey_ed k Hk) as (p & Hp & He). split; [|done].
  by rewrite (Curve25519.toPrivate_contents k p), Hp by done.
Qed.

Lemma pbkdf_works pass salt iters : 0 < iters → ∃ dek mak,
  pbkdf (key_length KEY_NID) pass salt iters KDF_NID = Some (dek, mak) ∧ zlen dek = 32 ∧ zlen mak = 32.
Proof.
  intros Hi. unfold pbkdf. rewrite aes_key_length.
  destruct (pbkdf2_works pass salt iters (32 * 2)) as [l Hl]; [lia..|]. rewrite Hl.
  pose proof (pbkdf2_length _ _ _ _ _ _ Hl). cbn [mbind option_bind]. eexists _, _. split; [done|].
  rewrite !length_take, length_drop. lia.
Qed.

Lemma write_into_fits cap out : zlen out ≤ cap → write_into cap out = Some out.
Proof. intros H. unfold write_into. by rewrite (proj2 (Z.leb_le _ _)). Qed.

Lemma decode_der (t : key) : Encode.decode (BinData.contents (Encode.encode false (i2d t))) d2i = Some t.
Proof.
  rewrite Encode.encode_contents. unfold Encode.decode.
  rewrite bool_decide_eq_false_2 by apply der_nonempty. apply der_key.
Qed.

Lemma build_params iters salt iv enc :
  KDF_ITERS_MIN ≤ iters ≤ KDF_ITERS_MAX → length salt = SALT_LEN → length iv = IV_LEN →
  valid_params (c_info (build iters salt iv enc)) KEY_NID = true ∧
  Convert.toUInt64 iters = iters.
Proof.
  unfold KDF_ITERS_MIN, KDF_ITERS_MAX, SALT_LEN, IV_LEN. intros Hi Hs Hv.
  assert (Hn : ∀ n, 0 ≤ n < 2 ^ 63 → Convert.toUInt64 n = n).
  { intros n Hn. apply (Convert.toUInt64_from 0). done. }
  split; [|apply Hn; lia]. unfold valid_params, build; cbn [c_info PbkdfKey.iters version PbkdfKey.salt PbkdfKey.iv].
  unfold Convert.fromUInt32. autorewrite with fluffy. rewrite !Hn by lia. rewrite aes_iv_length.
  unfold KDF_ITERS_MIN, KDF_ITERS_MAX, SALT_LEN_MIN, SALT_LEN_MAX. rewrite Hs, Hv.
  rewrite (proj2 (Z.ltb_ge iters _)), (proj2 (Z.ltb_ge _ iters)) by lia. done.
Qed.

(** Opening a structure built and signed with the keys the password gives. *)
Lemma unwrap_built pass iters salt iv dek mak clear sig :
  pass ≠ [] → KDF_ITERS_MIN ≤ iters ≤ KDF_ITERS_MAX → length salt = SALT_LEN → length iv = IV_LEN →
  zlen dek = 32 →
  pbkdf (key_length KEY_NID) pass salt iters KDF_NID = Some (dek, mak) →
  let c := build iters salt iv (EVP_Encrypt KEY_NID dek iv clear) in
  sign (BinData.contents (Encode.encode false (i2d c))) KEY_NID mak = sig →
  unwrap (BinData.contents (Encode.encode false (i2d (Key c (Convert.fromBin [] sig))))) pass =
    Some (Curve25519.fromPrivate clear).
Proof.
  intros Hp Hi Hs Hv Hd Hkdf c Hsig. destruct (build_params iters salt iv (EVP_Encrypt KEY_NID dek iv clear)) as [Hok Hu]; [done..|].
  unfold unwrap. rewrite bool_decide_eq_false_2, decode_der by done. cbn [k_content signature].
  assert (Hk : OBJ_obj2nid (kdf (c_info c)) = KDF_NID) by (apply obj_nid; auto).
  assert (Ht : OBJ_obj2nid (keytype (c_info c)) = KEY_NID) by (apply obj_nid; auto).
  assert (Hiv : match PbkdfKey.iv (c_info c) with Some v => Convert.toBin v | None => [] end = iv) by apply Convert.toBin_from.
  assert (Hsalt : Convert.toBin (PbkdfKey.salt (c_info c)) = salt) by apply Convert.toBin_from.
  assert (Hiters : Convert.toUInt64 (PbkdfKey.iters (c_info c)) = iters) by apply Hu.
  assert (Hpay : Convert.toBin (payload c) = EVP_Encrypt KEY_NID dek iv clear) by apply Convert.toBin_from.
  cbv zeta. rewrite Hk, Ht, Hiv, Hsalt, Hiters, Hpay, digest_known, cipher_known. cbn [negb].
  fold c in Hok. rewrite Hok. cbn [negb]. rewrite Hkdf, Convert.toBin_from, Hsig, Z.eqb_refl.
  rewrite bool_decide_eq_true_2 by done. cbn [negb orb].
  assert (Hvl : zlen iv = 16) by (rewrite Hv; done). rewrite decrypt_encrypt by done.
  rewrite write_into_fits; [done|]. rewrite encrypt_length by done. dlia.
Qed.

Lemma wrap_unwrap (stack : bytes * bytes) (k : EVP_PKEY) (pass : bytes) (iters : Z) (g : rng)
    (Hk : Curve25519.is_ed k) (Hstack : length stack.1 = IV_LEN ∧ length stack.2 = SALT_LEN) :
  ∃ w g', wrap stack k pass iters g = Some (w, g') ∧
    (w = [] ↔ pass = [] ∨ ¬ KDF_ITERS_MIN ≤ iters ≤ KDF_ITERS_MAX) ∧
    (w ≠ [] → unwrap w pass = Some (Some k)).
Proof.
  destruct (toPrivate_ed k Hk) as [Hlen Hfrom]. unfold wrap.
  destruct (decide (pass = [])) as [Hp|Hp].
  { rewrite bool_decide_eq_true_2 by done. exists [], g. split_and!; [done|tauto|done]. }
  rewrite bool_decide_eq_false_2 by done.
  destruct ((iters <? KDF_ITERS_MIN) || (KDF_ITERS_MAX <? iters)) eqn:Ei.
  { exists [], g. split_and!; [done| |done]. zbool. split; [right; lia|done]. }
  zbool. rewrite bool_decide_eq_false_2 by (by intros E; rewrite E in Hlen).
  destruct (Prng.rand_into stack.1 g) as [iv g1] eqn:Eiv, (Prng.rand_into stack.2 g1) as [salt g2] eqn:Es.
  apply Prng.rand_into_length in Eiv, Es. destruct Hstack as [H1 H2]. rewrite H1 in Eiv. rewrite H2 in Es.
  assert (Hpos : 0 < iters) by (unfold KDF_ITERS_MIN in *; lia).
  destruct (pbkdf_works pass salt iters Hpos) as (dek & mak & Hkdf & Hd & Hm). rewrite Hkdf.
  assert (Hiv : zlen iv = 16) by (rewrite Eiv; done).
  rewrite write_into_fits by (rewrite encrypt_length, Hlen by done; done). cbn [mbind option_bind].
  set (c := build iters salt iv (EVP_Encrypt KEY_NID dek iv (BinData.contents (Curve25519.toPrivate k)))).
  destruct (cmac_works mak (BinData.contents (Encode.encode false (i2d c))) Hm) as (sig & Hsig & Hne).
  assert (Hsign : sign (BinData.contents (Encode.encode false (i2d c))) KEY_NID mak = sig) by (unfold sign; by rewrite Hsig).
  rewrite Hsign, bool_decide_eq_false_2 by done. eexists _, g2. split; [done|]. split.
  - rewrite Encode.encode_contents. split; [by intros ?%der_nonempty|]. intros [?|[]]; [done|lia].
  - intros _. rewrite <- Hfrom. by eapply unwrap_built.
Qed.

(** C28: Protecting a private key and opening it with the same password gives the key
    back, for every non-empty password and every iteration count the format allows,
    whatever the random source does; the empty password and other iteration counts give
    no output.  The buffer made for the cipher text is always large enough. *)
Theorem pbkdf_wrap_unwrap (stack : bytes * bytes) (k : EVP_PKEY) (pass : bytes) (iters : Z) (g : rng)
    (Hk : Curve25519.is_ed k) (Hstack : length stack.1 = IV_LEN ∧ length stack.2 = SALT_LEN) :
  ∃ w g', wrap stack k pass iters g = Some (w, g') ∧
    (w = [] ↔ pass = [] ∨ ¬ KDF_ITERS_MIN ≤ iters ≤ KDF_ITERS_MAX) ∧
    (w ≠ [] → unwrap w pass = Some (Some k)).
Proof. exact (wrap_unwrap stack k pass iters g Hk Hstack). Qed.

(** What the code checks of a structure before it looks at the signature, with the two keys
    derived from the password, the data key and the MAC key. *)
Definition cipher_of (t : key) : Z := OBJ_obj2nid (keytype (c_info (k_content t))).

Definition in_order (t : key) (pass dek mak : bytes) : Prop :=
  let i := c_info (k_content t) in
  pass ≠ [] ∧ is_digest (OBJ_obj2nid (kdf i)) = true ∧ is_cipher (cipher_of t) = true ∧
  valid_params i (cipher_of t) = true ∧
  pbkdf (key_length (cipher_of t)) pass (salt i) (Convert.toUInt64 (iters i)) (OBJ_obj2nid (kdf i)) = Some (dek, mak).

(** The signature is the MAC of the content, or it is empty and there is no MAC. *)
Definition authentic (t : key) (mak : bytes) : Prop :=
  CMAC (cipher_of t) mak (i2d (k_content t)) = Some (signature t) ∨
  CMAC (cipher_of t) mak (i2d (k_content t)) = None ∧ signature t = [].

Definition deciphered (t : key) (dek : bytes) : bytes * bool :=
  EVP_Decrypt (cipher_of t) dek (default [] (iv (c_info (k_content t)))) (payload (k_content t)).

(** The steps of [unwrap], one after the other. *)
Lemma authentic_sign t mak : authentic t mak ↔ signature t = sign (i2d (k_content t)) (cipher_of t) mak.
Proof.
  unfold authentic, sign. destruct (CMAC _ _ _) as [m|]; cbn [default from_option]; unfold id; split; naive_solver.
Qed.

Lemma unwrap_open t pass dek mak :
  in_order t pass dek mak → authentic t mak → ∀ data, Encode.decode data d2i = Some t →
  unwrap data pass = (if zlen (deciphered t dek).1 <=? zlen (payload (k_content t))
    then Some (if (deciphered t dek).2 then Curve25519.fromPrivate (deciphered t dek).1 else None) else None).
Proof.
  intros (Hp & Hd & Hc & Hv & Hk) Hs%authentic_sign data Ht. unfold unwrap.
  rewrite bool_decide_eq_false_2, Ht by done. cbv zeta. fold (cipher_of t). rewrite Hd, Hc, Hv. cbn [negb].
  rewrite !Convert.toBin_id, Encode.encode_contents, Hk, <- Hs, Z.eqb_refl, bool_decide_eq_true_2 by done. cbn [negb orb].
  replace (match iv (c_info (k_content t)) with Some v => Convert.toBin v | None => [] end)
    with (default [] (iv (c_info (k_content t)))) by (destruct (iv _); by rewrite ?Convert.toBin_id).
  unfold deciphered. destruct (EVP_Decrypt _ _ _ _) as [clear []]; unfold write_into; cbn [fst snd];
    by destruct (zlen clear <=? _).
Qed.

Lemma unwrap_refused data pass :
  unwrap data pass = Some None ∨
  ∃ t dek mak, Encode.decode data d2i = Some t ∧ in_order t pass dek mak ∧ authentic t mak.
Proof.
  unfold unwrap. case_bool_decide as Hp; [by left|]. destruct (Encode.decode data d2i) as [t|]; [|by left]. cbv zeta.
  destruct (is_digest _) eqn:Edig; [|by left]. destruct (is_cipher _) eqn:Ecip; [|by left].
  destruct (valid_params _ _) eqn:Ev; [|by left]. cbn [negb]. rewrite !Convert.toBin_id, Encode.encode_contents.
  destruct (pbkdf _ _ _ _ _) as [[dek mak]|] eqn:Ek; [|by left].
  destruct (negb _ || negb _) eqn:Es; [by left|]. right. exists t, dek, mak.
  apply orb_false_iff in Es as [_ Es%negb_false_iff%bool_decide_eq_true].
  split; [done|]. split; [done|]. by apply authentic_sign.
Qed.


(** When the MAC cannot be computed for the cipher the file names, an empty signature is
    as good as a real one: the content of the file is then decrypted unauthenticated,
    with any password. *)
Lemma unsigned_key_accepted (t : key) (pass dek mak : bytes) :
  in_order t pass dek mak → (∀ m d, CMAC (cipher_of t) m d = None) → signature t = [] →
  (deciphered t dek).2 = true → zlen (deciphered t dek).1 ≤ zlen (payload (k_content t)) →
  unwrap (i2d t) pass = Some (Curve25519.fromPrivate (deciphered t dek).1).
Proof.
  intros Ho Hmac Hsig Hw Hl. pose proof (decode_der t) as Ht. rewrite Encode.encode_contents in Ht.
  rewrite (unwrap_open t pass dek mak Ho) by (done || by right). by rewrite (proj2 (Z.leb_le _ _)), Hw.
Qed.

End Proofs.
End PbkdfProofs.

(** A codec with non-empty encodings for every countable type. *)
Definition TaggedDer (T : Type) `{Countable T} : Der T := {|
  i2d t := 48 :: pos_bits (encode t);
  d2i b := match b with _ :: b => decode (bits_pos b) | [] => None end;
|}.

(** ** The laws hold: padding for a cipher, sums for a MAC *)
Module ToyPbe.

Definition pad_len (n : Z) : Z := (n / 16 + 1) * 16 - n.

#[export] Instance Toy : Pbe := {|
  ASN1_OBJECT := Z;
  OBJ_obj2nid o := o;
  OBJ_nid2obj n := n;
  is_digest n := n =? 1099;
  is_cipher n := (n =? 427) || (n =? 904);
  key_length _ := 32;
  iv_length _ := 16;
  PKCS5_PBKDF2_HMAC p s i m n := if 0 <=? n then Some (replicate (Z.to_nat n) (u8 (foldr Z.add i (p ++ s)))) else None;
  CMAC c k d := if c =? 427 then Some (replicate 16 (u8 (foldr Z.add 0 (k ++ d)))) else None;
  EVP_Encrypt _ _ _ d := d ++ replicate (Z.to_nat (pad_len (zlen d))) (pad_len (zlen d));
  EVP_Decrypt _ _ _ d := match last d with
    | Some p => if (p <? 1) || (16 <? p) then (d, false) else (take (length d - Z.to_nat p) d, true)
    | None => ([], false)
    end;
|}.

#[export] Instance info_eq_dec : EqDecision PbkdfKey.info.
Proof. solve_decision. Defined.
#[export] Instance info_countable : Countable PbkdfKey.info :=
  inj_countable' (λ i, (PbkdfKey.version i, PbkdfKey.iters i, PbkdfKey.salt i, PbkdfKey.iv i,
                        (PbkdfKey.kdf i : Z), (PbkdfKey.keytype i : Z)))
    (λ '(a, b, c, d, e, f), PbkdfKey.Info a b c d e f) ltac:(by intros []).
#[export] Instance content_eq_dec : EqDecision PbkdfKey.content.
Proof. solve_decision. Defined.
#[export] Instance content_countable : Countable PbkdfKey.content :=
  inj_countable' (λ c, (PbkdfKey.c_info c, PbkdfKey.payload c)) (λ '(a, b), PbkdfKey.Content a b) ltac:(by intros []).
#[export] Instance key_eq_dec : EqDecision PbkdfKey.key.
Proof. solve_decision. Defined.
#[export] Instance key_countable : Countable PbkdfKey.key :=
  inj_countable' (λ c, (PbkdfKey.k_content c, PbkdfKey.signature c)) (λ '(a, b), PbkdfKey.Key a b) ltac:(by intros []).

#[export] Instance content_der : Der PbkdfKey.content := TaggedDer _.
#[export] Instance key_der : Der PbkdfKey.key := TaggedDer _.

Lemma pad_len_range n : 0 ≤ n → 1 ≤ pad_len n ≤ 16.
Proof. unfold pad_len. intros. dlia. Qed.

#[export] Instance Toy_laws : PbeLaws Toy.
Proof.
  split; cbn -[Z.mul Z.div u8]; try done.
  - intros p s i m n l. destruct (Z.leb_spec 0 n); [|done]. intros [= <-]. rewrite length_replicate. lia.
  - intros p s i n _ Hn. rewrite (proj2 (Z.leb_le 0 n)) by lia. by eexists.
  - intros k d _. eexists. split; [reflexivity|done].
  - intros k v d _ _. rewrite length_app, length_replicate. pose proof (pad_len_range (zlen d)). unfold pad_len in *. lia.
  - intros k v d _ _. pose proof (pad_len_range (zlen d) ltac:(lia)) as Hp.
    destruct (Z.to_nat (pad_len (zlen d))) as [|n] eqn:En; [lia|].
    rewrite replicate_S_end, app_assoc, last_snoc.
    rewrite (proj2 (Z.ltb_ge _ 1)), (proj2 (Z.ltb_ge 16 _)) by lia. cbn [orb]. f_equal.
    rewrite <- app_assoc, <- replicate_S_end, length_app, length_replicate, En. apply take_app_length'. lia.
  - intros t. by rewrite bits_pos_bits, decode_encode.
  - intros t. constructor; [done|]. generalize (encode t).
    induction p as [p IH|p IH|]; simpl; [by constructor|by constructor|constructor].
Qed.

#[local] Existing Instances Curve25519.ToyKeys Curve25519.ToyKeys_laws.

Lemma pbkdf_wrap_unwrap_witness :
  ∃ w g', PbkdfKey.wrap (R := CounterRng) (K := Curve25519.ToyKeys) (replicate 16 0, replicate 8 0) true $"pass" 2048 5 = Some (w, g') ∧
          PbkdfKey.unwrap (K := Curve25519.ToyKeys) w $"pass" = Some (Some true).
Proof.
  destruct (PbkdfProofs.pbkdf_wrap_unwrap (R := CounterRng) (K := Curve25519.ToyKeys) (replicate 16 0, replicate 8 0) true $"pass" 2048 5)
    as (w & g' & Hw & He & Hu).
  - exact I.
  - split; reflexivity.
  - exists w, g'. split; [exact Hw|]. apply Hu. intros E. apply He in E.
    destruct E as [E|E]; [discriminate E|]. apply E. unfold PbkdfKey.KDF_ITERS_MIN, PbkdfKey.KDF_ITERS_MAX. lia.
Defined.

(** A key file for a cipher without MAC, with an empty signature, opens with any password. *)
Definition forged : PbkdfKey.key :=
  PbkdfKey.Key (PbkdfKey.Content (PbkdfKey.Info 0 2048 (replicate 8 1) (Some (replicate 16 2)) 1099 904)
                                 (replicate 32 1 ++ replicate 16 16)) [].


Example forged_key_opens : PbkdfKey.unwrap (K := Curve25519.ToyKeys) (i2d forged) $"any" = Some (Some true).
Proof. vm_compute. reflexivity. Qed.

End ToyPbe.

Module Pkcs8Key.

(** OpenSSL's PKCS#8 functions: [EVP_PKEY2PKCS8], [PKCS8_add_keyusage], [PKCS8_encrypt] with
    AES-256-CBC (password, salt, iterations), the codec of [X509_SIG], [PKCS8_decrypt] and
    [EVP_PKCS82PKEY]. *)
Class Pkcs8 (K : EvpKeys) := {
  PRIV_KEY_INFO : Type;
  X509_SIG : Type;
  EVP_PKEY2PKCS8 : EVP_PKEY → option PRIV_KEY_INFO;
  PKCS8_add_keyusage : PRIV_KEY_INFO → PRIV_KEY_INFO;
  PKCS8_encrypt : bytes → bytes → Z → PRIV_KEY_INFO → option X509_SIG;
  i2d_X509_SIG : X509_SIG → bytes;
  d2i_X509_SIG : bytes → option X509_SIG;
  PKCS8_decrypt : X509_SIG → bytes → option PRIV_KEY_INFO;
  EVP_PKCS82PKEY : PRIV_KEY_INFO → option EVP_PKEY;
}.

(** Encryption is undone by the same password, the codec by its inverse, and the key
    usage attribute does not change the key. *)
Class Pkcs8Laws (K : EvpKeys) (P : Pkcs8 K) : Prop := {
  pkcs8_key k : ∃ b, EVP_PKEY2PKCS8 k = Some b ∧ EVP_PKCS82PKEY (PKCS8_add_keyusage b) = Some k;
  pkcs8_encrypt p s i b : 0 < i → ∃ w, PKCS8_encrypt p s i b = Some w ∧ PKCS8_decrypt w p = Some b;
  x509_sig w : d2i_X509_SIG (i2d_X509_SIG w) = Some w ∧ i2d_X509_SIG w ≠ [];
}.

(** [src/src/ossl/PbkdfKey.cpp:23-23] SALT_LEN *)
Definition SALT_LEN : nat := 8.
(** [src/src/ossl/PbkdfKey.cpp:28-28] KDF_ITERS_MIN *)
Definition KDF_ITERS_MIN : Z := 1024.
(** [src/src/ossl/PbkdfKey.cpp:29-29] KDF_ITERS_MAX *)
Definition KDF_ITERS_MAX : Z := 10 * 1024 * 1024.

Section Code.
Context {R : Rng} {K : EvpKeys} {P : Pkcs8 K}.

(** [src/src/ossl/Pkcs8Key.cpp:23-83] Pkcs8Key::wrap *)
Definition wrap (stack : bytes) (k : EVP_PKEY) (pass : bytes) (iters : Z) (g : rng) : bytes * rng :=
  if (iters <? KDF_ITERS_MIN) || (KDF_ITERS_MAX <? iters) then ([], g)
  else match EVP_PKEY2PKCS8 k with
  | None => ([], g)
  | Some bag =>
      let '(salt, g) := Prng.rand_into stack g in
      match PKCS8_encrypt pass salt iters (PKCS8_add_keyusage bag) with
      | None => ([], g)
      | Some wrapped => (BinData.contents (Encode.encode true (i2d_X509_SIG wrapped)), g)
      end
  end.

(** [src/src/ossl/Pkcs8Key.cpp:85-121] Pkcs8Key::unwrap *)
Definition unwrap (key pass : bytes) : option EVP_PKEY :=
  encrypted ← d2i_X509_SIG key;
  bag ← PKCS8_decrypt encrypted pass;
  EVP_PKCS82PKEY bag.

Lemma pkcs8_wrap_unwrap {PL : Pkcs8Laws K P} stack k pass iters g :
  KDF_ITERS_MIN ≤ iters ≤ KDF_ITERS_MAX →
  (wrap stack k pass iters g).1 ≠ [] ∧ unwrap (wrap stack k pass iters g).1 pass = Some k.
Proof.
  intros Hi. unfold wrap. rewrite (proj2 (Z.ltb_ge iters _)), (proj2 (Z.ltb_ge _ iters)) by lia. cbn [orb].
  destruct (pkcs8_key k) as (b & -> & Hk). destruct (Prng.rand_into stack g) as [salt g1].
  destruct (pkcs8_encrypt pass salt iters (PKCS8_add_keyusage b)) as (w & -> & Hw); [unfold KDF_ITERS_MIN in *; lia|].
  cbn [fst]. rewrite Encode.encode_contents. destruct (x509_sig w) as [Hd Hne]. split; [done|].
  unfold unwrap. rewrite Hd. cbn [mbind option_bind]. by rewrite Hw.
Qed.

(** Other iteration counts give no output, and the empty password is not refused. *)
Lemma pkcs8_wrap_range stack k pass iters g :
  ¬ KDF_ITERS_MIN ≤ iters ≤ KDF_ITERS_MAX → wrap stack k pass iters g = ([], g).
Proof. intros Hi. unfold wrap. ztest; simpl; done || lia. Qed.

End Code.
End Pkcs8Key.
