(* ===== verification/Wallet.v ===== *)
(** * Wallets: [alg/Wallet]

    Private keys with their addresses, protected by a password and stored as JSON text.
    The JSON library is an interface; its exceptions are values.  As elsewhere an outer
    [option] is undefined behaviour or, for address generation, random draws beyond the
    fuel. *)

From S2P Require Import Prelude BinData Base64 Base58 Ossl Text AlgAddress BlockCore BlockTx KeyWrap.

(** What reading an element of a JSON value gives: a value, an exception, or, for a key a
    constant object does not have, undefined behaviour. *)
Inductive access (A : Type) := Value (a : A) | Throws | Undefined.
Arguments Value {A} a.
Arguments Throws {A}.
Arguments Undefined {A}.

(** The JSON library, as far as wallets use it: building, printing, parsing, elements of
    mutable and of constant objects, the elements of an array, and conversions. *)
Class Json := {
  json : Type;
  j_object : list (cstr * json) → json;
  j_array : list json → json;
  j_string : cstr → json;
  j_uint : Z → json;
  j_dump : json → option cstr;
  j_parse : cstr → option json;
  j_at : json → cstr → option json;
  j_at_const : json → cstr → access json;
  j_elems : json → option (list json);
  j_get_string : json → option cstr;
  (** conversion to an unsigned integer of a width *)
  j_get_uint : Z → json → option Z;
}.

Module Wallet.

Definition VERSION : Z := 1.

(** [src/src/alg/Wallet.h:25-31] Wallet::EncFormat *)
Inductive EncFormat := FNone | Clear | FcPbkdf | Pkcs8.

(** [src/src/alg/Wallet.h:33-38] Wallet::KeyUsage *)
Inductive KeyUsage := UNone | Specie | Validator.

#[global] Instance EncFormat_eq_dec : EqDecision EncFormat.
Proof. solve_decision. Defined.
#[global] Instance KeyUsage_eq_dec : EqDecision KeyUsage.
Proof. solve_decision. Defined.

(** [src/src/alg/Wallet.h:40-47] Wallet::Entry *)
Record Entry := mkEntry {
  time : Z;
  usage : KeyUsage;
  format : EncFormat;
  address : cstr;
  privKey : cstr
}.

(** [src/src/alg/Wallet.h:16-75] Wallet *)
Record t := mk {
  keys : list Entry;
  password : bytes;
  defaultFormat : EncFormat;
  kdfIters : Z
}.

(** [src/src/alg/Wallet.cpp:51-67] to_string(EncFormat) *)
Definition to_string_format (f : EncFormat) : cstr :=
  match f with Clear => $"clear" | FcPbkdf => $"fcpbkdf" | Pkcs8 => $"pkcs8" | FNone => $"none" end.

(** [src/src/alg/Wallet.cpp:69-78] from_string(EncFormat) *)
Definition from_string_format (str : cstr) : EncFormat :=
  if bool_decide (str = $"clear") then Clear
  else if bool_decide (str = $"pkcs8") then Pkcs8
  else if bool_decide (str = $"fcpbkdf") then FcPbkdf
  else FNone.

(** [src/src/alg/Wallet.cpp:80-94] to_string(KeyUsage) *)
Definition to_string_usage (u : KeyUsage) : cstr :=
  match u with Specie => $"specie" | Validator => $"validator" | UNone => $"none" end.

(** [src/src/alg/Wallet.cpp:96-103] from_string(KeyUsage) *)
Definition from_string_usage (str : cstr) : KeyUsage :=
  if bool_decide (str = $"specie") then Specie
  else if bool_decide (str = $"validator") then Validator
  else UNone.

Lemma format_roundtrip f : from_string_format (to_string_format f) = f.
Proof. by destruct f. Qed.
Lemma usage_roundtrip u : from_string_usage (to_string_usage u) = u.
Proof. by destruct u. Qed.

(** [src/src/alg/Wallet.cpp:170-174] Wallet::Wallet *)
Definition new : t := mk [] [] FcPbkdf PbkdfKey.KDF_ITERS_DEFAULT.

(** [src/src/alg/Wallet.cpp:176-180] Wallet::setEncFormat *)
Definition setEncFormat (f : EncFormat) (iters : Z) (w : t) : t := mk (keys w) (password w) f iters.

(** [src/src/alg/Wallet.cpp:251-254] Wallet::getKeys *)
Definition getKeys (w : t) : list Entry := keys w.

(** [src/src/alg/Wallet.cpp:152-166] getTopKey *)
Fixpoint getTopKey (keys : list Entry) (u : KeyUsage) : option Entry :=
  match keys with
  | [] => None
  | entry :: keys => if decide (usage entry = u) then Some entry else getTopKey keys u
  end.

(** [src/src/alg/Wallet.cpp:195-206] Wallet::getLatestAddress *)
Definition getLatestAddress (u : KeyUsage) (w : t) : cstr :=
  match getTopKey (keys w) u with Some entry => address entry | None => [] end.

Section Code.
Context {P : Pbe} {DC : Der PbkdfKey.content} {DK : Der PbkdfKey.key} {A : Asn1Lib}.
Context {R : Rng} {D : Digests} {K : EvpKeys} {B : BigNum} {P8 : Pkcs8Key.Pkcs8 K} {J : Json}.

(** [src/src/alg/Wallet.cpp:22-49] decrypt *)
Definition decrypt (f : EncFormat) (keyString : cstr) (password : bytes) : option (option EVP_PKEY) :=
  let originalBin := Base64.decode keyString in
  match f with
  | Clear => Some (Curve25519.fromPrivate originalBin)
  | FcPbkdf => PbkdfKey.unwrap originalBin password
  | Pkcs8 => Some (Pkcs8Key.unwrap originalBin password)
  | FNone => Some None
  end.

(** The memory the wrapping functions' arrays hold before they are filled. *)
Definition stack := (bytes * bytes)%type.

(** [src/src/alg/Wallet.cpp:105-150] retranslate

    The translated text, if it could be made. *)
Definition retranslate (st : stack) (f newFormat : EncFormat) (kdfIters : Z) (original : cstr)
    (password newPassword : bytes) (g : rng) : option (option cstr * rng) :=
  key ← decrypt f original password;
  match key with
  | None => Some (None, g)
  | Some key =>
      '(newEnc, g) ← (match newFormat with
        | FcPbkdf => PbkdfKey.wrap st key newPassword kdfIters g
        | Pkcs8 => Some (Pkcs8Key.wrap st.2 key newPassword kdfIters g)
        | FNone | Clear => Some ([], g)
        end);
      if bool_decide (newEnc = []) then Some (None, g)
      else
        let translated := Base64.encode newEnc in
        Some (if bool_decide (translated = []) then None else Some translated, g)
  end.

(** [src/src/alg/Wallet.cpp:182-193] Wallet::getLatestKey *)
Definition getLatestKey (u : KeyUsage) (w : t) : option (option EVP_PKEY) :=
  match getTopKey (keys w) u with
  | Some entry => decrypt (format entry) (privKey entry) (password w)
  | None => Some None
  end.

(** [src/src/alg/Wallet.cpp:208-211] Wallet::getLatestAddressBin *)
Definition getLatestAddressBin (u : KeyUsage) (w : t) : bytes :=
  AlgAddress.unprintable (getLatestAddress u w).

(** [src/src/alg/Wallet.cpp:213-217] Wallet::getLatestPublicKey *)
Definition getLatestPublicKey (u : KeyUsage) (w : t) : option bytes :=
  key ← getLatestKey u w;
  Some (match key with Some k => Curve25519.toPublic k | None => [] end).

(** [src/src/alg/Wallet.cpp:219-233] Wallet::getKey *)
Fixpoint find_key (keys : list Entry) (password : bytes) (addr : cstr) : option (option EVP_PKEY) :=
  match keys with
  | [] => Some None
  | entry :: keys =>
      if bool_decide (address entry = addr) then decrypt (format entry) (privKey entry) password
      else find_key keys password addr
  end.
Definition getKey (addr : cstr) (w : t) : option (option EVP_PKEY) := find_key (keys w) (password w) addr.

(** [src/src/alg/Wallet.cpp:423-430] Wallet::addKey (storing)

    An empty encoding is a failure; otherwise the entry goes to the front. *)
Definition store_entry (now : Z) (u : KeyUsage) (f : EncFormat) (addr : cstr) (wrapped : bytes) (w : t) : bool * t :=
  let newEntry := mkEntry (u64 now) u f addr (Base64.encode wrapped) in
  if bool_decide (privKey newEntry = []) then (false, w)
  else (true, mk (newEntry :: keys w) (password w) (defaultFormat w) (kdfIters w)).

(** [src/src/alg/Wallet.cpp:385-433] Wallet::addKey

    [now] is the time in seconds.  The password is assigned before the key is wrapped,
    and stays assigned when that fails. *)
Definition addKey (st : stack) (now : Z) (u : KeyUsage) (key : EVP_PKEY) (addr : cstr) (g : rng) (w : t)
  : option (bool * t * rng) :=
  if negb (AlgAddress.verify_text addr key g) then Some (false, w, g)
  else
    let '(pass, g) := if bool_decide (password w = []) then Prng.rand 16 g else (password w, g) in
    let w := mk (keys w) pass (defaultFormat w) (kdfIters w) in
    '(f, wrapped, g) ← (match defaultFormat w with
      | Clear => Some (Clear, BinData.contents (Curve25519.toPrivate key), g)
      | Pkcs8 => let '(b, g) := Pkcs8Key.wrap st.2 key pass (kdfIters w) g in Some (Pkcs8, b, g)
      | FNone | FcPbkdf => '(b, g) ← PbkdfKey.wrap st key pass (kdfIters w) g; Some (FcPbkdf, b, g)
      end);
    let '(ok, w) := store_entry now u f addr wrapped w in Some (ok, w, g).

(** [src/src/alg/Wallet.cpp:235-249] Wallet::makeNewKey

    [generated] is what [Curve25519::generate] gave; the outcome of [addKey] is ignored. *)
Definition makeNewKey (fuel : nat) (st : stack) (now : Z) (generated : option EVP_PKEY) (u : KeyUsage)
    (addressSalt : cstr) (g : rng) (w : t) : option (option EVP_PKEY * t * rng) :=
  match generated with
  | None => Some (None, w, g)
  | Some key =>
      '(bin, g) ← (if bool_decide (addressSalt = []) then AlgAddress.generate fuel key g
                   else AlgAddress.generate_text fuel key addressSalt g);
      '(_, w, g) ← addKey st now u key (AlgAddress.printable bin) g w;
      Some (Some key, w, g)
  end.

(** ** Text *)

(** [src/src/alg/Wallet.cpp:344-372] Wallet::getString (one entry)

    Keys of the object in the order the library keeps them; an inner [None] is the
    exception. *)
Definition export_entry (st : stack) (newPassword : bytes) (w : t) (entry : Entry) (g : rng)
  : option (option json * rng) :=
  let obj priv f := j_object [($"address", j_string (address entry)); ($"format", j_string (to_string_format f));
                              ($"priv", j_string priv); ($"time", j_uint (time entry));
                              ($"usage", j_string (to_string_usage (usage entry)))] in
  if bool_decide (newPassword = []) || bool_decide (newPassword = password w)
  then Some (Some (obj (privKey entry) (format entry)), g)
  else
    '(translated, g) ← retranslate st (format entry) (defaultFormat w) (kdfIters w) (privKey entry) (password w) newPassword g;
    Some (option_map (λ priv, obj priv (defaultFormat w)) translated, g).

Fixpoint export_entries (st : stack) (newPassword : bytes) (w : t) (entries : list Entry) (g : rng)
  : option (option (list json) * rng) :=
  match entries with
  | [] => Some (Some [], g)
  | entry :: entries =>
      '(j, g) ← export_entry st newPassword w entry g;
      match j with
      | None => Some (None, g)
      | Some j =>
          '(js, g) ← export_entries st newPassword w entries g;
          Some (option_map (cons j) js, g)
      end
  end.

(** [src/src/alg/Wallet.cpp:330-383] Wallet::getString

    The empty text is the failure value. *)
Definition getString (st : stack) (newPassword : bytes) (w : t) (g : rng) : option (cstr * rng) :=
  let config := j_object [($"version", j_uint VERSION); ($"iters", j_uint (kdfIters w));
                          ($"defaultFormat", j_string (to_string_format (defaultFormat w)))] in
  '(entries, g) ← export_entries st newPassword w (keys w) g;
  Some (match entries with
        | None => []
        | Some entries => default [] (j_dump (j_object [($"config", config); ($"keys", j_array entries)]))
        end, g).

(** A string, or an unsigned integer of a width, under a key of a mutable object. *)
Definition at_string (j : json) (k : cstr) : option cstr := v ← j_at j k; j_get_string v.
Definition at_uint (width : Z) (j : json) (k : cstr) : option Z := v ← j_at j k; j_get_uint width v.

(** [src/src/alg/Wallet.cpp:284-294] Wallet::setString (elements of an entry) *)
Definition decode_entry (j : json) : option Entry :=
  addr ← at_string j $"address";
  priv ← at_string j $"priv";
  f ← from_string_format <$> at_string j $"format";
  u ← from_string_usage <$> at_string j $"usage";
  tm ← at_uint 64 j $"time";
  if decide (f = FNone) then None else Some (mkEntry tm u f addr priv).

(** [src/src/alg/Wallet.cpp:277-320] Wallet::setString (entries)

    The entries kept and whether all were: the first is opened with the password. *)
Fixpoint load_entries (js : list json) (password : bytes) (bPwVerify : bool) (keys : list Entry)
  : option (bool * list Entry) :=
  match js with
  | [] => Some (true, keys)
  | j :: js =>
      match decode_entry j with
      | None => Some (false, keys)
      | Some entry =>
          if bPwVerify then load_entries js password true (keys ++ [entry])
          else
            key ← decrypt (format entry) (privKey entry) password;
            match key with
            | None => Some (false, keys)
            | Some _ => load_entries js password true (keys ++ [entry])
            end
      end
  end.

(** [src/src/alg/Wallet.cpp:265-272] Wallet::setString (configuration)

    What each exception leaves behind; an unsupported version is only logged. *)
Definition load_config (config : json) (w : t) : option (bool * t) :=
  match j_at_const config $"version" with
  | Undefined => None
  | Throws => Some (false, w)
  | Value v =>
      match j_get_uint 32 v with
      | None => Some (false, w)
      | Some version =>
          match j_at_const config $"iters" with
          | Undefined => None
          | Throws => Some (false, w)
          | Value v =>
              match j_get_uint 32 v with
              | None => Some (false, w)
              | Some iters =>
                  let w := mk (keys w) (password w) (defaultFormat w) iters in
                  match j_at_const config $"defaultFormat" with
                  | Undefined => None
                  | Throws => Some (false, w)
                  | Value v =>
                      match j_get_string v with
                      | None => Some (false, w)
                      | Some f => Some (true, mk (keys w) (password w) (from_string_format f) iters)
                      end
                  end
              end
          end
      end
  end.

(** [src/src/alg/Wallet.cpp:256-328] Wallet::setString *)
Definition setString (value : cstr) (pass : bytes) (w : t) : option (bool * t) :=
  let w := mk [] pass (defaultFormat w) (kdfIters w) in
  match j_parse value with
  | None => Some (false, w)
  | Some j =>
      match j_at j $"config" with
      | None => Some (false, w)
      | Some config =>
          '(ok, w) ← load_config config w;
          if negb ok then Some (false, w)
          else match j_at j $"keys" ≫= j_elems with
          | None => Some (false, w)
          | Some js =>
              '(ok, ks) ← load_entries js pass false [];
              Some (ok, mk ks (password w) (defaultFormat w) (kdfIters w))
          end
      end
  end.

End Code.
End Wallet.

(** Encodings are bytes. *)
Class WalletBytes (K : EvpKeys) {P8 : Pkcs8Key.Pkcs8 K} : Prop := {
  private_key_bytes k : bytes_ok (i2d_PrivateKey k);
  x509_sig_bytes w : bytes_ok (Pkcs8Key.i2d_X509_SIG w);
}.

(** Text a JSON library can print: ASCII. *)
Definition ascii (s : cstr) : Prop := Forall (λ c, 0 ≤ c < 128) s.

(** What is documented of the JSON library: values built from ASCII strings, 64-bit
    integers, arrays and objects without repeated keys print to text that parses back to
    them, and their parts are found again. *)
Class JsonLaws (J : Json) := {
  plain : json → Prop;
  plain_string s : ascii s → plain (j_string s);
  plain_uint n : is_u 64 n → plain (j_uint n);
  plain_array l : Forall plain l → plain (j_array l);
  plain_object l : NoDup l.*1 → Forall ascii l.*1 → Forall plain l.*2 → plain (j_object l);
  dump_parse j : plain j → ∃ s, j_dump j = Some s ∧ s ≠ [] ∧ j_parse s = Some j;
  at_object l k v : NoDup l.*1 → (k, v) ∈ l → j_at (j_object l) k = Some v;
  at_const_object l k v : NoDup l.*1 → (k, v) ∈ l → j_at_const (j_object l) k = Value v;
  elems_array l : j_elems (j_array l) = Some l;
  get_string s : j_get_string (j_string s) = Some s;
  get_uint w n : j_get_uint w (j_uint n) = Some (wrap w n);
}.

Module WalletProofs.
Import Wallet.
Section Proofs.
Context {P : Pbe} {DC : Der PbkdfKey.content} {DK : Der PbkdfKey.key} {PL : PbeLaws P}.
Context {A : Asn1Lib} {AL : Asn1Laws A} {R : Rng} {RL : RngLaws R} {D : Digests} {DL : DigestLaws D}.
Context {K : EvpKeys} {KL : Curve25519.EvpKeyLaws K} {B : BigNum} {BL : BigNumLaws B}.
Context {P8 : Pkcs8Key.Pkcs8 K} {P8L : Pkcs8Key.Pkcs8Laws K P8} {WB : WalletBytes K} {J : Json}.

Definition stack_ok (st : stack) : Prop := length st.1 = PbkdfKey.IV_LEN ∧ length st.2 = PbkdfKey.SALT_LEN.

(** ** One protected key *)

Lemma base64_nonempty l : bytes_ok l → l ≠ [] → Base64.encode l ≠ [].
Proof. intros Hb Hl He. apply Hl. rewrite <- (Base64.decode_encode64 l Hb), He. done. Qed.

Lemma enc_char_ascii v : 0 ≤ Base64.enc_char v < 128.
Proof.
  unfold Base64.enc_char. destruct (nth_in_or_default (Z.to_nat v) Base64.webEncoding 0) as [Hin| ->]; [|lia].
  assert (H : Forall (λ c, 0 ≤ c < 128) Base64.webEncoding) by (apply (bool_decide_unpack _); vm_compute; exact I).
  rewrite Forall_forall in H. by apply H, list_elem_of_In.
Qed.

(** Base64 text is ASCII, whatever was encoded. *)
Lemma base64_ascii l : ascii (Base64.encode l).
Proof.
  unfold Base64.encode. assert (H : ascii (snd (foldl Base64.encode_step (0, 0, []) l))).
  { induction l as [|c l IH] using rev_ind; [constructor|]. rewrite foldl_app. cbn [foldl].
    destruct (foldl _ _ l) as [[bits cur] out]. simpl in IH. unfold Base64.encode_step.
    repeat case_match; simpl; unfold ascii; rewrite ?Forall_app; split_and?; auto using enc_char_ascii. }
  destruct (foldl _ _ l) as [[bits cur] out]. simpl in H. case_match; [|done].
  apply Forall_app. split; [done|]. repeat constructor; apply enc_char_ascii.
Qed.

(** What addKey and retranslate store under a format: the key comes back with the
    password, and the text is not empty. *)
Lemma pbkdf_protects st k pass iters g :
  Curve25519.is_ed k → stack_ok st →
  ∃ b g', PbkdfKey.wrap st k pass iters g = Some (b, g') ∧ bytes_ok b ∧
    (b ≠ [] → decrypt FcPbkdf (Base64.encode b) pass = Some (Some k)) ∧
    (b = [] ↔ pass = [] ∨ ¬ PbkdfKey.KDF_ITERS_MIN ≤ iters ≤ PbkdfKey.KDF_ITERS_MAX).
Proof.
  intros Hk Hst. destruct (PbkdfProofs.wrap_unwrap st k pass iters g Hk Hst) as (b & g' & Hw & He & Hu).
  exists b, g'. assert (Hb : bytes_ok b).
  { clear He Hu. unfold PbkdfKey.wrap in Hw. repeat case_match; simplify_eq; try by constructor.
    destruct (PbkdfKey.write_into _ _); [|done]. cbn [mbind option_bind] in Hw.
    case_match; simplify_eq; [by constructor|]. rewrite Encode.encode_contents. apply der_bytes. }
  split_and!; [done..| |done]. intros Hne. simpl. rewrite Base64.decode_encode64 by done. by apply Hu.
Qed.

Lemma pkcs8_protects st k pass iters g :
  let b := (Pkcs8Key.wrap st k pass iters g).1 in
  bytes_ok b ∧ (b ≠ [] → decrypt Pkcs8 (Base64.encode b) pass = Some (Some k)) ∧
  (b = [] ↔ ¬ Pkcs8Key.KDF_ITERS_MIN ≤ iters ≤ Pkcs8Key.KDF_ITERS_MAX).
Proof.
  intros b. assert (Hb : bytes_ok b).
  { unfold b, Pkcs8Key.wrap. repeat case_match; simpl; try by constructor.
    rewrite Encode.encode_contents. apply x509_sig_bytes. }
  destruct (decide (Pkcs8Key.KDF_ITERS_MIN ≤ iters ≤ Pkcs8Key.KDF_ITERS_MAX)) as [Hi|Hi].
  - destruct (Pkcs8Key.pkcs8_wrap_unwrap st k pass iters g Hi) as [Hne Hu].
    fold b in Hne, Hu. split_and!; [done| |tauto].
    intros _. simpl. by rewrite Base64.decode_encode64, Hu.
  - unfold b in *. rewrite Pkcs8Key.pkcs8_wrap_range by done. split_and!; [constructor|done|done].
Qed.

Lemma clear_protects k pass :
  Curve25519.is_ed k → let b := BinData.contents (Curve25519.toPrivate k) in
  bytes_ok b ∧ b ≠ [] ∧ decrypt Clear (Base64.encode b) pass = Some (Some k).
Proof.
  intros Hk b. destruct (PbkdfProofs.toPrivate_ed k Hk) as [Hl Hf].
  assert (Hb : bytes_ok b).
  { destruct (Curve25519.i2d_PrivateKey_ed k Hk) as (p & Hp & He). unfold b.
    rewrite (Curve25519.toPrivate_contents k p) by done. pose proof (private_key_bytes k) as Hall.
    rewrite He in Hall. by apply Forall_app in Hall as [_ ?]. }
  split_and!; [done| |].
  - intros E. unfold b in E. by rewrite E in Hl.
  - simpl. rewrite Base64.decode_encode64 by done. unfold b. by rewrite Hf.
Qed.

(** ** The wallet's invariant *)

(** An entry of a wallet with this password: a known format, and a private key that
    opens with the password and belongs to the address. *)
Definition entry_ok (pass : bytes) (e : Entry) : Prop :=
  format e ≠ FNone ∧ is_u 64 (time e) ∧ ascii (privKey e) ∧ ∃ k, Curve25519.is_ed k ∧ decrypt (format e) (privKey e) pass = Some (Some k) ∧
    ∀ g, AlgAddress.verify_text (address e) k g = true.

Definition wf (w : t) : Prop :=
  Forall (entry_ok (password w)) (keys w) ∧ (keys w ≠ [] → password w ≠ []).

Lemma verify_any a k g g' : AlgAddress.verify_text a k g = true → AlgAddress.verify_text a k g' = true.
Proof.
  unfold AlgAddress.verify_text. intros [Hl Ha]%AlgAddress.verify_inv. rewrite Ha.
  apply AlgAddress.verify_address_of. rewrite length_take, Hl. done.
Qed.

(** What adding a key promises of the wallet before and after. *)
Definition added (now : Z) (u : KeyUsage) (k : EVP_PKEY) (a : cstr) (w : t) (ok : bool) (w' : t) : Prop :=
  wf w' ∧ defaultFormat w' = defaultFormat w ∧ kdfIters w' = kdfIters w ∧
  (keys w ≠ [] → password w' = password w) ∧
  (ok = true → ∃ e, keys w' = e :: keys w ∧ address e = a ∧ usage e = u ∧ time e = u64 now ∧
     decrypt (format e) (privKey e) (password w') = Some (Some k)) ∧
  (ok = false → keys w' = keys w).

Lemma store_entry_spec now u f k a b pass w :
  Forall (entry_ok pass) (keys w) → pass ≠ [] → (keys w ≠ [] → pass = password w) →
  Curve25519.is_ed k → (∀ g, AlgAddress.verify_text a k g = true) →
  f ≠ FNone → bytes_ok b → (b ≠ [] → decrypt f (Base64.encode b) pass = Some (Some k)) →
  let '(ok, w') := store_entry now u f a b (mk (keys w) pass (defaultFormat w) (kdfIters w)) in
  added now u k a w ok w' ∧ (b ≠ [] → ok = true).
Proof.
  intros Hks Hp Hsame Hk Hv Hf Hb Hd. unfold store_entry. cbn [privKey keys password defaultFormat kdfIters].
  case_bool_decide as He.
  - split; [split_and!; done|]. intros Hn. by destruct (base64_nonempty b Hb Hn).
  - assert (Hdec : decrypt f (Base64.encode b) pass = Some (Some k)) by (apply Hd; by intros ->).
    split; [|done]. split; [split; [constructor; [|done]|done]|].
    + split_and!; [done|apply wrap_is_u; lia|apply base64_ascii|]. by exists k.
    + split_and!; [done..| |done]. intros _. eexists. by split_and!.
Qed.

(** Adding a key to a well-formed wallet: refused for a foreign address; otherwise it
    becomes the first entry, or cannot be protected and is left out. *)
Lemma addKey_spec st now u k a g w :
  wf w → Curve25519.is_ed k → stack_ok st →
  ∃ ok w' g', addKey st now u k a g w = Some (ok, w', g') ∧ added now u k a w ok w' ∧
    (ok = true → AlgAddress.verify_text a k g = true) ∧
    (AlgAddress.verify_text a k g = true →
     (defaultFormat w = Clear ∨ PbkdfKey.KDF_ITERS_MIN ≤ kdfIters w ≤ PbkdfKey.KDF_ITERS_MAX) → ok = true).
Proof.
  intros [Hks Hpw] Hk Hst. unfold addKey. destruct (AlgAddress.verify_text a k g) eqn:Hv; cbn [negb].
  2: { exists false, w, g. split_and!; done. }
  assert (Hva : ∀ g', AlgAddress.verify_text a k g' = true) by (intros g'; by eapply verify_any).
  destruct (if bool_decide (password w = []) then Prng.rand 16 g else (password w, g)) as [pass g1] eqn:Ep.
  assert (Hpass : pass ≠ [] ∧ (keys w ≠ [] → pass = password w)).
  { case_bool_decide as Hp.
    - apply Prng.rand_ok in Ep as [Hl _]. split; [by intros ->|]. intros Hn. by destruct (Hpw Hn).
    - injection Ep as <- <-. done. }
  destruct Hpass as [Hne Hsame].
  assert (Hold : Forall (entry_ok pass) (keys w)).
  { destruct (decide (keys w = [])) as [-> | Hn]; [constructor|]. by rewrite Hsame. }
  cbn [defaultFormat kdfIters].
  assert (Hfin : ∀ f b (g2 : rng), f ≠ FNone → bytes_ok b → (b ≠ [] → decrypt f (Base64.encode b) pass = Some (Some k)) →
    (defaultFormat w = Clear ∨ PbkdfKey.KDF_ITERS_MIN ≤ kdfIters w ≤ PbkdfKey.KDF_ITERS_MAX → b ≠ []) →
    ∃ ok w' g', (let '(ok, w) := store_entry now u f a b (mk (keys w) pass (defaultFormat w) (kdfIters w)) in
                 Some (ok, w, g2)) = Some (ok, w', g') ∧ added now u k a w ok w' ∧ (ok = true → true = true) ∧
      (true = true → defaultFormat w = Clear ∨ PbkdfKey.KDF_ITERS_MIN ≤ kdfIters w ≤ PbkdfKey.KDF_ITERS_MAX → ok = true)).
  { intros f b g2 Hf Hb Hd Hi. pose proof (store_entry_spec now u f k a b pass w Hold Hne Hsame Hk Hva Hf Hb Hd) as Hs.
    destruct (store_entry _ _ _ _ _ _) as [ok w']. exists ok, w', g2. destruct Hs. split_and!; auto. }
  destruct (pbkdf_protects st k pass (kdfIters w) g1 Hk Hst) as (b & g2 & Hb1 & Hb2 & Hb3 & Hb4).
  destruct (defaultFormat w) eqn:Ef; rewrite ?Hb1; cbn [mbind option_bind].
  - apply Hfin; [done..|]. intros [|Hi] E; [done|]. apply Hb4 in E as [|[]]; done.
  - destruct (clear_protects k pass Hk) as (? & ? & ?). by apply Hfin.
  - apply Hfin; [done..|]. intros [|Hi] E; [done|]. apply Hb4 in E as [|[]]; done.
  - pose proof (pkcs8_protects st.2 k pass (kdfIters w) g1) as (Hb & Hd & Hr).
    destruct (Pkcs8Key.wrap _ _ _ _ _) as [b' g3]. apply Hfin; [done..|].
    intros [|Hi] E; [done|]. by apply Hr in E.
Qed.

(** ** Saving and loading *)

Context {JL : JsonLaws J}.

Definition entry_json (e : Entry) : json :=
  j_object [($"address", j_string (address e)); ($"format", j_string (to_string_format (format e)));
            ($"priv", j_string (privKey e)); ($"time", j_uint (time e)); ($"usage", j_string (to_string_usage (usage e)))].

Lemma decode_entry_json e : format e ≠ FNone → is_u 64 (time e) → decode_entry (entry_json e) = Some e.
Proof.
  intros Hf Ht. unfold decode_entry, at_string, at_uint, entry_json.
  rewrite !(at_object _ $"address" (j_string (address e))), !(at_object _ $"priv" (j_string (privKey e))),
    !(at_object _ $"format" (j_string (to_string_format (format e)))),
    !(at_object _ $"usage" (j_string (to_string_usage (usage e)))), !(at_object _ $"time" (j_uint (time e)))
    by first [by apply (bool_decide_unpack _) | rewrite !elem_of_cons; tauto].
  cbn [mbind option_bind]. rewrite !get_string, get_uint. cbn [mbind option_bind fmap option_fmap option_map].
  rewrite format_roundtrip, usage_roundtrip, decide_False, wrap_small by done. by destruct e.
Qed.

(** Loading what entries were written gives them, if the first opens. *)
Lemma load_entries_json pass es verified acc :
  Forall (λ e, format e ≠ FNone ∧ is_u 64 (time e)) es →
  (verified = true ∨ ∀ e es', es = e :: es' → ∃ k, decrypt (format e) (privKey e) pass = Some (Some k)) →
  load_entries (entry_json <$> es) pass verified acc = Some (true, acc ++ es).
Proof.
  intros H. revert verified acc. induction H as [|e es [Hf Ht] _ IH]; intros verified acc Hv; cbn [fmap list_fmap load_entries].
  { by rewrite app_nil_r. }
  rewrite decode_entry_json by done.
  assert (Hnext : load_entries (entry_json <$> es) pass true (acc ++ [e]) = Some (true, acc ++ e :: es)).
  { rewrite IH by (by left). by rewrite <- app_assoc. }
  destruct verified; [done|]. destruct Hv as [|Hv]; [done|].
  destruct (Hv e es eq_refl) as [k ->]. done.
Qed.

Lemma plain_entry e :
  is_u 64 (time e) → ascii (privKey e) → ascii (address e) → plain (entry_json e).
Proof.
  intros Ht Hp Ha. apply plain_object; [by apply (bool_decide_unpack _)..|].
  repeat apply Forall_cons_2; [by apply plain_string|apply plain_string|by apply plain_string|by apply plain_uint|apply plain_string|by apply Forall_nil_2];
    by destruct (format e), (usage e); apply (bool_decide_unpack _).
Qed.

(** The document of a wallet: it prints, and loading it takes up its configuration and entries. *)
Definition document (f : EncFormat) (iters : Z) (es : list Entry) : json :=
  j_object [($"config", j_object [($"version", j_uint VERSION); ($"iters", j_uint iters);
                                  ($"defaultFormat", j_string (to_string_format f))]);
            ($"keys", j_array (entry_json <$> es))].

Lemma load_document f iters es pass w0 :
  is_u 32 iters →
  Forall (λ e, format e ≠ FNone ∧ is_u 64 (time e) ∧ ascii (privKey e) ∧ ascii (address e)) es →
  (∀ e es', es = e :: es' → ∃ k, decrypt (format e) (privKey e) pass = Some (Some k)) →
  ∃ s, j_dump (document f iters es) = Some s ∧ s ≠ [] ∧
       setString s pass w0 = Some (true, mk es pass f iters).
Proof.
  intros Hi Hes Hdec. assert (Hplain : plain (document f iters es)).
  { apply plain_object; [by apply (bool_decide_unpack _)..|]. repeat apply Forall_cons_2; [| |by apply Forall_nil_2].
    - apply plain_object; [by apply (bool_decide_unpack _)..|].
      repeat apply Forall_cons_2; [by apply plain_uint|apply plain_uint|apply plain_string|by apply Forall_nil_2].
      + unfold is_u in *. lia.
      + by destruct f; apply (bool_decide_unpack _).
    - apply plain_array, Forall_fmap. eapply Forall_impl; [apply Hes|]. intros e (_ & ? & ? & ?). by apply plain_entry. }
  destruct (dump_parse _ Hplain) as (s & Hd & Hne & Hp). exists s. split_and!; [done..|].
  unfold setString. rewrite Hp. unfold document.
  rewrite (at_object _ $"config" _) by first [by apply (bool_decide_unpack _) | by left].
  unfold load_config.
  rewrite (at_const_object _ $"version" (j_uint VERSION)), (at_const_object _ $"iters" (j_uint iters)),
    (at_const_object _ $"defaultFormat" (j_string (to_string_format f)))
    by first [by apply (bool_decide_unpack _) | rewrite !elem_of_cons; tauto].
  rewrite !get_uint, get_string. cbn [mbind option_bind negb keys password defaultFormat kdfIters].
  rewrite (at_object _ $"keys" (j_array (entry_json <$> es))) by first [by apply (bool_decide_unpack _) | right; by left].
  cbn [mbind option_bind]. rewrite elems_array, load_entries_json; [|by eapply Forall_impl; [apply Hes|]; intros e (? & ? & _)|by right].
  cbn [mbind option_bind]. rewrite format_roundtrip, wrap_small by done. done.
Qed.

Lemma export_same st pw w es g :
  pw = [] ∨ pw = password w → export_entries st pw w es g = Some (Some (entry_json <$> es), g).
Proof.
  intros Hp. assert (Hb : bool_decide (pw = []) || bool_decide (pw = password w) = true).
  { destruct Hp as [-> | ->]; [by rewrite bool_decide_eq_true_2|].
    rewrite (bool_decide_eq_true_2 (password w = password w)) by done. apply orb_true_r. }
  induction es as [|e es IH]; [done|]. cbn [export_entries]. unfold export_entry. rewrite Hb.
  cbn [mbind option_bind]. rewrite IH. done.
Qed.

(** What a well-formed wallet is saved as is loaded again. *)
Lemma wf_saved_loads (st : stack) (w w0 : t) (pw : bytes) (g : rng)
    (Hw : wf w) (Hi : is_u 32 (kdfIters w)) (Ha : Forall (λ e, ascii (address e)) (keys w))
    (Hpw : pw = [] ∨ pw = password w) :
  ∃ s, getString st pw w g = Some (s, g) ∧ s ≠ [] ∧ setString s (password w) w0 = Some (true, w).
Proof.
  destruct Hw as [Hks _]. unfold getString. rewrite export_same by done. cbn [mbind option_bind].
  destruct (load_document (defaultFormat w) (kdfIters w) (keys w) (password w) w0 Hi) as (s & Hd & Hne & Hs).
  - apply Forall_forall. intros e He. rewrite Forall_forall in Hks, Ha. destruct (Hks e He) as (? & ? & ? & _).
    split_and!; auto.
  - intros e es E. rewrite E in Hks. apply Forall_cons in Hks as [(_ & _ & _ & k & _ & Hk & _) _]. by exists k.
  - unfold document in Hd. rewrite Hd. exists s. split_and!; [done..|]. rewrite Hs. by destruct w.
Qed.

(** The same key under another password. *)
Definition retranslated (w : t) (pw : bytes) (e e' : Entry) : Prop :=
  time e' = time e ∧ usage e' = usage e ∧ address e' = address e ∧ format e' = defaultFormat w ∧ ascii (privKey e') ∧
  ∃ k, decrypt (format e) (privKey e) (password w) = Some (Some k) ∧
       decrypt (format e') (privKey e') pw = Some (Some k).

Lemma retranslate_spec st w pw e g :
  entry_ok (password w) e → stack_ok st → pw ≠ [] →
  PbkdfKey.KDF_ITERS_MIN ≤ kdfIters w ≤ PbkdfKey.KDF_ITERS_MAX →
  defaultFormat w = FcPbkdf ∨ defaultFormat w = Pkcs8 →
  ∃ text g', retranslate st (format e) (defaultFormat w) (kdfIters w) (privKey e) (password w) pw g = Some (Some text, g') ∧
    retranslated w pw e (mkEntry (time e) (usage e) (defaultFormat w) (address e) text).
Proof.
  intros (_ & _ & _ & k & Hk & Hd & _) Hst Hp Hi Hf. unfold retranslate. rewrite Hd. cbn [mbind option_bind].
  assert (Hfin : ∀ b (g' : rng), bytes_ok b → b ≠ [] → decrypt (defaultFormat w) (Base64.encode b) pw = Some (Some k) →
    ∃ text g'', (if bool_decide (b = []) then Some (None, g')
      else Some (if bool_decide (Base64.encode b = []) then None else Some (Base64.encode b), g')) = Some (Some text, g'') ∧
    retranslated w pw e (mkEntry (time e) (usage e) (defaultFormat w) (address e) text)).
  { intros b g' Hb Hne Hdec. exists (Base64.encode b), g'. rewrite (bool_decide_eq_false_2 (b = [])) by done.
    rewrite bool_decide_eq_false_2 by by apply base64_nonempty. split; [done|].
    split_and!; [done..|apply base64_ascii|]. by exists k. }
  destruct Hf as [Hf|Hf]; rewrite Hf in *.
  - destruct (pbkdf_protects st k pw (kdfIters w) g Hk Hst) as (b & g' & -> & Hb & Hdec & He). cbn [mbind option_bind].
    assert (b ≠ []) by (intros E; apply He in E as [|[]]; done). apply Hfin; auto.
  - pose proof (pkcs8_protects st.2 k pw (kdfIters w) g) as (Hb & Hdec & He).
    destruct (Pkcs8Key.wrap _ _ _ _ _) as [b g']. cbn [mbind option_bind fst] in *.
    assert (b ≠ []) by (intros E; by apply He in E). apply Hfin; auto.
Qed.

(** Whatever was translated opens with the new password to the same key. *)
Lemma retranslate_inv st w pw e g text g' :
  entry_ok (password w) e → stack_ok st →
  retranslate st (format e) (defaultFormat w) (kdfIters w) (privKey e) (password w) pw g = Some (Some text, g') →
  defaultFormat w ≠ FNone ∧ retranslated w pw e (mkEntry (time e) (usage e) (defaultFormat w) (address e) text).
Proof.
  intros (_ & _ & _ & k & Hk & Hd & _) Hst. unfold retranslate. rewrite Hd. cbn [mbind option_bind].
  assert (Hfin : ∀ b g1, bytes_ok b → (b ≠ [] → decrypt (defaultFormat w) (Base64.encode b) pw = Some (Some k)) →
    (if bool_decide (b = []) then Some (None, g1)
     else Some (if bool_decide (Base64.encode b = []) then None else Some (Base64.encode b), g1)) = Some (Some text, g') →
    retranslated w pw e (mkEntry (time e) (usage e) (defaultFormat w) (address e) text)).
  { intros b g1 Hb Hdec H. case_bool_decide as Hne; [done|]. case_bool_decide; [done|]. injection H as <- _.
    split_and!; [done..|apply base64_ascii|]. exists k. auto. }
  destruct (defaultFormat w) eqn:Hf; [done|done| |]; (split; [done|]); revert H; clear Hd; intros H.
  - destruct (pbkdf_protects st k pw (kdfIters w) g Hk Hst) as (b & g1 & Hw & Hb & Hdec & _).
    rewrite Hw in H. cbn [mbind option_bind] in H. by eapply Hfin.
  - pose proof (pkcs8_protects st.2 k pw (kdfIters w) g) as (Hb & Hdec & _).
    destruct (Pkcs8Key.wrap _ _ _ _ _) as [b g1]. cbn [mbind option_bind fst] in *. by eapply Hfin.
Qed.

Lemma export_retranslated st w pw es g :
  Forall (entry_ok (password w)) es → stack_ok st → pw ≠ [] → pw ≠ password w →
  PbkdfKey.KDF_ITERS_MIN ≤ kdfIters w ≤ PbkdfKey.KDF_ITERS_MAX →
  defaultFormat w = FcPbkdf ∨ defaultFormat w = Pkcs8 →
  ∃ es' g', export_entries st pw w es g = Some (Some (entry_json <$> es'), g') ∧ Forall2 (retranslated w pw) es es'.
Proof.
  intros Hes Hst Hp Hne Hi Hf. revert g. induction Hes as [|e es He _ IH]; intros g.
  { exists [], g. split; [done|constructor]. }
  cbn [export_entries]. unfold export_entry at 1. rewrite (bool_decide_eq_false_2 (pw = [])), (bool_decide_eq_false_2 (pw = _)) by done.
  cbn [orb]. destruct (retranslate_spec st w pw e g He Hst Hp Hi Hf) as (text & g1 & -> & Hr). cbn [mbind option_bind option_map].
  destruct (IH g1) as (es' & g2 & -> & Hes'). eexists (_ :: es'), g2. split; [|by constructor]. done.
Qed.

(** What a well-formed wallet is saved as under a new password is loaded with it. *)
Lemma wf_changed_loads (st : stack) (w w0 : t) (pw : bytes) (g : rng)
    (Hw : wf w) (Hst : stack_ok st) (Ha : Forall (λ e, ascii (address e)) (keys w))
    (Hp : pw ≠ []) (Hne : pw ≠ password w)
    (Hi : PbkdfKey.KDF_ITERS_MIN ≤ kdfIters w ≤ PbkdfKey.KDF_ITERS_MAX)
    (Hf : defaultFormat w = FcPbkdf ∨ defaultFormat w = Pkcs8) :
  ∃ s g' w', getString st pw w g = Some (s, g') ∧ s ≠ [] ∧ setString s pw w0 = Some (true, w') ∧
    password w' = pw ∧ kdfIters w' = kdfIters w ∧ defaultFormat w' = defaultFormat w ∧
    Forall2 (retranslated w pw) (keys w) (keys w').
Proof.
  destruct Hw as [Hks _]. unfold getString.
  destruct (export_retranslated st w pw (keys w) g Hks Hst Hp Hne Hi Hf) as (es' & g' & -> & Hes). cbn [mbind option_bind].
  destruct (load_document (defaultFormat w) (kdfIters w) es' pw w0) as (s & Hd & Hs & Hl).
  - unfold is_u, PbkdfKey.KDF_ITERS_MIN, PbkdfKey.KDF_ITERS_MAX in *. lia.
  - clear -Hes Hks Ha Hf. induction Hes as [|e e' es es' (Ht & _ & Had & Hff & Hp & _) _ IH]; [constructor|].
    apply Forall_cons in Hks as [(_ & Htm & _) Hks], Ha as [Hae Ha]. constructor; [|by apply IH].
    rewrite Ht, Had, Hff. split_and!; [by destruct Hf as [-> | ->]|done..].
  - intros e' es'' E. rewrite E in Hes. inversion Hes as [|e ? es ? (_ & _ & _ & _ & _ & k & _ & Hk)]; subst. by exists k.
  - unfold document in Hd. rewrite Hd. by exists s, g', (mk es' pw (defaultFormat w) (kdfIters w)).
Qed.

(** An entry that was translated is as good as the one it was made from. *)
Lemma retranslated_ok w pw e e' :
  entry_ok (password w) e → defaultFormat w ≠ FNone → retranslated w pw e e' → entry_ok pw e'.
Proof.
  intros (_ & Ht & _ & k & Hk & Hd & Hv) Hf (Ht' & _ & Ha & Hf' & Hp & k' & Hd' & Hd2).
  rewrite Hd in Hd'. injection Hd' as <-. split_and!; [by rewrite Hf'|by rewrite Ht'|done|].
  exists k. by rewrite Ha.
Qed.

Lemma export_inv st w pw es : ∀ g js g',
  Forall (entry_ok (password w)) es → stack_ok st → pw ≠ [] → pw ≠ password w →
  export_entries st pw w es g = Some (Some js, g') →
  ∃ es', js = entry_json <$> es' ∧ Forall (entry_ok pw) es' ∧ address <$> es' = address <$> es.
Proof.
  induction es as [|e es IH]; intros g js g' Hes Hst Hp Hne H; cbn [export_entries] in H.
  { injection H as <- _. by exists []. }
  apply Forall_cons in Hes as [He Hes]. unfold export_entry in H at 1.
  rewrite (bool_decide_eq_false_2 (pw = [])), (bool_decide_eq_false_2 (pw = _)) in H by done. cbn [orb] in H.
  destruct (retranslate st _ _ _ _ _ pw g) as [[[text|] g1]|] eqn:Er; try done. cbn [mbind option_bind option_map] in H.
  apply retranslate_inv in Er as [Hf Hr]; [|done..].
  destruct (export_entries st pw w es g1) as [[[js1|] g2]|] eqn:Ee; try done. cbn [mbind option_bind option_map] in H.
  injection H as <- _. destruct (IH g1 js1 g2 Hes Hst Hp Hne Ee) as (es' & -> & Hok & Ha).
  exists (mkEntry (time e) (usage e) (defaultFormat w) (address e) text :: es'). split; [reflexivity|].
  split; [|cbn [fmap list_fmap address]; by f_equal].
  constructor; [by eapply retranslated_ok|done].
Qed.

(** The password a text was saved under. *)
Definition saved_under (pw : bytes) (w : t) : bytes := if bool_decide (pw = []) then password w else pw.

(** What was saved of a well-formed wallet, loaded with the password it was saved under, is
    well-formed. *)
Lemma wf_loaded st pw g s g' w w0 w' :
  wf w → stack_ok st → is_u 32 (kdfIters w) → Forall (λ e, ascii (address e)) (keys w) →
  getString st pw w g = Some (s, g') → s ≠ [] → setString s (saved_under pw w) w0 = Some (true, w') → wf w'.
Proof.
  intros Hw Hst Hi Ha Hg Hs Hl. unfold saved_under in Hl.
  destruct (decide (pw = [] ∨ pw = password w)) as [Hpw|Hpw].
  { destruct (wf_saved_loads st w w0 pw g Hw Hi Ha Hpw) as (s' & Hg' & _ & Hl'). rewrite Hg in Hg'. injection Hg' as <- _.
    assert (E : (if bool_decide (pw = []) then password w else pw) = password w) by (case_bool_decide; naive_solver).
    rewrite E, Hl' in Hl. by injection Hl as <-. }
  apply Decidable.not_or in Hpw as [Hp Hne]. rewrite bool_decide_eq_false_2 in Hl by done.
  destruct Hw as [Hks _]. unfold getString in Hg.
  destruct (export_entries st pw w (keys w) g) as [[[js|] g1]|] eqn:Ee; [|by simplify_eq/=|done].
  cbn [mbind option_bind] in Hg. injection Hg as Hg _.
  destruct (export_inv st w pw (keys w) g js g1 Hks Hst Hp Hne Ee) as (es' & -> & Hok & Had).
  destruct (load_document (defaultFormat w) (kdfIters w) es' pw w0 Hi) as (s' & Hd & _ & Hl').
  - assert (Has : ∀ a, a ∈ address <$> es' → ascii a).
    { rewrite Had. intros a (e & -> & He)%list_elem_of_fmap. rewrite Forall_forall in Ha. by apply Ha. }
    apply Forall_forall. intros e He. rewrite Forall_forall in Hok.
    destruct (Hok e He) as (? & ? & ? & _). split_and!; [done..|]. by apply Has, list_elem_of_fmap_2.
  - intros e es'' ->. apply Forall_cons in Hok as [(_ & _ & _ & k & _ & Hk & _) _]. by exists k.
  - unfold document in Hd. rewrite Hd in Hg. change (s' = s) in Hg. rewrite Hg in Hl'. rewrite Hl' in Hl. injection Hl as <-.
    by split.
Qed.

(** ** The wallets a program makes *)

(** The wallets a program makes by choosing formats, adding or creating keys, and loading what
    one of them was saved as with the password it was saved under. *)
Inductive reach : t → Prop :=
  | reach_new : reach new
  | reach_format f iters w : reach w → reach (setEncFormat f iters w)
  | reach_add st now u k a g w ok w' g' :
      reach w → stack_ok st → Curve25519.is_ed k → addKey st now u k a g w = Some (ok, w', g') → reach w'
  | reach_make fuel st now k u salt g w r w' g' :
      reach w → stack_ok st → Curve25519.is_ed k →
      makeNewKey fuel st now (Some k) u salt g w = Some (r, w', g') → reach w'
  | reach_load st pw g s g' w w0 w' :
      reach w → stack_ok st → is_u 32 (kdfIters w) → Forall (λ e, ascii (address e)) (keys w) →
      getString st pw w g = Some (s, g') → s ≠ [] → setString s (saved_under pw w) w0 = Some (true, w') → reach w'.

Lemma makeNewKey_inv fuel st now k u salt g w r w' g' :
  makeNewKey fuel st now (Some k) u salt g w = Some (r, w', g') →
  ∃ a g1 ok, addKey st now u k a g1 w = Some (ok, w', g') ∧ r = Some k.
Proof.
  unfold makeNewKey. intros H.
  destruct (if bool_decide (salt = []) then _ else _) as [[bin g1]|]; [|done]. cbn [mbind option_bind] in H.
  destruct (addKey st now u k (AlgAddress.printable bin) g1 w) as [[[ok w1] g2]|] eqn:E; [|done].
  injection H as <- <- <-. by exists (AlgAddress.printable bin), g1, ok.
Qed.

Lemma reach_wf w : reach w → wf w.
Proof.
  assert (Hadd : ∀ st now u k a g w ok w' g', wf w → stack_ok st → Curve25519.is_ed k →
    addKey st now u k a g w = Some (ok, w', g') → wf w').
  { intros st now u k a g w0 ok w' g' Hw Hst Hk H.
    destruct (addKey_spec st now u k a g w0 Hw Hk Hst) as (? & ? & ? & Ha & Had & _). simplify_eq. apply Had. }
  induction 1 as [|f iters w _ IH|st now u k a g w ok w' g' _ IH Hst Hk H|fuel st now k u salt g w r w' g' _ IH Hst Hk H|].
  - split; [constructor|done].
  - done.
  - by eapply Hadd.
  - apply makeNewKey_inv in H as (a & g1 & ok & H & _). by eapply Hadd.
  - by eapply wf_loaded.
Qed.

Lemma find_key_ok pass ks e :
  Forall (entry_ok pass) ks → e ∈ ks →
  ∃ k, find_key ks pass (address e) = Some (Some k) ∧ ∀ g, AlgAddress.verify_text (address e) k g = true.
Proof.
  induction 1 as [|e' ks (_ & _ & _ & k & _ & Hd & Hv) _ IH]; [by intros ?%not_elem_of_nil|]. intros Hin. cbn [find_key].
  case_bool_decide as Ha; [rewrite <- Ha; eauto|]. apply elem_of_cons in Hin as [->|]; [done|]. by apply IH.
Qed.

Lemma getTopKey_ok pass ks u e :
  Forall (entry_ok pass) ks → getTopKey ks u = Some e → usage e = u ∧ entry_ok pass e.
Proof.
  induction 1 as [|e' ks He _ IH]; simpl; [done|]. case_decide; [intros [= ->]; done|apply IH].
Qed.

(** C12: The invariant of the wallets a program makes by choosing formats, adding and creating
    keys (Ed25519 keys, the only ones the program makes), and loading what such a wallet with
    ASCII addresses was saved as (under its own or a new password) with the password it was saved under: every key opens with the wallet's password and belongs
    to the address it is stored under, whichever format and iteration count were chosen at
    any time; and what is reported as the newest key of a usage belongs to what is reported as its
    newest address. Other texts are not covered: loading compares no address with its key and
    tries the password on the first entry only. *)
Theorem wallet_invariant (w : t) (Hw : reach w) :
  (∀ e, e ∈ getKeys w → ∃ k, getKey (address e) w = Some (Some k) ∧
     ∀ g, AlgAddress.verify_text (address e) k g = true) ∧
  (∀ u e, e ∈ getKeys w → usage e = u → ∃ k, getLatestKey u w = Some (Some k) ∧
     getLatestPublicKey u w = Some (Curve25519.toPublic k) ∧
     ∀ g, AlgAddress.verify_text (getLatestAddress u w) k g = true).
Proof.
  apply reach_wf in Hw as [Hks _]. split; [intros e He; by apply find_key_ok|].
  intros u e He Hu. unfold getLatestPublicKey, getLatestKey, getLatestAddress.
  destruct (getTopKey (keys w) u) as [e'|] eqn:E.
  - destruct (getTopKey_ok _ _ _ _ Hks E) as (_ & _ & _ & _ & k & _ & Hd & Hv).
    rewrite Hd. by exists k.
  - exfalso. unfold getKeys in He. clear Hks. induction (keys w) as [|e' ks IH]; [by apply not_elem_of_nil in He|].
    cbn [getTopKey] in E. destruct (decide (usage e' = u)); [done|].
    apply elem_of_cons in He as [->|]; [done|]. by apply IH.
Qed.

(** Adding a key: it is accepted exactly if the address belongs to the key and the key
    can be protected, which it always can with iterations in range or without
    protection.  Then it is the newest of its usage and found under its address; the
    entries that were there, and the newest key of every other usage, are unchanged. *)
Theorem wallet_add (st : stack) (now : Z) (u : KeyUsage) (k : EVP_PKEY) (a : cstr) (g : rng) (w : t)
    (Hw : reach w) (Hst : stack_ok st) (Hk : Curve25519.is_ed k) :
  ∃ ok w' g', addKey st now u k a g w = Some (ok, w', g') ∧
    (AlgAddress.verify_text a k g = false → ok = false) ∧
    (AlgAddress.verify_text a k g = true →
     (defaultFormat w = Clear ∨ PbkdfKey.KDF_ITERS_MIN ≤ kdfIters w ≤ PbkdfKey.KDF_ITERS_MAX) → ok = true) ∧
    (ok = true → getLatestKey u w' = Some (Some k) ∧ getLatestAddress u w' = a ∧ getKey a w' = Some (Some k)) ∧
    (ok = false → getKeys w' = getKeys w) ∧ (∃ new, getKeys w' = new ++ getKeys w) ∧
    ∀ u', u' ≠ u → getLatestAddress u' w' = getLatestAddress u' w ∧ getLatestKey u' w' = getLatestKey u' w.
Proof.
  apply reach_wf in Hw. destruct (addKey_spec st now u k a g w Hw Hk Hst) as (ok & w' & g' & Ha & Had & Hver & Hok).
  destruct Had as (_ & _ & _ & Hp & Htrue & Hfalse). exists ok, w', g'.
  unfold getKeys, getLatestKey, getLatestAddress, getKey. split_and!; [done| |done| |done| |].
  - intros Hv. destruct ok; [|done]. rewrite Hver in Hv by done. done.
  - intros ->. destruct (Htrue eq_refl) as (e & -> & He & Hu & _ & Hd). cbn [getTopKey find_key].
    rewrite decide_True by done. by rewrite bool_decide_eq_true_2.
  - destruct ok; [|exists []; by rewrite Hfalse]. destruct (Htrue eq_refl) as (e & -> & _). by exists [e].
  - intros u' Hne. destruct ok; [|rewrite Hfalse by done; split; [done|]].
    + destruct (Htrue eq_refl) as (e & -> & _ & Hu & _). cbn [getTopKey]. rewrite decide_False by congruence.
      split; [done|]. destruct (keys w) as [|e' ks] eqn:E; [done|]. by rewrite Hp.
    + destruct (keys w) as [|e' ks] eqn:E; [done|]. by rewrite Hp.
Qed.

Lemma saved_loads (st : stack) (w w0 : t) (pw : bytes) (g : rng)
    (Hw : reach w) (Hi : is_u 32 (kdfIters w)) (Ha : Forall (λ e, ascii (address e)) (keys w))
    (Hpw : pw = [] ∨ pw = password w) :
  ∃ s, getString st pw w g = Some (s, g) ∧ s ≠ [] ∧ setString s (password w) w0 = Some (true, w).
Proof. apply wf_saved_loads; [by apply reach_wf|done..]. Qed.

Lemma changed_loads (st : stack) (w w0 : t) (pw : bytes) (g : rng)
    (Hw : reach w) (Hst : stack_ok st) (Ha : Forall (λ e, ascii (address e)) (keys w))
    (Hp : pw ≠ []) (Hne : pw ≠ password w)
    (Hi : PbkdfKey.KDF_ITERS_MIN ≤ kdfIters w ≤ PbkdfKey.KDF_ITERS_MAX)
    (Hf : defaultFormat w = FcPbkdf ∨ defaultFormat w = Pkcs8) :
  ∃ s g' w', getString st pw w g = Some (s, g') ∧ s ≠ [] ∧ setString s pw w0 = Some (true, w') ∧
    password w' = pw ∧ kdfIters w' = kdfIters w ∧ defaultFormat w' = defaultFormat w ∧
    Forall2 (retranslated w pw) (keys w) (keys w').
Proof. apply wf_changed_loads; [by apply reach_wf|done..]. Qed.

(** C17: Saving a wallet and loading the text with its password gives the same wallet:
    every entry in its order, the password, the format and the iteration count, whatever
    wallet it is loaded into. *)
Theorem wallet_save_load (st : stack) (w w0 : t) (pw : bytes) (g : rng)
    (Hw : reach w) (Hi : is_u 32 (kdfIters w)) (Ha : Forall (λ e, ascii (address e)) (keys w))
    (Hpw : pw = [] ∨ pw = password w) :
  ∃ s, getString st pw w g = Some (s, g) ∧ s ≠ [] ∧ setString s (password w) w0 = Some (true, w).
Proof. by apply saved_loads. Qed.


(** Loading tries the password on the first entry only, and compares no address with its key.
    A text that begins with an unprotected key loads with any password, whatever follows. *)
Lemma clear_first_opens_all f iters e es k pass w0 :
  is_u 32 iters → format e = Clear → Curve25519.fromPrivate (Base64.decode (privKey e)) = Some k →
  Forall (λ e, format e ≠ FNone ∧ is_u 64 (time e) ∧ ascii (privKey e) ∧ ascii (address e)) (e :: es) →
  ∃ s, j_dump (document f iters (e :: es)) = Some s ∧ setString s pass w0 = Some (true, mk (e :: es) pass f iters).
Proof.
  intros Hi Hf Hk Hes. destruct (load_document f iters (e :: es) pass w0 Hi Hes) as (s & Hd & _ & Hl); [|by exists s].
  intros e' es' [= <- <-]. exists k. rewrite Hf. simpl. by rewrite Hk.
Qed.

(** Saving under a new password is impossible for a wallet whose format is the
    unprotected one (or none): the text is empty, the failure value. *)
Lemma clear_wallet_keeps_password st w pw g :
  wf w → keys w ≠ [] → pw ≠ [] → pw ≠ password w → defaultFormat w = Clear ∨ defaultFormat w = FNone →
  getString st pw w g = Some ([], g).
Proof.
  intros [Hks _] Hn Hp Hne Hf. unfold getString. destruct (keys w) as [|e es]; [done|].
  apply Forall_cons in Hks as [(_ & _ & _ & k & _ & Hd & _) _]. cbn [export_entries]. unfold export_entry.
  rewrite (bool_decide_eq_false_2 (pw = [])), (bool_decide_eq_false_2 (pw = _)) by done. cbn [orb].
  unfold retranslate. rewrite Hd. cbn [mbind option_bind]. by destruct Hf as [-> | ->].
Qed.

(** A load that fails leaves the wallet with the new password and the entries read before
    the failure: the wallet it was loaded into is gone. *)
Lemma failed_load_replaces value pw w0 w' :
  setString value pw w0 = Some (false, w') → password w' = pw.
Proof.
  unfold setString, load_config. repeat (case_match || (intros; simplify_eq/=; done)).
  all: intros; simplify_eq/=; try done.
  all: try (destruct (load_entries _ _ _ _) as [[? ?]|]; simplify_eq/=; done).
Qed.

End Proofs.
End WalletProofs.

(** ** The laws hold, and a wallet to try them on *)
Module ToyWallet.
Import Wallet.
#[local] Existing Instances Curve25519.ToyKeys Curve25519.ToyKeys_laws CounterRng CounterRng_laws.
#[local] Existing Instances Base58.BigNumZ Base58.BigNumZ_laws.
Import ToyPbe.

#[local] Instance Toy8 : Pkcs8Key.Pkcs8 Curve25519.ToyKeys := {|
  Pkcs8Key.PRIV_KEY_INFO := bool; Pkcs8Key.X509_SIG := bool;
  Pkcs8Key.EVP_PKEY2PKCS8 k := Some k; Pkcs8Key.PKCS8_add_keyusage b := b;
  Pkcs8Key.PKCS8_encrypt _ _ _ b := Some b;
  Pkcs8Key.i2d_X509_SIG w := [if w then 1 else 0];
  Pkcs8Key.d2i_X509_SIG l := match l with [c] => Some (c =? 1) | _ => None end;
  Pkcs8Key.PKCS8_decrypt w _ := Some w; Pkcs8Key.EVP_PKCS82PKEY b := Some b;
|}.
#[local] Instance Toy8_laws : Pkcs8Key.Pkcs8Laws Curve25519.ToyKeys Toy8.
Proof.
  split; simpl.
  - intros k. by exists k.
  - intros p s i b _. by exists b.
  - by intros [].
Qed.
#[local] Instance Toy_bytes : WalletBytes Curve25519.ToyKeys.
Proof. split; intros []; apply (bool_decide_unpack _); vm_compute; exact I. Qed.

(** JSON as trees: objects are nodes 0 with keys and values in turn, arrays nodes 1. *)
Definition tree := gen_tree (cstr + Z).
Fixpoint flatten (l : list (cstr * tree)) : list tree :=
  match l with [] => [] | (k, v) :: l => GenLeaf (inl k) :: v :: flatten l end.
Fixpoint find_pair (k : cstr) (l : list tree) : option tree :=
  match l with
  | GenLeaf (inl k') :: v :: l => if bool_decide (k' = k) then Some v else find_pair k l
  | _ => None
  end.

Lemma find_flatten l k v : NoDup l.*1 → (k, v) ∈ l → find_pair k (flatten l) = Some v.
Proof.
  induction l as [|[k' v'] l IH]; intros Hnd Hin; [by apply not_elem_of_nil in Hin|].
  apply NoDup_cons in Hnd as [Hk Hnd]. cbn [flatten find_pair].
  apply elem_of_cons in Hin as [[= -> ->]|Hin]; [by rewrite bool_decide_eq_true_2|].
  rewrite bool_decide_eq_false_2; [by apply IH|]. intros ->. apply Hk. by apply (list_elem_of_fmap_2 fst) in Hin.
Qed.

#[local] Instance ToyJson : Json := {|
  json := tree;
  j_object l := GenNode 0 (flatten l); j_array l := GenNode 1 l;
  j_string s := GenLeaf (inl s); j_uint n := GenLeaf (inr n);
  j_dump j := Some (48 :: pos_bits (encode j));
  j_parse s := match s with _ :: b => decode (bits_pos b) | [] => None end;
  j_at j k := match j with GenNode 0 l => find_pair k l | _ => None end;
  j_at_const j k :=
    match j with
    | GenNode 0 l => match find_pair k l with Some v => Value v | None => Undefined end
    | _ => Throws
    end;
  j_elems j := match j with GenNode 1 l => Some l | _ => None end;
  j_get_string j := match j with GenLeaf (inl s) => Some s | _ => None end;
  j_get_uint w j := match j with GenLeaf (inr n) => Some (wrap w n) | _ => None end;
|}.
#[local] Instance ToyJson_laws : JsonLaws ToyJson.
Proof.
  refine {| plain _ := True |}; try done.
  - intros j _. exists (48 :: pos_bits (encode j)). split_and!; [done..|].
    change (decode (bits_pos (pos_bits (encode j))) = Some j). by rewrite bits_pos_bits, decode_encode.
  - intros l k v. apply find_flatten.
  - intros l k v Hnd Hin. simpl. by rewrite (find_flatten l k v).
Qed.

Definition the_key : @EVP_PKEY Curve25519.ToyKeys := true.
Definition clock : @rng CounterRng := 7.

Definition addr : cstr :=
  Eval vm_compute in AlgAddress.printable (fst (AlgAddress.generate_salt the_key [1; 2; 3; 4; 5; 6] clock)).
Definition wallet : t :=
  Eval vm_compute in match addKey (replicate 16 0, replicate 8 0) 1000 Validator the_key addr clock (setEncFormat Clear 2048 new) with
                     | Some (_, w, _) => w
                     | None => new
                     end.

Lemma wallet_reach : WalletProofs.reach wallet.
Proof.
  eapply (WalletProofs.reach_add (replicate 16 0, replicate 8 0) 1000 Validator the_key addr clock (setEncFormat Clear 2048 new) true _ 8).
  - apply WalletProofs.reach_format, WalletProofs.reach_new.
  - by split.
  - exact I.
  - vm_compute. reflexivity.
Qed.

Lemma wallet_invariant_witness :
  ∃ k, getKey addr wallet = Some (Some k) ∧ ∀ g, AlgAddress.verify_text addr k g = true.
Proof.
  apply (proj1 (WalletProofs.wallet_invariant wallet wallet_reach) (mkEntry 1000 Validator Clear addr (privKey (hd (mkEntry 0 UNone FNone [] []) (keys wallet))))).
  left.
Defined.

Lemma wallet_add_witness :
  ∃ ok w' g', addKey (replicate 16 0, replicate 8 0) 2000 Specie the_key addr clock wallet = Some (ok, w', g') ∧
    getLatestAddress Validator w' = getLatestAddress Validator wallet.
Proof.
  destruct (WalletProofs.wallet_add (replicate 16 0, replicate 8 0) 2000 Specie the_key addr clock wallet wallet_reach)
    as (ok & w' & g' & Ha & _ & _ & _ & _ & _ & Ho); [by split|exact I|].
  exists ok, w', g'. split; [exact Ha|]. by apply Ho.
Defined.

Lemma wallet_save_load_witness :
  ∃ s, getString (replicate 16 0, replicate 8 0) [] wallet clock = Some (s, clock) ∧
       setString s (password wallet) new = Some (true, wallet).
Proof.
  destruct (WalletProofs.wallet_save_load (replicate 16 0, replicate 8 0) wallet new [] clock wallet_reach) as (s & Hg & _ & Hs).
  - unfold is_u. simpl. lia.
  - apply (bool_decide_unpack _). vm_compute. exact I.
  - by left.
  - exists s. split; [exact Hg|exact Hs].
Defined.


End ToyWallet.
