(* ===== verification/Async.v ===== *)
(** * Asynchronous input and output: [async/]

    Memory owned by running tasks, the write queue of a socket, a socket whose data is
    read by somebody else, and the scheduler.  The event loop is the environment: state
    machines take its events one at a time; callbacks are named by numbers, and each
    step lists those it calls. *)

From S2P Require Import Prelude Strings Errors AnyMap.

Module TreasureTrove.

(** [src/src/async/TreasureTrove.h:31-47] TreasureTrove

    The objects held, by address. *)
Definition t := list Z.

(** [src/src/async/TreasureTrove.cpp:6-10] TreasureTrove::add *)
Definition add (mem : Z) (memory : t) : t := memory ++ [mem].

(** [src/src/async/TreasureTrove.cpp:16-23] TreasureTrove::cleanup (loop)

    [iter] is a position; nothing advances it. *)
Fixpoint cleanup_loop (fuel : nat) (item : Z) (iter : nat) (memory : t) : option t :=
  match fuel with
  | O => None
  | S fuel =>
      match memory !! iter with
      | None => Some memory
      | Some x => if x =? item then Some (delete iter memory) else cleanup_loop fuel item iter memory
      end
  end.

(** [src/src/async/TreasureTrove.cpp:12-24] TreasureTrove::cleanup *)
Definition cleanup (fuel : nat) (item : Z) (memory : t) : option t := cleanup_loop fuel item 0 memory.

(** What a caller needs of it: the object goes, the others stay. *)
Definition cleanup_spec (item : Z) (memory : t) : t :=
  match list_find (λ x, x = item) memory with
  | Some (i, _) => delete i memory
  | None => memory
  end.

Lemma cleanup_loop_stuck fuel item memory x :
  memory !! 0%nat = Some x → x ≠ item → cleanup_loop fuel item 0 memory = None.
Proof.
  intros Hx Hne. induction fuel as [|fuel IH]; [done|]. cbn [cleanup_loop]. rewrite Hx.
  by rewrite (proj2 (Z.eqb_neq x item)).
Qed.

(** Giving up a task's memory ends exactly when that memory is the oldest held, or
    none is held; it then does what is asked.  In every other case, with or without the
    object among those held, the call never returns, and it holds the lock. *)
Theorem cleanup_returns_iff (item : Z) (memory : t) :
  (memory = [] ∨ head memory = Some item ↔ ∃ fuel, is_Some (cleanup fuel item memory)) ∧
  (∀ fuel memory', cleanup fuel item memory = Some memory' → memory' = cleanup_spec item memory) ∧
  (∀ a b, a ≠ b → ∀ fuel, cleanup fuel b (add b (add a [])) = None).
Proof.
  unfold cleanup, cleanup_spec. split_and!.
  - destruct memory as [|x memory]; [split; [intros _; by exists 1%nat, []|by left]|].
    simpl head. split.
    + intros [|[= ->]]; [done|]. exists 1%nat. cbn. rewrite Z.eqb_refl. by eexists.
    + intros (fuel & memory' & Hc). right. destruct (decide (x = item)) as [->|Hne]; [done|].
      by rewrite (cleanup_loop_stuck fuel item (x :: memory) x) in Hc.
  - intros fuel memory' Hc. destruct memory as [|x memory].
    { destruct fuel; [done|]. cbn in Hc. by injection Hc as <-. }
    destruct (decide (x = item)) as [->|Hne].
    + destruct fuel; [done|]. cbn in Hc. rewrite Z.eqb_refl in Hc. injection Hc as <-. cbn. by rewrite decide_True.
    + by rewrite (cleanup_loop_stuck fuel item (x :: memory) x) in Hc.
  - intros a b Hne fuel. by apply (cleanup_loop_stuck fuel b [a; b] a).
Qed.

End TreasureTrove.

Module BuriedTreasure.

(** [src/src/async/BuriedTreasure.h:12-63] BuriedTreasure

    The guard of one object of a trove. *)
Record t := mk { has_trove : bool; ptreasure : option Z }.

(** [src/src/async/BuriedTreasure.h:56-61] BuriedTreasure::cleanup *)
Definition cleanup (fuel : nat) (x : t) (trove : TreasureTrove.t) : option (t * TreasureTrove.t) :=
  match ptreasure x with
  | Some p =>
      if has_trove x then trove ← TreasureTrove.cleanup fuel p trove; Some (mk true None, trove)
      else Some (mk false None, trove)
  | None => Some (x, trove)
  end.

(** [src/src/async/BuriedTreasure.h:21-28] BuriedTreasure::BuriedTreasure *)
Definition new (p : Z) (trove : TreasureTrove.t) : t * TreasureTrove.t :=
  (mk true (Some p), TreasureTrove.add p trove).

(** [src/src/async/BuriedTreasure.h:34-43] BuriedTreasure::operator=

    The source keeps its pointer. *)
Definition move_assign (fuel : nat) (x rhs : t) (trove : TreasureTrove.t) : option (t * t * TreasureTrove.t) :=
  '(x, trove) ← cleanup fuel x trove; Some (mk (has_trove rhs) (ptreasure rhs), rhs, trove).

(** Moving a guard and destroying the source frees the object the new guard still points
    to. *)
Lemma moved_guard_dangles p fuel :
  (0 < fuel)%nat →
  let '(a, trove) := new p [] in
  ∃ b a' trove', move_assign fuel (mk false None) a trove = Some (b, a', trove') ∧
    ∃ a'' trove'', cleanup fuel a' trove' = Some (a'', trove'') ∧ ptreasure b = Some p ∧ p ∉ trove''.
Proof.
  intros Hf. unfold new, move_assign, cleanup. cbn. eexists _, _, _. split; [done|]. cbn.
  destruct fuel; [lia|]. unfold TreasureTrove.cleanup. cbn. rewrite Z.eqb_refl. cbn.
  eexists _, _. split; [done|]. split; [done|]. apply not_elem_of_nil.
Qed.

End BuriedTreasure.

Module Socket.

(** [src/src/async/Socket.cpp:20-26] PendingWrite

    The callback by its number, none for an empty function. *)
Record pending := Pending { details : Details.t; data : bytes; timeout : Z; callback : option Z }.

(** [src/src/async/Socket.cpp:34-60] SocketImpl

    [writing] counts the writes handed to the event loop and not completed, [timer] is
    running or not. *)
Record impl := mk { fd_open : bool; bClose : bool; timer : bool; writes : list pending; writing : nat }.

(** How the event loop completes an operation. *)
Inductive completion := Done | Aborted | Failed (message : cstr).

(** What a step does to the outside: bytes handed to the descriptor, callbacks called
    with their details. *)
Inductive event := Sent (data : bytes) | Called (callback : Z) (d : Details.t).

Definition Comm : Z := 1.

(** [src/src/async/Socket.cpp:67-87] setTimeout *)
Definition setTimeout (timeout : Z) (x : impl) : impl :=
  if 0 <? timeout then mk (fd_open x) (bClose x) true (writes x) (writing x) else x.

(** [src/src/async/Socket.cpp:89-146] queueWrite *)
Definition queueWrite (x : impl) : impl * list event :=
  match writes x with
  | [] => (x, [])
  | p :: _ =>
      let x := setTimeout (timeout p) x in
      (mk (fd_open x) (bClose x) (timer x) (writes x) (S (writing x)), [Sent (data p)])
  end.

(** [src/src/async/Socket.cpp:109-145] queueWrite (completion)

    The oldest write leaves the queue; its callback is called on success only. *)
Definition complete (tmo : Z) (c : completion) (x : impl) : impl * list event :=
  let timer := if 0 <? tmo then false else timer x in
  let '(p, rest) := match writes x with
                    | p :: rest => (p, rest)
                    | [] => (Pending Details.new [] 0 None, [])
                    end in
  let x := mk (fd_open x) (bClose x) timer rest (pred (writing x)) in
  match c with
  | Done => (x, match callback p with Some cb => [Called cb (details p)] | None => [] end)
  | _ => (x, [])
  end.

(** [src/src/async/Socket.cpp:178-181] Socket::operator bool *)
Definition good (x : option impl) : bool := match x with Some x => fd_open x | None => false end.

Definition not_connected (field : cstr) (d : Details.t) : Details.t :=
  Details.setError Comm ErrorCode.NotConnected (Some field) $"Not connected." d.

(** [src/src/async/Socket.cpp:224-250] Socket::write

    The caller's details after the call (moved from when the write is queued). *)
Definition write (d : Details.t) (dat : bytes) (cb : option Z) (tmo : Z) (x : option impl)
  : Details.t * option impl * list event :=
  match x with
  | Some i =>
      if fd_open i then
        let i := mk (fd_open i) (bClose i) (timer i) (writes i ++ [Pending d dat tmo cb]) (writing i) in
        if (1 <? length (writes i))%nat then (Details.new, Some i, [])
        else let '(i, ev) := queueWrite i in (Details.new, Some i, ev)
      else (not_connected $"socket_write" d, x, [])
  | None => (not_connected $"socket_write" d, x, [])
  end.

(** [src/src/async/Socket.cpp:183-222] Socket::read

    Whether a wait for readability was started. *)
Definition read (d : Details.t) (tmo : Z) (x : option impl) : Details.t * option impl * bool :=
  match x with
  | Some i => if fd_open i then (d, Some (setTimeout tmo i), true)
              else (not_connected $"socket_read" d, x, false)
  | None => (not_connected $"socket_read" d, x, false)
  end.

(** [src/src/async/Socket.cpp:201-221] Socket::read (completion) *)
Definition read_complete (d : Details.t) (cb tmo : Z) (c : completion) (x : impl) : impl * list event :=
  let x := if 0 <? tmo then mk (fd_open x) (bClose x) false (writes x) (writing x) else x in
  (x, match c with Done => [Called cb d] | _ => [] end).

(** [src/src/async/Socket.cpp:252-290] Socket::wait *)
Definition wait (d : Details.t) (tmo : Z) (x : option impl) : Details.t * option impl * bool :=
  match x with
  | Some i => if fd_open i then (d, Some (setTimeout tmo i), true)
              else (not_connected $"socket_connect" d, x, false)
  | None => (not_connected $"socket_connect" d, x, false)
  end.

(** [src/src/async/Socket.cpp:269-289] Socket::wait (completion) *)
Definition wait_complete (d : Details.t) (cb tmo : Z) (c : completion) (x : impl) : impl * list event :=
  read_complete d cb tmo c x.

(** The life of a socket's queue: writes by its users, completions by the event loop of a
    write that was handed to it. *)
Inductive step : impl → list event → impl → Prop :=
  | step_write d dat cb tmo x d' x' ev : write d dat cb tmo (Some x) = (d', Some x', ev) → step x ev x'
  | step_complete tmo c x x' ev : (0 < writing x)%nat → complete tmo c x = (x', ev) → step x ev x'.

Inductive steps : impl → list event → impl → Prop :=
  | steps_nil x : steps x [] x
  | steps_cons x e y es z : step x e y → steps y es z → steps x (e ++ es) z.

Definition fresh (x : impl) : Prop := writes x = [] ∧ writing x = 0%nat ∧ fd_open x = true.

(** Something is queued and nothing is being written. *)
Definition stalled (x : impl) : Prop := writes x ≠ [] ∧ writing x = 0%nat ∧ fd_open x = true.

Lemma stalled_step x ev x' : stalled x → step x ev x' → stalled x' ∧ ev = [].
Proof.
  intros (Hw & Hn & Ho) Hs. inversion Hs as [d dat cb tmo x0 d' x1 ev0 H|tmo c x0 x1 ev0 H Hc]; subst; [|lia].
  unfold write in H. rewrite Ho in H. cbn [writes fd_open] in H.
  destruct (writes x) as [|p ws] eqn:E; [done|]. rewrite length_app in H.
  rewrite (proj2 (Nat.ltb_lt _ _)) in H by (simpl; lia). injection H as <- <- <-.
  split; [|done]. split_and!; [by destruct ws|done..].
Qed.

Lemma stalled_forever x es x' : stalled x → steps x es x' → stalled x' ∧ es = [].
Proof.
  intros Hx Hs. induction Hs as [|x e y es z H _ IH]; [done|].
  apply stalled_step in H as [Hy ->]; [|done]. by apply IH.
Qed.

Lemma write_idle x d a cb tmo :
  fresh x → ∃ x1, write d a cb tmo (Some x) = (Details.new, Some x1, [Sent a]) ∧
    writes x1 = [Pending d a tmo cb] ∧ writing x1 = 1%nat ∧ fd_open x1 = true.
Proof.
  intros (Hw & Hn & Ho). unfold write, queueWrite, setTimeout. rewrite Ho. cbn [writes fd_open bClose timer writing].
  rewrite Hw. cbn. eexists. split; [done|]. destruct (0 <? tmo); cbn; by rewrite Hn.
Qed.

Lemma write_busy x d a cb tmo :
  fd_open x = true → writes x ≠ [] → ∃ x1, write d a cb tmo (Some x) = (Details.new, Some x1, []) ∧
    writes x1 = writes x ++ [Pending d a tmo cb] ∧ writing x1 = writing x ∧ fd_open x1 = true.
Proof.
  intros Ho Hw. unfold write. rewrite Ho. cbn [writes fd_open]. rewrite length_app, (proj2 (Nat.ltb_lt _ _)).
  - eexists. split; [done|]. done.
  - destruct (writes x); [done|simpl; lia].
Qed.

Lemma complete_spec tmo c x p rest :
  writes x = p :: rest →
  writes (complete tmo c x).1 = rest ∧ writing (complete tmo c x).1 = pred (writing x) ∧
  fd_open (complete tmo c x).1 = fd_open x ∧
  (complete tmo c x).2 = match c, callback p with Done, Some cb => [Called cb (details p)] | _, _ => [] end.
Proof. intros Hw. unfold complete. rewrite Hw. by destruct c, (callback p). Qed.

(** A socket stalls as soon as two writes overlap: whatever the first write's outcome,
    once it completes the second stays queued, nothing is ever handed to the descriptor
    again and no callback is ever called again, whatever is written later. *)
Theorem overlapping_write_stalls (x : impl) (d1 d2 : Details.t) (a b : bytes) (ca cb : option Z)
    (ta tb tmo : Z) (c : completion) (Hx : fresh x) :
  ∃ x1 x2,
    write d1 a ca ta (Some x) = (Details.new, Some x1, [Sent a]) ∧
    write d2 b cb tb (Some x1) = (Details.new, Some x2, []) ∧
    (Sent b ∉ (complete tmo c x2).2) ∧
    ∀ es x', steps (complete tmo c x2).1 es x' → es = [] ∧ writes x' ≠ [].
Proof.
  destruct (write_idle x d1 a ca ta Hx) as (x1 & Hw1 & Hq1 & Hn1 & Ho1).
  destruct (write_busy x1 d2 b cb tb Ho1 ltac:(by rewrite Hq1)) as (x2 & Hw2 & Hq2 & Hn2 & Ho2).
  exists x1, x2. rewrite Hq1 in Hq2. destruct (complete_spec tmo c x2 _ _ Hq2) as (Hq3 & Hn3 & Ho3 & Hev).
  split_and!; [done..| |].
  - rewrite Hev. cbn [callback details]. destruct c, ca; rewrite ?list_elem_of_singleton; by try apply not_elem_of_nil.
  - intros es x' Hs. assert (Hst : stalled (complete tmo c x2).1).
    { split_and!; [by rewrite Hq3|by rewrite Hn3, Hn2, Hn1|by rewrite Ho3]. }
    destruct (stalled_forever _ _ _ Hst Hs) as [(? & _) ->]. done.
Qed.

(** Writes that do not overlap are all sent, in order, and each successful one calls its
    callback with its own details. *)
Lemma serial_write x d a cb tmo :
  fresh x → ∃ x1, write d a (Some cb) tmo (Some x) = (Details.new, Some x1, [Sent a]) ∧
    fresh (complete tmo Done x1).1 ∧ (complete tmo Done x1).2 = [Called cb d].
Proof.
  intros Hx. destruct (write_idle x d a (Some cb) tmo Hx) as (x1 & Hw & Hq & Hn & Ho). exists x1.
  destruct (complete_spec tmo Done x1 _ _ Hq) as (Hq' & Hn' & Ho' & Hev). split; [done|]. split; [|done].
  split_and!; [done|by rewrite Hn', Hn|by rewrite Ho'].
Qed.

(** An aborted or failed operation never calls its callback, so that whoever waits for it
    is not told. *)
Lemma failure_is_silent tmo d cb c x :
  c ≠ Done → (complete tmo c x).2 = [] ∧ (read_complete d cb tmo c x).2 = [] ∧ (wait_complete d cb tmo c x).2 = [].
Proof. unfold complete, wait_complete, read_complete. destruct c; [done|..]; intros _; by destruct (writes x). Qed.

End Socket.

Module UncontrolledSocket.
Section Code.
Context {T : Types}.

(** [src/src/async/UncontrolledSocket.cpp:9-40] UncontrolledSocketImpl

    [socket] is whether the socket is good; [armed] holds the details captured by the wait
    for readability that was handed to the event loop, if one was. *)
Record impl := mk {
  socket : bool;
  wantRead : bool;
  queued : bool;
  callback : option Z;
  pendingDetails : DetailsMap.t;
  armed : option DetailsMap.t
}.

Inductive event := Called (callback : Z) (d : DetailsMap.t).

(** [src/src/async/UncontrolledSocket.cpp:92-97] UncontrolledSocket::UncontrolledSocket *)
Definition new (good : bool) : impl := mk good true false None DetailsMap.new None.

Definition set_error (field msg : cstr) (code : ErrorCode.t) (d : DetailsMap.t) : DetailsMap.t :=
  DetailsMap.mk (Details.setError Socket.Comm code (Some field) msg (DetailsMap.error d)) (DetailsMap.any d).

(** [src/src/async/UncontrolledSocket.cpp:47-83] queueRead

    [Socket::read] copies the pending details into its wait, or, when it is not
    connected, puts an error into them and waits for nothing.  None where the copy meets an
    object that was moved away. *)
Definition queueRead (x : impl) : option impl :=
  if socket x then
    details ← DetailsMap.copy_construct (pendingDetails x);
    Some (mk (socket x) (wantRead x) true (callback x) (pendingDetails x) (Some details))
  else Some (mk (socket x) (wantRead x) true (callback x)
         (set_error $"socket_read" $"Not connected." ErrorCode.NotConnected (pendingDetails x)) (armed x)).

(** [src/src/async/UncontrolledSocket.cpp:56-82] queueRead (when readable) *)
Definition on_readable (x : impl) : option (impl * list event) :=
  match armed x with
  | None => Some (x, [])
  | Some details =>
      let x := mk (socket x) (wantRead x) false (callback x) (pendingDetails x) None in
      x ← (if DetailsMap.isOk details && socket x then queueRead x else Some x);
      Some (match callback x with
            | Some localCB =>
                (mk (socket x) false (queued x) None (pendingDetails x) (armed x), [Called localCB details])
            | None => (mk (socket x) true (queued x) None details (armed x), [])
            end)
  end.

(** The event loop fails or cancels the wait: nothing is told. *)
Definition on_failure (x : impl) : impl * list event :=
  (mk (socket x) (wantRead x) (queued x) (callback x) (pendingDetails x) None, []).

(** [src/src/async/UncontrolledSocket.cpp:127-174] UncontrolledSocket::read

    The caller's details after the call; a null socket only sets the error. *)
Definition read (details : DetailsMap.t) (cb : Z) (x : option impl) : option (DetailsMap.t * option impl * list event) :=
  match x with
  | None => Some (set_error $"read" $"Null socket." ErrorCode.ConnectionError details, None, [])
  | Some x =>
      let take x :=
        let x := mk (socket x) false (queued x) (callback x) (pendingDetails x) (armed x) in
        let '(d, p) := DetailsMap.plus_move details (pendingDetails x) in
        (d, Some (mk (socket x) (wantRead x) (queued x) (callback x) p (armed x)), [Called cb d]) in
      if queued x && wantRead x then Some (take x)
      else if negb (queued x) && wantRead x && socket x then
        let x := mk (socket x) false (queued x) (callback x) (pendingDetails x) (armed x) in
        x ← queueRead x; Some (take x)
      else if negb (socket x) then
        let d := set_error $"read" $"Connection is not open." ErrorCode.ConnectionError details in
        Some (d, Some x, [Called cb d])
      else Some (DetailsMap.new, Some (mk (socket x) (wantRead x) (queued x) (Some cb) details (armed x)), [])
  end.

(** ** What it promises *)

(** The specification: at most one token says there is something to read, at most one
    reader waits for it. *)
Record spec := Spec { token : bool; waiter : option Z }.
Inductive input := Read (details : DetailsMap.t) (cb : Z) | Ready.

Definition spec_step (i : input) (s : spec) : spec * list Z :=
  match i with
  | Read _ cb => if token s then (Spec false None, [cb]) else (Spec false (Some cb), [])
  | Ready => match waiter s with Some cb => (Spec false None, [cb]) | None => (Spec true None, []) end
  end.

(** None is undefined behaviour. *)
Definition impl_step (i : input) (x : impl) : option (impl * list event) :=
  match i with
  | Read details cb => '(_, x', ev) ← read details cb (Some x); Some (default x x', ev)
  | Ready => on_readable x
  end.

Definition called (e : event) : Z := match e with Called cb _ => cb end.

(** A good socket on which nothing has failed: it waits for readability, or was just made
    and will from the first read on. *)
Definition healthy (x : impl) : Prop :=
  socket x = true ∧ DetailsMap.isOk (pendingDetails x) = true ∧ (wantRead x = true → callback x = None) ∧
  match armed x with
  | Some d => queued x = true ∧ DetailsMap.isOk d = true
  | None => queued x = false ∧ wantRead x = true
  end.

Definition abstract (x : impl) : spec := Spec (wantRead x) (callback x).

(** Inputs on a healthy socket: readers come without an error of their own, and the event
    loop reports readability only of a wait it was given. *)
Definition admissible (i : input) (x : impl) : Prop :=
  match i with
  | Read details _ => DetailsMap.isOk details = true
  | Ready => is_Some (armed x)
  end.

(** The pending details are what an earlier reader took the objects of. *)
Definition taken (x : impl) : Prop := ∃ k, DetailsMap.any (pendingDetails x) !! k = Some None.

(** No objects in the details anywhere. *)
Definition bare (x : impl) : Prop :=
  DetailsMap.any (pendingDetails x) = ∅ ∧ ∀ d, armed x = Some d → DetailsMap.any d = ∅.
Definition bare_input (i : input) : Prop :=
  match i with Read details _ => DetailsMap.any details = ∅ | Ready => True end.

Lemma copy_details x : DetailsMap.copy_construct (pendingDetails x) = None ↔ taken x.
Proof.
  unfold DetailsMap.copy_construct, taken. rewrite <- (AnyMap.copy_all_fails AnyMap.emplace _ ∅).
  fold (AnyMap.copy_assign false ∅ (DetailsMap.any (pendingDetails x))).
  fold (AnyMap.copy_construct (DetailsMap.any (pendingDetails x))). by destruct (AnyMap.copy_construct _).
Qed.

Lemma copied_details d d' : DetailsMap.copy_construct d = Some d' →
  DetailsMap.isOk d' = DetailsMap.isOk d ∧ (DetailsMap.any d = ∅ → DetailsMap.any d' = ∅).
Proof.
  unfold DetailsMap.copy_construct. destruct (AnyMap.copy_construct (DetailsMap.any d)) as [a|] eqn:E; [|done].
  intros [= <-]. split; [done|]. intros Hd. rewrite Hd in E. cbn in E. by injection E as <-.
Qed.

(** One step: it is undefined exactly when it waits again with details that were taken, and
    else a step of the mailbox. *)
Lemma healthy_step i x :
  healthy x → admissible i x →
  match impl_step i x with
  | Some (x', ev) => healthy x' ∧ spec_step i (abstract x) = (abstract x', called <$> ev) ∧
                     (bare x → bare_input i → bare x')
  | None => taken x ∧ (i = Ready ∨ armed x = None)
  end.
Proof.
  destruct x as [so wr q cb pd ar]. unfold healthy, abstract, admissible, bare. cbn [socket wantRead queued callback pendingDetails armed].
  intros (-> & Hp & Hc & Ha) Hi. destruct i as [details c|].
  - unfold impl_step, read, queueRead. cbn [socket wantRead queued callback pendingDetails armed].
    destruct ar as [d|]; destruct Ha as [-> Ha]; cbn [andb negb].
    + destruct wr; cbn; rewrite ?Hc by done; split_and!; try done.
      * intros [-> Hd] _. by rewrite fmap_empty.
      * by intros [_ Hd] Hi'.
    + subst wr. destruct (DetailsMap.copy_construct pd) as [d|] eqn:E; cbn.
      * destruct (copied_details _ _ E) as [Hok Hb]. rewrite Hc by done. split_and!; try done; [by rewrite Hok|].
        intros [Hpd _] _. rewrite Hpd, fmap_empty. split; [done|]. intros d' [= <-]. auto.
      * split; [by apply (copy_details (mk true true false cb pd None))|by right].
  - destruct Hi as [d Hd]. cbn in Hd. subst ar. destruct Ha as [-> Hd].
    unfold impl_step, on_readable, queueRead. cbn [socket wantRead queued callback pendingDetails armed].
    rewrite Hd. cbn [andb]. destruct (DetailsMap.copy_construct pd) as [d'|] eqn:E; cbn.
    + destruct (copied_details _ _ E) as [Hok Hb]. rewrite Hp in Hok. destruct cb; cbn.
      all: repeat match goal with |- _ ∧ _ => split end; try done.
      * intros [Hpd Had] _. split; [done|]. intros ? [= <-]. auto.
      * intros [Hpd Had] _. split; [by apply Had|]. intros ? [= <-]. auto.
    + split; [by apply (copy_details (mk true wr true cb pd None))|by left].
Qed.

(** A history, the callbacks it calls, and the socket after it, or none when it ends in
    undefined behaviour. *)
Inductive run : impl → list input → list Z → option impl → Prop :=
  | run_nil x : run x [] [] (Some x)
  | run_cons i ins x x1 ev cs r :
      admissible i x → impl_step i x = Some (x1, ev) → run x1 ins cs r → run x (i :: ins) ((called <$> ev) ++ cs) r
  | run_crash i ins x : admissible i x → impl_step i x = None → run x (i :: ins) [] None.

Fixpoint spec_run (ins : list input) (s : spec) : spec * list Z :=
  match ins with
  | [] => (s, [])
  | i :: ins => let '(s, c) := spec_step i s in let '(s, cs) := spec_run ins s in (s, c ++ cs)
  end.


Lemma new_healthy : healthy (new true) ∧ bare (new true).
Proof. done. Qed.

Lemma queueRead_taken x : socket x = true → taken x → queueRead x = None.
Proof. intros Hs Ht%copy_details. unfold queueRead. by rewrite Hs, Ht. Qed.

(** Whoever takes an object breaks the socket: the next report is undefined. *)
Lemma taken_object_crashes x d cb k :
  healthy x → queued x = true → wantRead x = true → is_Some (DetailsMap.any (pendingDetails x) !! k) →
  ∃ x' ev, impl_step (Read d cb) x = Some (x', ev) ∧ is_Some (armed x') ∧ impl_step Ready x' = None.
Proof.
  destruct x as [so wr q c pd ar]. unfold healthy. cbn. intros (-> & _ & _ & Ha) -> -> [e Hk].
  destruct ar as [a|]; [|by destruct Ha]. destruct Ha as [_ Ha]. eexists (mk true false true c (DetailsMap.mk (DetailsMap.error pd) _) (Some a)), _. split; [reflexivity|].
  split; [by eexists|]. unfold impl_step, on_readable. cbn [armed socket wantRead callback pendingDetails].
  rewrite Ha. cbn [andb]. rewrite queueRead_taken; [done|done|]. exists k. cbn. by rewrite lookup_fmap, Hk.
Qed.

(** A reader that passes details with an error stops the socket: the report that answers
    it does not wait for the next one, and every later reader waits for nothing. *)
Lemma error_stops_reading x d cb :
  socket x = true → wantRead x = false → armed x = Some d → DetailsMap.isOk d = false → callback x = Some cb →
  ∃ x1, on_readable x = Some (x1, [Called cb d]) ∧ armed x1 = None ∧
  ∀ reads x2 ev,
    foldl (λ st r, '(x, ev) ← st; '(_, x', e) ← read r.1 r.2 (Some x); Some (default x x', ev ++ e)) (Some (x1, [])) reads
      = Some (x2, ev) →
    ev = [] ∧ armed x2 = None.
Proof.
  intros Hs Hw Ha Hd Hc. unfold on_readable. rewrite Ha, Hd. cbn. rewrite Hc. cbn. eexists. split; [done|]. split; [done|].
  intros reads. rewrite Hs. generalize (pendingDetails x). generalize (@None Z).
  induction reads as [|[d' cb'] reads IH]; intros c p x2 ev; cbn; [intros [= <- <-]; done|]. apply IH.
Qed.

End Code.
End UncontrolledSocket.

Module CallbackAwaiter.
Section Code.
Context {Result : Type} (dflt : Result).

(** [src/src/async/CallbackAwaiter.h:22-66] CallbackAwaiter

    [suspended] says whether a coroutine handle was stored. *)
Record t := mk { results : Result; isWaiting : bool; isComplete : bool }.
Definition new : t := mk dflt false false.

(** [src/src/async/CallbackAwaiter.h:34-42] CallbackAwaiter::f

    Whether the waiting coroutine is resumed. *)
Definition called (r : Result) (x : t) : t * bool := (mk r (isWaiting x) true, isWaiting x).

(** [src/src/async/CallbackAwaiter.h:55-55] CallbackAwaiter::await_ready *)
Definition await_ready (x : t) : bool := negb (isComplete x).

(** [src/src/async/CallbackAwaiter.h:57-61] CallbackAwaiter::await_suspend *)
Definition await_suspend (x : t) : t := mk (results x) true (isComplete x).

(** [src/src/async/CallbackAwaiter.h:63-66] CallbackAwaiter::await_resume *)
Definition await_resume (x : t) : Result := results x.

(** [co_await] on the awaiter: what it gives at once, or none when it suspends. *)
Definition co_await (x : t) : option Result * t :=
  if await_ready x then (Some (await_resume x), x) else (None, await_suspend x).

(** [src/src/async/WaitOnCallback.h:53-61] waitOnCallback

    [early] is the result when the function calls back before it returns. *)
Definition waitOnCallback (early : option Result) : Result :=
  let x := match early with Some r => (called r new).1 | None => new end in results x.

(** Awaiting is the wrong way round: before the callback it gives the default result at
    once, after the callback it suspends with nobody left to resume it.  A function that
    calls back later is therefore not waited for. *)
Lemma awaits_backwards r :
  (co_await new).1 = Some dflt ∧ (co_await (called r new).1).1 = None ∧
  waitOnCallback None = dflt ∧ waitOnCallback (Some r) = r.
Proof. done. Qed.

End Code.
End CallbackAwaiter.

Module Scheduler.

(** [src/src/async/Scheduler.cpp:17-27] SchedulerImpl

    The number of threads, the keep-alive timer, and whether the event loop was stopped,
    after which it runs nothing until it is restarted. *)
Record t := mk { running : bool; numThreads : Z; threads : Z; timer : bool; context_stopped : bool }.

(** [src/src/async/Scheduler.cpp:49-52] Scheduler::Scheduler *)
Definition new : t := mk false 1 0 false false.

(** [src/src/async/Scheduler.cpp:73-88] Scheduler::start *)
Definition start (x : t) : t := mk true (numThreads x) (Z.max (threads x) (numThreads x)) true (context_stopped x).

(** [src/src/async/Scheduler.cpp:59-71] Scheduler::setThreads *)
Definition setThreads (n : Z) (x : t) : t :=
  let x := mk (running x) n (threads x) (timer x) (context_stopped x) in
  if running x && negb (n =? threads x) && (n <? threads x) then start x else x.

(** [src/src/async/Scheduler.cpp:90-102] Scheduler::stop *)
Definition stop (x : t) : t := mk false (numThreads x) 0 false true.

(** Handlers are run: by some thread, on an event loop that is not stopped. *)
Definition executes (x : t) : bool := running x && (0 <? threads x) && negb (context_stopped x).

(** Starting runs handlers; once stopped, no sequence of calls makes it run any again. *)
Lemma scheduler_lifecycle x :
  (context_stopped x = false → 0 < numThreads x → executes (start x) = true) ∧
  (context_stopped x = true → ∀ n, context_stopped (start x) = true ∧ context_stopped (setThreads n x) = true ∧
     context_stopped (stop x) = true ∧ executes (start x) = false).
Proof.
  unfold executes. split.
  - intros Hc Hn. cbn. rewrite Hc, (proj2 (Z.ltb_lt 0 _)) by lia. done.
  - intros Hc n. unfold setThreads. cbn. rewrite Hc. split_and!; [done| |done|].
    + by destruct (running x && negb (n =? threads x) && (n <? threads x)).
    + by rewrite !andb_false_r.
Qed.

(** Asking for more threads of a running scheduler changes nothing but the number. *)
Lemma more_threads_ignored n x : running x = true → threads x < n → threads (setThreads n x) = threads x.
Proof. intros Hr Hn. unfold setThreads. cbn. rewrite Hr, (proj2 (Z.ltb_ge n _)) by lia. by rewrite andb_false_r. Qed.

End Scheduler.

Module AsyncExamples.
#[local] Existing Instance AnyExamples.ToyTypes.
Import UncontrolledSocket.

Lemma cleanup_returns_iff_witness : ¬ ∃ fuel, is_Some (TreasureTrove.cleanup fuel 2 [1; 2]).
Proof. intros [H|H]%(proj1 (TreasureTrove.cleanup_returns_iff 2 [1; 2])); discriminate H. Defined.

Lemma overlapping_write_stalls_witness :
  let x := Socket.mk true false false [] 0 in
  ∃ x1 x2, Socket.write Details.new [1] (Some 1) 0 (Some x) = (Details.new, Some x1, [Socket.Sent [1]]) ∧
    Socket.write Details.new [2] (Some 2) 0 (Some x1) = (Details.new, Some x2, []).
Proof.
  destruct (Socket.overlapping_write_stalls (Socket.mk true false false [] 0) Details.new Details.new [1] [2]
    (Some 1) (Some 2) 0 0 0 Socket.Done) as (x1 & x2 & H1 & H2 & _); [repeat split|].
  exists x1, x2. split; [exact H1|exact H2].
Defined.

Definition history : list input := [Read DetailsMap.new 1; Read DetailsMap.new 2; Ready; Ready; Read DetailsMap.new 3].


(** A reader that brings an object, two reports, a reader that takes it: the next report is
    undefined. *)
Lemma object_crashes :
  run (new true) [Read DetailsMap.new 1; Read (DetailsMap.mk Details.new (AnyMap.set (1, 7) ∅)) 2; Ready; Ready;
                  Read DetailsMap.new 3; Ready] [1; 2; 3] None.
Proof.
  eapply (run_cons _ _ _ _ [Called 1 _] [2; 3]); [done|vm_compute; reflexivity|].
  eapply (run_cons _ _ _ _ [] [2; 3]); [done|vm_compute; reflexivity|].
  eapply (run_cons _ _ _ _ [Called 2 _] [3]); [by eexists|vm_compute; reflexivity|].
  eapply (run_cons _ _ _ _ [] [3]); [by eexists|vm_compute; reflexivity|].
  eapply (run_cons _ _ _ _ [Called 3 _] []); [done|vm_compute; reflexivity|].
  apply run_crash; [by eexists|]. vm_compute. reflexivity.
Qed.

End AsyncExamples.
