(* ===== verification/AsyncLife.v ===== *)
(** * Lifetimes in the asynchronous layer: [async/]

    The move-only function object, the life of a socket's implementation next to the
    handlers it leaves with the event loop, and the threads and keep-alive timer of the
    scheduler.  [Async.v] has what each object does while it lives; here memory can be
    freed while a handler that refers to it is still to run. *)

From S2P Require Import Prelude Strings Errors AnyMap Async.

Module Func.
Section Code.
Context {Args Ret : Type}.

(** A C++ callable with the state it captures. *)
Record callable := Callable { St : Type; body : Args → St → Ret * St; env : St }.

Definition apply (c : callable) (a : Args) : Ret * callable :=
  let '(r, s) := body c a (env c) in (r, Callable (St c) (body c) s).

(** [src/src/async/func.h:19-38] CallableWrapper

    What is wrapped: a callable, or a [std::function], which may be empty. *)
Inductive wrapper := Direct (c : callable) | Std (f : option callable).

(** [src/src/async/func.h:34-37] CallableWrapper::call

    None when the wrapped [std::function] is empty: it throws [bad_function_call]. *)
Definition call (w : wrapper) (a : Args) : option (Ret * wrapper) :=
  match w with
  | Direct c => let '(r, c) := apply c a in Some (r, Direct c)
  | Std (Some c) => let '(r, c) := apply c a in Some (r, Std (Some c))
  | Std None => None
  end.

(** [src/src/async/func.h:16-41] func *)
Definition t := option wrapper.

(** [src/src/async/func.h:43-43] func::func *)
Definition new : t := None.

(** [src/src/async/func.h:45-48] func::func (callable) *)
Definition of_callable (c : callable) : t := Some (Direct c).

(** [src/src/async/func.h:50-52] func::func (std::function) *)
Definition of_function (f : option callable) : t := Some (Std f).

(** [src/src/async/func.h:61-67] func::operator=

    The target and the source afterwards; [same] when they are one object. *)
Definition move_assign (same : bool) (x rhs : t) : t * t := if same then (x, rhs) else (rhs, None).

(** [src/src/async/func.h:55-58] func::func (move) *)
Definition move (rhs : t) : t * t := move_assign false new rhs.

(** [src/src/async/func.h:71-76] func::operator() *)
Definition invoke (x : t) (a : Args) : option (Ret * t) :=
  match x with Some w => '(r, w) ← call w a; Some (r, Some w) | None => None end.

(** [src/src/async/func.h:78-81] func::operator bool *)
Definition to_bool (x : t) : bool := bool_decide (is_Some x).

(** One owner at a time: after a move the target does what the source did and the source
    throws; assigning an object to itself changes nothing. *)
Lemma move_transfers x rhs a :
  let '(x', rhs') := move_assign false x rhs in
  invoke x' a = invoke rhs a ∧ invoke rhs' a = None ∧ to_bool rhs' = false ∧ move_assign true x x = (x, x).
Proof. done. Qed.

(** A function object that tests true gives a result, unless it was made from an empty
    [std::function], which its test does not see. *)
Lemma invoke_iff x a : is_Some (invoke x a) ↔ to_bool x = true ∧ x ≠ of_function None.
Proof.
  unfold invoke, to_bool, of_function. destruct x as [[c|[c|]]|]; cbn.
  - destruct (apply c a). cbn. split; [by repeat split|]. intros _. by eexists.
  - destruct (apply c a). cbn. split; [by repeat split|]. intros _. by eexists.
  - split; [by intros [? ?]|]. by intros [_ ?].
  - split; [by intros [? ?]|]. by intros [? _].
Qed.

Fixpoint invoke_all (x : t) (l : list Args) : option (list Ret * t) :=
  match l with
  | [] => Some ([], x)
  | a :: l => '(r, x) ← invoke x a; '(rs, x) ← invoke_all x l; Some (r :: rs, x)
  end.

(** What a callable captures by value persists from call to call. *)
Fixpoint fold_calls {T} (f : Args → T → Ret * T) (s : T) (l : list Args) : list Ret :=
  match l with
  | [] => []
  | a :: l => let '(r, s) := f a s in r :: fold_calls f s l
  end.

Lemma calls_thread_state T (f : Args → T → Ret * T) l : ∀ s,
  fst <$> invoke_all (of_callable (Callable T f s)) l = Some (fold_calls f s l).
Proof.
  induction l as [|a l IH]; intros s; [done|]. unfold of_callable in *. cbn. unfold apply. cbn.
  destruct (f a s) as [r s'] eqn:E. cbn. specialize (IH s').
  destruct (invoke_all (Some (Direct (Callable T f s'))) l) as [[rs x]|]; [|done].
  cbn in *. injection IH as ->. done.
Qed.

End Code.
Arguments t : clear implicits.
Arguments callable : clear implicits.
End Func.

Module SocketLife.

(** A handler handed to the event loop, with the address of the implementation whose
    memory it refers to. *)
Inductive handler :=
  | OnTimer (a : Z)
  | OnWrite (a tmo : Z)
  | OnWait (a tmo : Z) (d : Details.t) (cb : Z).

Definition owner (h : handler) : Z := match h with OnTimer a | OnWrite a _ | OnWait a _ _ _ => a end.
Definition is_timer (h : handler) : bool := match h with OnTimer _ => true | _ => false end.

(** The implementations alive, each with its descriptor; the descriptors closed so far; the
    handlers outstanding, with their result once the operation has one. *)
Record st := mk {
  heap : gmap Z (Z * Socket.impl);
  closed : list Z;
  loop : list (handler * option Socket.completion)
}.

(** What a [Socket] is: the address of its implementation, or null. *)
Notation handle := (option Z) (only parsing).

Definition set_impl (a fd : Z) (i : Socket.impl) (s : st) : st := mk (<[a := (fd, i)]> (heap s)) (closed s) (loop s).
Definition post (h : handler) (s : st) : st := mk (heap s) (closed s) (loop s ++ [(h, None)]).

(** Cancelling completes what has no result yet as aborted; a result that is there stays. *)
Definition cancel (P : handler → bool) (s : st) : st :=
  mk (heap s) (closed s)
    ((λ e, match e.2 with None => if P e.1 then (e.1, Some Socket.Aborted) else e | Some _ => e end) <$> loop s).
Definition cancel_fd (a : Z) : st → st := cancel (λ h, (owner h =? a) && negb (is_timer h)).
Definition cancel_timer (a : Z) : st → st := cancel (λ h, (owner h =? a) && is_timer h).

(** [src/src/async/Socket.cpp:45-53] SocketImpl::SocketImpl

    [a] is the address the allocator gives. *)
Definition new_impl (a fd : Z) (bClose : bool) (s : st) : st := set_impl a fd (Socket.mk true bClose false [] 0) s.

(** [src/src/async/Socket.cpp:154-160] Socket::Socket *)
Definition new (a fd : Z) (bClose : bool) (s : st) : handle * st := (Some a, new_impl a fd bClose s).

(** [src/src/async/Socket.cpp:150-152] Socket::Socket (default) *)
Definition null : handle := None.

(** [src/src/async/Socket.cpp:55-59] SocketImpl::~SocketImpl

    The descriptor is closed with the implementation unless it is released; either way what
    is outstanding on it, and on the timer, is cancelled. *)
Definition delete_impl (a : Z) (s : st) : st :=
  match heap s !! a with
  | Some (fd, i) =>
      let s := cancel_fd a (cancel_timer a s) in
      mk (delete a (heap s)) (closed s ++ (if Socket.fd_open i && Socket.bClose i then [fd] else [])) (loop s)
  | None => s
  end.

(** [src/src/async/Socket.cpp:174-176] Socket::~Socket *)
Definition destroy (h : handle) (s : st) : st := match h with Some a => delete_impl a s | None => s end.

(** [src/src/async/Socket.cpp:167-172] Socket::operator=

    The target and the source afterwards. *)
Definition move_assign (same : bool) (x rhs : handle) (s : st) : handle * handle * st :=
  if same then (x, rhs, s) else (rhs, None, destroy x s).

(** [src/src/async/Socket.cpp:162-165] Socket::Socket (move) *)
Definition move (rhs : handle) (s : st) : handle * handle * st := move_assign false null rhs s.

(** [src/src/async/Socket.cpp:67-87] setTimeout *)
Definition setTimeout (a tmo : Z) (s : st) : st :=
  if 0 <? tmo then post (OnTimer a) (cancel_timer a s) else s.

Definition deref (h : handle) (s : st) : option (Z * Z * Socket.impl) :=
  a ← h; '(fd, i) ← heap s !! a; Some (a, fd, i).

(** [src/src/async/Socket.cpp:224-250] Socket::write *)
Definition write (d : Details.t) (dat : bytes) (cb : option Z) (tmo : Z) (h : handle) (s : st) : Details.t * st :=
  match deref h s with
  | Some (a, fd, i) =>
      let '(d, i', ev) := Socket.write d dat cb tmo (Some i) in
      let s := set_impl a fd (default i i') s in
      (d, match ev with [] => s | _ => post (OnWrite a tmo) (setTimeout a tmo s) end)
  | None => ((Socket.write d dat cb tmo None).1.1, s)
  end.

(** [src/src/async/Socket.cpp:183-222] Socket::read *)
Definition read (d : Details.t) (cb tmo : Z) (h : handle) (s : st) : Details.t * st :=
  match deref h s with
  | Some (a, fd, i) =>
      let '(d', i', started) := Socket.read d tmo (Some i) in
      let s := set_impl a fd (default i i') s in
      (d', if started : bool then post (OnWait a tmo d cb) (setTimeout a tmo s) else s)
  | None => ((Socket.read d tmo None).1.1, s)
  end.

(** [src/src/async/Socket.cpp:252-290] Socket::wait *)
Definition wait (d : Details.t) (cb tmo : Z) (h : handle) (s : st) : Details.t * st :=
  match deref h s with
  | Some (a, fd, i) =>
      let '(d', i', started) := Socket.wait d tmo (Some i) in
      let s := set_impl a fd (default i i') s in
      (d', if started : bool then post (OnWait a tmo d cb) (setTimeout a tmo s) else s)
  | None => ((Socket.wait d tmo None).1.1, s)
  end.

(** [src/src/async/Socket.cpp:79-85] setTimeout (handler)

    None when the memory it refers to is gone. *)
Definition on_timer (a : Z) (c : Socket.completion) (s : st) : option st :=
  '(_, i) ← heap s !! a; Some (match c with Socket.Done => cancel_fd a s | _ => s end).

(** [src/src/async/Socket.cpp:109-145] queueWrite (handler) *)
Definition on_write (a tmo : Z) (c : Socket.completion) (s : st) : option (st * list Socket.event) :=
  '(fd, i) ← heap s !! a;
  let '(i, ev) := Socket.complete tmo c i in
  let s := set_impl a fd i s in
  Some (if 0 <? tmo then cancel_timer a s else s, ev).

(** [src/src/async/Socket.cpp:201-221] Socket::read (handler)

    It refers to the implementation only to stop a time-out; that of [wait] does the
    same. *)
Definition on_wait (a tmo : Z) (d : Details.t) (cb : Z) (c : Socket.completion) (s : st) : option (st * list Socket.event) :=
  let ev := match c with Socket.Done => [Socket.Called cb d] | _ => [] end in
  if 0 <? tmo then
    '(fd, i) ← heap s !! a;
    Some (cancel_timer a (set_impl a fd (Socket.read_complete d cb tmo c i).1 s), ev)
  else Some (s, ev).

Definition run_handler (h : handler) (c : Socket.completion) (s : st) : option (st * list Socket.event) :=
  match h with
  | OnTimer a => s ← on_timer a c s; Some (s, [])
  | OnWrite a tmo => on_write a tmo c s
  | OnWait a tmo d cb => on_wait a tmo d cb c s
  end.

(** ** What a destroyed socket leaves behind *)

(** The handlers that refer to the implementation whatever their result. *)
Definition touches (h : handler) : bool :=
  match h with OnTimer _ | OnWrite _ _ => true | OnWait _ tmo _ _ => 0 <? tmo end.

Lemma cancel_heap P s : heap (cancel P s) = heap s.
Proof. done. Qed.

Lemma destroyed a s : heap (delete_impl a s) !! a = None.
Proof.
  unfold delete_impl. destruct (heap s !! a) as [[fd i]|] eqn:E; [|done]. cbn. by rewrite lookup_delete_eq.
Qed.

Lemma others_live a b s : a ≠ b → heap (delete_impl a s) !! b = heap s !! b.
Proof.
  intros Hab. unfold delete_impl. destruct (heap s !! a) as [[fd i]|]; [|done]. cbn. by rewrite lookup_delete_ne.
Qed.

(** Freed memory is touched by exactly the handlers that refer to it. *)
Lemma handler_on_freed h c s : heap s !! owner h = None → (run_handler h c s = None ↔ touches h = true).
Proof.
  intros Hn. destruct h as [a|a tmo|a tmo d cb]; cbn in *; unfold on_timer, on_write, on_wait; rewrite ?Hn; cbn; try done.
  by destruct (0 <? tmo).
Qed.

(** On live memory each handler does what [Async.v] says of the socket. *)
Lemma handler_on_live h c s fd i :
  heap s !! owner h = Some (fd, i) →
  ∃ s' ev, run_handler h c s = Some (s', ev) ∧
    match h with
    | OnTimer _ => ev = []
    | OnWrite a tmo => ev = (Socket.complete tmo c i).2 ∧ heap s' !! a = Some (fd, (Socket.complete tmo c i).1)
    | OnWait a tmo d cb =>
        ev = (Socket.read_complete d cb tmo c i).2 ∧ heap s' !! a = Some (fd, (Socket.read_complete d cb tmo c i).1)
    end.
Proof.
  intros Hl. destruct h as [a|a tmo|a tmo d cb]; cbn in *; unfold on_timer, on_write, on_wait; rewrite ?Hl; cbn.
  - by eexists _, _.
  - destruct (Socket.complete tmo c i) as [i' ev]. eexists _, _. split; [done|]. split; [done|].
    destruct (0 <? tmo); cbn; by rewrite lookup_insert_eq.
  - unfold Socket.read_complete. destruct (0 <? tmo); eexists _, _; (split; [done|]); (split; [done|]); cbn;
      [by rewrite lookup_insert_eq|done].
Qed.

(** Nothing of a destroyed socket is left without a result, and results that were there
    are kept. *)
Lemma cancelled a s h c fd i :
  heap s !! a = Some (fd, i) → owner h = a →
  (h, c) ∈ loop (delete_impl a s) → ∃ c0, (h, c0) ∈ loop s ∧ c = Some (default Socket.Aborted c0).
Proof.
  intros Hl Ho Hin. unfold delete_impl in Hin. rewrite Hl in Hin. cbn in Hin.
  rewrite <- list_fmap_compose, list_elem_of_fmap in Hin. destruct Hin as ([h0 c0] & Heq & Hin). cbn in Heq.
  assert (h0 = h) as -> by (destruct c0; cbn in Heq; repeat case_match; by simplify_eq/=).
  exists c0. split; [done|]. destruct c0 as [c0|]; cbn in Heq; [by simplify_eq|].
  rewrite Ho, Z.eqb_refl in Heq. cbn in Heq. destruct (is_timer h) eqn:Et; cbn in Heq; rewrite ?Ho, ?Z.eqb_refl, ?Et in Heq.
  all: by simplify_eq/=.
Qed.

(** Moving a socket neither closes its descriptor nor stops its handlers; only what the
    target held before is destroyed. *)
Lemma move_keeps (x rhs : Z) s :
  x ≠ rhs →
  (move (Some rhs) s = (Some rhs, None, s)) ∧
  (move_assign true (Some rhs) (Some rhs) s = (Some rhs, Some rhs, s)) ∧
  let '(x', rhs', s') := move_assign false (Some x) (Some rhs) s in
  x' = Some rhs ∧ rhs' = None ∧ heap s' !! rhs = heap s !! rhs ∧ heap s' !! x = None.
Proof.
  intros Hne. split; [done|]. split; [done|]. cbn. split_and!; [done|done| |by apply destroyed].
  by apply others_live.
Qed.

(** A descriptor is closed when, and only when, the last owner of an implementation that
    was told to close it goes; with the default it never is. *)
Lemma closes_if_told a fd b s :
  let '(h, s1) := new a fd b s in
  closed (destroy h s1) = closed s ++ (if b then [fd] else []) ∧
  closed (destroy h (destroy h s1)) = closed (destroy h s1).
Proof.
  cbn. unfold delete_impl at 1. cbn. rewrite lookup_insert_eq. cbn. split; [done|].
  unfold delete_impl at 1. by rewrite destroyed.
Qed.

(** A write under way when its socket is destroyed completes on freed memory, whatever the
    time-out. *)
Lemma write_outlives_socket d dat cb tmo a fd i s :
  Socket.fresh i → heap s !! a = Some (fd, i) →
  let s1 := destroy (Some a) (write d dat cb tmo (Some a) s).2 in
  ∃ c, (OnWrite a tmo, Some c) ∈ loop s1 ∧ run_handler (OnWrite a tmo) c s1 = None.
Proof.
  intros Hi Hl. destruct (Socket.write_idle i d dat cb tmo Hi) as (i1 & Hw & _).
  assert (Hd : deref (Some a) s = Some (a, fd, i)) by (unfold deref; cbn; by rewrite Hl).
  unfold write. rewrite Hd, Hw. cbn [snd default].
  set (s0 := setTimeout a tmo _). exists Socket.Aborted.
  assert (Hh : is_Some (heap (post (OnWrite a tmo) s0) !! a)).
  { unfold s0, setTimeout. destruct (0 <? tmo); cbn; rewrite lookup_insert_eq; by eexists. }
  split.
  - destruct Hh as [[fd0 i0] Hh]. cbn [destroy]. unfold delete_impl. rewrite Hh. cbn. rewrite !fmap_app. cbn. rewrite Z.eqb_refl. cbn.
    rewrite Z.eqb_refl. cbn. apply elem_of_app. right. by apply list_elem_of_singleton.
  - apply handler_on_freed; [apply destroyed|done].
Qed.

End SocketLife.

Module UncontrolledLife.
Section Code.
Context {T : Types}.
Import SocketLife.

(** The implementations of uncontrolled sockets alive, with the socket each holds. *)
Record world := mkw { sock : st; boxes : gmap Z (UncontrolledSocket.impl * handle) }.

(** What an [UncontrolledSocket] is: the address of its implementation, or null. *)
Notation box := (option Z) (only parsing).

(** [src/src/async/UncontrolledSocket.cpp:20-26] UncontrolledSocketImpl::UncontrolledSocketImpl *)
Definition new_impl (p a fd : Z) (w : world) : world :=
  let '(h, s) := SocketLife.new a fd false (sock w) in mkw s (<[p := (UncontrolledSocket.new true, h)]> (boxes w)).

(** [src/src/async/UncontrolledSocket.cpp:92-97] UncontrolledSocket::UncontrolledSocket *)
Definition new (p a fd : Z) (w : world) : box * world := (Some p, new_impl p a fd w).

(** [src/src/async/UncontrolledSocket.cpp:87-90] UncontrolledSocket::UncontrolledSocket (default)

    An implementation without a socket, which wants no read. *)
Definition null (p : Z) (w : world) : box * world :=
  (Some p, mkw (sock w) (<[p := (UncontrolledSocket.mk false false false None DetailsMap.new None, SocketLife.null)]> (boxes w))).

(** [src/src/async/UncontrolledSocket.cpp:104-112] UncontrolledSocket::~UncontrolledSocket

    The socket first, then the rest. *)
Definition destroy (x : box) (w : world) : world :=
  match x with
  | Some p =>
      match boxes w !! p with
      | Some (_, h) => mkw (SocketLife.destroy h (sock w)) (delete p (boxes w))
      | None => w
      end
  | None => w
  end.

(** [src/src/async/UncontrolledSocket.cpp:114-120] UncontrolledSocket::operator= *)
Definition move_assign (same : bool) (x rhs : box) (w : world) : box * box * world :=
  if same then (x, rhs, w) else (rhs, None, destroy x w).

(** [src/src/async/UncontrolledSocket.cpp:99-102] UncontrolledSocket::UncontrolledSocket (move) *)
Definition move (rhs : box) (w : world) : box * box * world := move_assign false None rhs w.

(** [src/src/async/UncontrolledSocket.cpp:122-125] UncontrolledSocket::operator bool *)
Definition good (x : box) (w : world) : bool :=
  match p ← x; boxes w !! p with Some (u, _) => UncontrolledSocket.socket u | None => false end.

(** [src/src/async/UncontrolledSocket.cpp:28-39] UncontrolledSocketImpl::operator=

    The details pending are not among what moves, nor is the wait, whose handler refers to
    the source; the wait of the socket the target had is cancelled with it. *)
Definition assign_impl (x rhs : UncontrolledSocket.impl) : UncontrolledSocket.impl * UncontrolledSocket.impl :=
  (UncontrolledSocket.mk (UncontrolledSocket.socket rhs) (UncontrolledSocket.wantRead rhs) (UncontrolledSocket.queued rhs)
     (UncontrolledSocket.callback rhs) (UncontrolledSocket.pendingDetails x) None,
   UncontrolledSocket.mk false (UncontrolledSocket.wantRead rhs) (UncontrolledSocket.queued rhs) None
     (UncontrolledSocket.pendingDetails rhs) (UncontrolledSocket.armed rhs)).

(** [src/src/async/UncontrolledSocket.cpp:54-82] queueRead (handler)

    The wait for readability ended; [p] is the implementation its callback refers to.
    None when that is gone, or when the details it waits again with cannot be copied; a wait
    that was aborted calls nobody. *)
Definition on_wait (p : Z) (c : Socket.completion) (w : world) : option (world * list UncontrolledSocket.event) :=
  match c with
  | Socket.Done =>
      '(u, h) ← boxes w !! p;
      '(u', ev) ← UncontrolledSocket.on_readable u;
      let s := match UncontrolledSocket.armed u' with
               | Some _ => (read Details.new p 0 h (sock w)).2
               | None => sock w
               end in
      Some (mkw s (<[p := (u', h)]> (boxes w)), ev)
  | _ => Some (w, [])
  end.

(** A wait of the implementation [p] on the socket at [a] is outstanding. *)
Definition waiting (p a : Z) (c : option Socket.completion) (w : world) : Prop :=
  ∃ d, (OnWait a 0 d p, c) ∈ loop (sock w).

(** Destroying cancels first: a wait that is still to come runs without touching freed
    memory and calls nobody.  One whose descriptor had become readable already is past
    cancelling, and its callback finds the implementation gone. *)
Lemma destroy_cancels p a fd i u w c :
  boxes w !! p = Some (u, Some a) → heap (sock w) !! a = Some (fd, i) →
  waiting p a c (destroy (Some p) w) →
  match c with
  | Some Socket.Done => on_wait p Socket.Done (destroy (Some p) w) = None ∧ waiting p a (Some Socket.Done) w
  | Some c => on_wait p c (destroy (Some p) w) = Some (destroy (Some p) w, [])
  | None => False
  end.
Proof.
  intros Hp Ha. assert (Hd : destroy (Some p) w = mkw (delete_impl a (sock w)) (delete p (boxes w))) by (cbn; by rewrite Hp).
  rewrite Hd. intros [d Hin].
  destruct (cancelled a (sock w) (OnWait a 0 d p) c fd i Ha eq_refl Hin) as (c0 & Hin0 & ->).
  destruct c0 as [[| |m]|]; cbn; [|done..]. rewrite lookup_delete_eq. split; [done|]. by exists d.
Qed.

(** A default one is not good, and reading from it asks its callback at once, with an
    error. *)
Lemma null_reads_error p w d cb :
  let '(x, w') := null p w in
  good x w' = false ∧
  ∃ u, boxes w' !! p = Some (u, None) ∧ snd <$> UncontrolledSocket.read d cb (Some u) =
    Some [UncontrolledSocket.Called cb (UncontrolledSocket.set_error $"read" $"Connection is not open." ErrorCode.ConnectionError d)].
Proof. cbn. unfold good. cbn. rewrite lookup_insert_eq. cbn. split; [done|]. eexists. split; [done|]. done. Qed.

End Code.
End UncontrolledLife.

Module SchedulerLoop.
Import Scheduler.

(** One call of [io_context::run]: it comes back at once when the context was stopped or has
    no work, and the keep-alive timer is work. *)
Definition blocks (x : t) : bool := timer x && negb (context_stopped x).

(** How a thread of the scheduler ends up: waiting for handlers, ended, or still looping when
    the fuel is out. *)
Inductive outcome := Waits | Ended | Looping.

(** [src/src/async/Scheduler.cpp:31-39] SchedulerImpl::run *)
Fixpoint run (fuel : nat) (x : t) : outcome :=
  match fuel with
  | O => Looping
  | S fuel => if running x then if blocks x then Waits else run fuel x else Ended
  end.

(** [src/src/async/Scheduler.cpp:54-57] Scheduler::~Scheduler *)
Definition destroy (x : t) : t := stop x.

(** A thread waits for handlers after a first start and ends after a stop; a scheduler that
    is started again after a stop has threads that loop without ever waiting, because the
    context is never restarted. *)
Lemma thread_fate fuel x :
  (context_stopped x = false → run (S fuel) (start x) = Waits) ∧
  run (S fuel) (stop x) = Ended ∧ run (S fuel) (destroy x) = Ended ∧
  run fuel (start (stop x)) = Looping.
Proof.
  split_and!; [by intros H; cbn; unfold blocks; cbn; rewrite H|done|done|].
  induction fuel as [|fuel IH]; [done|]. cbn. exact IH.
Qed.

(** ** The keep-alive timer *)

(** When the timer expires, and whether a wait on it is outstanding. *)
Record alarm := Alarm { expiry : Z; waiting : bool }.
Inductive result := Expired | Aborted.

Definition async_wait (a : alarm) : alarm := Alarm (expiry a) true.

(** [src/src/async/Scheduler.cpp:41-47] SchedulerImpl::execTimer

    None when the timer it waits on again is gone. *)
Definition execTimer (e : result) (a : option alarm) : option (option alarm) :=
  match e with
  | Aborted => Some a
  | Expired => match a with Some a => Some (Some (async_wait a)) | None => None end
  end.

(** [src/src/async/Scheduler.cpp:78-82] Scheduler::start (timer)

    An hour, in seconds. *)
Definition start_timer (now : Z) (a : option alarm) : option alarm :=
  match a with
  | None => default None (execTimer Expired (Some (Alarm (now + 60 * 60) false)))
  | Some a => Some a
  end.

(** A wait is over once the timer has expired; the handler is then called. *)
Definition due (now : Z) (a : option alarm) : bool :=
  match a with Some a => waiting a && (expiry a <=? now) | None => false end.
Definition fire (a : option alarm) : option (option alarm) :=
  match a with Some a => execTimer Expired (Some (Alarm (expiry a) false)) | None => Some None end.

(** How often the handler can be called at one moment. *)
Fixpoint calls_at (now : Z) (fuel : nat) (a : option alarm) : nat :=
  match fuel with
  | O => O
  | S fuel =>
      if due now a then match fire a with Some a => S (calls_at now fuel a) | None => O end else O
  end.

(** For the first hour the handler is not called; from then on it is called again as soon as
    it returns, because it waits on a timer that has expired and stays so.  A stop just
    after the expiry leaves the handler, which is past cancelling, with a null timer. *)
Lemma keepalive_spins started now fuel :
  let a := start_timer started None in
  calls_at now fuel a = (if now <? started + 3600 then O else fuel) ∧
  execTimer Aborted None = Some None ∧ execTimer Expired None = None.
Proof.
  cbn. split; [|done]. destruct (now <? started + 3600) eqn:E.
  - destruct fuel; [done|]. cbn. rewrite (proj2 (Z.leb_gt _ _)) by lia. done.
  - induction fuel as [|fuel IH]; [done|]. cbn. rewrite (proj2 (Z.leb_le _ _)) by lia. cbn. by f_equal.
Qed.

End SchedulerLoop.
