(* ===== verification/Zmq.v ===== *)
(** * Message sockets: [zmq/]

    The wrappers around ZeroMQ's sockets.  The library is the class [Zmq]: a state and,
    for each function, its result and the next state, with nothing assumed about them.
    The model threads that state and the list of the calls made, so that what reaches the
    library, and in which order, is part of every statement.  Operations are computations
    of the monad [M] over the caller's [Details] and that world; [wp] is its weakest
    precondition, and the proofs run the code with its rules.  The mutex of each object
    makes its operations atomic and is left out. *)

From S2P Require Import Prelude Strings Errors Ossl.

(** The options that are set. *)
Inductive sockopt := CURVE_PUBLICKEY | CURVE_SECRETKEY | CURVE_SERVER | CURVE_SERVERKEY | SUBSCRIBE.

(** What [zmq_recvmsg] returns: a frame, nothing yet ([EAGAIN]), or another error. *)
Inductive incoming := Frame (f : bytes) | Again | RecvFailed.

(** The library. *)
Class Zmq := {
  lib : Type;
  zmq_ctx_new : lib → option Z * lib;
  zmq_ctx_shutdown : lib → Z → Z * lib;
  zmq_ctx_destroy : lib → Z → Z * lib;
  zmq_socket : lib → option Z → Z → option Z * lib;
  zmq_close : lib → Z → Z * lib;
  zmq_setsockopt : lib → Z → sockopt → bytes → Z * lib;
  zmq_getsockopt_fd : lib → Z → option Z * lib;
  zmq_bind : lib → Z → cstr → Z * lib;
  zmq_connect : lib → Z → cstr → Z * lib;
  zmq_send : lib → Z → bytes → bool → Z * lib;
  zmq_recvmsg : lib → Z → incoming * lib;
  zmq_curve_keypair : lib → Z * (bytes * bytes) * lib;
  errno : lib → cstr;
}.

(** The conversions of [libsodium], with the number each returns, and OpenSSL's error. *)
Class Sodium := {
  sk_to_curve25519 : bytes → Z * bytes;
  pk_to_curve25519 : bytes → Z * bytes;
  scalarmult_base : bytes → Z * bytes;
  ossl_error : cstr;
}.

(** The calls made on sockets, each with its result. *)
Inductive event :=
  | ESocket (type : Z) (s : option Z)
  | EClose (s ret : Z)
  | ESet (s : Z) (o : sockopt) (value : bytes) (ret : Z)
  | EFd (s : Z)
  | EBind (s : Z) (address : cstr) (ret : Z)
  | EConnect (s : Z) (address : cstr) (ret : Z)
  | ESend (s : Z) (frame : bytes) (more : bool) (ret : Z)
  | ERecv (s : Z) (i : incoming).

Record world {Q : Zmq} := World { zlib : lib; trace : list event }.
Arguments World {Q} _ _.

(** ** Computations *)

Module Comm.
Section Monad.
Context {Q : Zmq}.

(** The details are passed by reference: a computation returns them with its result. *)
Definition M (A : Type) : Type := Details.t → world → A * Details.t * world.

#[export] Instance M_ret : MRet M := λ A a d w, (a, d, w).
#[export] Instance M_bind : MBind M := λ A B k m d w, let '(a, d, w) := m d w in k a d w.

(** [if (details.isOk())]; the result when it is not. *)
Definition if_ok {A} (dflt : A) (m : M A) : M A :=
  λ d w, if Details.isOk d then m d w else (dflt, d, w).

Definition if_bad (m : M unit) : M unit :=
  λ d w, if Details.isOk d then (tt, d, w) else m d w.

Definition is_ok : M bool := λ d w, (Details.isOk d, d, w).

(** [log::Comm] *)
Definition Comm : Z := 1.

Definition set_error (code : ErrorCode.t) (field msg : cstr) : M unit :=
  λ d w, (tt, Details.setError Comm code (Some field) msg d, w).

(** [Errno::error()] *)
Definition errno_text : M cstr := λ d w, (errno (zlib w), d, w).

(** A library call, recorded. *)
Definition call {A} (f : lib → A * lib) (e : A → event) : M A :=
  λ d w, let '(a, l) := f (zlib w) in (a, d, World l (trace w ++ [e a])).

(** One that touches no socket. *)
Definition quiet {A} (f : lib → A * lib) : M A :=
  λ d w, let '(a, l) := f (zlib w) in (a, d, World l (trace w)).

Definition open_socket (ctx : option Z) (type : Z) : M (option Z) :=
  call (λ l, zmq_socket l ctx type) (ESocket type).
Definition close_socket (s : Z) : M Z := call (λ l, zmq_close l s) (EClose s).
Definition setsockopt (s : Z) (o : sockopt) (v : bytes) : M Z := call (λ l, zmq_setsockopt l s o v) (ESet s o v).
Definition bind_to (s : Z) (a : cstr) : M Z := call (λ l, zmq_bind l s a) (EBind s a).
Definition connect_to (s : Z) (a : cstr) : M Z := call (λ l, zmq_connect l s a) (EConnect s a).
Definition send (s : Z) (f : bytes) (more : bool) : M Z := call (λ l, zmq_send l s f more) (ESend s f more).
Definition recvmsg (s : Z) : M incoming := call (λ l, zmq_recvmsg l s) (ERecv s).

(** ** Weakest preconditions *)

Definition wp {A} (m : M A) (P : A → Details.t → world → Prop) (d : Details.t) (w : world) : Prop :=
  let '(a, d, w) := m d w in P a d w.

Lemma wp_run {A} (m : M A) P d w a d' w' : m d w = (a, d', w') → wp m P d w → P a d' w'.
Proof. unfold wp. by intros ->. Qed.

Lemma wp_mono {A} (m : M A) (P P' : A → Details.t → world → Prop) d w :
  (∀ a d' w', P a d' w' → P' a d' w') → wp m P d w → wp m P' d w.
Proof. unfold wp. destruct (m d w) as [[a d'] w']. auto. Qed.

Lemma wp_ret {A} (a : A) (P : A → Details.t → world → Prop) d w : P a d w → wp (mret a) P d w.
Proof. done. Qed.

Lemma wp_bind {A B} (m : M A) (k : A → M B) P d w : wp m (λ a, wp (k a) P) d w → wp (m ≫= k) P d w.
Proof. unfold wp, mbind, M_bind. by destruct (m d w) as [[a d'] w']. Qed.

Lemma wp_if_ok {A} (dflt : A) m (P : A → Details.t → world → Prop) d w :
  (Details.isOk d = true → wp m P d w) → (Details.isOk d = false → P dflt d w) → wp (if_ok dflt m) P d w.
Proof. unfold wp, if_ok. destruct (Details.isOk d); [intros H _; by apply H|intros _ H; by apply H]. Qed.

Lemma wp_if_bad m (P : unit → Details.t → world → Prop) d w :
  (Details.isOk d = true → P tt d w) → (Details.isOk d = false → wp m P d w) → wp (if_bad m) P d w.
Proof. unfold wp, if_bad. destruct (Details.isOk d); [intros H _; by apply H|intros _ H; by apply H]. Qed.

Lemma wp_is_ok (P : bool → Details.t → world → Prop) d w : P (Details.isOk d) d w → wp is_ok P d w.
Proof. done. Qed.

(** An error whose text is not empty is an error. *)
Lemma wp_set_error code field msg (P : unit → Details.t → world → Prop) d w :
  msg ≠ [] →
  (∀ d', Details.isOk d' = false → ErrorStatus.errorCode (Details.errorStatus d') = code → P tt d' w) →
  wp (set_error code field msg) P d w.
Proof.
  intros Hm HP. apply HP; [|done]. by apply bool_decide_eq_false_2.
Qed.

Lemma wp_errno (P : cstr → Details.t → world → Prop) d w : (∀ t, P t d w) → wp errno_text P d w.
Proof. intros HP. apply HP. Qed.

Lemma wp_call {A} f (e : A → event) (P : A → Details.t → world → Prop) d w :
  (∀ a l, f (zlib w) = (a, l) → P a d (World l (trace w ++ [e a]))) → wp (call f e) P d w.
Proof. unfold wp, call. intros HP. destruct (f (zlib w)). by apply HP. Qed.

Lemma wp_quiet {A} f (P : A → Details.t → world → Prop) d w :
  (∀ a l, f (zlib w) = (a, l) → P a d (World l (trace w))) → wp (quiet f) P d w.
Proof. unfold wp, quiet. intros HP. destruct (f (zlib w)). by apply HP. Qed.

End Monad.
End Comm.
Export Comm.

Lemma wp_if_true {Q : Zmq} {A} (b : bool) (m1 m2 : M A) P d w :
  b = true → wp m1 P d w → wp (if b then m1 else m2) P d w.
Proof. by intros ->. Qed.

Lemma wp_if_false {Q : Zmq} {A} (b : bool) (m1 m2 : M A) P d w :
  b = false → wp m2 P d w → wp (if b then m1 else m2) P d w.
Proof. by intros ->. Qed.

Lemma wp_ret_true {Q : Zmq} {A} (b : bool) (x y : A) P d w :
  b = true → wp (mret x) P d w → wp (mret (if b then x else y)) P d w.
Proof. by intros ->. Qed.

Lemma wp_ret_false {Q : Zmq} {A} (b : bool) (x y : A) P d w :
  b = false → wp (mret y) P d w → wp (mret (if b then x else y)) P d w.
Proof. by intros ->. Qed.

(** Tests of a call's result that are decided: by computation, or by what is known of
    lengths. *)
Ltac decided :=
  lazymatch goal with
  | |- ?b = _ =>
      lazymatch b with
      | (0 <? _) && _ => vm_compute; reflexivity
      | _ + _ =? 1 => vm_compute; reflexivity
      | -1 =? -1 => reflexivity
      | 0 <=? -1 => reflexivity
      | zlen ?f =? -1 => apply Z.eqb_neq; lia
      | negb (zlen ?f =? zlen ?f) => rewrite Z.eqb_refl; reflexivity
      | 0 <=? zlen _ => apply Z.leb_le; lia
      end
  end.

(** Run the next statement of the code. *)
Ltac wp_step :=
  lazymatch goal with
  | |- wp (mbind _ _) _ _ _ => apply wp_bind
  | |- wp (mret (if ?b then ?x else ?y)) _ _ _ =>
      first [apply wp_ret_true; [solve [decided]|] | apply wp_ret_false; [solve [decided]|] | destruct b eqn:?]
  | |- wp (mret _) _ _ _ => apply wp_ret
  | |- wp (if_ok _ _) _ _ _ => apply wp_if_ok; intros ?; try congruence
  | |- wp (if_bad _) _ _ _ => apply wp_if_bad; intros ?; try congruence
  | |- wp is_ok _ _ _ => apply wp_is_ok
  | |- wp errno_text _ _ _ => apply wp_errno; intros ?
  | |- wp (set_error _ _ _) _ _ _ => apply wp_set_error; [first [assumption | discriminate]|intros ? ? ?]
  | |- wp (quiet _) _ _ _ => apply wp_quiet; intros ? ? ?
  | |- wp (call _ _) _ _ _ => apply wp_call; intros ? ? ?
  | |- wp (open_socket _ _) _ _ _ => unfold open_socket
  | |- wp (close_socket _) _ _ _ => unfold close_socket
  | |- wp (setsockopt _ _ _) _ _ _ => unfold setsockopt
  | |- wp (bind_to _ _) _ _ _ => unfold bind_to
  | |- wp (connect_to _ _) _ _ _ => unfold connect_to
  | |- wp (send _ _ _) _ _ _ => unfold send
  | |- wp (recvmsg _) _ _ _ => unfold recvmsg
  | |- wp (if ?b then _ else _) _ _ _ =>
      first [apply wp_if_true; [solve [decided]|] | apply wp_if_false; [solve [decided]|] | destruct b eqn:?]
  | |- wp (match ?x with _ => _ end) _ _ _ => destruct x eqn:?
  end.
Ltac wp_steps := repeat (wp_step; cbn beta).

(** ** [zmq/Context] *)
Module Context.
Section Code.
Context {Q : Zmq}.

(** [src/src/zmq/Context.h:11-27] zmq::Context

    The library's context, null when it could not be made or was moved away. *)
Definition t := option Z.

(** [src/src/zmq/Context.cpp:12-17] Context::Context *)
Definition new : M t := quiet zmq_ctx_new.

(** [src/src/zmq/Context.cpp:41-55] Context::cleanup

    With the errors that are logged: the second test looks at the first result again. *)
Definition cleanup (x : t) : M (t * list cstr) :=
  match x with
  | None => mret (x, [])
  | Some ctx =>
      r ← quiet (λ l, zmq_ctx_shutdown l ctx);
      _ ← quiet (λ l, zmq_ctx_destroy l ctx);
      mret (None, if r =? 0 then [] else [$"Failed to shutdown ZMQ context"; $"Failed to destroy ZMQ context"])
  end.

(** [src/src/zmq/Context.cpp:25-34] Context::operator=

    The new object and what is left of [rhs]. *)
Definition move_assign (x rhs : t) : M (t * t) :=
  _ ← cleanup x; mret (rhs, None).

(** [src/src/zmq/Context.cpp:19-23] Context::Context(Context &&) *)
Definition move (rhs : t) : M (t * t) := move_assign None rhs.

(** A context that could be shut down but not destroyed is reported as destroyed. *)
Lemma destroy_failure_unreported ctx d w :
  (zmq_ctx_shutdown (zlib w) ctx).1 = 0 → (cleanup (Some ctx) d w).1.1 = (None, []).
Proof.
  unfold cleanup, mbind, M_bind, quiet. destruct (zmq_ctx_shutdown (zlib w) ctx) as [r l]. simpl. intros ->.
  by destruct (zmq_ctx_destroy l ctx).
Qed.

End Code.
End Context.

(** ** [zmq/Utils] *)
Module Utils.
Section Code.
Context {Q : Zmq} {N : Sodium} {K : EvpKeys}.

(** [src/src/zmq/Utils.cpp:17-33] Utils::getFd

    [-1] when there is none. *)
Definition getFd (socket : option Z) : M Z :=
  match socket with
  | None => mret (-1)
  | Some s => fd ← call (λ l, zmq_getsockopt_fd l s) (λ _, EFd s); mret (default (-1) fd)
  end.

Definition bad_length (n : Z) : cstr := $"Invalid server key length " ++ dec_text n ++ $".".

(** [src/src/zmq/Utils.cpp:38-108] setupServerCurve

    The keys are empty where the code leaves them after an error; nothing reads them. *)
Definition setupServerCurve (socket : Z) (serverKey : bytes) : M unit :=
  (if zlen serverKey =? 32 then mret tt
   else set_error ErrorCode.InternalError $"zmq_curve" (bad_length (zlen serverKey)));;
  extendedKey ← if_ok [] (
    let pubKey := Curve25519.privateToPublic serverKey in
    if negb (zlen pubKey =? 32) then
      set_error ErrorCode.InternalError $"zmq_curve"
        ($"Failed to convert ED25519 private key to public key: " ++ ossl_error ++ $".");; mret []
    else mret (serverKey ++ pubKey));
  curveKey ← if_ok [] (
    let '(i, key) := sk_to_curve25519 extendedKey in
    if negb (i =? 0) then
      set_error ErrorCode.InternalError $"zmq_curve"
        ($"Failed to convert ED25519 to X25519 with " ++ Strings.to_string_int i ++ $".");; mret []
    else mret key);
  curvePub ← if_ok [] (
    let '(i, key) := scalarmult_base curveKey in
    if negb (i =? 0) then
      set_error ErrorCode.InternalError $"zmq_curve"
        ($"Failed to convert X25519 private key to public key with " ++ Strings.to_string_int i ++ $".");; mret []
    else mret key);
  if_ok tt (
    r1 ← setsockopt socket CURVE_PUBLICKEY curvePub;
    r2 ← setsockopt socket CURVE_SECRETKEY curveKey;
    r3 ← setsockopt socket CURVE_SERVER [1; 0; 0; 0];
    if (r1 =? 0) && (r2 =? 0) && (r3 =? 0) then mret tt
    else set_error ErrorCode.InternalError $"zmq_curve" $"Failed to set CurveMQ parameters on server socket.").

(** [src/src/zmq/Utils.cpp:174-224] setupClientCurve

    [zmq_curve_keypair] writes terminated text into the buffers, which starts as zeros. *)
Definition setupClientCurve (socket : Z) (serverKey : bytes) : M unit :=
  (if zlen serverKey =? 32 then mret tt
   else set_error ErrorCode.InternalError $"zmq_curve" (bad_length (zlen serverKey)));;
  serverCurveKey ← if_ok [] (
    let '(i, key) := pk_to_curve25519 serverKey in
    if negb (i =? 0) then
      set_error ErrorCode.InternalError $"zmq_curve"
        ($"Failed to convert ED25519 to X25519 with " ++ Strings.to_string_int i ++ $".");; mret []
    else mret key);
  keypair ← if_ok ([], []) (
    p ← quiet zmq_curve_keypair;
    let '(i, keys) := p in
    if negb (i =? 0) then
      e ← errno_text;
      set_error ErrorCode.InternalError $"zmq_curve"
        ($"Failed to generate ephemeral X25519 keypair: " ++ e ++ $".");; mret ([], [])
    else mret keys);
  if_ok tt (
    let '(szEphemeralPub, szEphemeralPriv) := keypair in
    r1 ← setsockopt socket CURVE_PUBLICKEY (Strings.c_str szEphemeralPub);
    r2 ← setsockopt socket CURVE_SECRETKEY (Strings.c_str szEphemeralPriv);
    r3 ← setsockopt socket CURVE_SERVERKEY serverCurveKey;
    if (r1 =? 0) && (r2 =? 0) && (r3 =? 0) then mret tt
    else set_error ErrorCode.InternalError $"zmq_curve" $"Failed to set CurveMQ parameters on server socket.").

(** [src/src/zmq/Utils.cpp:112-168] bindSocket, connectSocket (common steps)

    The shape both ways of opening a socket share: the context's check, the socket, its
    keys, the address, and closing it when any of them failed; bindSocket and
    connectSocket below supply the texts, the keys and the address. *)
Definition open_with (ctx : option Context.t) (socketType : Z) (no_ctx no_socket : cstr)
    (setup : Z → M unit) (attach : Z → M unit) : M (option Z) :=
  (match ctx with
   | Some _ => mret tt
   | None => set_error ErrorCode.InternalError $"zmq_ctx" no_ctx
   end);;
  socket ← if_ok None (
    s ← open_socket (default None ctx) socketType;
    match s with
    | Some _ => mret s
    | None => set_error ErrorCode.SocketError $"zmq_socket" no_socket;; mret None
    end);
  (match socket with Some s => if_ok tt (setup s) | None => mret tt end);;
  (match socket with Some s => if_ok tt (attach s) | None => mret tt end);;
  match socket with
  | Some s => ok ← is_ok; if (ok : bool) then mret socket else close_socket s;; mret None
  | None => mret None
  end.

(** [src/src/zmq/Utils.cpp:146-147] bindSocket (address) *)
Definition bind_address (host : cstr) (port : Z) : cstr :=
  $"tcp://" ++ (if bool_decide (host = []) then $"*" else Strings.c_str host) ++ $":" ++ dec_text port.

(** [src/src/zmq/Utils.cpp:112-168] Utils::bindSocket *)
Definition bindSocket (ctx : option Context.t) (socketType : Z) (host : cstr) (port : Z) (serverKey : bytes)
  : M (option Z) :=
  open_with ctx socketType $"No server comm context." $"Failed to create server socket."
    (λ s, if bool_decide (serverKey = []) then mret tt else setupServerCurve s serverKey)
    (λ s,
      let address := bind_address host port in
      r ← bind_to s address;
      if r =? 0 then mret tt
      else e ← errno_text;
           set_error ErrorCode.ConnectError $"zmq_bind"
             ($"Failed to bind to '" ++ address ++ $"': " ++ e ++ $".")).

(** [src/src/zmq/Utils.cpp:228-285] Utils::connectSocket *)
Definition connectSocket (ctx : option Context.t) (socketType : Z) (host : cstr) (port : Z) (serverKey : bytes)
  : M (option Z) :=
  open_with ctx socketType $"No client comm context." $"Failed to create new client socket."
    (λ s, if bool_decide (serverKey = []) then mret tt else setupClientCurve s serverKey)
    (λ s,
      let address := $"tcp://" ++ host ++ $":" ++ dec_text port in
      r ← connect_to s (Strings.c_str address);
      if r =? 0 then mret tt
      else e ← errno_text;
           set_error ErrorCode.ConnectError $"zmq_socket"
             ($"Failed to connect to '" ++ address ++ $"': " ++ e ++ $".")).

End Code.
End Utils.

(** ** Sockets as resources *)
Module Handles.

(** [evs] follows the calls made before. *)
Definition after {Q : Zmq} (w : world) (evs : list event) (w' : world) : Prop := trace w' = trace w ++ evs.

Lemma after_nil {Q : Zmq} (w : world) : after w [] w.
Proof. unfold after. by rewrite app_nil_r. Qed.

Lemma after_app {Q : Zmq} (w1 : world) a w2 b w3 : after w1 a w2 → after w2 b w3 → after w1 (a ++ b) w3.
Proof. unfold after. intros -> ->. by rewrite app_assoc. Qed.

(** The calls just made, as one list. *)
Ltac calls :=
  unfold after in *; cbn [trace zlib] in *;
  repeat match goal with H : trace _ = _ |- _ => rewrite H; clear H end;
  rewrite <- ?app_assoc; first [reflexivity | symmetry; apply app_nil_r].
Ltac logged := eexists; split; [calls|].

Definition uses (s : Z) (o : option Z) : option (option Z) := if bool_decide (o = Some s) then Some o else None.

(** What a call does to the one socket its object may hold: [None] for a call an object
    must not make, a second socket or one on a socket it does not hold. *)
Definition hstep (e : event) (o : option Z) : option (option Z) :=
  match e with
  | ESocket _ None => Some o
  | ESocket _ (Some s) => match o with None => Some (Some s) | Some _ => None end
  | EClose s _ => if bool_decide (o = Some s) then Some None else None
  | ESet s _ _ _ | EFd s | EBind s _ _ | EConnect s _ _ | ESend s _ _ _ | ERecv s _ => uses s o
  end.

Fixpoint handles (evs : list event) (o : option Z) : option (option Z) :=
  match evs with
  | [] => Some o
  | e :: evs => match hstep e o with Some o => handles evs o | None => None end
  end.

Lemma handles_app a b o : handles (a ++ b) o = match handles a o with Some o => handles b o | None => None end.
Proof. revert o. induction a as [|e a IH]; intros o; simpl; [done|]. by destruct (hstep e o). Qed.

Lemma uses_self s : uses s (Some s) = Some (Some s).
Proof. unfold uses. by rewrite bool_decide_eq_true_2. Qed.

(** Calls that only set options of a socket. *)
Definition sets (s : Z) (e : event) : Prop := ∃ o v r, e = ESet s o v r.

Lemma handles_sets s evs : Forall (sets s) evs → handles evs (Some s) = Some (Some s).
Proof. induction 1 as [|e evs (o & v & r & ->) _ IH]; simpl; [done|]. by rewrite uses_self. Qed.

(** How opening a socket can go: the calls made and the socket returned.  [secure] is what
    must have been set before the address is given. *)
Inductive opened (type : Z) (secure : Z → list event → Prop) (attach : Z → Z → event)
  : option Z → list event → Prop :=
  | opened_not : opened type secure attach None []
  | opened_none : opened type secure attach None [ESocket type None]
  | opened_unset s evs r :
      Forall (sets s) evs → opened type secure attach None (ESocket type (Some s) :: evs ++ [EClose s r])
  | opened_refused s evs r r' :
      secure s evs → r ≠ 0 →
      opened type secure attach None (ESocket type (Some s) :: evs ++ [attach s r; EClose s r'])
  | opened_ok s evs :
      secure s evs → opened type secure attach (Some s) (ESocket type (Some s) :: evs ++ [attach s 0]).

Lemma opened_handles type secure attach o evs :
  (∀ s evs, secure s evs → Forall (sets s) evs) → (∀ s r, hstep (attach s r) (Some s) = Some (Some s)) →
  opened type secure attach o evs → handles evs None = Some o.
Proof.
  intros Hs Ha. destruct 1 as [| |s evs r H|s evs r r' H|s evs H]; try done.
  all: cbn [handles hstep]; rewrite handles_app, handles_sets by eauto; cbn [handles]; rewrite ?Ha;
    cbn [hstep]; rewrite ?bool_decide_eq_true_2; done.
Qed.

End Handles.

Module UtilsProofs.
Import Handles Utils.
Section Proofs.
Context {Q : Zmq} {N : Sodium} {K : EvpKeys}.

(** A server's curve keys: the pair derived from its signing key, set, and the server role
    taken, each accepted. *)
Definition server_secured (serverKey : bytes) (s : Z) (evs : list event) : Prop :=
  (serverKey = [] ∧ evs = []) ∨
  (zlen serverKey = 32 ∧ ∃ sec pub,
    sk_to_curve25519 (serverKey ++ Curve25519.privateToPublic serverKey) = (0, sec) ∧
    scalarmult_base sec = (0, pub) ∧
    evs = [ESet s CURVE_PUBLICKEY pub 0; ESet s CURVE_SECRETKEY sec 0; ESet s CURVE_SERVER [1; 0; 0; 0] 0]).

(** A client's: fresh keys, and the server's public key in its other form. *)
Definition client_secured (serverKey : bytes) (s : Z) (evs : list event) : Prop :=
  (serverKey = [] ∧ evs = []) ∨
  (zlen serverKey = 32 ∧ ∃ l l' pub sec key,
    zmq_curve_keypair l = (0, (pub, sec), l') ∧ pk_to_curve25519 serverKey = (0, key) ∧
    evs = [ESet s CURVE_PUBLICKEY (Strings.c_str pub) 0; ESet s CURVE_SECRETKEY (Strings.c_str sec) 0;
           ESet s CURVE_SERVERKEY key 0]).

Lemma secured_sets key s evs :
  server_secured key s evs ∨ client_secured key s evs → Forall (sets s) evs.
Proof.
  unfold server_secured, client_secured, sets.
  intros [[[_ ->]|(_ & ? & ? & _ & _ & ->)]|[[_ ->]|(_ & ? & ? & ? & ? & ? & _ & _ & ->)]];
    repeat constructor; by eauto.
Qed.

(** The outcomes of setting keys, and of giving the address. *)
Definition setup_post (secure : Z → list event → Prop) (s : Z) (w : world) (_ : unit) (d' : Details.t) (w' : world)
  : Prop :=
  ∃ evs, after w evs w' ∧
    ((Details.isOk d' = true ∧ secure s evs) ∨ (Details.isOk d' = false ∧ Forall (sets s) evs)).

Definition attach_post (attach : Z → event) (w : world) (_ : unit) (d' : Details.t) (w' : world) : Prop :=
  ∃ r, after w [attach r] w' ∧ ((Details.isOk d' = true ∧ r = 0) ∨ (Details.isOk d' = false ∧ r ≠ 0)).

Ltac failed_setup :=
  logged; right; split; [done|]; repeat constructor; eexists _, _, _; reflexivity.

Lemma three_ok a b c : (a =? 0) && (b =? 0) && (c =? 0) = true → a = 0 ∧ b = 0 ∧ c = 0.
Proof. intros. zbool. lia. Qed.

Lemma setupServerCurve_post key s d w :
  Details.isOk d = true → wp (setupServerCurve s key) (setup_post (server_secured key) s w) d w.
Proof.
  intros Hd. unfold setupServerCurve, bad_length. wp_steps.
  all: try failed_setup. zbool. subst.
  logged. left. split; [done|]. right. split; [lia|]. by eexists _, _.
Qed.

Lemma setupClientCurve_post key s d w :
  Details.isOk d = true → wp (setupClientCurve s key) (setup_post (client_secured key) s w) d w.
Proof.
  intros Hd. unfold setupClientCurve, bad_length. wp_steps.
  all: try failed_setup. zbool. subst. destruct_and?. zbool. subst.
  logged. left. split; [done|]. right. split; [lia|]. by eexists _, _, _, _, _.
Qed.

(** Setting no keys when there is no key. *)
Lemma setup_unkeyed (secure : Z → list event → Prop) (key : bytes) s (m : M unit) d w :
  Details.isOk d = true → (key = [] → secure s []) → wp m (setup_post secure s w) d w →
  wp (if bool_decide (key = []) then mret tt else m) (setup_post secure s w) d w.
Proof.
  intros Hd Hk Hm. case_bool_decide; [|done]. wp_step.
  exists []. split; [apply after_nil|]. left. auto.
Qed.

(** What both ways of opening a socket promise. *)
Lemma open_with_post (type : Z) (secure : Z → list event → Prop) (attach : Z → Z → event) ctx m1 m2 setup att d w :
  m1 ≠ [] → m2 ≠ [] →
  (∀ s d w, Details.isOk d = true → wp (setup s) (setup_post secure s w) d w) →
  (∀ s d w, Details.isOk d = true → wp (att s) (attach_post (attach s) w) d w) →
  wp (open_with ctx type m1 m2 setup att)
    (λ o d' w', ∃ evs, after w evs w' ∧ opened type secure attach o evs ∧
                       (Details.isOk d' = true → is_Some o) ∧ (is_Some o → Details.isOk d' = true)) d w.
Proof.
  intros Hm1 Hm2 Hsetup Hatt. unfold open_with.
  assert (Hset : ∀ s d w (P : unit → Details.t → world → Prop), Details.isOk d = true →
    (∀ d' w', setup_post secure s w tt d' w' → P tt d' w') → wp (setup s) P d w).
  { intros s d0 w0 P Hd HP. eapply wp_mono; [|by apply Hsetup]. by intros []. }
  assert (Hat : ∀ s d w (P : unit → Details.t → world → Prop), Details.isOk d = true →
    (∀ d' w', attach_post (attach s) w tt d' w' → P tt d' w') → wp (att s) P d w).
  { intros s d0 w0 P Hd HP. eapply wp_mono; [|by apply Hatt]. by intros []. }
  wp_steps.
  all: try (eexists; split; [first [apply after_nil | reflexivity]|]; split; [constructor|]; split; [congruence|by intros []]).
  - apply Hset; [done|]. intros d1 w1 (evs & Hw1 & [[Hok Hs]|[Hbad Hs]]); wp_steps; try congruence.
    + apply Hat; [done|]. intros d2 w2 (r & Hw2 & [[Hok2 ->]|[Hbad2 Hr]]); wp_steps; try congruence.
      * logged. split; [by apply opened_ok|by eauto].
      * logged. split; [by apply opened_refused|]. split; [congruence|by intros []].
    + logged. split; [by apply opened_unset|]. split; [congruence|by intros []].
Qed.

Lemma attach_bind_post ctx type host port key d w :
  wp (bindSocket ctx type host port key)
    (λ o d' w', ∃ evs, after w evs w' ∧
       opened type (server_secured key) (λ s, EBind s (bind_address host port)) o evs ∧
       (Details.isOk d' = true → is_Some o) ∧ (is_Some o → Details.isOk d' = true)) d w.
Proof.
  apply open_with_post; [done|done| |].
  - intros s d1 w1 Hd. apply setup_unkeyed; [done|by intros ->; left|]. by apply setupServerCurve_post.
  - intros s d1 w1 Hd. cbv zeta. wp_steps; zbool; subst; unfold attach_post; logged; auto.
Qed.

Lemma attach_connect_post ctx type host port key d w :
  wp (connectSocket ctx type host port key)
    (λ o d' w', ∃ evs, after w evs w' ∧
       opened type (client_secured key)
         (λ s, EConnect s (Strings.c_str ($"tcp://" ++ host ++ $":" ++ dec_text port))) o evs ∧
       (Details.isOk d' = true → is_Some o) ∧ (is_Some o → Details.isOk d' = true)) d w.
Proof.
  apply open_with_post; [done|done| |].
  - intros s d1 w1 Hd. apply setup_unkeyed; [done|by intros ->; left|]. by apply setupClientCurve_post.
  - intros s d1 w1 Hd. cbv zeta. wp_steps; zbool; subst; unfold attach_post; logged; auto.
Qed.

(** C29: Opening a socket fails closed.  Whatever the library answers, the calls made are
    one of five: none, a refused socket, a socket closed because its keys could not be set
    (with no address given to it), one closed because the address was refused, or the
    socket that is returned, exactly when there is no error.  A socket for which a key was
    asked is given an address only after its curve keys were derived from that key and all
    three options were accepted; no socket is left open on an error. *)
Theorem socket_fails_closed (ctx : option Context.t) (type : Z) (host : cstr) (port : Z) (key : bytes)
    (d : Details.t) (w : world) :
  (let '(o, d', w') := bindSocket ctx type host port key d w in
   ∃ evs, after w evs w' ∧ handles evs None = Some o ∧ (Details.isOk d' = true ↔ is_Some o) ∧
     opened type (server_secured key) (λ s, EBind s (bind_address host port)) o evs) ∧
  (let '(o, d', w') := connectSocket ctx type host port key d w in
   ∃ evs, after w evs w' ∧ handles evs None = Some o ∧ (Details.isOk d' = true ↔ is_Some o) ∧
     opened type (client_secured key)
       (λ s, EConnect s (Strings.c_str ($"tcp://" ++ host ++ $":" ++ dec_text port))) o evs).
Proof.
  split.
  - eapply wp_mono; [|apply attach_bind_post]. intros o d' w' (evs & Hw & Ho & Hd). exists evs. split; [done|].
    split; [|split; [by split; apply Hd|done]]. eapply opened_handles, Ho; [eauto using secured_sets|].
    intros. apply uses_self.
  - eapply wp_mono; [|apply attach_connect_post]. intros o d' w' (evs & Hw & Ho & Hd). exists evs. split; [done|].
    split; [|split; [by split; apply Hd|done]]. eapply opened_handles, Ho; [eauto using secured_sets|].
    intros. apply uses_self.
Qed.

End Proofs.
End UtilsProofs.

(** ** The objects *)

Definition ZMQ_PUB : Z := 1.
Definition ZMQ_SUB : Z := 2.
Definition ZMQ_REQ : Z := 3.
Definition ZMQ_ROUTER : Z := 6.

Module Server.
Section Code.
Context {Q : Zmq} {N : Sodium} {K : EvpKeys}.

(** [src/src/zmq/Server.h:18-61] zmq::Server *)
Record t := mk { ctx : option Context.t; socket : option Z }.

(** [src/src/zmq/Server.cpp:14-19] Server::Server *)
Definition new (c : Context.t) : t := mk (Some c) None.

(** [src/src/zmq/Server.cpp:52-64] Server::close *)
Definition close (x : t) : M t :=
  match socket x with
  | None => mret x
  | Some s => close_socket s;; mret (mk (ctx x) None)
  end.

(** [src/src/zmq/Server.cpp:28-39] Server::operator=

    The new object and what is left of [rhs]. *)
Definition move_assign (x rhs : t) : M (t * t) :=
  close x;; mret (mk (ctx rhs) (socket rhs), mk (ctx rhs) None).

(** [src/src/zmq/Server.cpp:21-26] Server::Server(Server &&) *)
Definition move (rhs : t) : M (t * t) := move_assign (mk None None) rhs.

(** [src/src/zmq/Server.cpp:74-93] Server::bind *)
Definition bind (host : cstr) (port : Z) (serverKey : bytes) (x : t) : M t :=
  x ← close x;
  s ← Utils.bindSocket (ctx x) ZMQ_ROUTER host port serverKey;
  let x := mk (ctx x) s in
  ok ← is_ok;
  if (ok : bool) then mret x else close x.

(** [src/src/zmq/Server.cpp:66-72] Server::bind (unprotected) *)
Definition bind_plain (host : cstr) (port : Z) (x : t) : M t := bind host port [] x.

Definition error_text (prefix : cstr) : M cstr := e ← errno_text; mret (prefix ++ e ++ $".").

(** [src/src/zmq/Server.cpp:95-175] Server::recv

    The result, and the caller's two variables. *)
Definition recv (client data : bytes) (x : t) : M (bool * bytes * bytes) :=
  (match socket x with
   | Some _ => mret tt
   | None => set_error ErrorCode.NotConnected $"zmq_server" $"No server socket."
   end);;
  let s := default 0 (socket x) in
  first ← if_ok None (
    i ← recvmsg s;
    match i with
    | Again => mret None
    | RecvFailed =>
        m ← error_text $"Failed to read client ID: ";
        set_error ErrorCode.SocketError $"zmq_server" m;; mret None
    | Frame f => mret (Some f)
    end);
  let client := default client first in
  let bHasMessage := bool_decide (is_Some first) in
  (if bHasMessage then if_ok tt (
    i ← recvmsg s;
    match i with
    | Frame [] => mret tt
    | Frame f =>
        set_error ErrorCode.ProtocolError $"zmq_router"
          ($"Expected null frame but received " ++ dec_text (zlen f) ++ $" bytes.");;
        recvmsg s;; mret tt
    | _ =>
        m ← error_text $"Failed to read delimiter frame: ";
        set_error ErrorCode.SocketError $"zmq_server" m
    end) else mret tt);;
  data ← (if bHasMessage then if_ok data (
    i ← recvmsg s;
    match i with
    | Frame f => mret f
    | _ =>
        m ← error_text $"Failed to read data frame: ";
        set_error ErrorCode.SocketError $"zmq_server" m;; mret data
    end) else mret data);
  (if bHasMessage then if_ok tt (
    if bool_decide (client = []) then
      set_error ErrorCode.ProtocolError $"zmq_clientid" $"Empty ZMQ client ID."
    else mret tt) else mret tt);;
  ok ← is_ok;
  mret (bHasMessage && ok, client, data).

(** [src/src/zmq/Server.cpp:192-208] Server::reply (one frame)

    One frame of a reply, and whether it was accepted; a short one is an error. *)
Definition send_part (s : Z) (frame : bytes) (more : bool) (failed short : cstr) : M Z :=
  r ← send s frame more;
  (if r =? -1 then
     m ← error_text failed; set_error ErrorCode.WriteError $"zmq_reply" m
   else if negb (r =? zlen frame) then
     set_error ErrorCode.WriteError $"zmq_reply"
       (short ++ Strings.to_string_int r ++ $"/" ++ dec_text (zlen frame) ++ $" bytes sent).")
   else mret tt);;
  mret (if 0 <=? r then 1 else 0).

(** [src/src/zmq/Server.cpp:245-253] Server::reply (missing frames)

    [sent] grows by one on every pass. *)
Fixpoint fill (fuel : nat) (s sent : Z) : M Z :=
  match fuel with
  | O => mret sent
  | S fuel =>
      if (0 <? sent) && (sent <? 3) then
        send s [] (negb (sent + 1 =? 3));; fill fuel s (sent + 1)
      else mret sent
  end.

(** [src/src/zmq/Server.cpp:177-254] Server::reply *)
Definition reply (client data : bytes) (x : t) : M unit :=
  (match socket x with
   | Some _ => mret tt
   | None => set_error ErrorCode.NotConnected $"zmq_reply" $"No server socket."
   end);;
  let s := default 0 (socket x) in
  if_ok tt (
    if bool_decide (client = []) then
      set_error ErrorCode.InternalError $"zmq_reply_clientid" $"No client ID provided."
    else mret tt);;
  n1 ← if_ok 0 (
    send_part s client true $"Failed to send reply client ID: " $"Failed to send full client ID (");
  n2 ← if_ok 0 (
    r ← send s [] true;
    (if r =? -1 then
       m ← error_text $"Failed to send delimiter frame: ";
       set_error ErrorCode.WriteError $"zmq_reply" m
     else mret tt);;
    mret (if 0 <=? r then 1 else 0));
  n3 ← if_ok 0 (send_part s data false $"Failed to send reply: " $"Failed to send full reply (");
  fill 2 s (n1 + n2 + n3);; mret tt.

(** [src/src/zmq/Server.cpp:256-260] Server::getFd *)
Definition getFd (x : t) : M Z := Utils.getFd (socket x).

End Code.
End Server.

Module Client.
Section Code.
Context {Q : Zmq} {N : Sodium} {K : EvpKeys}.

(** [src/src/zmq/Client.h:18-58] zmq::Client *)
Record t := mk { ctx : option Context.t; socket : option Z }.

(** [src/src/zmq/Client.cpp:14-19] Client::Client *)
Definition new (c : Context.t) : t := mk (Some c) None.

(** [src/src/zmq/Client.cpp:46-55] Client::close *)
Definition close (x : t) : M t :=
  match socket x with
  | None => mret x
  | Some s => close_socket s;; mret (mk (ctx x) None)
  end.

(** [src/src/zmq/Client.cpp:28-39] Client::operator= *)
Definition move_assign (x rhs : t) : M (t * t) :=
  close x;; mret (mk (ctx rhs) (socket rhs), mk (ctx rhs) None).

(** [src/src/zmq/Client.cpp:21-26] Client::Client(Client &&) *)
Definition move (rhs : t) : M (t * t) := move_assign (mk None None) rhs.

Definition close_on_error (x : t) : M t :=
  ok ← is_ok; if (ok : bool) then mret x else close x.

(** [src/src/zmq/Client.cpp:65-82] Client::connect *)
Definition connect (host : cstr) (port : Z) (serverKey : bytes) (x : t) : M t :=
  x ← close x;
  s ← Utils.connectSocket (ctx x) ZMQ_REQ host port serverKey;
  close_on_error (mk (ctx x) s).

(** [src/src/zmq/Client.cpp:57-63] Client::connect (unprotected) *)
Definition connect_plain (host : cstr) (port : Z) (x : t) : M t := connect host port [] x.

(** [src/src/zmq/Client.cpp:84-109] Client::send *)
Definition send (data : bytes) (x : t) : M t :=
  (match socket x with
   | Some _ => mret tt
   | None => set_error ErrorCode.NotConnected $"zmq_send" $"Not connected to server."
   end);;
  if_ok tt (
    r ← Comm.send (default 0 (socket x)) data false;
    if r =? -1 then
      m ← Server.error_text $"Failed to request to server: ";
      set_error ErrorCode.WriteError $"zmq_send" m
    else if negb (r =? zlen data) then
      set_error ErrorCode.WriteError $"zmq_send"
        ($"Failed to send full request (" ++ Strings.to_string_int r ++ $"/" ++ dec_text (zlen data) ++ $" bytes sent).")
    else mret tt);;
  close_on_error x.

(** [src/src/zmq/Client.cpp:111-147] Client::recv *)
Definition recv (data : bytes) (x : t) : M (bool * bytes * t) :=
  (match socket x with
   | Some _ => mret tt
   | None => set_error ErrorCode.NotConnected $"zmq_recv" $"Not connected to server."
   end);;
  got ← if_ok None (
    i ← recvmsg (default 0 (socket x));
    match i with
    | Again => mret None
    | RecvFailed =>
        m ← Server.error_text $"Error while reading response from server: ";
        set_error ErrorCode.ReadError $"zmq_recv" m;; mret None
    | Frame f => mret (Some f)
    end);
  x ← close_on_error x;
  ok ← is_ok;
  mret (bool_decide (is_Some got) && ok, default data got, x).

(** [src/src/zmq/Client.cpp:149-152] Client::getFd *)
Definition getFd (x : t) : M Z := Utils.getFd (socket x).

(** [src/src/zmq/Client.cpp:154-158] Client::operator bool *)
Definition good (x : t) : bool := bool_decide (is_Some (socket x)).

End Code.
End Client.

Module Publisher.
Section Code.
Context {Q : Zmq} {N : Sodium} {K : EvpKeys}.

(** [src/src/zmq/Publisher.h:18-56] zmq::Publisher *)
Record t := mk { ctx : option Context.t; socket : option Z }.

(** [src/src/zmq/Publisher.cpp:12-17] Publisher::Publisher *)
Definition new (c : Context.t) : t := mk (Some c) None.

(** [src/src/zmq/Publisher.cpp:50-62] Publisher::close *)
Definition close (x : t) : M t :=
  match socket x with
  | None => mret x
  | Some s => close_socket s;; mret (mk (ctx x) None)
  end.

(** [src/src/zmq/Publisher.cpp:26-37] Publisher::operator= *)
Definition move_assign (x rhs : t) : M (t * t) :=
  close x;; mret (mk (ctx rhs) (socket rhs), mk (ctx rhs) None).

(** [src/src/zmq/Publisher.cpp:19-24] Publisher::Publisher(Publisher &&) *)
Definition move (rhs : t) : M (t * t) := move_assign (mk None None) rhs.

(** [src/src/zmq/Publisher.cpp:72-91] Publisher::bind *)
Definition bind (host : cstr) (port : Z) (serverKey : bytes) (x : t) : M t :=
  x ← close x;
  s ← Utils.bindSocket (ctx x) ZMQ_PUB host port serverKey;
  let x := mk (ctx x) s in
  ok ← is_ok;
  if (ok : bool) then mret x else close x.

(** [src/src/zmq/Publisher.cpp:64-70] Publisher::bind (unprotected) *)
Definition bind_plain (host : cstr) (port : Z) (x : t) : M t := bind host port [] x.

(** [src/src/zmq/Publisher.cpp:110-130] Publisher::publish (one frame)

    One part of an event: accepted or not. *)
Definition send_part (s : Z) (frame : bytes) (more : bool) (failed short short_field : cstr) : M Z :=
  r ← Comm.send s frame more;
  (if r =? -1 then
     m ← Server.error_text ($"Failed to " ++ failed); set_error ErrorCode.WriteError $"zmq_publish" m
   else if negb (r =? zlen frame) then
     set_error ErrorCode.WriteError short_field
       ($"Failed to send full " ++ short ++ Strings.to_string_int r ++ $"/" ++ dec_text (zlen frame) ++ $" bytes sent).")
   else mret tt);;
  mret (if 0 <=? r then 1 else 0).

(** [src/src/zmq/Publisher.cpp:93-166] Publisher::publish *)
Definition publish (topic : cstr) (data : bytes) (x : t) : M unit :=
  (match socket x with
   | Some _ => mret tt
   | None => set_error ErrorCode.NotConnected $"zmq_publish" $"No event socket."
   end);;
  let s := default 0 (socket x) in
  if_ok tt (
    if bool_decide (topic = []) then set_error ErrorCode.InternalError $"zmq_publish" $"Empty topic." else mret tt);;
  if_ok tt (
    if bool_decide (data = []) then set_error ErrorCode.InternalError $"zmq_publish" $"No event data." else mret tt);;
  n1 ← if_ok 0 (
    send_part s topic true ($"publish topic '" ++ topic ++ $"': ") ($"topic '" ++ topic ++ $"' (") $"zmq_topic");
  n2 ← if_ok 0 (
    send_part s data false ($"send event '" ++ topic ++ $"': ") ($"event '" ++ topic ++ $"' (") $"zmq_publish");
  if n1 + n2 =? 1 then Comm.send s [] false;; mret tt else mret tt.

(** [src/src/zmq/Publisher.cpp:168-172] Publisher::getFd *)
Definition getFd (x : t) : M Z := Utils.getFd (socket x).

End Code.
End Publisher.

Module Subscriber.
Section Code.
Context {Q : Zmq} {N : Sodium} {K : EvpKeys}.

(** [src/src/zmq/Subscriber.h:18-65] zmq::Subscriber *)
Record t := mk { ctx : option Context.t; socket : option Z; subscribed : bool }.

(** [src/src/zmq/Subscriber.cpp:13-19] Subscriber::Subscriber *)
Definition new (c : Context.t) : t := mk (Some c) None false.

(** [src/src/zmq/Subscriber.cpp:54-67] Subscriber::close *)
Definition close (x : t) : M t :=
  match socket x with
  | None => mret x
  | Some s => close_socket s;; mret (mk (ctx x) None false)
  end.

(** [src/src/zmq/Subscriber.cpp:29-41] Subscriber::operator=

    [rhs] keeps its [subscribed]. *)
Definition move_assign (x rhs : t) : M (t * t) :=
  close x;; mret (mk (ctx rhs) (socket rhs) (subscribed rhs), mk (ctx rhs) None (subscribed rhs)).

(** [src/src/zmq/Subscriber.cpp:21-27] Subscriber::Subscriber(Subscriber &&) *)
Definition move (rhs : t) : M (t * t) := move_assign (mk None None false) rhs.

(** [src/src/zmq/Subscriber.cpp:77-95] Subscriber::connect *)
Definition connect (host : cstr) (port : Z) (serverKey : bytes) (x : t) : M t :=
  x ← close x;
  s ← Utils.connectSocket (ctx x) ZMQ_SUB host port serverKey;
  let x := mk (ctx x) s (subscribed x) in
  ok ← is_ok;
  if (ok : bool) then mret x else close x.

(** [src/src/zmq/Subscriber.cpp:69-75] Subscriber::connect (unprotected) *)
Definition connect_plain (host : cstr) (port : Z) (x : t) : M t := connect host port [] x.

(** [src/src/zmq/Subscriber.cpp:97-124] Subscriber::subscribe *)
Definition subscribe (topic : cstr) (x : t) : M t :=
  (match socket x with
   | Some _ => mret tt
   | None => set_error ErrorCode.NotConnected $"zmq_subscribe" $"Not connected."
   end);;
  if_ok tt (
    r ← setsockopt (default 0 (socket x)) SUBSCRIBE topic;
    if r =? 0 then mret tt
    else m ← Server.error_text ($"Failed to subscribe to topic '" ++ topic ++ $"': ");
         set_error ErrorCode.WriteError $"zmq_subscribe" m);;
  ok ← is_ok;
  if (ok : bool) then mret (mk (ctx x) (socket x) true) else mret x.

(** [src/src/zmq/Subscriber.cpp:126-130] Subscriber::subscribeAll *)
Definition subscribeAll (x : t) : M t := subscribe [] x.

(** [src/src/zmq/Subscriber.cpp:132-194] Subscriber::recv

    The result, and the caller's two variables. *)
Definition recv (topic data : bytes) (x : t) : M (bool * bytes * bytes) :=
  (match socket x with
   | Some _ => mret tt
   | None => set_error ErrorCode.NotConnected $"zmq_event" $"Not connected."
   end);;
  (if subscribed x then mret tt else set_error ErrorCode.InternalError $"zmq_event" $"Not subscribed.");;
  first ← if_ok None (
    i ← recvmsg (default 0 (socket x));
    match i with
    | Again => mret None
    | RecvFailed =>
        m ← Server.error_text $"Error while reading subscription topic from server: ";
        set_error ErrorCode.ReadError $"zmq_event" m;; mret None
    | Frame f => mret (Some f)
    end);
  data ← (match first with
    | None => mret data
    | Some _ => if_ok data (
        i ← recvmsg (default 0 (socket x));
        match i with
        | Frame f => mret f
        | _ =>
            m ← Server.error_text $"Error while reading subscription from server: ";
            set_error ErrorCode.ReadError $"zmq_event" m;; mret data
        end)
    end);
  ok ← is_ok;
  mret (ok && bool_decide (is_Some first), default topic first, data).

(** [src/src/zmq/Subscriber.cpp:196-200] Subscriber::getFd *)
Definition getFd (x : t) : M Z := Utils.getFd (socket x).

(** [src/src/zmq/Subscriber.cpp:202-205] Subscriber::operator bool *)
Definition good (x : t) : bool := bool_decide (is_Some (socket x)).

(** What is left of a moved subscriber still says it is subscribed; with no socket it can
    receive nothing all the same, but once it is connected again it receives without
    having subscribed to anything. *)
Lemma moved_stays_subscribed rhs d w :
  let '((x, rest), d', w') := move rhs d w in
  x = rhs ∧ d' = d ∧ trace w' = trace w ∧ socket rest = None ∧ subscribed rest = subscribed rhs.
Proof. by destruct rhs. Qed.

End Code.
End Subscriber.

(** ** Objects that own a socket *)

(** What the four classes share: the socket held, the operations callers have, and the
    destructor. *)
Class Endpoint (Q : Zmq) (T : Type) := {
  held : T → option Z;
  op : Type;
  exec : op → T → M T;
  destroy : T → M T;
}.

(** What each promises of every operation: it uses the socket held and no other, and
    accounts for the one held afterwards. *)
Class EndpointLaws (Q : Zmq) (T : Type) (E : Endpoint Q T) : Prop := {
  exec_accounts o x d w :
    wp (exec o x) (λ x' _ w', ∃ evs, Handles.after w evs w' ∧ Handles.handles evs (held x) = Some (held x')) d w;
  destroy_accounts x d w :
    wp (destroy x) (λ x' _ w', ∃ evs, Handles.after w evs w' ∧ Handles.handles evs (held x) = Some None) d w;
}.

(** A life: operations, each with the details its caller brings, then the destructor. *)
Fixpoint live {Q : Zmq} {T : Type} {E : Endpoint Q T} (ops : list (op * Details.t)) (x : T) (w : world) : world :=
  match ops with
  | [] => (destroy x Details.new w).2
  | (o, d) :: ops => let '(x, _, w) := exec o x d w in live ops x w
  end.

Lemma live_accounts {Q : Zmq} {T : Type} {E : Endpoint Q T} {L : EndpointLaws Q T E}
    (ops : list (op * Details.t)) (x : T) (w : world) :
  ∃ evs, Handles.after w evs (live ops x w) ∧ Handles.handles evs (held x) = Some None.
Proof.
  revert x w. induction ops as [|[o d] ops IH]; intros x w; cbn [live].
  - destruct (destroy x Details.new w) as [[x' d'] w'] eqn:E'. exact (wp_run _ _ _ _ _ _ _ E' (destroy_accounts x _ _)).
  - destruct (exec o x d w) as [[x' d'] w'] eqn:E'.
    destruct (wp_run _ _ _ _ _ _ _ E' (exec_accounts o x d w)) as (evs & Hw & Hh).
    destruct (IH x' w') as (evs' & Hw' & Hh'). exists (evs ++ evs'). split; [by eapply Handles.after_app|].
    by rewrite Handles.handles_app, Hh.
Qed.

Module Endpoints.
Import Handles UtilsProofs.
Section Instances.
Context {Q : Zmq} {N : Sodium} {K : EvpKeys}.

Inductive server_op :=
  | SBind (host : cstr) (port : Z) (key : bytes) | SRecv | SReply (client data : bytes) | SGetFd.
Inductive client_op :=
  | CConnect (host : cstr) (port : Z) (key : bytes) | CSend (data : bytes) | CRecv | CGetFd.
Inductive publisher_op :=
  | PBind (host : cstr) (port : Z) (key : bytes) | PPublish (topic : cstr) (data : bytes) | PGetFd.
Inductive subscriber_op :=
  | UConnect (host : cstr) (port : Z) (key : bytes) | USubscribe (topic : cstr) | URecv | UGetFd.

#[export] Instance server_endpoint : Endpoint Q Server.t := {|
  held := Server.socket;
  exec o x := match o with
    | SBind host port key => Server.bind host port key x
    | SRecv => Server.recv [] [] x;; mret x
    | SReply client data => Server.reply client data x;; mret x
    | SGetFd => Server.getFd x;; mret x
    end;
  destroy := Server.close |}.

#[export] Instance client_endpoint : Endpoint Q Client.t := {|
  held := Client.socket;
  exec o x := match o with
    | CConnect host port key => Client.connect host port key x
    | CSend data => Client.send data x
    | CRecv => r ← Client.recv [] x; mret r.2
    | CGetFd => Client.getFd x;; mret x
    end;
  destroy := Client.close |}.

#[export] Instance publisher_endpoint : Endpoint Q Publisher.t := {|
  held := Publisher.socket;
  exec o x := match o with
    | PBind host port key => Publisher.bind host port key x
    | PPublish topic data => Publisher.publish topic data x;; mret x
    | PGetFd => Publisher.getFd x;; mret x
    end;
  destroy := Publisher.close |}.

#[export] Instance subscriber_endpoint : Endpoint Q Subscriber.t := {|
  held := Subscriber.socket;
  exec o x := match o with
    | UConnect host port key => Subscriber.connect host port key x
    | USubscribe topic => Subscriber.subscribe topic x
    | URecv => Subscriber.recv [] [] x;; mret x
    | UGetFd => Subscriber.getFd x;; mret x
    end;
  destroy := Subscriber.close |}.

(** An operation that keeps the socket accounts for it when all its calls are on it. *)
Definition on (s : Z) (e : event) : Prop := hstep e (Some s) = Some (Some s).

(** The account of the calls just made. *)
Ltac account :=
  logged; cbn -[uses]; rewrite ?uses_self; cbn -[uses]; rewrite ?uses_self, ?bool_decide_eq_true_2 by done; reflexivity.

Lemma wp_bindSocket ctx type host port key (P : option Z → Details.t → world → Prop) d w :
  (∀ o d' w' evs, after w evs w' → handles evs None = Some o → (Details.isOk d' = false → o = None) → P o d' w') →
  wp (Utils.bindSocket ctx type host port key) P d w.
Proof.
  intros HP. eapply wp_mono; [|apply attach_bind_post]. intros o d' w' (evs & Hw & Ho & _ & Hd).
  eapply HP; [done| |].
  - eapply opened_handles, Ho; [eauto using secured_sets|]. intros. apply uses_self.
  - intros Hbad. destruct o; [|done]. rewrite Hd in Hbad by eauto. done.
Qed.

Lemma wp_connectSocket ctx type host port key (P : option Z → Details.t → world → Prop) d w :
  (∀ o d' w' evs, after w evs w' → handles evs None = Some o → (Details.isOk d' = false → o = None) → P o d' w') →
  wp (Utils.connectSocket ctx type host port key) P d w.
Proof.
  intros HP. eapply wp_mono; [|apply attach_connect_post]. intros o d' w' (evs & Hw & Ho & _ & Hd).
  eapply HP; [done| |].
  - eapply opened_handles, Ho; [eauto using secured_sets|]. intros. apply uses_self.
  - intros Hbad. destruct o; [|done]. rewrite Hd in Hbad by eauto. done.
Qed.

(** Closing what is held and opening a new socket, as all four classes do it. *)
Ltac reopen lem :=
  repeat wp_step; eapply lem; intros o d' w' evs Hw Ho Hbad; wp_steps;
  try (specialize (Hbad eq_refl); simplify_eq);
  logged; cbn -[uses]; rewrite ?bool_decide_eq_true_2 by done; cbn; exact Ho.

(** Supplying missing frames uses the socket only, and only when some frame was sent. *)
Lemma wp_fill fuel s sent (P : Z → Details.t → world → Prop) d w :
  (∀ n w' evs, after w evs w' → handles evs (Some s) = Some (Some s) → (sent = 0 → evs = []) → P n d w') →
  wp (Server.fill fuel s sent) P d w.
Proof.
  revert sent w. induction fuel as [|fuel IH]; intros sent w HP; cbn [Server.fill].
  - wp_step. apply (HP _ _ []); [apply after_nil|done..].
  - wp_step; [|wp_step; apply (HP _ _ []); [apply after_nil|done..]].
    repeat wp_step. apply IH. intros n w' evs Hw Hh _. eapply HP; [calls| |intros ->; done].
    cbn -[uses]. by rewrite uses_self.
Qed.

#[export] Instance server_laws : EndpointLaws Q Server.t server_endpoint.
Proof.
  split.
  - intros [host port key| |client data|] [c [s|]] d w; cbn [exec server_endpoint held].
    all: unfold Server.bind, Server.close, Server.recv, Server.reply, Server.send_part, Server.getFd, Utils.getFd,
           Server.error_text; cbn [Server.socket Server.ctx]; cbv zeta.
    all: first [reopen wp_bindSocket | repeat wp_step; account | idtac].
    repeat first [wp_step | apply wp_fill; intros ? ? ? ? Hh ?].
    all: logged; cbn -[uses]; rewrite ?uses_self; cbn -[uses]; rewrite ?uses_self; exact Hh.
  - intros [c [s|]] d w; cbn; unfold Server.close; cbn; wp_steps; account.

Qed.

#[export] Instance client_laws : EndpointLaws Q Client.t client_endpoint.
Proof.
  split.
  - intros [host port key|data| |] [c [s|]] d w; cbn [exec client_endpoint held].
    all: unfold Client.connect, Client.recv, Client.send, Client.close_on_error, Client.close, Client.getFd,
           Utils.getFd, Server.error_text; cbn [Client.socket Client.ctx]; cbv zeta.
    all: first [reopen wp_connectSocket | repeat wp_step; account].
  - intros [c [s|]] d w; cbn; unfold Client.close; cbn; wp_steps; account.
Qed.

#[export] Instance publisher_laws : EndpointLaws Q Publisher.t publisher_endpoint.
Proof.
  split.
  - intros [host port key|topic data|] [c [s|]] d w; cbn [exec publisher_endpoint held].
    all: unfold Publisher.bind, Publisher.close, Publisher.publish, Publisher.send_part, Publisher.getFd,
           Utils.getFd, Server.error_text; cbn [Publisher.socket Publisher.ctx]; cbv zeta.
    all: first [reopen wp_bindSocket | repeat wp_step; try discriminate; account].
  - intros [c [s|]] d w; cbn; unfold Publisher.close; cbn; wp_steps; account.
Qed.

#[export] Instance subscriber_laws : EndpointLaws Q Subscriber.t subscriber_endpoint.
Proof.
  split.
  - intros [host port key|topic| |] [c [s|] sub] d w; cbn [exec subscriber_endpoint held].
    all: unfold Subscriber.connect, Subscriber.close, Subscriber.subscribe, Subscriber.recv, Subscriber.getFd,
           Utils.getFd, Server.error_text; cbn [Subscriber.socket Subscriber.ctx Subscriber.subscribed]; cbv zeta.
    all: first [reopen wp_connectSocket | repeat wp_step; account].
  - intros [c [s|] sub] d w; cbn; unfold Subscriber.close; cbn; wp_steps; account.
Qed.

(** Sockets are not leaked, and none is used that is not held.  Over any sequence of
    operations of a server, a client, a publisher or a subscriber, whatever the library
    answers and whatever errors their callers bring, an object holds at most one socket at
    a time, every call it makes is on the socket it holds, and its destructor leaves none
    open: what was opened was closed once. *)
Theorem sockets_accounted (ctx : Context.t) (w : world) :
  (∀ ops, ∃ evs, after w evs (live ops (Server.new ctx) w) ∧ handles evs None = Some None) ∧
  (∀ ops, ∃ evs, after w evs (live ops (Client.new ctx) w) ∧ handles evs None = Some None) ∧
  (∀ ops, ∃ evs, after w evs (live ops (Publisher.new ctx) w) ∧ handles evs None = Some None) ∧
  (∀ ops, ∃ evs, after w evs (live ops (Subscriber.new ctx) w) ∧ handles evs None = Some None).
Proof.
  split_and!; intros ops; [exact (live_accounts ops (Server.new ctx) w)|exact (live_accounts ops (Client.new ctx) w)
    |exact (live_accounts ops (Publisher.new ctx) w)|exact (live_accounts ops (Subscriber.new ctx) w)].
Qed.

End Instances.
End Endpoints.

(** ** Messages of several frames *)
Module Framing.
Import Handles.

(** The frames the library took, each with whether more of its message follow. *)
Definition accepted (evs : list event) : list (bytes * bool) :=
  omap (λ e, match e with ESend _ f more r => if 0 <=? r then Some (f, more) else None | _ => None end) evs.

Definition refused (evs : list event) : nat :=
  length (omap (λ e, match e with ESend _ _ _ r => if r <? 0 then Some tt else None | _ => None end) evs).

(** A whole message of [n] frames: more follow every frame but the last. *)
Definition whole (n : nat) (fs : list (bytes * bool)) : Prop := snd <$> fs = replicate (n - 1) true ++ [false].

(** Sends of one frame each, in full. *)
Definition full (s : Z) (f : bytes) (more : bool) : event := ESend s f more (zlen f).

(** What is documented of [zmq_send] and [zmq_recvmsg]: a frame is refused or taken whole;
    frames are received in order, and nothing else happens to those waiting. *)
Class ZmqLaws (Q : Zmq) := {
  send_all l s f more : (zmq_send l s f more).1 = -1 ∨ (zmq_send l s f more).1 = zlen f;
  waiting : lib → Z → list bytes;
  recv_next l s f rest :
    waiting l s = f :: rest → (zmq_recvmsg l s).1 = Frame f ∧ waiting (zmq_recvmsg l s).2 s = rest;
  recv_none l s : waiting l s = [] → (zmq_recvmsg l s).1 = Again ∧ waiting (zmq_recvmsg l s).2 s = [];
}.

Section Sending.
Context {Q : Zmq} {L : ZmqLaws Q}.

(** What sending one message may do to the library's stream of frames: on success the
    frames of the message were taken; after an error, nothing or a whole message, unless
    two of the sends were refused. *)
Definition sent_post (w : world) (msg : list (bytes * bool)) (s : Z) (d' : Details.t) (w' : world) : Prop :=
  ∃ evs, after w evs w' ∧
    (Details.isOk d' = true → evs = (λ p, full s p.1 p.2) <$> msg ∧ accepted evs = msg) ∧
    (Details.isOk d' = false → (refused evs ≤ 1)%nat → accepted evs = [] ∨ whole (length msg) (accepted evs)).

Lemma wp_send s f more (P : Z → Details.t → world → Prop) d w :
  (∀ l, P (-1) d (World l (trace w ++ [ESend s f more (-1)]))) →
  (∀ l, P (zlen f) d (World l (trace w ++ [ESend s f more (zlen f)]))) →
  wp (Comm.send s f more) P d w.
Proof.
  intros H1 H2. unfold Comm.send. apply wp_call. intros a l Ha.
  destruct (send_all (zlib w) s f more) as [E|E]; rewrite Ha in E; simpl in E; subst; auto.
Qed.

Lemma len_tests (f : bytes) : (0 <=? zlen f) = true ∧ (zlen f <? 0) = false.
Proof. split; [apply Z.leb_le|apply Z.ltb_ge]; lia. Qed.

(** Run code that sends: each frame is refused or taken. *)
Ltac sends := repeat first [apply wp_send; intros ?; cbn beta | wp_step; cbn beta].
Ltac sent :=
  first [congruence | unfold sent_post; logged; unfold accepted, refused, full, whole, id;
    repeat match goal with |- context [negb (?a =? 3)] =>
      let v := eval vm_compute in (negb (a =? 3)) in change (negb (a =? 3)) with v end;
    cbn [omap list_omap fmap list_fmap fst snd app];
    rewrite ?(proj1 (len_tests _)), ?(proj2 (len_tests _));
    split; intros; first [congruence | cbn; auto]; exfalso;
    match goal with H : (_ ≤ 1)%nat |- _ => vm_compute in H; lia end].

Lemma reply_sends client data x s d w :
  Server.socket x = Some s →
  wp (Server.reply client data x) (λ _ d' w', sent_post w [(client, true); ([], true); (data, false)] s d' w') d w.
Proof.
  intros Hx. unfold Server.reply, Server.send_part, Server.error_text. rewrite Hx. cbv zeta. cbn [default Server.fill].
  sends.
  all: sent.
Qed.

Lemma publish_sends topic data x s d w :
  Publisher.socket x = Some s →
  wp (Publisher.publish topic data x) (λ _ d' w', sent_post w [(topic, true); (data, false)] s d' w') d w.
Proof.
  intros Hx. unfold Publisher.publish, Publisher.send_part, Server.error_text. rewrite Hx. cbv zeta. cbn [default].
  sends.
  all: sent.
Qed.

(** An event none of whose frames is refused is handed over. *)
Lemma publish_taken topic data x s d w :
  Publisher.socket x = Some s → topic ≠ [] → data ≠ [] → Details.isOk d = true →
  wp (Publisher.publish topic data x)
    (λ _ _ w', ∃ evs, after w evs w' ∧ (refused evs = 0%nat → accepted evs = [(topic, true); (data, false)])) d w.
Proof.
  intros Hx Ht Hdata Hd. unfold Publisher.publish, Publisher.send_part, Server.error_text. rewrite Hx. cbv zeta. cbn [default].
  sends.
  all: try congruence; try (by apply bool_decide_eq_true in Heqb); try (by apply bool_decide_eq_true in Heqb0).
  all: logged; unfold accepted, refused, id; cbn [omap list_omap app]; rewrite ?(proj1 (len_tests _)), ?(proj2 (len_tests _));
    intros Hr; first [done | cbn in Hr; discriminate Hr].
Qed.

(** C25: Messages are not torn.  A reply that succeeds handed over exactly the client, a
    delimiter and the data, an event exactly its topic and its data, in one message; when
    it fails, the frames still handed over complete a message of the right number of
    frames, so that the next one starts afresh, unless a second send was refused while
    completing it. *)
Theorem messages_not_torn (s : Z) (d : Details.t) (w : world) (a b : bytes) (x : Server.t) (y : Publisher.t)
    (Hx : Server.socket x = Some s) (Hy : Publisher.socket y = Some s) :
  (let '(_, d', w') := Server.reply a b x d w in sent_post w [(a, true); ([], true); (b, false)] s d' w') ∧
  (let '(_, d', w') := Publisher.publish a b y d w in sent_post w [(a, true); (b, false)] s d' w').
Proof. split; [exact (reply_sends a b x s d w Hx)|exact (publish_sends a b y s d w Hy)]. Qed.

End Sending.

Section Receiving.
Context {Q : Zmq} {L : ZmqLaws Q}.

Lemma wp_recv_next s f rest (P : incoming → Details.t → world → Prop) d w :
  waiting (zlib w) s = f :: rest →
  (∀ w', waiting (zlib w') s = rest → trace w' = trace w ++ [ERecv s (Frame f)] → P (Frame f) d w') →
  wp (recvmsg s) P d w.
Proof.
  intros Hw HP. unfold recvmsg. apply wp_call. intros i l Hi. destruct (recv_next _ _ _ _ Hw) as [H1 H2].
  rewrite Hi in H1, H2. simpl in H1, H2. subst i. by apply HP.
Qed.

Lemma wp_recv_none s (P : incoming → Details.t → world → Prop) d w :
  waiting (zlib w) s = [] →
  (∀ w', waiting (zlib w') s = [] → trace w' = trace w ++ [ERecv s Again] → P Again d w') →
  wp (recvmsg s) P d w.
Proof.
  intros Hw HP. unfold recvmsg. apply wp_call. intros i l Hi. destruct (recv_none _ _ Hw) as [H1 H2].
  rewrite Hi in H1, H2. simpl in H1, H2. subst i. by apply HP.
Qed.

(** Run code that receives what is waiting. *)
Ltac recvs :=
  repeat first [eapply wp_recv_next; [eassumption|]; intros ? ? ?; cbn beta iota
               |eapply wp_recv_none; [eassumption|]; intros ? ? ?; cbn beta iota
               |wp_step; cbn beta; cbn [default]].

(** One request, whatever message its frames came in. *)
Lemma recv_request client data id_ body rest x s d w :
  Server.socket x = Some s → Details.isOk d = true → id_ ≠ [] →
  waiting (zlib w) s = id_ :: [] :: body :: rest →
  wp (Server.recv client data x) (λ r d' w', r = (true, id_, body) ∧ d' = d ∧ waiting (zlib w') s = rest) d w.
Proof.
  intros Hx Hd Hid Hw. unfold Server.recv. rewrite Hx. cbv zeta.
  recvs.
  all: try (by apply bool_decide_eq_true in Heqb0).
  all: try (by apply bool_decide_eq_false in Heqb; destruct Heqb; eexists).
  by rewrite Hd.
Qed.

(** A second frame that is not empty is an error; one frame more is thrown away. *)
Lemma recv_bad_delimiter client data p c f third rest x s d w :
  Server.socket x = Some s → Details.isOk d = true → waiting (zlib w) s = p :: (c :: f) :: third :: rest →
  wp (Server.recv client data x)
    (λ r d' w', r.1.1 = false ∧ Details.isOk d' = false ∧ waiting (zlib w') s = rest) d w.
Proof.
  intros Hx Hd Hw. unfold Server.recv. rewrite Hx. cbv zeta. recvs.
  all: try (by apply bool_decide_eq_false in Heqb; destruct Heqb; eexists).
  by cbn.
Qed.

Lemma recv_nothing client data x s d w :
  Server.socket x = Some s → Details.isOk d = true → waiting (zlib w) s = [] →
  wp (Server.recv client data x) (λ r d' w', r = (false, client, data) ∧ d' = d ∧ waiting (zlib w') s = []) d w.
Proof.
  intros Hx Hd Hw. unfold Server.recv. rewrite Hx. cbv zeta.
  recvs; [|done]. by apply bool_decide_eq_true in Heqb as [? ?].
Qed.

(** A server reading request after request. *)
Fixpoint receive (n : nat) (x : Server.t) : M (list (bytes * bytes)) :=
  match n with
  | O => mret []
  | S n =>
      r ← Server.recv [] [] x;
      rest ← receive n x;
      mret (if (r.1.1 : bool) then (r.1.2, r.2) :: rest else rest)
  end.

(** The frames of a request as they reach the server: its sender, a delimiter, its body. *)
Definition request (m : bytes * bytes) : list bytes := [m.1; []; m.2].

Lemma receive_stream ms rest x s d w :
  Server.socket x = Some s → Details.isOk d = true → Forall (λ m, m.1 ≠ []) ms →
  waiting (zlib w) s = concat (request <$> ms) ++ rest →
  wp (receive (length ms) x) (λ r d' w', r = ms ∧ d' = d ∧ waiting (zlib w') s = rest) d w.
Proof.
  intros Hx Hd Hms. revert w. induction Hms as [|[i b] ms Hi _ IH]; intros w Hw; [done|].
  cbn [receive length]. wp_step. eapply wp_mono; [|exact (recv_request [] [] i b _ x s d w Hx Hd Hi Hw)].
  intros r d' w' (-> & -> & Hw'). cbn beta. wp_step. eapply wp_mono; [|exact (IH w' Hw')].
  intros r d' w'' (-> & -> & Hw''). done.
Qed.

(** A server receives what was sent to it: requests that wait on its socket are returned
    one by one, each with its sender and its body, in their order, and nothing is left of
    them; then it says there is nothing, without an error. *)
Theorem server_receives (ms : list (bytes * bytes)) (x : Server.t) (s : Z) (d : Details.t) (w : world)
    (Hx : Server.socket x = Some s) (Hd : Details.isOk d = true) (Hms : Forall (λ m, m.1 ≠ []) ms)
    (Hw : waiting (zlib w) s = concat (request <$> ms)) :
  let '(r, d', w') := receive (length ms) x d w in
  r = ms ∧ d' = d ∧
  let '(r, d'', _) := Server.recv [] [] x d' w' in r = (false, [], []) ∧ d'' = d.
Proof.
  assert (Hw0 : waiting (zlib w) s = concat (request <$> ms) ++ []) by by rewrite app_nil_r.
  pose proof (receive_stream ms [] x s d w Hx Hd Hms Hw0) as H. unfold wp in H.
  destruct (receive (length ms) x d w) as [[r d'] w']. destruct H as (-> & -> & Hw'). split_and!; [done..|].
  eapply wp_mono; [|exact (recv_nothing [] [] x s d w' Hx Hd Hw')]. by intros r d'' w'' (-> & -> & _).
Qed.

(** What the router delivers of a message: the identity of the peer that sent it, and then
    the frames that peer chose. *)
Definition delivered (peer : bytes) (parts : list bytes) : list bytes := peer :: parts.

(** The sender of a request is whoever the request says.  A request is taken to be the
    next three frames, and whether they are of one message is not asked: a peer that sends
    one message of five frames is heard twice, the second time as any peer it names, with
    a body of its choice. *)
Theorem sender_forged (me victim body forged : bytes) (x : Server.t) (s : Z) (d : Details.t) (w : world)
    (Hx : Server.socket x = Some s) (Hd : Details.isOk d = true) (Hme : me ≠ []) (Hv : victim ≠ [])
    (Hw : waiting (zlib w) s = delivered me [[]; body; victim; []; forged]) :
  let '(r, _, _) := receive 2 x d w in r = [(me, body); (victim, forged)].
Proof.
  assert (Hms : Forall (λ m : bytes * bytes, m.1 ≠ []) [(me, body); (victim, forged)]) by by repeat constructor.
  eapply wp_mono; [|exact (receive_stream [(me, body); (victim, forged)] [] x s d w Hx Hd Hms Hw)].
  by intros r d' w' (-> & _).
Qed.

Lemma recv_event topic data t b rest x s d w :
  Subscriber.socket x = Some s → Subscriber.subscribed x = true → Details.isOk d = true →
  waiting (zlib w) s = t :: b :: rest →
  wp (Subscriber.recv topic data x) (λ r d' w', r = (true, t, b) ∧ d' = d ∧ waiting (zlib w') s = rest) d w.
Proof.
  intros Hx Hs Hd Hw. unfold Subscriber.recv. rewrite Hx, Hs. cbv zeta. cbn [default].
  recvs. by rewrite Hd.
Qed.

(** What is published is received: when publishing succeeds, the frames the library took
    are, for a subscriber they reach, exactly the published topic and data. *)
Theorem published_is_received (topic : cstr) (data : bytes) (x : Publisher.t) (y : Subscriber.t) (s s' : Z)
    (rest : list bytes) (d d' d'' : Details.t) (w w' w'' : world)
    (Hx : Publisher.socket x = Some s) (Hp : Publisher.publish topic data x d w = (tt, d', w'))
    (Hok : Details.isOk d' = true)
    (Hy : Subscriber.socket y = Some s') (Hs : Subscriber.subscribed y = true) (Hd : Details.isOk d'' = true)
    (Hw : waiting (zlib w'') s' = (fst <$> accepted (drop (length (trace w)) (trace w'))) ++ rest) :
  let '(r, d3, w3) := Subscriber.recv [] [] y d'' w'' in
  r = (true, topic, data) ∧ d3 = d'' ∧ waiting (zlib w3) s' = rest.
Proof.
  destruct (wp_run _ _ _ _ _ _ _ Hp (publish_sends topic data x s d w Hx)) as (evs & Htr & Hsent & _).
  destruct (Hsent Hok) as [_ Hacc]. unfold after in Htr.
  rewrite Htr, drop_app_length, Hacc in Hw.
  exact (recv_event [] [] topic data rest y s' d'' w'' Hy Hs Hd Hw).
Qed.

End Receiving.
End Framing.

Module ZmqExamples.
Import Framing.

(** A library whose sockets take every frame into the queue of the next socket. *)
#[export] Instance ToyZmq : Zmq := {|
  lib := Z → list bytes;
  zmq_ctx_new l := (Some 1, l);
  zmq_ctx_shutdown l _ := (0, l);
  zmq_ctx_destroy l _ := (0, l);
  zmq_socket l _ _ := (Some 7, l);
  zmq_close l _ := (0, l);
  zmq_setsockopt l _ _ _ := (0, l);
  zmq_getsockopt_fd l _ := (Some 3, l);
  zmq_bind l _ _ := (0, l);
  zmq_connect l _ _ := (0, l);
  zmq_send l s f _ := (zlen f, λ i, if i =? s + 1 then l i ++ [f] else l i);
  zmq_recvmsg l s :=
    match l s with
    | [] => (Again, l)
    | f :: rest => (Frame f, λ i, if i =? s then rest else l i)
    end;
  zmq_curve_keypair l := (0, ([], []), l);
  errno _ := [] |}.

#[export] Program Instance ToyZmqLaws : ZmqLaws ToyZmq := {| waiting l s := l s |}.
Next Obligation. intros. by right. Qed.
Next Obligation. intros l s f rest H. cbn in *. rewrite H. cbn. by rewrite Z.eqb_refl. Qed.
Next Obligation. intros l s H. cbn in *. by rewrite H. Qed.

Definition queued (fs : list bytes) : world := World (Q := ToyZmq) (λ i, if i =? 7 then fs else []) [].
Definition bound : Server.t := Server.mk (Some (Some 1)) (Some 7).

Lemma messages_not_torn_witness :
  sent_post (Q := ToyZmq) (queued []) [([1], true); ([], true); ([2; 3], false)] 7 Details.new
    (Server.reply [1] [2; 3] bound Details.new (queued [])).2.
Proof.
  exact (proj1 (messages_not_torn (Q := ToyZmq) 7 Details.new (queued []) [1] [2; 3] bound
    (Publisher.mk None (Some 7)) eq_refl eq_refl)).
Defined.

Lemma server_receives_witness :
  (receive (Q := ToyZmq) 2 bound Details.new (queued [[1]; []; [10]; [2]; []; [20]])).1.1 = [([1], [10]); ([2], [20])].
Proof.
  exact (proj1 (server_receives (Q := ToyZmq) [([1], [10]); ([2], [20])] bound 7 Details.new
    (queued [[1]; []; [10]; [2]; []; [20]]) eq_refl eq_refl
    ltac:(by repeat constructor) eq_refl)).
Defined.

Lemma sender_forged_witness :
  (receive (Q := ToyZmq) 2 bound Details.new (queued [[1]; []; [10]; [9]; []; [66]])).1.1 = [([1], [10]); ([9], [66])].
Proof.
  exact (sender_forged (Q := ToyZmq) [1] [9] [10] [66] bound 7 Details.new
    (queued [[1]; []; [10]; [9]; []; [66]]) eq_refl eq_refl ltac:(done) ltac:(done) eq_refl).
Defined.

Lemma published_is_received_witness :
  (Subscriber.recv (Q := ToyZmq) [] [] (Subscriber.mk None (Some 7) true) Details.new (queued [[5]; [6]])).1.1
    = (true, [5], [6]).
Proof.
  exact (proj1 (published_is_received (Q := ToyZmq) [5] [6] (Publisher.mk None (Some 7))
    (Subscriber.mk None (Some 7) true) 7 7 [] Details.new Details.new Details.new (queued [])
    (Publisher.publish (Q := ToyZmq) [5] [6] (Publisher.mk None (Some 7)) Details.new (queued [])).2
    (queued [[5]; [6]]) eq_refl eq_refl eq_refl eq_refl eq_refl eq_refl eq_refl)).
Defined.

(** Frames past the third of one message are left for the next request; and a second frame
    that is not empty loses its message, and one frame more is thrown away. *)
Example bad_delimiter :
  (Server.recv (Q := ToyZmq) [] [] bound Details.new (queued [[1]; [4]; [10]; [2]])).1.1 = (false, [1], []).
Proof. vm_compute. reflexivity. Qed.

End ZmqExamples.
