(* ===== verification/Api.v ===== *)
(** * Requests and responses: [pb/], [svc/api]

    The catalog of message types, their packing into envelopes, and the port that reads
    requests, finds their handlers and answers.  Protocol buffers are the class [Pb]; the
    server socket is that of [Zmq], the memory of running requests that of [Async]. *)

From S2P Require Import Prelude Strings Errors Ossl AnyMap Async Zmq.

(** [google.protobuf.Any] *)
Record any := Any { type_url : cstr; value : bytes }.

(** [src/proto/comm/Request.proto:10-15] Request

    A body that is missing reads as an empty one. *)
Record request := Request { body : any; auth : option any }.

(** [src/proto/comm/Response.proto:10-27] Response *)
Record response := Response {
  code : Z; error_field : option cstr; error_string : option cstr;
  rsp_body : option any; rsp_auth : option any }.

(** [src/proto/comm/Event.proto:10-15] Event *)
Record event_msg := Event { ev_body : any; ev_auth : option any }.

(** Protocol buffers: messages with the name of their type, an empty message of the same
    type, packing, and the JSON form of the envelopes (text, or the reason there is none). *)
Class Pb := {
  message : Type;
  full_name : message → cstr;
  New : message → message;
  PackFrom : message → any;
  UnpackTo : any → message → option message;
  json_request : bytes → request + cstr;
  json_event : bytes → event_msg + cstr;
  json_of_response : response → bytes + cstr;
  json_of_event : event_msg → bytes + cstr;
}.

(** What is documented, with the prefix this project compiles into the library
    ([cmake/patches/protobuf-uri-prefix.diff]). *)
Class PbLaws (P : Pb) : Prop := {
  New_name m : full_name (New m) = full_name m;
  Pack_url m : type_url (PackFrom m) = $"fc/" ++ full_name m;
  Unpack_Pack m d : full_name d = full_name m → UnpackTo (PackFrom m) d = Some m;
  json_event_text e data : json_of_event e = inl data → json_event data = inl e;
}.

Module Catalog.
Section Code.
Context {P : Pb}.

(** [src/src/pb/Catalog.cpp:11-12] Catalog (state) *)
Record t := mk { mapDefaults : gmap cstr message; mapIds : gmap cstr Z }.

Definition empty : t := mk ∅ ∅.

(** [src/src/pb/MsgInfo.cpp:6-10] MsgInfo::getType *)
Definition getType (msg : message) : cstr := full_name msg.

(** [src/src/pb/Catalog.cpp:14-20] getTypeFromUrl *)
Definition getTypeFromUrl (url : cstr) : cstr := if is_prefix ($"fc/") url then drop 3 url else url.

(** [src/src/pb/Catalog.cpp:24-33] Catalog::registerMsg *)
Definition registerMsg (id_ : Z) (msg : message) (x : t) : t :=
  let type := getType msg in mk (<[type := msg]> (mapDefaults x)) (<[type := id_]> (mapIds x)).

(** [src/src/pb/Catalog.cpp:35-40] Catalog::getTypeId *)
Definition getTypeId (type : cstr) (x : t) : Z := default 0 (mapIds x !! getTypeFromUrl type).

(** [src/src/pb/Catalog.cpp:42-45] Catalog::getTypeId(Message) *)
Definition getTypeId_msg (msg : message) (x : t) : Z := getTypeId (getType msg) x.

(** [src/src/pb/Catalog.cpp:47-54] Catalog::newMsg *)
Definition newMsg (type : cstr) (x : t) : option message := New <$> mapDefaults x !! getTypeFromUrl type.

(** [src/src/pb/Catalog.cpp:56-60] Catalog::cleanup *)
Definition cleanup (_ : t) : t := empty.

(** Registering other types leaves a type's entries as they are. *)
Lemma register_others later (c : t) (name : cstr) :
  Forall (λ p : Z * message, full_name p.2 ≠ name) later →
  let c' := foldl (λ c p, registerMsg p.1 p.2 c) c later in
  mapDefaults c' !! name = mapDefaults c !! name ∧ mapIds c' !! name = mapIds c !! name.
Proof.
  intros Hl. revert c. induction Hl as [|[i p] later Hp _ IH]; intros c; [done|]. cbn [foldl].
  destruct (IH (registerMsg i p c)) as [H1 H2]. cbv zeta in *. cbn [fst snd]. rewrite H1, H2. simpl. by rewrite !lookup_insert_ne.
Qed.

End Code.
End Catalog.

Module AnyMessage.
Section Code.
Context {P : Pb}.

(** An error of the caller's log category. *)
Definition set_error (code : ErrorCode.t) (field msg : cstr) (d : Details.t) : Details.t :=
  Details.setError (Details.logCat d) code (Some field) msg d.

(** [src/src/pb/AnyMessage.cpp:6-22] AnyMessage::fromAny

    The message left in [output], also when there is an error. *)
Definition fromAny (input : any) (details : Details.t) (catalog : Catalog.t) : option message * Details.t :=
  let type := type_url input in
  let output := Catalog.newMsg type catalog in
  let details :=
    match output with
    | None => set_error ErrorCode.InternalError $"from_any" ($"Unknown message type '" ++ type ++ $"'.") details
    | Some _ => details
    end in
  match output with
  | Some m =>
      if Details.isOk details then
        match UnpackTo input m with
        | Some m => (Some m, details)
        | None => (output, set_error ErrorCode.InternalError $"from_any"
                             ($"Failed to deserialize any '" ++ type ++ $"'.") details)
        end
      else (output, details)
  | None => (None, details)
  end.

(** [src/src/pb/AnyMessage.cpp:24-29] AnyMessage::toAny *)
Definition toAny (input : message) : any := PackFrom input.

(** [src/src/pb/Json.cpp:8-28] Json::fromJson

    For an envelope [E]; it is left as it was made when there is an error. *)
Definition fromJson {E} (dflt : E) (parse : bytes → E + cstr) (data : bytes) (details : Details.t) : E * Details.t :=
  match parse data with
  | inl e => (e, details)
  | inr why => (dflt, set_error ErrorCode.InvalidMessageFormat $"json" ($"Failed to parse message: " ++ why) details)
  end.

(** [src/src/pb/Json.cpp:30-57] Json::toJson *)
Definition toJson {E} (print : E → bytes + cstr) (msg : E) (details : Details.t) : bytes * Details.t :=
  match print msg with
  | inr why => ([], set_error ErrorCode.InternalError $"json" ($"Failed to serialize message: " ++ why) details)
  | inl [] => ([], set_error ErrorCode.InternalError $"json" $"Serialized empty JSON message." details)
  | inl data => (data, details)
  end.

Lemma set_error_bad code field msg d : msg ≠ [] → Details.isOk (set_error code field msg d) = false.
Proof. intros H. by apply bool_decide_eq_false_2. Qed.

(** Messages survive their envelope.  For a type that was registered, whatever was
    registered after under other names, unpacking a packed message gives it back without an
    error, and the handler table is asked for the identifier it was registered with; for a
    name that was not registered the result is null and an error. *)
Theorem any_roundtrip {L : PbLaws P} (id_ : Z) (proto m : message) (later : list (Z * message)) (c : Catalog.t)
    (d : Details.t) (Hm : full_name m = full_name proto)
    (Hlater : Forall (λ p, full_name p.2 ≠ full_name proto) later)
    (Hname : is_prefix ($"fc/") (full_name m) = false) (Hd : Details.isOk d = true) :
  let c' := foldl (λ c p, Catalog.registerMsg p.1 p.2 c) (Catalog.registerMsg id_ proto c) later in
  fromAny (toAny m) d c' = (Some m, d) ∧ Catalog.getTypeId_msg m c' = id_ ∧
  fromAny (toAny m) d Catalog.empty = (None, set_error ErrorCode.InternalError $"from_any"
    ($"Unknown message type '" ++ ($"fc/" ++ full_name m) ++ $"'.") d).
Proof.
  intros c'. assert (Hurl : Catalog.getTypeFromUrl ($"fc/" ++ full_name m) = full_name m) by done.
  assert (Hreg : Catalog.mapDefaults c' !! full_name m = Some proto ∧ Catalog.mapIds c' !! full_name m = Some id_).
  { unfold c'. rewrite Hm. destruct (Catalog.register_others later (Catalog.registerMsg id_ proto c) _ Hlater) as [H1 H2].
    rewrite H1, H2.
    simpl. by rewrite !lookup_insert_eq. }
  destruct Hreg as [Hdef Hid]. unfold fromAny, toAny, Catalog.newMsg. rewrite Pack_url, Hurl, Hdef. cbn [fmap option_fmap option_map].
  rewrite Hd, Unpack_Pack by by rewrite New_name. split_and!; [done| |].
  - unfold Catalog.getTypeId_msg, Catalog.getTypeId, Catalog.getType, Catalog.getTypeFromUrl. by rewrite Hname, Hid.
  - cbn [Catalog.empty Catalog.mapDefaults]. by rewrite lookup_empty.
Qed.

End Code.
End AnyMessage.

(** How a call ends: with a result, at a null reference, not at all, or with an exception
    that nobody catches. *)
Inductive outcome (A : Type) := Done (a : A) | NullDeref | Hangs | Throws.
Arguments Done {A} _.
Arguments NullDeref {A}.
Arguments Hangs {A}.
Arguments Throws {A}.

Module ServiceScene.

(** [src/src/svc/service/ServiceScene.h:22-58] ServiceScene

    The objects a service offers its handlers, by the hash of their type; and the status
    the service was last asked to take. *)
Record t := mk { utils : gmap Z Z; status : option Z }.

(** [src/src/svc/service/ServiceScene.cpp:6-14] ServiceScene::ServiceScene *)
Definition new : t := mk ∅ None.

(** [src/src/svc/service/ServiceScene.cpp:16-19] ServiceScene::setStatus *)
Definition setStatus (code : Z) (x : t) : t := mk (utils x) (Some code).

(** [src/src/svc/service/ServiceScene.cpp:21-25] ServiceScene::getPtr

    [None] is a null pointer, which [get] makes a reference. *)
Definition getPtr (h : Z) (x : t) : option Z := utils x !! h.

(** [src/src/svc/service/ServiceScene.cpp:27-30] ServiceScene::setPtr *)
Definition setPtr (h p : Z) (x : t) : t := mk (<[h := p]> (utils x)) (status x).

(** The last object set under a type is the one found; a type never set is null. *)
Lemma scene_get h h' p (x : t) :
  getPtr h (setPtr h p x) = Some p ∧ (h ≠ h' → getPtr h' (setPtr h p x) = getPtr h' x) ∧ getPtr h new = None.
Proof.
  unfold getPtr, setPtr. simpl. split_and!; [by rewrite lookup_insert_eq|intros; by rewrite lookup_insert_ne|done].
Qed.

End ServiceScene.

Module RequestScene.
Section Code.
Context {T : Types} {P : Pb}.

(** [src/src/svc/api/RequestScene.h:20-65] RequestScene *)
Record t := mk { deets : DetailsMap.t; msg : option message }.

(** [src/src/svc/api/RequestScene.cpp:6-10] RequestScene::RequestScene *)
Definition new : t := mk DetailsMap.new None.

(** [src/src/svc/api/RequestScene.cpp:12-15] RequestScene::setRequest *)
Definition setRequest (m : option message) (x : t) : t := mk (deets x) m.

(** [src/src/svc/api/RequestScene.cpp:32-35] RequestScene::isOk *)
Definition isOk (x : t) : bool := DetailsMap.isOk (deets x).

(** [src/src/svc/api/RequestScene.cpp:37-40] RequestScene::getError *)
Definition getError (x : t) : ErrorStatus.t := Details.errorStatus (DetailsMap.error (deets x)).

(** The error part of the scene's details, and the scene with another. *)
Definition details (x : t) : Details.t := DetailsMap.error (deets x).
Definition set_details (d : Details.t) (x : t) : t := mk (DetailsMap.mk d (DetailsMap.any (deets x))) (msg x).

(** [src/src/svc/api/RequestScene.h:48-51] RequestScene::setError *)
Definition setError (cat : Z) (code : ErrorCode.t) (field text : cstr) (x : t) : t :=
  set_details (Details.setError cat code (Some field) text (details x)) x.

(** [src/src/svc/api/RequestScene.cpp:42-45] RequestScene::operator+=

    The scene and what is left of the details merged into it. *)
Definition plus (rhs : DetailsMap.t) (x : t) : t * DetailsMap.t :=
  let '(d, rhs) := DetailsMap.plus_move (deets x) rhs in (mk d (msg x), rhs).

(** An error merged into a scene is lost. *)
Lemma plus_loses_error rhs x : isOk x = true → isOk (plus rhs x).1 = true.
Proof.
  intros H. unfold plus, isOk in *. destruct (DetailsMap.plus_move_drops_error (deets x) rhs) as (Hp & _).
  destruct (DetailsMap.plus_move (deets x) rhs) as [d r]. simpl in *. by rewrite Hp.
Qed.

End Code.
End RequestScene.

Module ApiHandlerMap.
Section Code.
Context {T : Types} {P : Pb}.

(** A handler, run to its end on the scene and the request: what it answers, if anything,
    and the scene as it leaves it. *)
Definition Handler : Type := message → RequestScene.t → option message * RequestScene.t.

(** [src/src/svc/api/ApiHandlerMap.h:48-48] ApiHandlerMap (handlers) *)
Definition t : Type := gmap Z Handler.

(** [src/src/svc/api/ApiHandlerMap.cpp:6-10] ApiHandlerMap::get *)
Definition get (reqType : Z) (x : t) : option Handler := x !! reqType.

(** [src/src/svc/api/ApiHandlerMap.cpp:12-15] ApiHandlerMap::add *)
Definition add (reqType : Z) (h : Handler) (x : t) : t := <[reqType := h]> x.

(** [src/src/svc/api/ApiHandlerMap.h:32-43] ApiHandlerMap::add<Request>

    The type, its identifier and default instance, is put in the catalog too. *)
Definition add_typed (id_ : Z) (proto : message) (h : Handler) (x : t) (c : Catalog.t) : t * Catalog.t :=
  (add id_ h x, Catalog.registerMsg id_ proto c).

End Code.
End ApiHandlerMap.

Module ApiPort.
Section Code.
Context {T : Types} {P : Pb} {Q : Zmq} {N : Sodium} {K : EvpKeys}.
Import ApiHandlerMap.

(** [src/src/svc/api/IAuthenticator.h:13-35] IAuthenticator

    An authenticator of the service: what it does to the scene of a request with or without
    authentication, and to the response's. *)
Record IAuthenticator := Authenticator {
  authenticateScene : RequestScene.t → any → RequestScene.t;
  noAuth : RequestScene.t → RequestScene.t;
  setResponseAuth : RequestScene.t → RequestScene.t * any;
}.

Variable apiLog : Z.
Variable catalog : Catalog.t.

(** [src/src/svc/api/ApiPort.h:22-63] ApiPort

    [listening] is whether [read] was handed to the socket and will be called again,
    [trove] the scenes of running requests by their addresses. *)
Record t := mk {
  handlers : ApiHandlerMap.t;
  authenticator : option IAuthenticator;
  server : Server.t;
  listening : bool;
  requestId : Z;
  trove : TreasureTrove.t;
}.

(** [src/src/svc/api/ApiPort.cpp:19-29] ApiPort::ApiPort *)
Definition new (zmqCtx : Context.t) (h : ApiHandlerMap.t) : t := mk h None (Server.new zmqCtx) false 0 [].

(** [src/src/svc/api/ApiPort.cpp:31-35] ApiPort::setAuthenticator *)
Definition setAuthenticator (a : option IAuthenticator) (x : t) : t :=
  mk (handlers x) a (server x) (listening x) (requestId x) (trove x).

Definition with_server (s : Server.t) (l : bool) (x : t) : t :=
  mk (handlers x) (authenticator x) s l (requestId x) (trove x).
Definition with_trove (n : Z) (m : TreasureTrove.t) (x : t) : t :=
  mk (handlers x) (authenticator x) (server x) (listening x) n m.

(** A computation on details of its own. *)
Definition locally {A} (d : Details.t) (m : M A) : M (A * Details.t) :=
  λ d0 w, let '(a, d, w) := m d w in ((a, d), d0, w).

(** [src/src/svc/api/ApiPort.cpp:56-92] ApiPort::read

    The request for which a task was started, if any, and the port, called with the
    caller's details. *)
Definition read (x : t) : M (option (bytes * bytes) * t) :=
  let x := with_server (server x) false x in
  ok ← is_ok;
  if negb ok then
    set_error ErrorCode.SocketError $"api_port_read" $"Received error when reading on API port.";; mret (None, x)
  else
    r ← Server.recv [] [] (server x);
    let '(bHasMessage, clientId, message) := r in
    ok ← is_ok;
    if negb ok then
      set_error ErrorCode.ReadError $"api_port_read" $"Received error when reading message on API port.";;
      mret (None, x)
    else mret (if (bHasMessage : bool) then Some (clientId, message) else None, with_server (server x) true x).

(** [src/src/svc/api/ApiPort.cpp:37-54] ApiPort::openPort

    A new [UncontrolledSocket] is taken to have something to read, so that asking it for an
    event calls [read] at once; asio throws when it is given a descriptor that is none. *)
Definition openPort (port : Z) (serverKey : bytes) (x : t) : M (outcome (bool * option (bytes * bytes) * t)) :=
  r ← locally Details.new (
    s ← Server.bind [] port serverKey (server x);
    ok ← is_ok;
    if (ok : bool) then
      fd ← Server.getFd s;
      if fd =? -1 then mret None
      else r ← read (with_server s (listening x) x); mret (Some r)
    else mret (Some (None, with_server s (listening x) x)));
  mret (match r with
        | (Some (got, x), d) => Done (Details.isOk d, got, x)
        | (None, _) => Throws
        end).

(** [src/src/svc/api/ApiPort.cpp:98-149] ApiPort::handleRequest (up to the handler)

    The scene with its request, and the handler found; [None] at a null reference. *)
Definition prepare (msgData : bytes) (x : t) : option (RequestScene.t * option Handler) :=
  let scene := RequestScene.new in
  let '(envelope, d) := AnyMessage.fromJson (Request (Any [] []) None) json_request msgData (RequestScene.details scene) in
  let '(request, d) := if Details.isOk d then AnyMessage.fromAny (body envelope) d catalog else (None, d) in
  let scene := RequestScene.set_details d scene in
  let scene :=
    if RequestScene.isOk scene then
      match auth envelope, authenticator x with
      | Some a, Some authn => authenticateScene authn scene a
      | None, Some authn => noAuth authn scene
      | _, None => scene
      end
    else scene in
  '(handler, scene) ← (
    if RequestScene.isOk scene then
      req ← request;
      let reqType := Catalog.getTypeId_msg req catalog in
      Some (match ApiHandlerMap.get reqType (handlers x) with
            | Some h => (Some h, scene)
            | None => (None, RequestScene.setError apiLog ErrorCode.UnknownCommand $"request_type"
                               $"Unknown request type '%s'." scene)
            end)
    else Some (None, scene));
  Some (RequestScene.setRequest request scene, handler).

(** [src/src/svc/api/ApiPort.cpp:173-198] ApiPort::handleResponse (the message)

    [None] when the scene has no request: the first line of the log asks it for its
    type. *)
Definition respond (scene : RequestScene.t) (msg : option message) (x : t) : option response :=
  _ ← RequestScene.msg scene;
  let rsp_body := if RequestScene.isOk scene then AnyMessage.toAny <$> msg else None in
  let '(scene, rsp_auth) :=
    match authenticator x with
    | Some authn => let '(scene, a) := setResponseAuth authn scene in (scene, Some a)
    | None => (scene, None)
    end in
  let e := RequestScene.getError scene in
  let text s := if bool_decide (s = []) then None else Some s in
  Some (if RequestScene.isOk scene then Response (ErrorCode.to_int ErrorCode.None_) None None rsp_body rsp_auth
        else Response (ErrorCode.to_int (ErrorStatus.errorCode e)) (text (ErrorStatus.errorField e))
               (text (ErrorStatus.errorStr e)) rsp_body rsp_auth).

(** [src/src/svc/api/ApiPort.cpp:168-211] ApiPort::handleResponse

    [fuel] bounds the search of the trove for the scene, which is at [addr]. *)
Definition handleResponse (fuel : nat) (addr : Z) (scene : RequestScene.t) (client : bytes) (msg : option message)
    (x : t) : M (outcome t) :=
  match respond scene msg x with
  | None => mret NullDeref
  | Some rsp =>
      let '(rspJson, replyDetails) := AnyMessage.toJson json_of_response rsp Details.new in
      locally replyDetails (Server.reply client rspJson (server x));;
      mret (match TreasureTrove.cleanup fuel addr (trove x) with
            | Some m => Done (with_trove (requestId x) m x)
            | None => Hangs
            end)
  end.

(** [src/src/svc/api/ApiPort.cpp:94-166] ApiPort::handleRequest

    For a handler that runs to its end at once; its scene is made at [addr]. *)
Definition handleRequest (fuel : nat) (addr : Z) (client msgData : bytes) (x : t) : M (outcome t) :=
  let x := with_trove (u64 (requestId x + 1)) (trove x) x in
  match prepare msgData x with
  | None => mret NullDeref
  | Some (scene, None) => handleResponse fuel addr scene client None x
  | Some (scene, Some handler) =>
      let x := with_trove (requestId x) (TreasureTrove.add addr (trove x)) x in
      match RequestScene.msg scene with
      | None => mret NullDeref
      | Some req => let '(msg, scene) := handler req scene in handleResponse fuel addr scene client msg x
      end
  end.

End Code.
End ApiPort.

Module ApiProofs.
Import ApiPort ApiHandlerMap.
Section Proofs.
Context {T : Types} {P : Pb} {Q : Zmq} {N : Sodium} {K : EvpKeys}.
Variable apiLog : Z.
Variable catalog : Catalog.t.

(** A request answered with [rsp]: the response's text is handed to the client who asked,
    the caller's details are untouched, and no scene is left behind. *)
Definition answered (client : bytes) (rsp : response) (x : ApiPort.t) (d : Details.t) (w : world)
  : outcome ApiPort.t * Details.t * world :=
  let '(json, replyDetails) := AnyMessage.toJson json_of_response rsp Details.new in
  (Done (with_trove (u64 (requestId x + 1)) [] x), d, (Server.reply client json (server x) replyDetails w).2).

Lemma cleanup_nil fuel addr : TreasureTrove.cleanup (S fuel) addr [] = Some [].
Proof. done. Qed.

Lemma cleanup_first fuel addr m : TreasureTrove.cleanup (S fuel) addr (addr :: m) = Some m.
Proof. unfold TreasureTrove.cleanup. cbn. by rewrite Z.eqb_refl. Qed.

Lemma cleanup_other fuel addr a m : a ≠ addr → TreasureTrove.cleanup fuel addr (a :: m) = None.
Proof. intros H. by apply (TreasureTrove.cleanup_loop_stuck fuel addr (a :: m) a). Qed.

(** What answering does, given how the search of the trove ends. *)
Lemma handleResponse_run fuel addr scene client msg x d w rsp :
  respond scene msg x = Some rsp →
  handleResponse fuel addr scene client msg x d w =
  let '(json, rd) := AnyMessage.toJson json_of_response rsp Details.new in
  (match TreasureTrove.cleanup fuel addr (trove x) with
   | Some m => Done (with_trove (requestId x) m x)
   | None => Hangs
   end, d, (Server.reply client json (server x) rd w).2).
Proof.
  intros H. unfold handleResponse. rewrite H. destruct (AnyMessage.toJson _ rsp Details.new) as [json rd].
  unfold mbind, M_bind, locally. by destruct (Server.reply client json (server x) rd w) as [[[] d'] w'].
Qed.

(** A scene that has its request can be answered. *)
Lemma respond_some scene msg (x : ApiPort.t) : is_Some (RequestScene.msg scene) → is_Some (respond scene msg x).
Proof. intros [m Hm]. unfold respond. rewrite Hm. simpl. destruct (authenticator x); [destruct (setResponseAuth _ _)|]; by eexists. Qed.

(** What the authenticator makes of a new request. *)
Definition authenticated (env : request) (x : ApiPort.t) : RequestScene.t :=
  match auth env, authenticator x with
  | Some a, Some authn => authenticateScene authn RequestScene.new a
  | None, Some authn => noAuth authn RequestScene.new
  | _, None => RequestScene.new
  end.

Definition no_handler (s : RequestScene.t) : RequestScene.t :=
  RequestScene.setError apiLog ErrorCode.UnknownCommand $"request_type" $"Unknown request type '%s'." s.

(** The scene and handler a request is given, case by case. *)
Lemma prepare_unparsed data x why : json_request data = inr why →
  ∃ scene, prepare apiLog catalog data x = Some (scene, None) ∧ RequestScene.msg scene = None.
Proof.
  intros H. unfold prepare, AnyMessage.fromJson. rewrite H. cbv beta iota zeta.
  rewrite AnyMessage.set_error_bad by done. cbn [RequestScene.isOk DetailsMap.isOk].
  unfold RequestScene.isOk, DetailsMap.isOk. cbn [RequestScene.set_details RequestScene.deets DetailsMap.error].
  rewrite AnyMessage.set_error_bad by done. simpl. by eexists.
Qed.

Lemma prepare_unknown data x env : json_request data = inl env → Catalog.newMsg (type_url (body env)) catalog = None →
  ∃ scene, prepare apiLog catalog data x = Some (scene, None) ∧ RequestScene.msg scene = None.
Proof.
  intros H Hn. unfold prepare, AnyMessage.fromJson, AnyMessage.fromAny. rewrite H, Hn. cbv beta iota zeta.
  change (Details.isOk (RequestScene.details RequestScene.new)) with true. cbv iota beta.
  unfold RequestScene.isOk, DetailsMap.isOk. cbn [RequestScene.set_details RequestScene.deets DetailsMap.error].
  rewrite AnyMessage.set_error_bad by done. simpl. by eexists.
Qed.

(** The scene of a request whose body does not unpack. *)
Definition not_unpacked (env : request) : RequestScene.t :=
  RequestScene.set_details (AnyMessage.set_error ErrorCode.InternalError $"from_any"
    ($"Failed to deserialize any '" ++ type_url (body env) ++ $"'.") Details.new) RequestScene.new.

Lemma prepare_not_unpacked data x env m :
  json_request data = inl env → Catalog.newMsg (type_url (body env)) catalog = Some m → UnpackTo (body env) m = None →
  prepare apiLog catalog data x = Some (RequestScene.setRequest (Some m) (not_unpacked env), None).
Proof.
  intros H Hn Hu. unfold prepare, AnyMessage.fromJson, AnyMessage.fromAny. rewrite H, Hn. cbv beta iota zeta.
  change (Details.isOk (RequestScene.details RequestScene.new)) with true. cbv iota. rewrite Hu.
  unfold RequestScene.isOk, DetailsMap.isOk. cbn [RequestScene.set_details RequestScene.deets DetailsMap.error].
  by rewrite AnyMessage.set_error_bad.
Qed.

Lemma prepare_unpacked data x env m req :
  json_request data = inl env → Catalog.newMsg (type_url (body env)) catalog = Some m → UnpackTo (body env) m = Some req →
  let s := authenticated env x in
  prepare apiLog catalog data x =
  Some (if RequestScene.isOk s then
          match ApiHandlerMap.get (Catalog.getTypeId_msg req catalog) (handlers x) with
          | Some h => (RequestScene.setRequest (Some req) s, Some h)
          | None => (RequestScene.setRequest (Some req) (no_handler s), None)
          end
        else (RequestScene.setRequest (Some req) s, None)).
Proof.
  intros H Hn Hu s. unfold prepare, AnyMessage.fromJson, AnyMessage.fromAny. rewrite H, Hn. cbv beta iota zeta.
  change (Details.isOk (RequestScene.details RequestScene.new)) with true. cbv iota. rewrite Hu.
  change (RequestScene.isOk (RequestScene.set_details (RequestScene.details RequestScene.new) RequestScene.new)) with true.
  cbv iota. change (RequestScene.set_details (RequestScene.details RequestScene.new) RequestScene.new) with RequestScene.new.
  fold (authenticated env x). unfold s. destruct (auth env), (authenticator x); cbn; unfold no_handler; simpl.
  all: repeat case_match; simplify_eq; done.
Qed.

(** The counter and the memory of requests play no part in preparing or answering one. *)
Lemma prepare_idle data n m (x : ApiPort.t) : prepare apiLog catalog data (with_trove n m x) = prepare apiLog catalog data x.
Proof. done. Qed.

Lemma respond_idle scene msg n m (x : ApiPort.t) : respond scene msg (with_trove n m x) = respond scene msg x.
Proof. done. Qed.

(** A request that is answered without being put into the trove. *)
Lemma run_unhandled fuel addr client data x d w scene rsp :
  prepare apiLog catalog data x = Some (scene, None) → respond scene None x = Some rsp → trove x = [] →
  handleRequest apiLog catalog (S fuel) addr client data x d w = answered client rsp x d w.
Proof.
  intros Hp Hr Ht. unfold handleRequest. rewrite prepare_idle, Hp.
  rewrite (handleResponse_run _ _ _ _ _ _ _ _ rsp) by (by rewrite ?respond_idle). unfold answered.
  destruct (AnyMessage.toJson _ rsp Details.new) as [json rd]. cbn [trove with_trove]. by rewrite Ht, cleanup_nil.
Qed.

(** One that is: the handler runs with its scene held, which is then given up. *)
Lemma run_handled fuel addr client data x d w scene h req rsp :
  prepare apiLog catalog data x = Some (scene, Some h) → RequestScene.msg scene = Some req →
  respond (h req scene).2 (h req scene).1 x = Some rsp → trove x = [] →
  handleRequest apiLog catalog (S fuel) addr client data x d w = answered client rsp x d w.
Proof.
  intros Hp Hm Hr Ht. unfold handleRequest. rewrite prepare_idle, Hp.
  rewrite Hm. destruct (h req scene) as [m s]. cbn [fst snd] in Hr.
  rewrite (handleResponse_run _ _ _ _ _ _ _ _ rsp) by (by rewrite ?respond_idle). unfold answered.
  destruct (AnyMessage.toJson _ rsp Details.new) as [json rd]. cbn [trove with_trove]. rewrite Ht.
  unfold TreasureTrove.add. cbn [app]. by rewrite cleanup_first.
Qed.

(** A request without a message brings the service down. *)
Lemma run_null fuel addr client data x d w scene :
  prepare apiLog catalog data x = Some (scene, None) → RequestScene.msg scene = None →
  handleRequest apiLog catalog fuel addr client data x d w = (NullDeref, d, w).
Proof.
  intros Hp Hm. unfold handleRequest. rewrite prepare_idle, Hp.
  unfold handleResponse, respond. by rewrite Hm.
Qed.

(** The answers a lone request gets. *)
Definition answers (fuel : nat) (addr : Z) (client data : bytes) (x : ApiPort.t) (d : Details.t) (w : world)
    (scene : RequestScene.t) (msg : option message) : Prop :=
  ∃ rsp, respond scene msg x = Some rsp ∧
    handleRequest apiLog catalog (S fuel) addr client data x d w = answered client rsp x d w.

(** C18: What happens to a request when no other is running.  One that is not valid JSON, or
    whose type is not in the catalog, makes the service read through a null pointer, and no
    answer is sent: any client that reaches the port can bring it down.  In every other case
    exactly one answer goes to the client that asked and the scene's memory is given up: the
    error of unpacking, of the authenticator, or of a type without a handler, which is then
    not called; and otherwise what the handler of its type makes of the request. *)
Theorem request_outcomes (fuel : nat) (addr : Z) (client data : bytes) (x : ApiPort.t) (d : Details.t) (w : world)
    (Ht : trove x = []) :
  (∀ why, json_request data = inr why →
     handleRequest apiLog catalog fuel addr client data x d w = (NullDeref, d, w)) ∧
  ∀ env, json_request data = inl env →
    match Catalog.newMsg (type_url (body env)) catalog with
    | None => handleRequest apiLog catalog fuel addr client data x d w = (NullDeref, d, w)
    | Some proto =>
        match UnpackTo (body env) proto with
        | None => answers fuel addr client data x d w (RequestScene.setRequest (Some proto) (not_unpacked env)) None
        | Some req =>
            let s := authenticated env x in
            let scene := RequestScene.setRequest (Some req) s in
            if RequestScene.isOk s then
              match handlers x !! Catalog.getTypeId_msg req catalog with
              | None => answers fuel addr client data x d w (RequestScene.setRequest (Some req) (no_handler s)) None
              | Some h =>
                  is_Some (RequestScene.msg (h req scene).2) →
                  answers fuel addr client data x d w (h req scene).2 (h req scene).1
              end
            else answers fuel addr client data x d w scene None
        end
    end.
Proof.
  split.
  { intros why Hj. destruct (prepare_unparsed data x why Hj) as (scene & Hp & Hm). by eapply run_null. }
  intros env Hj.
  assert (Hun : ∀ scene, prepare apiLog catalog data x = Some (scene, None) → is_Some (RequestScene.msg scene) →
                answers fuel addr client data x d w scene None).
  { intros scene Hp Hm. destruct (respond_some scene None x Hm) as [rsp Hr]. exists rsp. split; [done|].
    by eapply run_unhandled. }
  destruct (Catalog.newMsg _ _) as [proto|] eqn:Hn;
    [|destruct (prepare_unknown data x env Hj Hn) as (scene & Hp & Hm); by eapply run_null].
  destruct (UnpackTo _ _) as [req|] eqn:Hu; [|apply Hun; [by eapply prepare_not_unpacked|by eexists]].
  pose proof (prepare_unpacked data x env proto req Hj Hn Hu) as Hp. cbv zeta in Hp |- *. unfold ApiHandlerMap.get in Hp.
  destruct (RequestScene.isOk _); [|apply Hun; [done|by eexists]].
  destruct (handlers x !! _) as [h|]; [|apply Hun; [done|by eexists]].
  intros Hm. destruct (respond_some _ (h req (RequestScene.setRequest (Some req) (authenticated env x))).1 x Hm) as [rsp Hr].
  exists rsp. split; [done|]. by eapply run_handled.
Qed.

(** Requests that overlap hang.  While another request is running, its scene is the first
    in the trove; a request that is then answered, with its handler's result or with an
    error, sends its answer and never returns from giving up its own memory, and so keeps
    the thread, and the trove's lock, for good. *)
Theorem overlapping_requests_hang (fuel : nat) (addr a : Z) (rest : TreasureTrove.t) (client data : bytes)
    (x : ApiPort.t) (d : Details.t) (w : world) (scene : RequestScene.t) (h : option Handler)
    (Ht : trove x = a :: rest) (Hne : a ≠ addr)
    (Hp : prepare apiLog catalog data x = Some (scene, h)) (Hm : is_Some (RequestScene.msg scene))
    (Hkeep : ∀ f req, h = Some f → is_Some (RequestScene.msg (f req scene).2)) :
  ∃ rsp json rd, AnyMessage.toJson json_of_response rsp Details.new = (json, rd) ∧
    handleRequest apiLog catalog fuel addr client data x d w
      = (Hangs, d, (Server.reply client json (server x) rd w).2).
Proof.
  assert (Hans : ∀ scene msg m, is_Some (RequestScene.msg scene) → ∃ rsp json rd,
    AnyMessage.toJson json_of_response rsp Details.new = (json, rd) ∧
    handleResponse fuel addr scene client msg (with_trove (u64 (requestId x + 1)) (a :: m) x) d w
      = (Hangs, d, (Server.reply client json (server x) rd w).2)).
  { intros s msg m Hs. destruct (respond_some s msg x Hs) as [rsp Hr]. exists rsp.
    destruct (AnyMessage.toJson _ rsp Details.new) as [json rd] eqn:Hj. exists json, rd. split; [done|].
    rewrite (handleResponse_run _ _ _ _ _ _ _ _ rsp) by (by rewrite ?respond_idle).
    rewrite Hj. cbn [trove with_trove]. by rewrite cleanup_other. }
  unfold handleRequest. rewrite prepare_idle, Hp, Ht. destruct h as [h|].
  - destruct Hm as [req Hreq]. rewrite Hreq. pose proof (Hkeep h req eq_refl) as Hk.
    destruct (h req scene) as [m s]. exact (Hans s m (rest ++ [addr]) Hk).
  - exact (Hans scene None rest Hm).
Qed.

(** ** The port *)

(** The service reads the port as often as the event loop calls it; each call brings its
    own details.  The requests for which a task was started, in order. *)
Fixpoint serve (events : nat) (x : ApiPort.t) : M (list (bytes * bytes) * ApiPort.t) :=
  match events with
  | O => mret ([], x)
  | S events =>
      if listening x then
        r ← locally Details.new (read x);
        let '((got, x), _) := r in
        s ← serve events x;
        mret (match got with Some g => g :: s.1 | None => s.1 end, s.2)
      else mret ([], x)
  end.

Context {L : Framing.ZmqLaws Q}.
Import Framing.

Lemma wp_locally {A} d0 (m : M A) (R : A * Details.t → Details.t → world → Prop) d w :
  wp m (λ a d' w', R (a, d') d w') d0 w → wp (locally d0 m) R d w.
Proof. unfold wp, locally. by destruct (m d0 w) as [[a d'] w']. Qed.

(** Reading a request that is whole. *)
Lemma read_request i b rest x s w :
  Server.socket (server x) = Some s → i ≠ [] → waiting (zlib w) s = i :: [] :: b :: rest →
  wp (read x) (λ r d' w', r = (Some (i, b), with_server (server x) true x) ∧ waiting (zlib w') s = rest) Details.new w.
Proof.
  intros Hs Hi Hw. unfold read. cbv zeta. wp_step. wp_step. change (negb (Details.isOk Details.new)) with false. cbv iota.
  wp_step. eapply wp_mono; [|exact (recv_request [] [] i b rest (server x) s Details.new w Hs eq_refl Hi Hw)].
  intros r d' w' (-> & -> & Hw'). cbv beta iota. wp_step. wp_step.
  change (negb (Details.isOk Details.new)) with false. cbv iota. by wp_step.
Qed.

(** Reading one whose second frame is not empty. *)
Lemma read_bad p c f third rest x s w :
  Server.socket (server x) = Some s → waiting (zlib w) s = p :: (c :: f) :: third :: rest →
  wp (read x) (λ r d' w', r = (None, with_server (server x) false x) ∧ waiting (zlib w') s = rest) Details.new w.
Proof.
  intros Hs Hw. unfold read. cbv zeta. wp_step. wp_step. change (negb (Details.isOk Details.new)) with false. cbv iota.
  wp_step. eapply wp_mono; [|exact (recv_bad_delimiter [] [] p c f third rest (server x) s Details.new w Hs eq_refl Hw)].
  intros [[b i] m] d' w' (Hb & Hd & Hw'). cbn in Hb. subst b. cbv beta iota. wp_step. wp_step. rewrite Hd.
  cbn [negb]. by wp_steps.
Qed.

Lemma serve_more n x s ms p c f third rest w :
  Server.socket (server x) = Some s → listening x = true → Forall (λ m, m.1 ≠ []) ms →
  waiting (zlib w) s = concat (request <$> ms) ++ delivered p [c :: f; third] ++ rest →
  ∀ d, wp (serve (length ms + S n) x)
    (λ r d' w', r.1 = ms ∧ listening r.2 = false ∧ d' = d ∧ waiting (zlib w') s = rest) d w.
Proof.
  intros Hs Hl Hms Hw d. revert x w Hs Hl Hw. induction Hms as [|[i b] ms Hi _ IH]; intros x w Hs Hl Hw; cbn [length Nat.add serve];
    rewrite Hl; wp_step; apply wp_locally.
  - eapply wp_mono; [|exact (read_bad p c f third rest x s w Hs Hw)]. intros [got y] d' w' ([= -> ->] & Hw').
    cbv beta iota. wp_step. destruct n; cbn [serve with_server listening]; by do 2 wp_step.
  - eapply wp_mono; [|exact (read_request i b _ x s w Hs Hi Hw)]. intros [got y] d' w' ([= -> ->] & Hw').
    cbv beta iota. wp_step. eapply wp_mono; [|exact (IH (with_server (server x) true x) w' Hs eq_refl Hw')].
    intros [r1 r2] d'' w'' (Hr & Hl2 & -> & Hw''). simpl in Hr, Hl2. by subst.
Qed.

(** C34: One bad message closes the port.  The requests that wait before it are each given to
    a task, in their order; a message whose second frame is not empty, from any peer, is an
    error after which the port is not read again: however often the event loop would call,
    and whatever requests wait after it, they are never served. *)
Theorem port_stops (n : nat) (ms : list (bytes * bytes)) (p : bytes) (c : Z) (f third : bytes) (rest : list bytes)
    (x : ApiPort.t) (s : Z) (d : Details.t) (w : world)
    (Hs : Server.socket (server x) = Some s) (Hl : listening x = true) (Hms : Forall (λ m, m.1 ≠ []) ms)
    (Hw : waiting (zlib w) s = concat (request <$> ms) ++ delivered p [c :: f; third] ++ rest) :
  let '((served, x'), d', w') := serve (length ms + S n) x d w in
  served = ms ∧ listening x' = false ∧ d' = d ∧ waiting (zlib w') s = rest.
Proof.
  eapply wp_mono; [|exact (serve_more n x s ms p c f third rest w Hs Hl Hms Hw d)].
  by intros [served x'] d' w' (H1 & H2 & H3 & H4).
Qed.

End Proofs.
End ApiProofs.

Module ApiExamples.
Import ZmqExamples ApiProofs.

(** Messages are a type, a one-character name, and their bytes; a request in JSON is an
    [A], a name and a body; a response is its code. *)
#[export] Instance ToyPb : Pb := {|
  message := Z * bytes;
  full_name m := [m.1];
  New m := (m.1, []);
  PackFrom m := Any ($"fc/" ++ [m.1]) m.2;
  UnpackTo a m := if bool_decide (type_url a = $"fc/" ++ [m.1]) then Some (m.1, value a) else None;
  json_request data := match data with
    | 65 :: name :: b => inl (Request (Any ($"fc/" ++ [name]) b) None)
    | _ => inr $"bad"
    end;
  json_event data := match data with
    | 65 :: name :: b => inl (Event (Any ($"fc/" ++ [name]) b) None)
    | _ => inr $"bad"
    end;
  json_of_response r := inl [code r];
  json_of_event e := match e with
    | Event (Any [102; 99; 47; name] b) None => inl (65 :: name :: b)
    | _ => inr $"bad"
    end |}.

#[export] Instance ToyPbLaws : PbLaws ToyPb.
Proof.
  split; [done|done| |].
  - intros [t b] [t' b'] H. cbn in *. injection H as ->. by rewrite bool_decide_eq_true_2.
  - intros [[url b] a] data H. cbn in *. repeat case_match; by simplify_eq.
Qed.

#[export] Instance NoTypes : Types := {
  ty := Z; obj := Z; ty_of := λ _, 0; default_obj := λ _, 0; hash_code := λ c, c; copyable := λ _, true }.

Definition known : Catalog.t := Catalog.registerMsg 77 (66, []) Catalog.empty.

Lemma any_roundtrip_witness :
  AnyMessage.fromAny (AnyMessage.toAny (P := ToyPb) (66, [1; 2])) Details.new known = (Some (66, [1; 2]), Details.new).
Proof.
  refine (proj1 (AnyMessage.any_roundtrip 77 (66, []) (66, [1; 2]) [] Catalog.empty Details.new
    eq_refl (Forall_nil_2 _) _ _)); reflexivity.
Defined.

(** The one handler answers with the request. *)
Definition echo : ApiHandlerMap.Handler := λ req scene, (Some req, scene).
Definition port : ApiPort.t := ApiPort.mk (ApiHandlerMap.add 77 echo ∅) None bound true 0 [].

Lemma request_outcomes_witness :
  (ApiPort.handleRequest 2 known 1 5 [9] $"junk" port Details.new (queued [])).1.1 = NullDeref ∧
  trace (ApiPort.handleRequest 2 known 1 5 [9] (65 :: 66 :: [1]) port Details.new (queued [])).2 =
    [ESend 7 [9] true 1; ESend 7 [] true 0; ESend 7 [0] false 1].
Proof.
  split.
  - by rewrite (proj1 (request_outcomes 2 known 1 5 [9] $"junk" port Details.new (queued []) eq_refl) $"bad" eq_refl).
  - destruct (proj2 (request_outcomes 2 known 0 5 [9] (65 :: 66 :: [1]) port Details.new (queued []) eq_refl)
      (Request (Any ($"fc/" ++ [66]) [1]) None) eq_refl ltac:(vm_compute; eexists; reflexivity)) as (rsp & Hr & ->).
    vm_compute in Hr. injection Hr as <-. vm_compute. reflexivity.
Defined.

Lemma overlapping_requests_hang_witness :
  (ApiPort.handleRequest 2 known 100 5 [9] (65 :: 66 :: [1])
     (ApiPort.with_trove 0 [4] port) Details.new (queued [])).1.1 = Hangs.
Proof.
  destruct (overlapping_requests_hang 2 known 100 5 4 [] [9] (65 :: 66 :: [1])
    (ApiPort.with_trove 0 [4] port) Details.new (queued [])
    (RequestScene.mk (P := ToyPb) DetailsMap.new (Some ((66, [1]) : @message ToyPb))) (Some echo)
    eq_refl ltac:(lia) eq_refl ltac:(by eexists) ltac:(by intros f req [= <-]; eexists)) as (rsp & json & rd & _ & ->).
  reflexivity.
Defined.

Lemma port_stops_witness :
  (serve 5 port Details.new (queued ([[1]; []; [10]] ++ [[2]; [4]; [20]] ++ [[3]; []; [30]]))).1.1.1 = [([1], [10])].
Proof.
  exact (proj1 (port_stops 3 [([1], [10])] [2] 4 [] [20] [[3]; []; [30]] port 7 Details.new
    (queued ([[1]; []; [10]] ++ [[2]; [4]; [20]] ++ [[3]; []; [30]])) eq_refl eq_refl
    ltac:(by repeat constructor) eq_refl)).
Defined.

End ApiExamples.
