(* ===== verification/Rpc.v ===== *)
(** * A request from end to end: [zmq/], [pb/], [svc/api]

    The client's socket, the service's port with its catalog and handlers, and the reply on
    its way back, put together. *)

From S2P Require Import Prelude Strings Errors Ossl AnyMap Async Zmq Api.

Module Rpc.
Import Handles Framing ApiPort ApiProofs.
#[local] Notation envelope := Api.request.
Section Proofs.
Context {T : Types} {P : Pb} {LP : PbLaws P} {Q : Zmq} {L : ZmqLaws Q} {N : Sodium} {K : EvpKeys}.

(** ** The client's socket *)

Ltac runs := repeat first [apply wp_send; intros ?; cbn beta | wp_step; cbn beta; cbn [default]].

(** A request that is sent without an error was handed over whole, and the client is as it
    was. *)
Lemma client_sends data (c : Client.t) s d w :
  Client.socket c = Some s →
  wp (Client.send data c)
    (λ c' d' w', Details.isOk d' = true → c' = c ∧ ∃ evs, after w evs w' ∧ accepted evs = [(data, false)]) d w.
Proof.
  intros Hc. unfold Client.send, Client.close_on_error, Client.close, Server.error_text. rewrite Hc. cbv zeta. cbn [default].
  runs; intros ?; try congruence. split; [done|]. logged. unfold accepted. cbn [omap list_omap app].
  by rewrite (proj1 (len_tests data)).
Qed.

(** A reply that waits is received. *)
Lemma client_receives f rest (c : Client.t) s d w :
  Client.socket c = Some s → Details.isOk d = true → waiting (zlib w) s = f :: rest →
  wp (Client.recv [] c) (λ r d' w', r = (true, f, c) ∧ d' = d ∧ waiting (zlib w') s = rest) d w.
Proof.
  intros Hc Hd Hw. unfold Client.recv, Client.close_on_error, Client.close. rewrite Hc. cbv zeta. cbn [default].
  repeat first [eapply wp_recv_next; [eassumption|]; intros ? ? ?; cbn beta iota | wp_step; cbn beta; cbn [default]];
    try congruence.
  by match goal with H : Details.isOk d = true |- _ => rewrite H end.
Qed.

(** ** The service *)

(** A reply none of whose frames is refused is handed over. *)
Lemma reply_taken client data (x : Server.t) s d w :
  Server.socket x = Some s → client ≠ [] → Details.isOk d = true →
  wp (Server.reply client data x)
    (λ _ _ w', ∃ evs, after w evs w' ∧ (refused evs = 0%nat → accepted evs = [(client, true); ([], true); (data, false)])) d w.
Proof.
  intros Hx Hc Hd. unfold Server.reply, Server.send_part, Server.error_text. rewrite Hx. cbv zeta. cbn [default Server.fill].
  runs.
  all: try congruence; try (by match goal with H : bool_decide (_ = []) = true |- _ => apply bool_decide_eq_true in H end).
  all: logged; unfold accepted, refused, id; cbn [omap list_omap app]; rewrite ?(proj1 (len_tests _)), ?(proj2 (len_tests _));
    intros Hr; first [done | cbn in Hr; discriminate Hr].
Qed.

(** Unpacking without an error found the type and its message. *)
Lemma fromAny_ok a m d c :
  Details.isOk d = true → AnyMessage.fromAny a d c = (Some m, d) →
  ∃ proto, Catalog.newMsg (type_url a) c = Some proto ∧ UnpackTo a proto = Some m.
Proof.
  intros Hd. unfold AnyMessage.fromAny. cbv zeta. destruct (Catalog.newMsg (type_url a) c) as [proto|]; [|intros [=]]. rewrite Hd.
  destruct (UnpackTo a proto) as [m'|] eqn:Hu; [intros [= ->]; by exists proto|]. intros [= _ He].
  exfalso. rewrite <- He, AnyMessage.set_error_bad in Hd by done. done.
Qed.

(** A service that runs no other request, its types registered in some order: the request
    [q], in the envelope [env], reaches the handler of its type. *)
Section Serving.
Variable apiLog : Z.
Variable types : list (Z * message).
Variable x : ApiPort.t.
Variable msg : bytes.
Variable env : envelope.
Variable q : message.
Variable h : ApiHandlerMap.Handler.

Definition catalog : Catalog.t := foldl (λ c p, Catalog.registerMsg p.1 p.2 c) Catalog.empty types.

(** The type of [q] is registered, under one identifier, and has [h] as its handler. *)
Definition served : Prop :=
  ∃ before id_ proto later, types = before ++ (id_, proto) :: later ∧ full_name q = full_name proto ∧
    Forall (λ p, full_name p.2 ≠ full_name proto) later ∧ is_prefix ($"fc/") (full_name q) = false ∧
    handlers x !! id_ = Some h.

(** What the handler is given, and what it makes of it. *)
Definition scene : RequestScene.t := RequestScene.setRequest (Some q) (authenticated env x).
Definition result : option message * RequestScene.t := h q scene.

Lemma prepare_served :
  served → json_request msg = inl env → body env = AnyMessage.toAny q → RequestScene.isOk (authenticated env x) = true →
  prepare apiLog catalog msg x = Some (scene, Some h).
Proof.
  intros (before & id_ & proto & later & Hty & Hname & Hlater & Hfc & Hh) Hj Hbody Hok.
  destruct (AnyMessage.any_roundtrip id_ proto q later
    (foldl (λ c p, Catalog.registerMsg p.1 p.2 c) Catalog.empty before) Details.new Hname Hlater Hfc eq_refl) as (Hany & Hid & _).
  assert (Hcat : catalog = foldl (λ c p, Catalog.registerMsg p.1 p.2 c)
    (Catalog.registerMsg id_ proto (foldl (λ c p, Catalog.registerMsg p.1 p.2 c) Catalog.empty before)) later).
  { unfold catalog. by rewrite Hty, foldl_app. }
  rewrite <- Hcat in Hany, Hid. destruct (fromAny_ok _ _ Details.new _ eq_refl Hany) as (m & Hn & Hu). rewrite <- Hbody in Hn, Hu.
  rewrite (prepare_unpacked apiLog catalog msg x env m q Hj Hn Hu), Hok. unfold ApiHandlerMap.get. by rewrite Hid, Hh.
Qed.

(** The port's task for it: one response, made of what the handler left, goes to the client
    that asked. *)
Lemma task_replies fuel addr peer rsp json s d w :
  served → json_request msg = inl env → body env = AnyMessage.toAny q → RequestScene.isOk (authenticated env x) = true →
  is_Some (RequestScene.msg result.2) → respond result.2 result.1 x = Some rsp → json_of_response rsp = inl json → json ≠ [] →
  trove x = [] → Server.socket (server x) = Some s → peer ≠ [] →
  let '(o, d', w') := handleRequest apiLog catalog (S fuel) addr peer msg x d w in
  o = Done (with_trove (u64 (requestId x + 1)) [] x) ∧ d' = d ∧
  ∃ evs, after w evs w' ∧ (refused evs = 0%nat → accepted evs = [(peer, true); ([], true); (json, false)]).
Proof.
  intros Hs Hj Hb Hok Hm Hrsp Hjson Hne Htr Hsock Hp.
  rewrite (run_handled apiLog catalog fuel addr peer msg x d w scene h q rsp) by first [done | by apply prepare_served].
  unfold answered, AnyMessage.toJson. rewrite Hjson. destruct json as [|c json]; [done|].
  pose proof (reply_taken peer (c :: json) (server x) s Details.new w Hsock Hp eq_refl) as H. unfold wp in H.
  destruct (Server.reply _ _ _ _ _) as [[u d'] w']. cbn [snd]. by split_and!.
Qed.

End Serving.

(** C14: A request comes back as its handler's answer. The request's type is registered, last
    under its name and not under the name of a container, and has a handler; the port has no
    authenticator or one that accepts the request; it runs no other request (its list of running
    tasks is empty); the text the client sends is that of an envelope around the request; the
    handler does not take the request out of its scene, and the response made of what it
    left can be written as a text that is not empty. Then, when the client's send
    made no error and the frames it handed over are what waits at the service behind the sender's
    identity and a delimiter, the port reads them and starts a task with exactly that sender and
    text; the task calls the handler with the request and gives up its memory; and when nothing
    of the reply is refused, the client that asked, and it alone, receives the text of the
    response made of what the handler left. *)
Theorem request_round_trip (apiLog : Z) (types : list (Z * message)) (x : ApiPort.t) (c c' : Client.t)
    (peer msg : bytes) (env : envelope) (q : message) (h : ApiHandlerMap.Handler) (fuel : nat) (addr sc ss : Z)
    (rsp : response) (json : bytes) (rest : list bytes) (d1 d1' d3 : Details.t) (w1 w1' w2 : world)
    (Hc : Client.socket c = Some sc) (Hsend : Client.send msg c d1 w1 = (c', d1', w1')) (Hok1 : Details.isOk d1' = true)
    (Hs : Server.socket (server x) = Some ss) (Hidle : trove x = []) (Hpeer : peer ≠ [])
    (Hw2 : waiting (zlib w2) ss = delivered peer ([] :: (fst <$> accepted (drop (length (trace w1)) (trace w1')))) ++ rest)
    (Hserved : served types x q h) (Hj : json_request msg = inl env) (Hbody : body env = AnyMessage.toAny q)
    (Hauth : RequestScene.isOk (authenticated env x) = true)
    (Hkeep : is_Some (RequestScene.msg (result x env q h).2))
    (Hrsp : respond (result x env q h).2 (result x env q h).1 x = Some rsp)
    (Hjson : json_of_response rsp = inl json) (Hne : json ≠ []) :
  let '(r, _, w2') := read x Details.new w2 in
  r = (Some (peer, msg), with_server (server x) true x) ∧ waiting (zlib w2') ss = rest ∧
  let '(o, d3', w3) := handleRequest apiLog (catalog types) (S fuel) addr peer msg r.2 d3 w2' in
  o = Done (with_trove (u64 (requestId x + 1)) [] r.2) ∧ d3' = d3 ∧
  ∃ evs, after w2' evs w3 ∧
    (refused evs = 0%nat →
     ∃ reply, fst <$> accepted evs = delivered peer ([] :: reply) ∧
     ∀ d4 w4 rest4, Details.isOk d4 = true → waiting (zlib w4) sc = reply ++ rest4 →
       let '(r4, d4', w4') := Client.recv [] c' d4 w4 in
       r4 = (true, json, c) ∧ d4' = d4 ∧ waiting (zlib w4') sc = rest4).
Proof.
  destruct (wp_run _ _ _ _ _ _ _ Hsend (client_sends msg c sc d1 w1 Hc) Hok1) as (-> & evs1 & Htr & Hacc).
  unfold after in Htr. rewrite Htr, drop_app_length, Hacc in Hw2.
  eapply wp_mono; [|exact (read_request peer msg rest x ss w2 Hs Hpeer Hw2)].
  intros r d w2' (-> & Hw2'). split; [done|]. split; [done|]. cbn [snd].
  pose proof (task_replies apiLog types (with_server (server x) true x) msg env q h fuel addr peer rsp json ss d3 w2'
    Hserved Hj Hbody Hauth Hkeep Hrsp Hjson Hne Hidle Hs Hpeer) as H.
  destruct (handleRequest _ _ _ _ _ _ _ _ _) as [[o d3'] w3]. destruct H as (-> & -> & evs & Haft & Hrep).
  split; [done|]. split; [done|]. exists evs. split; [done|]. intros Hr. rewrite (Hrep Hr). exists [json]. split; [done|].
  intros d4 w4 rest4 Hd4 Hw4. exact (client_receives json rest4 c sc d4 w4 Hc Hd4 Hw4).
Qed.

End Proofs.
End Rpc.

Module RpcExamples.
Import ZmqExamples ApiExamples Rpc.

(** A client on the socket whose frames the toy library takes to the port's. *)
Definition client : Client.t := Client.mk (Some (Some 1)) (Some 6).
Definition text : bytes := [65; 66; 1].
Definition hello : @message ToyPb := (66, [1]).

Lemma request_round_trip_witness :
  (ApiPort.read port Details.new (queued [[9]; []; text])).1.1.1 = Some ([9], text) ∧
  (Client.recv (Q := ToyZmq) [] client Details.new (World (λ i, if i =? 6 then [[0]] else []) [])).1.1.1 = (true, [0]).
Proof.
  pose proof (request_round_trip 0 [(77, (66, []))] port client client [9] text (Api.Request (Any ($"fc/" ++ [66]) [1]) None)
    hello echo 1 5 6 7 (Response 0 None None (Some (Any ($"fc/" ++ [66]) [1])) None) [0] []
    Details.new Details.new Details.new (queued []) (Client.send text client Details.new (queued [])).2 (queued [[9]; []; text])
    eq_refl eq_refl eq_refl eq_refl eq_refl ltac:(done) eq_refl
    ltac:(exists [], 77, (66, []), []; repeat split; constructor)
    eq_refl eq_refl eq_refl ltac:(by eexists) eq_refl eq_refl ltac:(done)) as H.
  assert (Hread : ApiPort.read port Details.new (queued [[9]; []; text])
    = (Some ([9], text), ApiPort.with_server bound true port, Details.new, (ApiPort.read port Details.new (queued [[9]; []; text])).2))
    by reflexivity.
  rewrite Hread in H. destruct H as (H1 & _ & H). rewrite Hread. split; [reflexivity|].
  cbn [fst snd] in H. destruct (ApiPort.handleRequest _ _ _ _ _ _ _ _ _) as [[o d3] w3] eqn:E in H.
  destruct H as (_ & _ & evs & Haft & Hrep). vm_compute in E. injection E as _ _ <-.
  unfold Handles.after in Haft. cbn in Haft. change (trace (ApiPort.read port Details.new (queued [[9]; []; text])).2) with
    [ERecv 7 (Frame [9]); ERecv 7 (Frame []); ERecv 7 (Frame text)] in Haft.
  injection Haft as <-. destruct (Hrep eq_refl) as (reply & Hreply & Hr4). injection Hreply as <-.
  specialize (Hr4 Details.new (World (Q := ToyZmq) (λ i, if i =? 6 then [[0]] else []) []) [] eq_refl eq_refl).
  exact (f_equal fst (proj1 Hr4)).
Defined.

End RpcExamples.
