(* ===== verification/Events.v ===== *)
(** * Published events and their subscribers: [svc/events]

    The table of subscriptions, the publisher, and the processor that reads events from
    other services and peers and calls their handlers. *)

From S2P Require Import Prelude Strings Errors Ossl AnyMap Log Async Zmq Api.

(** The keys of a [std::map] with string keys, in its order. *)
Definition key_str_le (a b : cstr) : Prop := Log.str_le a b = true.
#[export] Instance key_str_le_dec a b : Decision (key_str_le a b) := ltac:(unfold key_str_le; apply _).
Definition str_keys {A} (m : gmap cstr A) : list cstr := merge_sort key_str_le (fst <$> map_to_list m).

Lemma elem_of_str_keys {A} (m : gmap cstr A) k : k ∈ str_keys m ↔ is_Some (m !! k).
Proof.
  unfold str_keys. rewrite merge_sort_Permutation, list_elem_of_fmap. split.
  - intros ([k' a] & -> & Hm). apply elem_of_map_to_list in Hm. by eexists.
  - intros [a Ha]. exists (k, a). split; [done|]. by apply elem_of_map_to_list.
Qed.

Lemma NoDup_str_keys {A} (m : gmap cstr A) : NoDup (str_keys m).
Proof. unfold str_keys. rewrite merge_sort_Permutation. apply NoDup_fst_map_to_list. Qed.

Module EventSubscriptionMap.
Section Code.
Context {P : Pb}.

(** [src/src/svc/events/EventSubscriptionMap.h:32-34] EventSubscriptionMap::EventHandler

    A function of a service by its number, with the name of the message type it takes. *)
Record EventHandler := Handler { h_type : cstr; h_fun : Z }.

(** [src/src/svc/events/EventSubscriptionMap.h:29-157] EventSubscriptionMap *)
Record t := mk {
  mapPeerHandlers : gmap cstr EventHandler;
  mapServiceHandlers : gmap Z (gmap cstr EventHandler);
}.

Definition new : t := mk ∅ ∅.

(** [src/src/svc/events/EventSubscriptionMap.cpp:6-23] EventSubscriptionMap::getServiceHandler *)
Definition getServiceHandler (port : Z) (topic : cstr) (x : t) : option EventHandler :=
  handlers ← mapServiceHandlers x !! port;
  match handlers !! topic with
  | Some h => Some h
  | None => handlers !! []
  end.

(** [src/src/svc/events/EventSubscriptionMap.cpp:25-30] EventSubscriptionMap::getPeerHandler *)
Definition getPeerHandler (topic : cstr) (x : t) : option EventHandler := mapPeerHandlers x !! topic.

(** [src/src/svc/events/EventSubscriptionMap.cpp:32-38] EventSubscriptionMap::addHandler *)
Definition addHandler (port : Z) (topic : cstr) (h : EventHandler) (x : t) : t :=
  mk (mapPeerHandlers x) (<[port := <[topic := h]> (default ∅ (mapServiceHandlers x !! port))]> (mapServiceHandlers x)).

(** [src/src/svc/events/EventSubscriptionMap.cpp:40-45] EventSubscriptionMap::addPeerHandler *)
Definition addPeerHandler (topic : cstr) (h : EventHandler) (x : t) : t :=
  mk (<[topic := h]> (mapPeerHandlers x)) (mapServiceHandlers x).

(** [src/src/svc/events/EventSubscriptionMap.h:53-98] EventSubscriptionMap::addServiceSub *)
Definition addServiceSub (id_ : Z) (proto : message) (port : Z) (topic : cstr) (f : Z) (x : t) (c : Catalog.t)
  : t * Catalog.t :=
  (addHandler port topic (Handler (full_name proto) f) x, Catalog.registerMsg id_ proto c).

(** [src/src/svc/events/EventSubscriptionMap.h:100-143] EventSubscriptionMap::addPeerSub *)
Definition addPeerSub (id_ : Z) (proto : message) (topic : cstr) (f : Z) (x : t) (c : Catalog.t) : t * Catalog.t :=
  (addPeerHandler topic (Handler (full_name proto) f) x, Catalog.registerMsg id_ proto c).

(** [src/src/svc/events/EventSubscriptionMap.h:63-97] EventSubscriptionMap::addServiceSub (handler)

    The call of the service's function, if it comes to one: the message's dynamic type must
    be the one the function takes. *)
Definition handle (h : EventHandler) (env : event_msg) (c : Catalog.t) : option (Z * message) :=
  let '(msg, details) := AnyMessage.fromAny (ev_body env) Details.new c in
  if negb (Details.isOk details) then None
  else m ← msg; if bool_decide (full_name m = h_type h) then Some (h_fun h, m) else None.

(** [src/src/svc/events/EventSubscriptionMap.cpp:47-53] EventSubscriptionMap::getPeerSubscriptions *)
Definition getPeerSubscriptions (x : t) : list cstr := str_keys (mapPeerHandlers x).

(** [src/src/svc/events/EventSubscriptionMap.cpp:55-64] EventSubscriptionMap::getServiceSubscriptions *)
Definition getServiceSubscriptions (x : t) : list (Z * list cstr) :=
  (λ p, (p.1, str_keys p.2)) <$> ordered (mapServiceHandlers x).

(** Every topic subscribed has a handler, and every handler's topic is subscribed: for
    peers, and for the services by port. *)
Lemma subscriptions_handled (x : t) :
  (∀ topic, topic ∈ getPeerSubscriptions x ↔ is_Some (getPeerHandler topic x)) ∧
  (∀ port topics topic, (port, topics) ∈ getServiceSubscriptions x → topic ∈ topics →
     is_Some (getServiceHandler port topic x)).
Proof.
  split; [intros; apply elem_of_str_keys|]. intros port topics topic Hp Ht.
  unfold getServiceSubscriptions in Hp. apply list_elem_of_fmap in Hp as ([p m] & [= -> ->] & Hm).
  apply elem_of_ordered in Hm. apply elem_of_str_keys in Ht as [h Hh]. unfold getServiceHandler. rewrite Hm. simpl.
  rewrite Hh. by eexists.
Qed.

(** A service's subscription to every topic of a port answers for topics without their
    own; a peer's subscription to every topic answers for none of them. *)
Lemma all_topics (x : t) port topic h :
  topic ≠ [] →
  getServiceHandler port topic (addHandler port [] h (mk ∅ ∅)) = Some h ∧
  getPeerHandler topic (addPeerHandler [] h (mk ∅ ∅)) = None.
Proof.
  intros Ht. unfold getServiceHandler, getPeerHandler, addHandler, addPeerHandler. simpl.
  rewrite lookup_insert_eq. simpl. rewrite lookup_insert_ne by done. by rewrite lookup_empty, lookup_insert_eq, lookup_insert_ne.
Qed.

End Code.
End EventSubscriptionMap.

Import ApiPort.

Module EventPublisher.
Section Code.
Context {P : Pb} {Q : Zmq} {N : Sodium} {K : EvpKeys}.
Variable eventLog : Z.

(** [src/src/svc/events/EventPublisher.h:18-41] EventPublisher *)
Record t := mk { zmqContext : Context.t; socket : option Publisher.t }.

(** [src/src/svc/events/EventPublisher.cpp:12-16] EventPublisher::EventPublisher *)
Definition new (ctx : Context.t) : t := mk ctx None.

Definition details : Details.t := Details.mk eventLog ErrorStatus.new.

(** Destroying a publisher. *)
Definition drop (s : option Publisher.t) : M unit :=
  match s with Some p => Publisher.close p;; mret tt | None => mret tt end.

(** [src/src/svc/events/EventPublisher.cpp:18-32] EventPublisher::openPort *)
Definition openPort (port : Z) (serverKey : bytes) (x : t) : M (bool * t) :=
  r ← locally details (
    drop (socket x);;
    s ← Publisher.bind [] port serverKey (Publisher.new (zmqContext x));
    ok ← is_ok;
    if (ok : bool) then mret (Some s) else drop (Some s);; mret None);
  mret (Details.isOk r.2, mk (zmqContext x) r.1).

(** [src/src/svc/events/EventPublisher.cpp:34-56] EventPublisher::publish *)
Definition publish (topic : cstr) (event : message) (x : t) : M unit :=
  match socket x with
  | None => mret tt
  | Some s =>
      let envelope := Event (AnyMessage.toAny event) None in
      let '(json, d) := AnyMessage.toJson json_of_event envelope details in
      locally d (if_ok tt (Publisher.publish topic json s));; mret tt
  end.

End Code.
End EventPublisher.

Module EventProcessor.
Section Code.
Context {P : Pb} {Q : Zmq} {N : Sodium} {K : EvpKeys}.
Import EventSubscriptionMap.
Variable catalog : Catalog.t.

(** Change the details. *)
Definition with_details {A} (f : Details.t → A * Details.t) : M A := λ d w, let '(a, d) := f d in (a, d, w).

Definition unknown_topic (topic : cstr) : cstr := $"Failed to find handler for topic " ++ topic ++ $".".

(** [src/src/svc/events/EventProcessor.cpp:26-90] queueRead (callback)

    What the reader does when there may be an event: the handler posted with its event, and
    whether the next read is queued. *)
Definition on_event (getHandler : cstr → option EventHandler) (subscriber : Subscriber.t)
  : M (option (EventHandler * event_msg) * bool) :=
  ok ← is_ok;
  if negb ok then mret (None, false)
  else
    r ← Subscriber.recv [] [] subscriber;
    let '(hasEvent, topic, data) := r in
    if_ok tt (
      if hasEvent && bool_decide (data = []) then
        set_error ErrorCode.ReadError $"pubsub" ($"Received empty data for topic " ++ topic ++ $" subscription.")
      else if hasEvent && bool_decide (topic = []) then
        set_error ErrorCode.ReadError $"pubsub" $"Received empty topic for event."
      else mret tt);;
    envelope ← if_ok None (
      if (hasEvent : bool) then
        env ← with_details (AnyMessage.fromJson (Event (Any [] []) None) json_event data); mret (Some env)
      else mret None);
    handler ← if_ok None (
      if (hasEvent : bool) then
        match getHandler topic with
        | Some h => mret (Some h)
        | None => set_error ErrorCode.UnknownCommand $"pubsub" (unknown_topic topic);; mret None
        end
      else mret None);
    ok ← is_ok;
    mret (if ok && hasEvent then match handler, envelope with Some h, Some e => Some (h, e) | _, _ => None end else None,
          true).

(** [src/src/svc/events/EventProcessor.h:23-74] EventProcessor

    The sockets of other services, with the port each was made for, and those of peers. *)
Record t := mk {
  handlers : EventSubscriptionMap.t;
  zmqCtx : Context.t;
  peerTopics : list cstr;
  localSockets : list (Z * Subscriber.t);
  peerSockets : gmap cstr Subscriber.t;
}.

(** [src/src/svc/events/EventProcessor.cpp:102-110] EventProcessor::EventProcessor *)
Definition new (ctx : Context.t) (h : EventSubscriptionMap.t) : t := mk h ctx [] [] ∅.

(** The topics of one subscriber, one after the other. *)
Fixpoint subscribe_all (topics : list cstr) (s : Subscriber.t) : M Subscriber.t :=
  match topics with
  | [] => mret s
  | topic :: topics => s ← Subscriber.subscribe topic s; subscribe_all topics s
  end.

(** What starting to listen comes to: asio's exception, or the subscriber it keeps, if it
    does, and the handler posted for an event that was there already. *)
Inductive started := Thrown | Started (s : option Subscriber.t) (posted : option (EventHandler * event_msg)).

(** [src/src/svc/events/EventProcessor.cpp:219-240] EventProcessor::startListening

    A subscriber that is not kept is destroyed, here or by the caller. *)
Definition startListening (getHandler : cstr → option EventHandler) (s : Subscriber.t) : M started :=
  ok ← is_ok;
  if negb ok then Subscriber.close s;; mret (Started None None)
  else
    fd ← Subscriber.getFd s;
    if fd =? -1 then mret Thrown
    else
      r ← on_event getHandler s;
      ok ← is_ok;
      if (ok : bool) then mret (Started (Some s) r.1) else Subscriber.close s;; mret (Started None r.1).

Definition peer_name (host : cstr) (port : Z) : cstr := host ++ $":" ++ dec_text port.

(** [src/src/svc/events/EventProcessor.cpp:112-168] EventProcessor::addPeer *)
Definition addPeer (serverKey : bytes) (host : cstr) (port : Z) (x : t)
  : M (outcome (bool * option (EventHandler * event_msg) * t)) :=
  let topics := if bool_decide (peerTopics x = []) then getPeerSubscriptions (handlers x) else peerTopics x in
  let x := mk (handlers x) (zmqCtx x) topics (localSockets x) (peerSockets x) in
  if bool_decide (topics = []) then mret (Done (true, None, x))
  else
    let peer := peer_name host port in
    match peerSockets x !! peer with
    | Some _ => mret (Done (false, None, x))
    | None =>
        r ← locally Details.new (
          s ← Subscriber.connect host port serverKey (Subscriber.new (zmqCtx x));
          s ← subscribe_all topics s;
          startListening (λ topic, getPeerHandler topic (handlers x)) s);
        mret (match r with
              | (Thrown, _) => Throws
              | (Started (Some s) posted, d) =>
                  Done (true, posted, mk (handlers x) (zmqCtx x) topics (localSockets x) (<[peer := s]> (peerSockets x)))
              | (Started None posted, d) => Done (false, posted, x)
              end)
    end.

(** [src/src/svc/events/EventProcessor.cpp:170-176] EventProcessor::removePeer *)
Definition removePeer (host : cstr) (port : Z) (x : t) : M t :=
  let peer := peer_name host port in
  match peerSockets x !! peer with
  | Some s =>
      Subscriber.close s;; mret (mk (handlers x) (zmqCtx x) (peerTopics x) (localSockets x) (delete peer (peerSockets x)))
  | None => mret x
  end.

(** [src/src/svc/events/EventProcessor.cpp:188-214] subscribeLocal (loop) *)
Fixpoint subscribe_services (subs : list (Z * list cstr)) (x : t)
  : M (outcome (list (EventHandler * event_msg) * t)) :=
  match subs with
  | [] => mret (Done ([], x))
  | (port, topics) :: subs =>
      s ← Subscriber.connect $"127.0.0.1" port [] (Subscriber.new (zmqCtx x));
      s ← subscribe_all topics s;
      r ← startListening (λ topic, getServiceHandler port topic (handlers x)) s;
      match r with
      | Thrown => mret Throws
      | Started None posted => mret (Done (option_list posted, x))
      | Started (Some s) posted =>
          r ← subscribe_services subs (mk (handlers x) (zmqCtx x) (peerTopics x) (localSockets x ++ [(port, s)]) (peerSockets x));
          mret (match r with
                | Done (more, x) => Done (option_list posted ++ more, x)
                | o => o
                end)
      end
  end.

(** [src/src/svc/events/EventProcessor.cpp:178-217] EventProcessor::subscribeLocal *)
Definition subscribeLocal (x : t) : M (outcome (bool * list (EventHandler * event_msg) * t)) :=
  let subs := getServiceSubscriptions (handlers x) in
  if bool_decide (subs = []) then mret (Done (true, [], x))
  else
    r ← locally Details.new (subscribe_services subs x);
    mret (match r with
          | (Done (posted, x), d) => Done (Details.isOk d, posted, x)
          | (_, _) => Throws
          end).

End Code.
End EventProcessor.

Module EventProofs.
Import EventSubscriptionMap EventProcessor Framing ApiProofs.
Section Proofs.
Context {P : Pb} {Q : Zmq} {L : ZmqLaws Q} {N : Sodium} {K : EvpKeys}.

(** What an event comes to: a handler with the event, or nothing when the event is empty,
    is not valid, or has no handler. *)
Definition due (getHandler : cstr → option EventHandler) (m : cstr * bytes) : option (EventHandler * event_msg) :=
  if bool_decide (m.2 = []) || bool_decide (m.1 = []) then None
  else match json_event m.2 with
       | inl e => h ← getHandler m.1; Some (h, e)
       | inr _ => None
       end.

Lemma wp_with_details {A} (f : Details.t → A * Details.t) (R : A → Details.t → world → Prop) d w :
  R (f d).1 (f d).2 w → wp (with_details f) R d w.
Proof. unfold wp, with_details. by destruct (f d). Qed.

(** Reading one event that waits. *)
Lemma on_event_one gh sub s t b rest w :
  Subscriber.socket sub = Some s → Subscriber.subscribed sub = true → waiting (zlib w) s = t :: b :: rest →
  wp (on_event gh sub) (λ r d' w', r = (due gh (t, b), true) ∧ waiting (zlib w') s = rest) Details.new w.
Proof.
  intros Hs Hsub Hw. unfold on_event. wp_step. wp_step. change (negb (Details.isOk Details.new)) with false. cbv iota.
  wp_step. eapply wp_mono; [|exact (recv_event [] [] t b rest sub s Details.new w Hs Hsub eq_refl Hw)].
  intros r d' w' (-> & -> & Hw'). cbv beta iota. unfold due, unknown_topic. cbn [andb fst snd].
  repeat first [apply wp_with_details | wp_step; cbn beta].
  all: try congruence; try discriminate; (split; [|done]).
  all: unfold AnyMessage.fromJson in *; destruct (json_event b) as [e'|why]; cbn [fst snd] in *;
    rewrite ?AnyMessage.set_error_bad in * by done;
    repeat match goal with H : Details.isOk ?d = _ |- context [Details.isOk ?d] => rewrite H end; cbn; try done.
Qed.

(** A reader kept on its events, each with the details of its own read: the handlers posted
    with their events, in order. *)
Fixpoint process (n : nat) (gh : cstr → option EventHandler) (sub : Subscriber.t) : M (list (EventHandler * event_msg)) :=
  match n with
  | O => mret []
  | S n =>
      r ← locally Details.new (on_event gh sub);
      if (r.1.2 : bool) then rest ← process n gh sub; mret (option_list r.1.1 ++ rest) else mret []
  end.

Definition frames (m : cstr * bytes) : list bytes := [m.1; m.2].

Lemma process_events gh sub s ms rest w :
  Subscriber.socket sub = Some s → Subscriber.subscribed sub = true → waiting (zlib w) s = concat (frames <$> ms) ++ rest →
  ∀ d, wp (process (length ms) gh sub)
    (λ r d' w', r = omap (due gh) ms ∧ d' = d ∧ waiting (zlib w') s = rest) d w.
Proof.
  intros Hs Hsub Hw d. revert w Hw. induction ms as [|[t b] ms IH]; intros w Hw; [done|].
  cbn [process length]. wp_step. apply wp_locally.
  eapply wp_mono; [|exact (on_event_one gh sub s t b _ w Hs Hsub Hw)]. intros r d' w' (-> & Hw'). cbn [fst snd].
  wp_step. eapply wp_mono; [|exact (IH w' Hw')]. intros r d'' w'' (-> & -> & Hw''). wp_step. split_and!; [|done..].
  cbn [omap list_omap]. by destruct (due gh (t, b)).
Qed.

(** A subscriber survives bad events.  Of the events that wait on its socket, each that
    has data, a topic, a valid envelope and a handler for its topic is handed to that
    handler, in their order; empty, malformed and unknown ones are dropped one by one, and
    none of them keeps a later one from being read. *)
Theorem events_processed (gh : cstr → option EventHandler) (sub : Subscriber.t) (s : Z) (ms : list (cstr * bytes))
    (rest : list bytes) (d : Details.t) (w : world)
    (Hs : Subscriber.socket sub = Some s) (Hsub : Subscriber.subscribed sub = true)
    (Hw : waiting (zlib w) s = concat (frames <$> ms) ++ rest) :
  let '(posted, d', w') := process (length ms) gh sub d w in
  posted = omap (due gh) ms ∧ d' = d ∧ waiting (zlib w') s = rest.
Proof. exact (process_events gh sub s ms rest w Hs Hsub Hw d). Qed.

(** What publishing leaves in the library. *)
Lemma publish_event_taken {LP : PbLaws P} eventLog topic m (x : EventPublisher.t) p s c data d w :
  EventPublisher.socket x = Some p → Publisher.socket p = Some s → topic ≠ [] →
  json_of_event (Event (PackFrom m) None) = inl (c :: data) →
  wp (EventPublisher.publish eventLog topic m x)
    (λ _ _ w', ∃ evs, Handles.after w evs w' ∧
       (refused evs = 0%nat → accepted evs = [(topic, true); (c :: data, false)])) d w.
Proof.
  intros Hx Hp Ht Hj. unfold EventPublisher.publish. rewrite Hx. cbv zeta. unfold AnyMessage.toJson, AnyMessage.toAny.
  rewrite Hj. cbv beta iota zeta. wp_step. apply wp_locally. apply wp_if_ok; [intros Hd|done].
  eapply wp_mono; [|exact (publish_taken topic (c :: data) p s (EventPublisher.details eventLog) w Hp Ht ltac:(done) eq_refl)].
  intros a d' w' H. by wp_step.
Qed.

(** C30: An event reaches its handler.  When a service publishes a message, nothing of it is
    refused, and a subscriber in another service gets those frames, the handler subscribed
    to the topic is posted, and calling it calls the function registered for that type with
    exactly the message that was published. *)
Theorem event_reaches_handler {LP : PbLaws P} (eventLog : Z) (topic : cstr) (m proto : message) (x : EventPublisher.t)
    (p : Publisher.t) (s s' c : Z) (data : bytes) (d d' : Details.t) (w w' w2 : world) (sub : Subscriber.t)
    (gh : cstr → option EventHandler) (h : EventHandler) (catalog : Catalog.t) (rest : list bytes)
    (Hx : EventPublisher.socket x = Some p) (Hp : Publisher.socket p = Some s) (Ht : topic ≠ [])
    (Hj : json_of_event (Event (PackFrom m) None) = inl (c :: data))
    (Hpub : EventPublisher.publish eventLog topic m x d w = (tt, d', w'))
    (Hr : refused (drop (length (trace w)) (trace w')) = 0%nat)
    (Hsub : Subscriber.socket sub = Some s') (Hsubd : Subscriber.subscribed sub = true)
    (Hw : waiting (zlib w2) s' = (fst <$> accepted (drop (length (trace w)) (trace w'))) ++ rest)
    (Hh : gh topic = Some h) (Hty : h_type h = full_name m)
    (Hcat : Catalog.mapDefaults catalog !! full_name m = Some proto) (Hproto : full_name proto = full_name m) :
  let '(r, _, w3) := on_event gh sub Details.new w2 in
  waiting (zlib w3) s' = rest ∧
  ∃ env, r = (Some (h, env), true) ∧ handle h env catalog = Some (h_fun h, m).
Proof.
  destruct (wp_run _ _ _ _ _ _ _ Hpub (publish_event_taken eventLog topic m x p s c data d w Hx Hp Ht Hj)) as (evs & Htr & Hacc).
  unfold Handles.after in Htr. rewrite Htr, drop_app_length in Hr, Hw. rewrite (Hacc Hr) in Hw.
  eapply wp_mono; [|exact (on_event_one gh sub s' topic (c :: data) rest w2 Hsub Hsubd Hw)].
  intros r d3 w3 (-> & Hw3). split; [done|]. exists (Event (PackFrom m) None). unfold due. cbn [fst snd].
  rewrite !bool_decide_eq_false_2 by done. cbn [orb]. rewrite (json_event_text _ _ Hj), Hh. split; [done|].
  unfold handle, AnyMessage.fromAny, Catalog.newMsg. cbn [ev_body]. rewrite Pack_url.
  change (Catalog.getTypeFromUrl ($"fc/" ++ full_name m)) with (full_name m). rewrite Hcat. cbn [fmap option_fmap option_map].
  change (Details.isOk Details.new) with true. cbv iota. rewrite Unpack_Pack by by rewrite New_name.
  change (negb (Details.isOk Details.new)) with false. cbn. by rewrite Hty, bool_decide_eq_true_2.
Qed.

(** ** Sockets of other services and peers *)

(** A subscriber that can receive. *)
Definition live_sub (s : Subscriber.t) : Prop := is_Some (Subscriber.socket s) ∧ Subscriber.subscribed s = true.

(** Every subscriber kept holds an open socket and is subscribed; nothing is kept that
    would only refuse to receive. *)
Definition peers_live (x : EventProcessor.t) : Prop := map_Forall (λ _ s, live_sub s) (peerSockets x).

Lemma wp_connect host port key x (R : Subscriber.t → Details.t → world → Prop) d w :
  (∀ s d' w', (Details.isOk d' = true → is_Some (Subscriber.socket s)) → R s d' w') →
  wp (Subscriber.connect host port key x) R d w.
Proof.
  intros HR. unfold Subscriber.connect, Subscriber.close. cbv zeta.
  repeat wp_step; (eapply wp_mono; [|apply UtilsProofs.attach_connect_post]; intros o d' w' (evs & _ & _ & Hok & _);
    repeat wp_step; apply HR; cbn; [auto|congruence..]).
Qed.

Lemma wp_subscribe topic x (R : Subscriber.t → Details.t → world → Prop) d w :
  (∀ s d' w', (Details.isOk d' = true → Details.isOk d = true ∧ Subscriber.socket s = Subscriber.socket x ∧
                                        Subscriber.subscribed s = true) → R s d' w') →
  wp (Subscriber.subscribe topic x) R d w.
Proof.
  intros HR. unfold Subscriber.subscribe, Server.error_text.
  repeat wp_step; apply HR; intros; cbn; auto; congruence.
Qed.

Lemma wp_subscribe_all topics x (R : Subscriber.t → Details.t → world → Prop) d w :
  (∀ s d' w', (Details.isOk d' = true → Details.isOk d = true ∧ Subscriber.socket s = Subscriber.socket x ∧
                                        (Subscriber.subscribed x = true ∨ topics ≠ [] → Subscriber.subscribed s = true)) → R s d' w') →
  wp (subscribe_all topics x) R d w.
Proof.
  revert x d w. induction topics as [|topic topics IH]; intros x d w HR; cbn [subscribe_all].
  - wp_step. apply HR. intros Hd. split_and!; [done..|]. by intros [?|?].
  - wp_step. apply wp_subscribe. intros s d1 w1 H1. apply IH. intros s2 d2 w2 H2. apply HR. intros Hok.
    destruct (H2 Hok) as (Hd1 & Hso & Hsub). destruct (H1 Hd1) as (Hd & Hso1 & Hsub1). split_and!; [done|congruence|auto].
Qed.

(** What is kept after starting to listen is the subscriber given, and there was no
    error. *)
Lemma wp_startListening gh x (R : started → Details.t → world → Prop) d w :
  (∀ r d' w', match r with
              | Started (Some s) _ => Details.isOk d = true ∧ s = x
              | _ => True
              end → R r d' w') →
  wp (startListening gh x) R d w.
Proof.
  intros HR. unfold startListening. wp_step. wp_step.
  assert (Hclose : ∀ posted d w, wp (Subscriber.close x ≫= λ _, mret (Started None posted)) R d w).
  { intros posted d1 w1. unfold Subscriber.close. destruct (Subscriber.socket x); repeat wp_step; by apply HR. }
  destruct (Details.isOk d) eqn:Hd; cbn [negb]; [|apply Hclose].
  wp_step. unfold Subscriber.getFd, Utils.getFd.
  assert (Hrest : ∀ fd w, wp (if fd =? -1 then mret Thrown else
     r ← on_event gh x; ok ← is_ok;
     if (ok : bool) then mret (Started (Some x) r.1) else Subscriber.close x;; mret (Started None r.1)) R d w).
  { intros fd w1. wp_step; [by wp_step; apply HR|]. wp_step. unfold wp at 1. destruct (on_event gh x d w1) as [[r d2] w2].
    wp_step. wp_step. wp_step; [wp_step; by apply HR|apply Hclose]. }
  destruct (Subscriber.socket x); [wp_step; wp_step; wp_step|wp_step]; apply Hrest.
Qed.

(** One subscription, as both kinds of socket are set up. *)
Lemma wp_subscription gh host port key topics ctx (R : started → Details.t → world → Prop) d w :
  topics ≠ [] →
  (∀ r d' w', match r with Started (Some s) _ => live_sub s | _ => True end → R r d' w') →
  wp (s ← Subscriber.connect host port key (Subscriber.new ctx); s ← subscribe_all topics s; startListening gh s) R d w.
Proof.
  intros Ht HR. wp_step. apply wp_connect. intros s d1 w1 H1. wp_step. apply wp_subscribe_all. intros s2 d2 w2 H2.
  apply wp_startListening. intros r d3 w3 H3. apply HR. destruct r as [|[s3|] posted]; [done| |done].
  destruct H3 as [Hok ->]. destruct (H2 Hok) as (Hd1 & Hso & Hsub). split; [|auto]. rewrite Hso. auto.
Qed.

Inductive peer_op := AddPeer (key : bytes) (host : cstr) (port : Z) | RemovePeer (host : cstr) (port : Z).

Definition run_peer (o : peer_op) (x : EventProcessor.t) : M EventProcessor.t :=
  match o with
  | AddPeer key host port => r ← addPeer key host port x; mret (match r with Done (_, _, x) => x | _ => x end)
  | RemovePeer host port => removePeer host port x
  end.

Fixpoint run_peers (ops : list peer_op) (x : EventProcessor.t) : M EventProcessor.t :=
  match ops with
  | [] => mret x
  | o :: ops => x ← run_peer o x; run_peers ops x
  end.

Lemma run_peer_live o x d w : peers_live x → wp (run_peer o x) (λ x' _ _, peers_live x') d w.
Proof.
  intros Hx. destruct o as [key host port|host port]; cbn [run_peer].
  - wp_step. unfold addPeer. cbv zeta. wp_step; [by do 2 wp_step|]. cbn [peerSockets]. wp_step; [by do 2 wp_step|].
    wp_step. apply wp_locally. apply wp_subscription; [by apply bool_decide_eq_false in Heqb|].
    intros [|[s|] posted] d' w' Hs; do 2 wp_step; [done| |done]. apply map_Forall_insert_2; [done|exact Hx].
  - unfold removePeer. cbv zeta. wp_step; [|by wp_step]. unfold Subscriber.close. destruct (Subscriber.socket _); repeat wp_step.
    all: by apply map_Forall_delete.
Qed.

(** Peers are subscribed or not kept.  Over any sequence of peers added and removed,
    whatever the library answers, every peer the processor keeps has an open socket that
    has been subscribed; one that could not be connected, subscribed or read is not kept,
    adding a peer twice changes nothing the second time and makes no call, and removing a
    peer leaves none of that name. *)
Theorem peers_invariant (ops : list peer_op) (x : EventProcessor.t) (d : Details.t) (w : world) (Hx : peers_live x) :
  (let '(x', _, _) := run_peers ops x d w in peers_live x') ∧
  (∀ key host port s, peerSockets x !! peer_name host port = Some s → peerTopics x ≠ [] →
     addPeer key host port x d w = (Done (false, None, x), d, w)) ∧
  (∀ host port, let '(x', _, _) := removePeer host port x d w in peerSockets x' !! peer_name host port = None).
Proof.
  split_and!.
  - change (wp (run_peers ops x) (λ x' _ _, peers_live x') d w). revert x d w Hx.
    induction ops as [|o ops IH]; intros x d w Hx; [done|]. cbn [run_peers]. wp_step.
    eapply wp_mono; [|exact (run_peer_live o x d w Hx)]. intros x' d' w'. apply IH.
  - intros key host port s Hs Ht. unfold addPeer. rewrite (bool_decide_eq_false_2 _ Ht). cbv zeta.
    rewrite (bool_decide_eq_false_2 _ Ht). cbn [peerSockets]. rewrite Hs. by destruct x.
  - intros host port. change (wp (removePeer host port x) (λ x' _ _, peerSockets x' !! peer_name host port = None) d w).
    unfold removePeer. cbv zeta. destruct (peerSockets x !! peer_name host port) eqn:E; [|by wp_step].
    unfold Subscriber.close. destruct (Subscriber.socket _); repeat wp_step; cbn [peerSockets];
      by rewrite lookup_delete_eq.
Qed.

End Proofs.
End EventProofs.

Module EventExamples.
Import ZmqExamples ApiExamples EventProofs Framing EventSubscriptionMap EventProcessor.

Definition sub7 : Subscriber.t := Subscriber.mk (Some (Some 1)) (Some 7) true.
Definition one_handler (topic : cstr) : option EventHandler :=
  if bool_decide (topic = [1]) then Some (Handler [66] 42) else None.

(** An event without data, one of no handler, one that is not valid, and one that is due. *)
Lemma events_processed_witness :
  (process 4 one_handler sub7 Details.new
     (queued [[1]; []; [2]; [65; 66; 9]; [1]; [3]; [1]; [65; 66; 9]])).1.1
  = [(Handler [66] 42, Event (Any ($"fc/" ++ [66]) [9]) None)].
Proof.
  exact (proj1 (events_processed (Q := ToyZmq) (L := ToyZmqLaws) one_handler sub7 7
    [([1], []); ([2], [65; 66; 9]); ([1], [3]); ([1], [65; 66; 9])] [] Details.new
    (queued [[1]; []; [2]; [65; 66; 9]; [1]; [3]; [1]; [65; 66; 9]]) eq_refl eq_refl ltac:(vm_compute; reflexivity))).
Defined.

Definition publisher : EventPublisher.t := EventPublisher.mk (Some 1) (Some (Publisher.mk None (Some 7))).
Definition event66 : @message ToyPb := (66, [9]).

Lemma event_reaches_handler_witness :
  ∃ env, (on_event one_handler sub7 Details.new (queued [[1]; [65; 66; 9]])).1.1 = (Some (Handler [66] 42, env), true) ∧
         handle (Handler [66] 42) env known = Some (42, event66).
Proof.
  exact (proj2 (event_reaches_handler (Q := ToyZmq) (L := ToyZmqLaws) 3 [1] event66 (66, []) publisher
    (Publisher.mk None (Some 7)) 7 7 65 [66; 9] Details.new Details.new (queued [])
    (EventPublisher.publish 3 [1] event66 publisher Details.new (queued [])).2
    (queued [[1]; [65; 66; 9]]) sub7 one_handler (Handler [66] 42) known []
    eq_refl eq_refl ltac:(done) eq_refl eq_refl eq_refl eq_refl eq_refl eq_refl eq_refl eq_refl eq_refl eq_refl)).
Defined.

Definition processor : EventProcessor.t :=
  EventProcessor.new (Some 1) (EventSubscriptionMap.addPeerHandler [1] (Handler [66] 42) EventSubscriptionMap.new).

(** No key is asked for, and so none is converted. *)
#[local] Instance NoSodium : Sodium := {|
  sk_to_curve25519 k := (0, k); pk_to_curve25519 k := (0, k); scalarmult_base k := (0, k); ossl_error := [] |}.

Lemma peers_invariant_witness :
  let ops := [AddPeer [] $"h" 1; AddPeer [] $"g" 2; AddPeer [] $"h" 1; RemovePeer $"g" 2] in
  let x := (run_peers ops processor Details.new (queued [])).1.1 in
  peers_live x ∧ size (peerSockets x) = 1%nat.
Proof.
  intros ops x. split; [|vm_compute; reflexivity].
  pose proof (proj1 (peers_invariant (Q := ToyZmq) ops processor Details.new (queued []) (map_Forall_empty _))) as H.
  exact H.
Defined.

End EventExamples.
