(* ===== verification/Service.v ===== *)
(** * The life of a service: [svc/service]

    What every service does from its command line to its exit code: the stages of its
    initialisation, the ports it opens, its signals, its main loop, and the loop that
    restarts it.  What a service adds of its own is the interface [IServiceParams], which
    [Params] implements for the two services of the repository. *)

From S2P Require Import Prelude Strings Errors Ossl Args Log AnyMap Async Zmq Api Events.
Import ApiPort.

Module ServiceStatusCode.

(** [src/src/svc/service/ServiceStatusCode.h:11-19] ServiceStatusCode *)
Inductive t := None_ | Running | Paused | Restart | RestartPaused | Shutdown.

#[global] Instance t_eq_dec : EqDecision t.
Proof. solve_decision. Defined.

(** [src/src/svc/service/ServiceStatusCode.h:11-19] ServiceStatusCode (values) *)
Definition to_int (c : t) : Z :=
  match c with None_ => 0 | Running => 1 | Paused => 2 | Restart => 3 | RestartPaused => 4 | Shutdown => 5 end.

(** [src/src/svc/service/ServiceStatusCode.cpp:7-25] to_string(ServiceStatusCode) *)
Definition to_string (c : t) : cstr :=
  match c with
  | None_ => $"Unknown " ++ Strings.to_string_int (to_int c)
  | Running => $"Running" | Paused => $"Paused" | Restart => $"Restart"
  | RestartPaused => $"Restart Paused" | Shutdown => $"Shutdown"
  end.

Lemma status_text_inj c d : to_string c = to_string d → c = d.
Proof. destruct c, d; intros H; (reflexivity || discriminate H). Qed.

End ServiceStatusCode.

(** [src/src/svc/service/IServiceParams.h:20-55] IServiceParams

    What a service supplies.  [S] is its state, with what it sees of its environment;
    [None] is undefined behaviour or an exception. *)
Class IServiceParams {T : Types} {P : Pb} (S : Type) := {
  initCmdLineParams : S → ArgParser.t → ArgParser.t;
  setCmdLineArgs : Args.t → list cstr → S → option (S * list cstr);
  getLogFile : S → cstr;
  getNumEventThreads : S → Z;
  getApiPort : S → Z;
  getEventPort : S → Z;
  getServerKey : S → bytes;
  setupScene : S → ServiceScene.t → ServiceScene.t;
  addApiHandlers : bool → S → ApiHandlerMap.t → Catalog.t → ApiHandlerMap.t * Catalog.t;
  addEventSubscriptions : S → EventSubscriptionMap.t → Catalog.t → EventSubscriptionMap.t * Catalog.t;
  getAuthenticator : S → option IAuthenticator;
  preInit : bool → S → ServiceScene.t → option (bool * S * ServiceScene.t);
  init_ : bool → S → option (bool * S);
  cleanup_ : S → S;
  postCleanup : S → S;
}.

(** What a service does when it does not say otherwise. *)
Module AbstractServiceParams.
Section Code.
Context {T : Types} {P : Pb} {S : Type}.

(** [src/src/svc/service/AbstractServiceParams.cpp:6-9] AbstractServiceParams::initCmdLineParams *)
Definition initCmdLineParams (_ : S) (args : ArgParser.t) : ArgParser.t := args.
(** [src/src/svc/service/AbstractServiceParams.cpp:11-14] AbstractServiceParams::setCmdLineArgs *)
Definition setCmdLineArgs (_ : Args.t) (argv : list cstr) (s : S) : option (S * list cstr) := Some (s, argv).
(** [src/src/svc/service/AbstractServiceParams.cpp:16-19] AbstractServiceParams::getLogFile *)
Definition getLogFile (_ : S) : cstr := [].
(** [src/src/svc/service/AbstractServiceParams.cpp:21-24] AbstractServiceParams::getNumEventThreads *)
Definition getNumEventThreads (_ : S) : Z := 1.
(** [src/src/svc/service/AbstractServiceParams.cpp:26-29] AbstractServiceParams::getApiPort *)
Definition getApiPort (_ : S) : Z := 0.
(** [src/src/svc/service/AbstractServiceParams.cpp:31-34] AbstractServiceParams::getEventPort *)
Definition getEventPort (_ : S) : Z := 0.
(** [src/src/svc/service/AbstractServiceParams.cpp:36-40] AbstractServiceParams::getServerKey *)
Definition getServerKey (_ : S) : bytes := [].
(** [src/src/svc/service/AbstractServiceParams.cpp:42-45] AbstractServiceParams::setupScene *)
Definition setupScene (_ : S) (ctx : ServiceScene.t) : ServiceScene.t := ctx.
(** [src/src/svc/service/AbstractServiceParams.cpp:47-51] AbstractServiceParams::addApiHandlers *)
Definition addApiHandlers (_ : bool) (_ : S) (h : ApiHandlerMap.t) (c : Catalog.t) : ApiHandlerMap.t * Catalog.t := (h, c).
(** [src/src/svc/service/AbstractServiceParams.cpp:53-56] AbstractServiceParams::addEventSubscriptions *)
Definition addEventSubscriptions (_ : S) (h : EventSubscriptionMap.t) (c : Catalog.t)
  : EventSubscriptionMap.t * Catalog.t := (h, c).
(** [src/src/svc/service/AbstractServiceParams.cpp:58-61] AbstractServiceParams::getAuthenticator *)
Definition getAuthenticator (_ : S) : option IAuthenticator := None.
(** [src/src/svc/service/AbstractServiceParams.cpp:63-67] AbstractServiceParams::preInit *)
Definition preInit (_ : bool) (s : S) (ctx : ServiceScene.t) : option (bool * S * ServiceScene.t) := Some (true, s, ctx).
(** [src/src/svc/service/AbstractServiceParams.cpp:69-73] AbstractServiceParams::init *)
Definition init (_ : bool) (s : S) : option (bool * S) := Some (true, s).
(** [src/src/svc/service/AbstractServiceParams.cpp:75-77] AbstractServiceParams::cleanup *)
Definition cleanup (s : S) : S := s.
(** [src/src/svc/service/AbstractServiceParams.cpp:79-81] AbstractServiceParams::postCleanup *)
Definition postCleanup (s : S) : S := s.

End Code.
End AbstractServiceParams.

Module Service.
Section Code.
Context {T : Types} {P : Pb} {Q : Zmq} {N : Sodium} {K : EvpKeys} {S : Type} {IP : IServiceParams S}.
Import ServiceStatusCode.

(** Log categories, and where the service's objects and their types are found. *)
Variable apiLog eventLog : Z.
Variable type_hash address_of : cstr → Z.

(** The stages of initialisation, in their order. *)
Inductive stage := Signals | CmdLine | Rand | Scene | PreInit | Start | PostInit.

#[global] Instance stage_eq_dec : EqDecision stage.
Proof. solve_decision. Defined.

(** [src/src/svc/service/Service.h:96-102] Service (flags) *)
Record flags := Flags {
  bSignalsInit : bool; bArgsInit : bool; bRandInit : bool; bSceneSetup : bool;
  bPreInit : bool; bInit : bool; bPostInit : bool }.

Definition flag (s : stage) (f : flags) : bool :=
  match s with
  | Signals => bSignalsInit f | CmdLine => bArgsInit f | Rand => bRandInit f | Scene => bSceneSetup f
  | PreInit => bPreInit f | Start => bInit f | PostInit => bPostInit f
  end.

Definition raise (s : stage) (f : flags) : flags :=
  Flags (bool_decide (s = Signals) || bSignalsInit f) (bool_decide (s = CmdLine) || bArgsInit f)
    (bool_decide (s = Rand) || bRandInit f) (bool_decide (s = Scene) || bSceneSetup f)
    (bool_decide (s = PreInit) || bPreInit f) (bool_decide (s = Start) || bInit f)
    (bool_decide (s = PostInit) || bPostInit f).

(** What [startService] makes and [stopService] destroys, with the tables it fills. *)
Record objects := Objects {
  scheduler : Scheduler.t;
  ctx : ServiceScene.t;
  catalog : Catalog.t;
  apiMap : ApiHandlerMap.t;
  subscriptions : EventSubscriptionMap.t;
  apiProcessor : option ApiPort.t;
  eventPublisher : option EventPublisher.t;
  eventProcessor : option EventProcessor.t }.

(** [src/src/svc/service/Service.h:28-111] Service *)
Record t := mk {
  argv : option (list cstr);
  paused : bool;
  params : option S;
  status : ServiceStatusCode.t;
  interrupts : Z;
  zmqCtx : Context.t;
  logging : Log.config;
  done_ : flags;
  objs : objects }.

Definition no_flags : flags := Flags false false false false false false false.
Definition no_objects : objects := Objects Scheduler.new ServiceScene.new Catalog.empty ∅ EventSubscriptionMap.new None None None.

(** [src/src/svc/service/Service.cpp:15-39] Service::Service *)
Definition new (z : Context.t) (log : Log.config) : t :=
  mk None false None Running 0 z log no_flags
    (Objects Scheduler.new (ServiceScene.setPtr (type_hash $"zmq::Context") (address_of $"zmqCtx") ServiceScene.new)
       Catalog.empty ∅ EventSubscriptionMap.new None None None).

Definition with_params (s : option S) (x : t) : t :=
  mk (argv x) (paused x) s (status x) (interrupts x) (zmqCtx x) (logging x) (done_ x) (objs x).
Definition with_status (c : ServiceStatusCode.t) (x : t) : t :=
  mk (argv x) (paused x) (params x) c (interrupts x) (zmqCtx x) (logging x) (done_ x) (objs x).
Definition with_done (f : flags) (x : t) : t :=
  mk (argv x) (paused x) (params x) (status x) (interrupts x) (zmqCtx x) (logging x) f (objs x).
Definition with_objs (o : objects) (x : t) : t :=
  mk (argv x) (paused x) (params x) (status x) (interrupts x) (zmqCtx x) (logging x) (done_ x) o.

(** [src/src/svc/service/Service.cpp:79-85] Service::setArgs *)
Definition setArgs (a : option (list cstr)) (x : t) : t :=
  mk a (paused x) (params x) (status x) (interrupts x) (zmqCtx x) (logging x) (done_ x) (objs x).
(** [src/src/svc/service/Service.cpp:87-91] Service::setPaused *)
Definition setPaused (b : bool) (x : t) : t :=
  mk (argv x) b (params x) (status x) (interrupts x) (zmqCtx x) (logging x) (done_ x) (objs x).
(** [src/src/svc/service/Service.cpp:93-97] Service::setParams *)
Definition setParams (s : S) (x : t) : t := with_params (Some s) x.
(** [src/src/svc/service/Service.cpp:99-105] Service::setStatus *)
Definition setStatus (c : ServiceStatusCode.t) (x : t) : t := with_status c x.

(** [src/src/svc/service/Service.cpp:219-244] Service::initArgs

    [fuel] bounds the printing of the help text. *)
Definition initArgs (fuel : nat) (s : S) (x : t) : outcome (bool * t) :=
  match argv x with
  | None => Done (true, x)
  | Some [] => Done (true, x)
  | Some words =>
      let argParser := initCmdLineParams s (LogArgs.initCmdLineParams ArgParser.new) in
      match ArgParser.parse fuel argParser (length words) (Some words) with
      | None => Hangs
      | Some args =>
          match (c ← LogArgs.setCmdLineArgs args (logging x); f ← LogArgs.logFile args; Some (c, f)) with
          | None => Throws
          | Some (c, f) =>
              let c := if bool_decide (f = []) then Log.setFile (getLogFile s) c else c in
              match setCmdLineArgs args words s with
              | None => Throws
              | Some (s, words) =>
                  let st := if Args.hasError args then Shutdown else status x in
                  Done (negb (Args.hasError args),
                        mk (Some words) (paused x) (Some s) st (interrupts x) (zmqCtx x) c (done_ x) (objs x))
              end
          end
      end
  end.

Definition drop_port (o : option ApiPort.t) : M unit :=
  match o with Some p => Server.close (server p);; mret tt | None => mret tt end.
Definition drop_publisher (o : option EventPublisher.t) : M unit :=
  match o with Some p => EventPublisher.drop (EventPublisher.socket p) | None => mret tt end.

Fixpoint close_all (l : list Subscriber.t) : M unit :=
  match l with [] => mret tt | s :: l => Subscriber.close s;; close_all l end.
Definition drop_processor (o : option EventProcessor.t) : M unit :=
  match o with
  | Some p => close_all (snd <$> map_to_list (EventProcessor.peerSockets p));; close_all (snd <$> EventProcessor.localSockets p)
  | None => mret tt
  end.

(** [src/src/svc/service/Service.cpp:266-274] startService (event publisher) *)
Definition start_publisher (s : S) (x : t) (o : objects) : M (bool * objects) :=
  if (0 <? getEventPort s) && negb (paused x) then
    drop_publisher (eventPublisher o);;
    r ← EventPublisher.openPort eventLog (getEventPort s) (getServerKey s) (EventPublisher.new (zmqCtx x));
    mret (r.1, Objects (scheduler o)
      (if (r.1 : bool) then ServiceScene.setPtr (type_hash $"svc::EventPublisher") (address_of $"eventPublisher") (ctx o)
       else ctx o)
      (catalog o) (apiMap o) (subscriptions o) (apiProcessor o) (Some r.2) (eventProcessor o))
  else mret (true, o).

(** [src/src/svc/service/Service.cpp:276-283] startService (API port) *)
Definition start_api (s : S) (x : t) (o : objects) : M (outcome (bool * objects)) :=
  if 0 <? getApiPort s then
    let '(h, c) := addApiHandlers (paused x) s (apiMap o) (catalog o) in
    drop_port (apiProcessor o);;
    r ← ApiPort.openPort (getApiPort s) (getServerKey s) (setAuthenticator (getAuthenticator s) (ApiPort.new (zmqCtx x) h));
    mret (match r with
          | Done (ok, _, p) =>
              Done (ok, Objects (scheduler o) (ctx o) c h (subscriptions o) (Some p) (eventPublisher o) (eventProcessor o))
          | NullDeref => NullDeref | Hangs => Hangs | Throws => Throws
          end)
  else mret (Done (true, o)).

(** [src/src/svc/service/Service.cpp:285-293] startService (events) *)
Definition start_events (s : S) (x : t) (o : objects) : M (outcome (bool * objects)) :=
  if paused x then mret (Done (true, o))
  else
    let '(h, c) := addEventSubscriptions s (subscriptions o) (catalog o) in
    drop_processor (eventProcessor o);;
    r ← EventProcessor.subscribeLocal (EventProcessor.new (zmqCtx x) h);
    mret (match r with
          | Done (ok, _, p) =>
              Done (ok, Objects (scheduler o)
                (if (ok : bool) then ServiceScene.setPtr (type_hash $"svc::EventProcessor") (address_of $"eventProcessor") (ctx o)
                 else ctx o)
                c (apiMap o) h (apiProcessor o) (eventPublisher o) (Some p))
          | NullDeref => NullDeref | Hangs => Hangs | Throws => Throws
          end).

(** [src/src/svc/service/Service.cpp:258-296] Service::startService *)
Definition startService (s : S) (x : t) : M (outcome (bool * t)) :=
  let o := objs x in
  let o := Objects (Scheduler.start (Scheduler.setThreads (getNumEventThreads s) (scheduler o))) (ctx o) (catalog o)
             (apiMap o) (subscriptions o) (apiProcessor o) (eventPublisher o) (eventProcessor o) in
  r ← start_publisher s x o;
  let '(bOk, o) := r in
  if negb bOk then mret (Done (false, with_objs o x))
  else
    r ← start_api s x o;
    match r with
    | Done (true, o) =>
        r ← start_events s x o;
        mret (match r with
              | Done (bOk, o) => Done (bOk, with_objs o x)
              | NullDeref => NullDeref | Hangs => Hangs | Throws => Throws
              end)
    | Done (false, o) => mret (Done (false, with_objs o x))
    | NullDeref => mret NullDeref | Hangs => mret Hangs | Throws => mret Throws
    end.

(** [src/src/svc/service/Service.cpp:298-309] Service::stopService *)
Definition stopService (x : t) : M t :=
  let o := objs x in
  drop_processor (eventProcessor o);;
  drop_port (apiProcessor o);;
  drop_publisher (eventPublisher o);;
  mret (with_objs (Objects (Scheduler.stop (scheduler o)) (ctx o) (catalog o) (apiMap o) (subscriptions o) None None None) x).

(** One stage of [init].  Signal handlers and the seeding of the random generator always
    succeed; the scene is filled in place. *)
Definition run_stage (fuel : nat) (st : stage) (s : S) (x : t) : M (outcome (bool * t)) :=
  let with_ctx (c : ServiceScene.t) : t :=
    let o := objs x in
    with_objs (Objects (scheduler o) c (catalog o) (apiMap o) (subscriptions o) (apiProcessor o) (eventPublisher o)
                 (eventProcessor o)) x in
  match st with
  | Signals | Rand => mret (Done (true, x))
  | CmdLine => mret (initArgs fuel s x)
  | Scene => mret (Done (true, with_ctx (setupScene s (ctx (objs x)))))
  | PreInit =>
      mret (match preInit (paused x) s (ctx (objs x)) with
            | Some (b, s, c) => Done (b, with_params (Some s) (with_ctx c))
            | None => Throws
            end)
  | Start => startService s x
  | PostInit => mret (match init_ (paused x) s with Some (b, s) => Done (b, with_params (Some s) x) | None => Throws end)
  end.

(** The chain of [&&]: a stage that is done is passed over, one that fails ends it. *)
Fixpoint run_stages (fuel : nat) (l : list stage) (x : t) : M (outcome (bool * t)) :=
  match l with
  | [] => mret (Done (true, x))
  | st :: l =>
      if flag st (done_ x) then run_stages fuel l x
      else
        match params x with
        | None => mret NullDeref
        | Some s =>
            r ← run_stage fuel st s x;
            match r with
            | Done (true, x) => run_stages fuel l (with_done (raise st (done_ x)) x)
            | o => mret o
            end
        end
  end.

Definition all_stages : list stage := [Signals; CmdLine; Rand; Scene; PreInit; Start; PostInit].

(** [src/src/svc/service/Service.cpp:107-127] Service::init *)
Definition init (fuel : nat) (x : t) : M (outcome (bool * t)) :=
  match params x with
  | None => mret (Done (false, x))
  | Some _ => run_stages fuel all_stages x
  end.

(** [src/src/svc/service/Service.cpp:129-144] Service::cleanup *)
Definition cleanup (x : t) : M t :=
  let x := with_params (cleanup_ <$> params x) x in
  x ← stopService x;
  mret (with_params (postCleanup <$> params x) x).

(** [src/src/svc/service/Service.cpp:46-77] Service::exec

    [asked] has an element for every pass of the loop: the status asked of the service while
    it initialises, sleeps or waits in that pass.  [None] as the status: the service is
    still running when they end. *)
Fixpoint exec (fuel : nat) (asked : list (option ServiceStatusCode.t)) (x : t)
  : M (outcome (option ServiceStatusCode.t * t)) :=
  if bool_decide (status x = Running) then
    match asked with
    | [] => mret (Done (None, x))
    | a :: asked =>
        r ← init fuel x;
        match r with
        | Done (_, x) => exec fuel asked (match a with Some c => setStatus c x | None => x end)
        | NullDeref => mret NullDeref | Hangs => mret Hangs | Throws => mret Throws
        end
    end
  else x ← cleanup x; mret (Done (Some (status x), x)).

(** [src/src/svc/service/Service.cpp:163-184] handleSignal

    With SIGINT and SIGTERM; [None]: the process has ended at once. *)
Definition handleSignal (sigint : bool) (x : t) : option t :=
  if sigint then
    let n := u32 (interrupts x + 1) in
    let y := mk (argv x) (paused x) (params x) (status x) n (zmqCtx x) (logging x) (done_ x) (objs x) in
    if interrupts x =? 0 then Some (setStatus Shutdown y)
    else if 5 <=? n then None else Some y
  else Some (setStatus Shutdown x).

(** [src/src/svc/service/Service.h:31-43] Service::run

    A service, from its construction to the status it ends with and its destruction. *)
Definition run (fuel : nat) (make : S) (words : option (list cstr)) (isPaused : bool)
    (asked : list (option ServiceStatusCode.t)) (z : Context.t) (log : Log.config)
  : M (outcome (option ServiceStatusCode.t * t)) :=
  r ← exec fuel asked (setParams make (setPaused isPaused (setArgs words (new z log))));
  match r with
  | Done (Some c, x) => x ← stopService x; mret (Done (Some c, x))
  | r => mret r
  end.

End Code.
End Service.

Module ServiceProofs.
Import Service ServiceStatusCode.
Section Proofs.
Context {T : Types} {P : Pb} {Q : Zmq} {N : Sodium} {K : EvpKeys} {S : Type} {IP : IServiceParams S}.
Variable eventLog apiLog : Z.
Variable type_hash address_of : cstr → Z.

#[local] Abbreviation run_stage := (Service.run_stage eventLog type_hash address_of).
#[local] Abbreviation run_stages := (Service.run_stages eventLog type_hash address_of).
#[local] Abbreviation init := (Service.init eventLog type_hash address_of).

Lemma wp_any {A} (m : M A) (R : A → Details.t → world → Prop) d w : (∀ a d w, R a d w) → wp m R d w.
Proof. intros H. unfold wp. destruct (m d w) as [[a d'] w']. apply H. Qed.

(** The first [n] stages are done, and no others. *)
Definition ladder (n : nat) (f : flags) : Prop :=
  ∀ i s, all_stages !! i = Some s → flag s f = bool_decide (i < n)%nat.

Lemma flag_raise s s' f : flag s (raise s' f) = bool_decide (s' = s) || flag s f.
Proof. destruct s; simpl; done. Qed.

Lemma ladder_raise n s f : ladder n f → all_stages !! n = Some s → ladder (n + 1) (raise s f).
Proof.
  intros Hl Hn i s' Hi. rewrite flag_raise, (Hl i s' Hi).
  assert (Heq : s = s' ↔ n = i).
  { split; [intros <-|intros <-; congruence]. by eapply (NoDup_lookup all_stages); [apply (bool_decide_unpack _)|..]. }
  destruct (decide (s = s')) as [He|He].
  - rewrite (bool_decide_eq_true_2 _ He). apply Heq in He as ->. symmetry. apply bool_decide_eq_true. lia.
  - rewrite (bool_decide_eq_false_2 _ He). simpl. apply bool_decide_ext. rewrite Heq in He. lia.
Qed.

(** A stage touches neither the flags nor whether there are parameters. *)
Definition keeps_done {A} (x : (Service.t (S := S))) (r : outcome (A * (Service.t (S := S)))) : Prop :=
  match r with Done (_, x') => done_ x' = done_ x ∧ is_Some (params x') | _ => True end.

Lemma stage_keeps fuel st s (x : (Service.t (S := S))) d w :
  is_Some (params x) → wp (run_stage fuel st s x) (λ r _ _, keeps_done x r) d w.
Proof.
  intros Hp. destruct st; cbn [Service.run_stage]; try (wp_step; by cbn).
  - wp_step. unfold initArgs. repeat case_match; simplify_eq; try done; (split; [done|by eexists]).
  - wp_step. destruct (preInit _ _ _) as [[[b s'] c]|]; cbn; [split; [done|by eexists]|done].
  - unfold startService. wp_step. apply wp_any. intros [[] o] d1 w1; cbn [negb]; [|by wp_step].
    wp_step. apply wp_any. intros [[[] o2]| | |] d2 w2; try (by wp_step).
    wp_step. apply wp_any. intros [[b o3]| | |] d3 w3; by wp_step.
  - wp_step. destruct (init_ (paused x) s) as [[b s']|]; cbn; [split; [done|by eexists]|done].
Qed.

(** Stages done are passed over. *)
Lemma run_stages_skip fuel n x :
  ladder n (done_ x) → run_stages fuel all_stages x = run_stages fuel (drop n all_stages) x.
Proof.
  intros Hl. assert (H : ∀ k, (k ≤ n)%nat → run_stages fuel all_stages x = run_stages fuel (drop k all_stages) x); [|by apply H].
  induction k as [|k IH]; intros Hk; [done|]. rewrite IH by lia.
  destruct (all_stages !! k) as [s|] eqn:E; [|by rewrite !drop_ge by (apply lookup_ge_None in E; lia)].
  rewrite (drop_S all_stages s k E). cbn [Service.run_stages].
  by rewrite (Hl k s E), bool_decide_eq_true_2 by lia.
Qed.

Lemma run_stages_up fuel n x d w :
  ladder n (done_ x) → is_Some (params x) → (n ≤ 7)%nat →
  wp (run_stages fuel (drop n all_stages) x)
    (λ r _ _, match r with
              | Done (b, x') => ∃ m, (n ≤ m ≤ 7)%nat ∧ ladder m (done_ x') ∧ is_Some (params x') ∧
                                     (b = true ↔ m = 7%nat)
              | _ => True
              end) d w.
Proof.
  intros Hl Hp Hn. remember (7 - n)%nat as k eqn:Hk. revert n x d w Hl Hp Hn Hk. induction k as [|k IH]; intros n x d w Hl Hp Hn Hk.
  { assert (n = 7%nat) as -> by lia. cbn. exists 7%nat. done. }
  destruct (lookup_lt_is_Some_2 all_stages n) as [s Hs]; [cbn; lia|]. rewrite (drop_S all_stages s n Hs).
  cbn [Service.run_stages]. rewrite (Hl n s Hs), bool_decide_eq_false_2 by lia. destruct Hp as [ps Hps]. rewrite Hps.
  wp_step. eapply wp_mono; [|apply stage_keeps; by eexists]. intros [[[] x']| | |] d' w' Hk'; try (by wp_step).
  - destruct Hk' as [Hd Hp']. replace (Datatypes.S n) with (n + 1)%nat by lia.
    eapply wp_mono; [|apply (IH (n + 1)%nat); [|done|lia|lia]].
    + intros [[b x2]| | |] d2 w2 H; try done. destruct H as (m & ? & ?). exists m. split; [lia|done].
    + cbn. rewrite Hd. by apply ladder_raise.
  - destruct Hk' as [Hd Hp']. wp_step. exists n. rewrite Hd. split_and!; try done; try lia.
Qed.

(** C23: Initialisation is a ladder.  At every moment the stages that are done are the first
    ones of their fixed order; a call of [init] starts with the first that is not, takes
    them one after the other until one fails, undoes none, and returns true exactly when
    all are done; once they are, further calls do nothing at all. *)
Theorem init_invariant (fuel n : nat) (x : (Service.t (S := S))) (d : Details.t) (w : world)
    (Hl : ladder n (done_ x)) (Hp : is_Some (params x)) (Hn : (n ≤ 7)%nat) :
  init fuel x d w = run_stages fuel (drop n all_stages) x d w ∧
  (n = 7%nat → init fuel x d w = (Done (true, x), d, w)) ∧
  let '(r, _, _) := init fuel x d w in
  match r with
  | Done (b, x') => ∃ m, (n ≤ m ≤ 7)%nat ∧ ladder m (done_ x') ∧ is_Some (params x') ∧ (b = true ↔ m = 7%nat)
  | _ => True
  end.
Proof.
  assert (Hi : init fuel x = run_stages fuel (drop n all_stages) x).
  { unfold Service.init. destruct Hp as [s ->]. by apply run_stages_skip. }
  rewrite Hi. split_and!; [done|by intros ->|]. exact (run_stages_up fuel n x d w Hl Hp Hn).
Qed.

(** A refused command line hangs the service.  The logging options alone have a
    description of two lines, whose printing never ends: whatever the service's own
    options are, as long as they leave that one, asking for help, naming an unknown option
    or leaving out a value keeps the service from ever getting past its arguments; it
    never takes the status meant for it. *)
Theorem refused_arguments_hang (s : S) (x : (Service.t (S := S))) (words : list cstr)
    (Hw : argv x = Some words) (Hne : words ≠ [])
    (Hopts : ArgParser.multiline (initCmdLineParams s (LogArgs.initCmdLineParams ArgParser.new)))
    (Hbad : Args.hasError (ArgParser.parse_loop (initCmdLineParams s (LogArgs.initCmdLineParams ArgParser.new)) words
              (drop 1 words) 1 Args.new) = true) :
  ∀ fuel, initArgs fuel s x = Hangs.
Proof.
  intros fuel. unfold initArgs. rewrite Hw. destruct words as [|w0 words]; [done|].
  unfold ArgParser.parse. rewrite take_ge by done. cbv zeta. rewrite Hbad.
  by rewrite ArgParser.printHelp_long.
Qed.

(** The number of interrupts counts the SIGINTs. *)
Fixpoint signals (l : list bool) (x : (Service.t (S := S))) : option (Service.t (S := S)) :=
  match l with
  | [] => Some x
  | b :: l => x ← handleSignal b x; signals l x
  end.

Definition sigints (l : list bool) : nat := length (filter (λ b, b = true) l).

Lemma sigints_cons b l : sigints (b :: l) = ((if b then 1 else 0) + sigints l)%nat.
Proof. unfold sigints. rewrite filter_cons. by destruct b. Qed.

(** Whether a shutdown is asked for, with [n] interrupts already counted. *)
Definition asks (n : nat) (l : list bool) : bool := existsb negb l || ((n =? 0)%nat && (0 <? sigints l)%nat).

(** One more SIGINT. *)
Lemma sigint_step (x : Service.t (S := S)) n :
  interrupts x = Z.of_nat n → (n < 5)%nat →
  match handleSignal true x with
  | Some y => (n + 1 < 5)%nat ∧ interrupts y = Z.of_nat (n + 1) ∧ status y = (if (n =? 0)%nat then Shutdown else status x)
  | None => n = 4%nat
  end.
Proof.
  intros Hx Hn. unfold handleSignal. rewrite Hx. replace (u32 (Z.of_nat n + 1)) with (Z.of_nat (n + 1)) by (rewrite wrap_small by (unfold is_u; lia); lia).
  destruct n as [|n]; [by cbn; split; [lia|]|]. rewrite (proj2 (Z.eqb_neq _ 0)) by lia.
  destruct (Z.leb_spec 5 (Z.of_nat (Datatypes.S n + 1))) as [?|?]; [lia|]. split; [lia|done].
Qed.

Lemma asks_int n l : asks n (true :: l) = (n =? 0)%nat || asks (n + 1) l.
Proof.
  unfold asks. rewrite sigints_cons. cbn [existsb negb orb]. replace (n + 1 =? 0)%nat with false by (symmetry; apply Nat.eqb_neq; lia).
  cbn [Nat.add Nat.ltb Nat.leb andb]. by rewrite andb_true_r, orb_false_r, orb_comm.
Qed.

Lemma signals_from l (x : Service.t (S := S)) n :
  interrupts x = Z.of_nat n → (n < 5)%nat →
  match signals l x with
  | Some x' => (n + sigints l < 5)%nat ∧ interrupts x' = Z.of_nat (n + sigints l) ∧
               status x' = (if asks n l then Shutdown else status x)
  | None => (5 ≤ n + sigints l)%nat
  end.
Proof.
  revert x n. induction l as [|b l IH]; intros x n Hx Hn; cbn [signals].
  { unfold asks, sigints. cbn. rewrite Nat.add_0_r, andb_false_r. done. }
  rewrite sigints_cons. destruct b.
  - rewrite asks_int. pose proof (sigint_step x n Hx Hn) as Hstep.
    destruct (handleSignal true x) as [y|]; cbn [mbind option_bind]; [|lia]. destruct Hstep as (Hlt & Hy & Hs).
    specialize (IH y (n + 1)%nat Hy Hlt). destruct (signals l y) as [x'|]; [|lia]. destruct IH as (? & Hi & Hst).
    split_and!; [lia|rewrite Hi; f_equal; lia|]. rewrite Hst, Hs. by destruct (n =? 0)%nat, (asks _ _).
  - cbn [handleSignal mbind option_bind]. pose proof (IH (setStatus Shutdown x) n Hx Hn) as H.
    destruct (signals l _) as [x'|]; [|done]. destruct H as (? & ? & Hst). split_and!; [done..|]. rewrite Hst. unfold asks.
    cbn. by destruct (_ || _).
Qed.

(** Signals.  Once any SIGTERM or SIGINT has arrived a shutdown is asked for, and stays
    asked for; the process ends at once exactly when the fifth SIGINT arrives, however many
    SIGTERMs arrive among them. *)
Theorem signals_spec (l : list bool) (x : Service.t (S := S)) (Hx : interrupts x = 0) :
  match signals l x with
  | Some x' => (sigints l < 5)%nat ∧ interrupts x' = Z.of_nat (sigints l) ∧
               status x' = (if bool_decide (l = []) then status x else Shutdown)
  | None => (5 ≤ sigints l)%nat
  end.
Proof.
  pose proof (signals_from l x 0 Hx ltac:(lia)) as H. destruct (signals l x) as [x'|]; [|done].
  destruct H as (? & ? & Hst). split_and!; [done..|]. rewrite Hst. destruct l as [|[] l]; [done| |done].
  unfold asks. rewrite sigints_cons. simpl. by rewrite orb_true_r.
Qed.

End Proofs.
End ServiceProofs.

(** The program around its service. *)
Module Run.
Import ServiceStatusCode.

(** [src/src/svc/service/Run.h:30-39] run (loop)

    [services] is what each service in turn ends with; the result is whether each that was
    started was started paused, and the code the loop ends with, if it ends before they
    do. *)
Fixpoint run_loop (code : t) (services : list t) : list bool * option t :=
  if bool_decide (code = Running) || bool_decide (code = Paused) then
    match services with
    | [] => ([], None)
    | ended :: services =>
        let next := if bool_decide (ended = Restart) then Running
                    else if bool_decide (ended = RestartPaused) then Paused else ended in
        let '(modes, c) := run_loop next services in
        (bool_decide (code = Paused) :: modes, c)
    end
  else ([], Some code).

(** [src/src/svc/service/Run.h:20-49] run

    The exit code, when it ends. *)
Definition run (services : list t) : list bool * option Z :=
  let '(modes, code) := run_loop Running services in
  (modes, (λ c, if bool_decide (c = Shutdown) then 0 else to_int c) <$> code).

(** A status after which another service is started, and whether that one is paused. *)
Definition again (c : t) : option bool :=
  match c with
  | Running | Restart => Some false
  | Paused | RestartPaused => Some true
  | Shutdown | None_ => None
  end.

Lemma run_loop_spec (b : bool) (services : list t) :
  run_loop (if b then Paused else Running) services =
  match list_find (λ c, again c = None) services with
  | Some (i, c) => (b :: ((default false ∘ again) <$> take i services), Some c)
  | None => match services with
            | [] => ([], None)
            | _ => (b :: ((default false ∘ again) <$> take (length services - 1) services), None)
            end
  end.
Proof.
  revert b. induction services as [|c services IH]; intros b; [by destruct b|].
  transitivity (let '(modes, e) := run_loop (if bool_decide (c = Restart) then Running
      else if bool_decide (c = RestartPaused) then Paused else c) services in (b :: modes, e)); [by destruct b|].
  destruct (again c) as [b'|] eqn:E.
  - replace (if bool_decide (c = Restart) then Running else if bool_decide (c = RestartPaused) then Paused else c)
      with (if b' then Paused else Running) by (destruct c, b'; simplify_eq/=; done).
    rewrite IH. cbn [list_find]. rewrite decide_False by congruence.
    destruct (list_find _ services) as [[i e]|]; cbn; [by rewrite E|].
    destruct services as [|c2 services]; [done|]. cbn. by rewrite Nat.sub_0_r, E.
  - cbn [list_find]. rewrite decide_True by done. by destruct c, services.
Qed.

(** How a program ends.  Services are run one after the other until one ends with a
    shutdown or with no status, which ends the program: its exit code is zero, whatever
    happened.  Each of the others was started paused exactly when the one before it ended
    by asking for a pause, with or without a restart; the first was not. *)
Theorem run_modes (services : list t) :
  run services =
  match list_find (λ c, again c = None) services with
  | Some (i, c) => (false :: ((default false ∘ again) <$> take i services), Some 0)
  | None => match services with
            | [] => ([], None)
            | _ => (false :: ((default false ∘ again) <$> take (length services - 1) services), None)
            end
  end.
Proof.
  unfold run. change Running with (if false then Paused else Running). rewrite run_loop_spec.
  destruct (list_find _ services) as [[i c]|] eqn:E; [|by destruct services].
  apply list_find_Some in E as (_ & Hc & _). by destruct c.
Qed.

End Run.

(** ** A service that says nothing of its own *)
Module ServiceExamples.
Import Service ServiceProofs ServiceStatusCode ApiExamples ZmqExamples.
#[local] Existing Instance Curve25519.ToyKeys.

#[local] Instance PlainKeys : Sodium := {|
  sk_to_curve25519 k := (0, k); pk_to_curve25519 k := (0, k); scalarmult_base k := (0, k); ossl_error := [] |}.

#[local] Instance DefaultParams : IServiceParams (P := ToyPb) unit := {|
  initCmdLineParams := AbstractServiceParams.initCmdLineParams;
  setCmdLineArgs := AbstractServiceParams.setCmdLineArgs;
  getLogFile := AbstractServiceParams.getLogFile;
  getNumEventThreads := AbstractServiceParams.getNumEventThreads;
  getApiPort := AbstractServiceParams.getApiPort;
  getEventPort := AbstractServiceParams.getEventPort;
  getServerKey := AbstractServiceParams.getServerKey;
  setupScene := AbstractServiceParams.setupScene;
  addApiHandlers := AbstractServiceParams.addApiHandlers;
  addEventSubscriptions := AbstractServiceParams.addEventSubscriptions;
  getAuthenticator := AbstractServiceParams.getAuthenticator;
  preInit := AbstractServiceParams.preInit;
  init_ := AbstractServiceParams.init;
  cleanup_ := AbstractServiceParams.cleanup;
  postCleanup := AbstractServiceParams.postCleanup |}.

Definition default_service : Service.t (P := ToyPb) (S := unit) :=
  setParams tt (new (λ _, 1) (λ _, 2) (Some 1) Log.initial).

Lemma ladder_start : ladder 0 no_flags.
Proof. intros i s _. by destruct s. Qed.

Lemma init_invariant_witness :
  let '(r, _, _) := Service.init 1 (λ _, 1) (λ _, 2) 2 default_service Details.new (queued []) in
  match r with Done (b, x) => b = true ∧ ladder 7 (done_ x) | _ => False end.
Proof.
  destruct (init_invariant 1 (λ _, 1) (λ _, 2) 2 0 default_service Details.new (queued []) ladder_start
    ltac:(by eexists) ltac:(lia)) as (_ & _ & H). revert H.
  assert (Hr : match (Service.init 1 (λ _, 1) (λ _, 2) 2 default_service Details.new (queued [])).1.1 with
               | Done (b, _) => b = true | _ => False end) by (vm_compute; reflexivity).
  revert Hr. destruct (Service.init 1 (λ _, 1) (λ _, 2) 2 default_service Details.new (queued [])) as [[r d] w]. simpl. intros Hr.
  destruct r as [[b x]| | |]; [|done..]. intros (m & _ & Hl & _ & Hb). split; [done|]. by rewrite <- (proj1 Hb Hr).
Defined.

Lemma refused_arguments_hang_witness :
  initArgs 1000 tt (setArgs (Some [$"service"; $"--help"]) default_service) = Hangs.
Proof.
  apply (refused_arguments_hang tt (setArgs (Some [$"service"; $"--help"]) default_service) [$"service"; $"--help"]).
  - reflexivity.
  - discriminate.
  - apply LogArgs.log_help_long.
  - vm_compute. reflexivity.
Defined.

Lemma signals_spec_witness :
  signals (replicate 5 true) default_service = None ∧
  option_map status (signals [false; true; true; true] default_service) = Some Shutdown.
Proof.
  split.
  - pose proof (signals_spec (replicate 5 true) default_service eq_refl) as H.
    destruct (signals (replicate 5 true) default_service) as [x|]; [|reflexivity]. destruct H as [H _]. vm_compute in H. lia.
  - pose proof (signals_spec [false; true; true; true] default_service eq_refl) as H.
    destruct (signals [false; true; true; true] default_service) as [x|]; [|vm_compute in H; lia].
    destruct H as (_ & _ & H). simpl. by rewrite H.
Defined.

End ServiceExamples.
