(* ===== verification/Signals.v ===== *)
(** * The signals of a service: [svc/service/Service.cpp]

    What the process does with each signal, and the global state its handler reads, from
    [initSignals] to [cleanupSignals], with a signal between any two of their calls. *)

From S2P Require Import Prelude Strings Errors Ossl Args Log AnyMap Async Zmq Api Events Service.
Import ApiPort.

Module Signals.

Inductive signal := SIGTERM | SIGINT | SIGPIPE.
Inductive disposition := SIG_DFL | SIG_IGN | HandleSignal.

#[global] Instance signal_eq_dec : EqDecision signal.
Proof. solve_decision. Defined.

(** [src/src/svc/service/Service.cpp:149-162] SignalState, signalState

    The dispositions of the process, and the service the global state refers to, by its
    address. *)
Record t := mk { handler : signal → disposition; signalState : option Z }.

Definition initial : t := mk (λ _, SIG_DFL) None.

(** The calls of the two functions. *)
Inductive call := SetState (svc : Z) | Sigaction (s : signal) (d : disposition) | ResetState.

Definition apply (x : t) (c : call) : t :=
  match c with
  | SetState svc => mk (handler x) (Some svc)
  | Sigaction s d => mk (λ s', if decide (s' = s) then d else handler x s') (signalState x)
  | ResetState => mk (handler x) None
  end.

Definition calls (l : list call) (x : t) : t := foldl apply x l.

(** [src/src/svc/service/Service.cpp:188-205] Service::initSignals *)
Definition initSignals (self : Z) : list call :=
  [SetState self; Sigaction SIGTERM HandleSignal; Sigaction SIGINT HandleSignal; Sigaction SIGPIPE SIG_IGN].

(** [src/src/svc/service/Service.cpp:207-217] Service::cleanupSignals *)
Definition cleanupSignals : list call :=
  [Sigaction SIGTERM SIG_DFL; Sigaction SIGINT SIG_DFL; Sigaction SIGPIPE SIG_DFL; ResetState].

(** What a signal does that arrives now: ends the process, nothing, calls the handler of the
    service whose state is there, or calls it with none there. *)
Inductive effect := Terminates | Nothing | Handled (svc : Z) | NullState.

Definition deliver (s : signal) (x : t) : effect :=
  match handler x s with
  | SIG_DFL => Terminates
  | SIG_IGN => Nothing
  | HandleSignal => match signalState x with Some svc => Handled svc | None => NullState end
  end.

(** A handler is installed only while there is state for it to read. *)
Definition ready (x : t) : Prop := ∀ s, handler x s = HandleSignal → is_Some (signalState x).

Lemma ready_delivers s x : ready x → deliver s x ≠ NullState.
Proof. intros Hx. unfold deliver. destruct (handler x s) eqn:E; [done..|]. by destruct (Hx s E) as [? ->]. Qed.

Lemma ready_set svc x : ready (apply x (SetState svc)).
Proof. intros s _. by eexists. Qed.

Lemma ready_sigaction s d x : is_Some (signalState x) ∨ d ≠ HandleSignal → ready x → ready (apply x (Sigaction s d)).
Proof. intros Hd Hx s'. cbn. case_decide; [|apply Hx]. by destruct Hd. Qed.

Lemma init_ready self n x : ready x → ready (calls (take n (initSignals self)) x).
Proof.
  intros Hx. pose proof (ready_set self x) as H0. destruct n as [|n]; [exact Hx|]. unfold initSignals, calls.
  do 3 (destruct n as [|n]; [cbn [take foldl]; repeat (apply ready_sigaction; [left; by eexists|]); exact H0|]).
  destruct n as [|n]; cbn [take foldl]; repeat (apply ready_sigaction; [left; by eexists|]); exact H0.
Qed.

Lemma cleanup_ready n x : ready x → ready (calls (take n cleanupSignals) x).
Proof.
  intros Hx.
  do 4 (destruct n as [|n]; [unfold cleanupSignals, calls; cbn [take foldl]; repeat (apply ready_sigaction; [by right|]); exact Hx|]).
  assert (H : ready (calls cleanupSignals x)) by (intros [| |]; cbn; done). by destruct n.
Qed.

(** Whatever number of services start and end one after the other, and wherever in the calls
    a signal arrives, its handler finds the state it reads. *)
Fixpoint cycles (selves : list Z) : list call :=
  match selves with [] => [] | self :: selves => initSignals self ++ cleanupSignals ++ cycles selves end.

Lemma calls_app l1 l2 x : calls (l1 ++ l2) x = calls l2 (calls l1 x).
Proof. apply foldl_app. Qed.

Lemma state_always_there selves : ∀ n x s, ready x → deliver s (calls (take n (cycles selves)) x) ≠ NullState.
Proof.
  induction selves as [|self selves IH]; intros n x s Hx; cbn [cycles].
  { rewrite firstn_nil. by apply ready_delivers. }
  rewrite !firstn_app, !calls_app. apply IH, cleanup_ready, init_ready, Hx.
Qed.

(** Between the two functions the service takes SIGTERM and SIGINT and ignores SIGPIPE; after
    the second each is what it was for the process at its start. *)
Lemma dispositions self x :
  let y := calls (initSignals self) x in
  deliver SIGTERM y = Handled self ∧ deliver SIGINT y = Handled self ∧ deliver SIGPIPE y = Nothing ∧
  ∀ s, deliver s (calls cleanupSignals y) = Terminates.
Proof. split_and!; [done..|]. by intros [| |]. Qed.

(** The state belongs to the process: a second service takes the signals of the first, and
    the end of either leaves the other without any. *)
Lemma second_service_takes a b x s :
  let y := calls (initSignals b) (calls (initSignals a) x) in
  deliver SIGINT y = Handled b ∧ deliver s (calls cleanupSignals y) = Terminates.
Proof. split; [done|]. by destruct s. Qed.

(** ** A handler that is running *)

(** A handler reads the state after it was called: on another thread than that of
    [cleanupSignals], the state may be gone by then. *)
Definition handler_reads (between : list call) (x : t) : option Z := signalState (calls between x).

Lemma cleanup_under_handler self x :
  let y := calls (initSignals self) x in
  deliver SIGINT y = Handled self ∧ handler_reads [] y = Some self ∧ handler_reads cleanupSignals y = None.
Proof. done. Qed.

End Signals.

Module ServiceEnd.
Section Code.
Context {T : Types} {P : Pb} {Q : Zmq} {N : Sodium} {K : EvpKeys} {S : Type} {IP : IServiceParams S}.

(** [src/src/svc/service/Service.cpp:41-44] Service::~Service *)
Definition destroy (x : Service.t (S := S)) : M (Service.t (S := S)) := Service.stopService x.

End Code.
End ServiceEnd.
