(* ===== verification/MainLoop.v ===== *)
(** * The main loop, its lock and its signals: [svc/service/Service] under interleaving

    [Service] models what each body does when it runs alone.  Here they meet: the main
    thread in its loop, the threads of the scheduler asking for another status, and signal
    handlers, which run on top of whatever their thread was doing.  The status is stored
    before the lock is taken and the condition notified after; the loop looks at the status
    under the lock and gives it up as it starts to wait. *)

From stdpp Require Import relations.
From S2P Require Import Prelude Errors Args Log AnyMap Zmq Api Service.
Import ServiceStatusCode.

Module MainLoop.

(** Where a call of [setStatus] is: before the store, before the lock, and holding it.
    [Busy] is another call, of a handler of the event loop that never returns. *)
Inductive place := Store (c : ServiceStatusCode.t) | Take | Notify | Busy.

(** A call on a thread's stack, and the signal whose handler made it: SIGINT, SIGTERM, or
    [None] for one that the thread's own code made. *)
Record frame := Frame { why : option bool; at_ : place }.

(** [src/src/svc/service/Service.cpp:46-77] Service::exec (places)

    At the test of the loop; in [initSignals]; in the rest of [init]; before the lock;
    at the second test and about to wait, which hold it; waiting; woken, without the lock;
    at the end of the block, which holds it; in [cleanup], before and at the joining of the
    threads, and after; returned.  [Stuck]: in a call of [init] or [cleanup] that never returns. *)
Inductive place_main :=
  | Test | Install | Init | Enter | Look | Sleep | Wait | Woken | Leave | Cleanup | Join | Reset | Exit | Stuck.

(** What the threads share, and their stacks, innermost call first.  Thread 0 is the main one. *)
Record t := Mk {
  pc : place_main;
  status : ServiceStatusCode.t;
  interrupts : Z;
  locked : bool;
  installed : bool;
  threads : list (list frame) }.

Definition with_pc p x := Mk p (status x) (interrupts x) (locked x) (installed x) (threads x).
Definition with_status c x := Mk (pc x) c (interrupts x) (locked x) (installed x) (threads x).
Definition with_interrupts n x := Mk (pc x) (status x) n (locked x) (installed x) (threads x).
Definition with_locked b x := Mk (pc x) (status x) (interrupts x) b (installed x) (threads x).
Definition with_installed b x := Mk (pc x) (status x) (interrupts x) (locked x) b (threads x).
Definition with_threads l x := Mk (pc x) (status x) (interrupts x) (locked x) (installed x) l.

(** What [notify_all] does to whoever waits. *)
Definition wake (x : t) : t := match pc x with Wait => with_pc Woken x | _ => x end.

(** [src/src/svc/service/Service.cpp:99-105] Service::setStatus (interleaved)

    The next step of the innermost call; [None] while it waits for the lock, which is
    not recursive, and in a call that never returns. *)
Definition advance (l : list frame) (x : t) : option (list frame * t) :=
  match l with
  | Frame w (Store c) :: l => Some (Frame w Take :: l, with_status c x)
  | Frame w Take :: l => if locked x then None else Some (Frame w Notify :: l, with_locked true x)
  | Frame w Notify :: l => Some (l, wake (with_locked false x))
  | Frame w Busy :: l => None
  | [] => None
  end.

(** [src/src/svc/service/Service.cpp:163-184] handleSignal (interleaved)

    The call it makes, if any; [None]: the process ends with code 128.  The count is
    read and written at once. *)
Definition enter (sigint : bool) (x : t) : option (list frame * t) :=
  if sigint then
    let n := u32 (interrupts x + 1) in
    let y := with_interrupts n x in
    if interrupts x =? 0 then Some ([Frame (Some true) (Store Shutdown)], y)
    else if 5 <=? n then None else Some ([], y)
  else Some ([Frame (Some false) (Store Shutdown)], x).

(** [src/src/svc/service/Service.cpp:46-77] Service::exec (interleaved)

    The main thread moves while none of its handlers runs.  [init] may succeed or not and
    start threads, refuse its arguments, which asks for a shutdown, or, as the parts of
    [cleanup] before and after the joining, never return ([refused_arguments_hang] is a case).
    The wait may end for no reason, which is a [late] step when it is the two seconds that
    have passed; the threads are joined in [cleanup], when their calls have ended. *)
Inductive main_step (x : t) : t → Prop :=
  | main_test : pc x = Test →
      main_step x (with_pc (if decide (status x = Running) then Install else Cleanup) x)
  | main_install : pc x = Install → main_step x (with_pc Init (with_installed true x))
  | main_init b n : pc x = Init →
      main_step x (with_pc (if b : bool then Enter else Test) (with_threads (threads x ++ replicate n []) x))
  | main_refused : pc x = Init → main_step x (with_pc Test (with_status Shutdown x))
  | main_hangs : pc x = Init ∨ pc x = Cleanup ∨ pc x = Reset → main_step x (with_pc Stuck x)
  | main_enter : pc x = Enter → locked x = false → main_step x (with_pc Look (with_locked true x))
  | main_look : pc x = Look → main_step x (with_pc (if decide (status x = Running) then Sleep else Leave) x)
  | main_sleep : pc x = Sleep → main_step x (with_pc Wait (with_locked false x))
  | main_woken : pc x = Woken → locked x = false → main_step x (with_pc Leave (with_locked true x))
  | main_leave : pc x = Leave → main_step x (with_pc Test (with_locked false x))
  | main_cleanup : pc x = Cleanup → main_step x (with_pc Join x)
  | main_join : pc x = Join → Forall (λ l, l = []) (threads x) → main_step x (with_pc Reset (with_threads [[]] x))
  | main_reset : pc x = Reset → main_step x (with_pc Exit (with_installed false x)).

(** A step of the program's own code: no signal, no new request, no time that passes. *)
Inductive step (x : t) : t → Prop :=
  | step_main y : threads x !! 0%nat = Some [] → main_step x y → step x y
  | step_call i l l' y : threads x !! i = Some l → advance l x = Some (l', y) →
      step x (with_threads (<[i := l']> (threads x)) y).

(** Everything that can happen; [None] is the end of the process.  A signal is not
    delivered to a thread that handles the same one.  What is asked of a service is never
    to run.  A handler of the event loop may not return ([overlapping_requests_hang] is a
    case), and an exception, which nothing catches, ends the process. *)
Inductive next (x : t) : option t → Prop :=
  | next_step y : step x y → next x (Some y)
  | next_late : pc x = Wait → threads x !! 0%nat = Some [] → next x (Some (with_pc Woken x))
  | next_ask i c : i ≠ 0%nat → threads x !! i = Some [] → c ≠ Running →
      next x (Some (with_threads (<[i := [Frame None (Store c)]]> (threads x)) x))
  | next_busy i : i ≠ 0%nat → threads x !! i = Some [] →
      next x (Some (with_threads (<[i := [Frame None Busy]]> (threads x)) x))
  | next_thrown : pc x = Init ∨ pc x = Cleanup ∨ pc x = Reset → next x None
  | next_signal i b l fs y : installed x = true → threads x !! i = Some l → Some b ∉ (why <$> l) →
      enter b x = Some (fs, y) → next x (Some (with_threads (<[i := fs ++ l]> (threads x)) y))
  | next_forced i b l : installed x = true → threads x !! i = Some l → Some b ∉ (why <$> l) →
      enter b x = None → next x None
  | next_killed : installed x = false → next x None.

Definition start : t := Mk Test Running 0 false false [[]].

(** What can become of a state without the process ending. *)
Definition live (x y : t) : Prop := next x (Some y).
Definition reachable (x : t) : Prop := rtc live start x.

(** ** The invariant *)

Definition holds (p : place_main) : bool := match p with Look | Sleep | Leave => true | _ => false end.
Definition notifying (l : list frame) : nat := sum_list_with (λ f, match at_ f with Notify => 1 | _ => 0 end)%nat l.
Definition holders (x : t) : nat := (Nat.b2n (holds (pc x)) + sum_list_with notifying (threads x))%nat.

(** A call that will still notify. *)
Definition pending (l : list frame) : Prop := Exists (λ f, match at_ f with Take | Notify => True | _ => False end) l.
Definition asks_end (f : frame) : Prop := match at_ f with Store c => c ≠ Running | _ => True end.

(** A call that never returns is the outermost of its thread, which is not the main one. *)
Definition busy (l : list frame) : Prop := Exists (λ f, at_ f = Busy) l.
Definition outermost (i : nat) (l : list frame) : Prop :=
  ∀ l1 f l2, l = l1 ++ f :: l2 → at_ f = Busy → l2 = [] ∧ i ≠ 0%nat.

Record inv (x : t) : Prop := {
  inv_holders : holders x = Nat.b2n (locked x);
  inv_main : ∃ l, threads x !! 0%nat = Some l;
  inv_exit : pc x = Exit → threads x = [[]] ∧ installed x = false;
  inv_asks : Forall (Forall asks_end) (threads x);
  inv_one : pc x = Reset ∨ pc x = Exit → length (threads x) = 1%nat;
  inv_busy i l : threads x !! i = Some l → outermost i l;
  inv_ended : pc x = Cleanup ∨ pc x = Join ∨ pc x = Reset ∨ pc x = Exit → status x ≠ Running;
  inv_wake : pc x = Sleep ∨ pc x = Wait → status x ≠ Running → ∃ i l, threads x !! i = Some l ∧ pending l }.

Lemma sum_insert {A} (f : A → nat) l i a b :
  l !! i = Some a → (sum_list_with f (<[i := b]> l) + f a = sum_list_with f l + f b)%nat.
Proof.
  intros Hi. apply take_drop_middle in Hi as Hl. pose proof (lookup_lt_Some _ _ _ Hi).
  rewrite insert_take_drop by done. rewrite <- Hl at 3. rewrite !sum_list_with_app. simpl. lia.
Qed.

Lemma pending_elsewhere x i l l' :
  (∃ j m, threads x !! j = Some m ∧ pending m) → threads x !! i = Some l → (pending l → pending l') →
  ∃ j m, <[i := l']> (threads x) !! j = Some m ∧ pending m.
Proof.
  intros (j & m & Hj & Hm) Hi Hp. destruct (decide (i = j)) as [<-|Hne].
  - exists i, l'. rewrite list_lookup_insert_eq by (by eapply lookup_lt_Some). simplify_eq. by split; [|apply Hp].
  - exists j, m. by rewrite list_lookup_insert_ne.
Qed.

Lemma insert_zero {A} (l : list A) i a b :
  l !! i = Some a → (∃ m, l !! 0%nat = Some m) → ∃ m, <[i := b]> l !! 0%nat = Some m.
Proof.
  intros Hi [m Hm]. destruct (decide (i = 0%nat)) as [->|].
  - rewrite list_lookup_insert_eq by (by eapply lookup_lt_Some). by eexists.
  - rewrite list_lookup_insert_ne by done. by exists m.
Qed.

Lemma insert_all {A} (Q : nat → A → Prop) (l : list A) i a :
  (∀ j b, l !! j = Some b → Q j b) → Q i a → ∀ j b, <[i := a]> l !! j = Some b → Q j b.
Proof. intros Hl Ha j b [(-> & -> & _)|(_ & Hj)]%list_lookup_insert_Some; [done|by apply Hl]. Qed.

Lemma outermost_nil i : outermost i [].
Proof. intros l1 f l2 H. by destruct l1. Qed.

Lemma outermost_cons i f l : outermost i l → at_ f ≠ Busy → outermost i (f :: l).
Proof. intros Hl Hf [|g l1] f' l2 [= <- H] Hb; [done|]. by eapply Hl. Qed.

Lemma outermost_tail i f l : outermost i (f :: l) → outermost i l.
Proof. intros Hl l1 g l2 -> Hb. by apply (Hl (f :: l1) g l2). Qed.

Lemma outermost_busy i w : i ≠ 0%nat → outermost i [Frame w Busy].
Proof. intros Hi l1 f l2 E Hb. destruct l1 as [|g [|? ?]]; injection E as <- E; done. Qed.

Lemma outermost_advance i l x l' y : advance l x = Some (l', y) → outermost i l → outermost i l'.
Proof.
  destruct l as [|[w [c| | |]] l]; simpl; [done|intros [= <- _]|destruct (locked x); [done|intros [= <- _]]|intros [= <- _]|done];
    intros H%outermost_tail; [by apply outermost_cons|by apply outermost_cons|done].
Qed.

#[local] Hint Resolve outermost_nil outermost_busy : core.

Lemma wake_pc x : pc (wake x) = (match pc x with Wait => Woken | p => p end) ∧ status (wake x) = status x ∧
  locked (wake x) = locked x ∧ installed (wake x) = installed x ∧ threads (wake x) = threads x ∧ interrupts (wake x) = interrupts x.
Proof. unfold wake. by destruct x as [[] ? ? ? ? ?]. Qed.

(** A step of a call. *)
Lemma call_inv x i l l' y :
  inv x → threads x !! i = Some l → advance l x = Some (l', y) → inv (with_threads (<[i := l']> (threads x)) y).
Proof.
  intros Hx Hi Hl. pose proof (insert_all outermost (threads x) i l' (inv_busy x Hx)
    (outermost_advance _ _ _ _ _ Hl (inv_busy x Hx _ _ Hi))) as Hb'.
  destruct Hx as [Hh Hm He Ha Ho Hb Hd Hw].
  assert (Hne : pc x ≠ Exit). { intros Hx. destruct (He Hx) as [Ht _]. rewrite Ht in Hi. destruct i as [|[]]; simplify_eq/=. }
  assert (Hal : Forall asks_end l) by (rewrite Forall_lookup in Ha; by eapply Ha).
  destruct l as [|[w p] l]; [done|]. apply Forall_cons in Hal as [Hc Hal].
  pose proof (sum_insert notifying (threads x) i _ l' Hi) as Hs. unfold holders in Hh.
  destruct p as [c| | |]; simpl in Hl; [|destruct (locked x) eqn:El; [done|]| |done]; simplify_eq; simpl in Hs, Hh.
  - split; simpl; [unfold holders; simpl; lia|by eapply insert_zero|done|apply Forall_insert; [done|by constructor]|
      by rewrite length_insert|done|by intros|].
    intros Hp _. eexists i, _. rewrite list_lookup_insert_eq by (by eapply lookup_lt_Some). split; [done|by left].
  - split; simpl; [unfold holders; simpl; lia|by eapply insert_zero|done|apply Forall_insert; [done|by constructor]|
      by rewrite length_insert|done|done|].
    intros Hp Hr. eapply pending_elsewhere; [by apply Hw|exact Hi|]. by left.
  - destruct (wake_pc (with_locked false x)) as (Ep & Es & Eo & Ei & _ & _). simpl in *.
    assert (Hk : holds (pc x) = false) by (destruct (holds (pc x)), (locked x); simpl in *; [lia..|done]).
    split; simpl; [|by eapply insert_zero| | | |done| |].
    + unfold holders. simpl. rewrite Ep, Eo. destruct (pc x), (locked x); simpl in *; lia.
    + rewrite Ep. by destruct (pc x).
    + by apply Forall_insert.
    + rewrite Ep, length_insert. destruct (pc x); naive_solver.
    + rewrite Ep, Es. intros Hp. apply Hd. destruct (pc x); naive_solver.
    + rewrite Ep. destruct (pc x); naive_solver.
Qed.

Lemma main_inv x y : inv x → threads x !! 0%nat = Some [] → main_step x y → inv y.
Proof.
  intros [Hh Hm He Ha Ho Hb Hd Hw] H0 Hs. unfold holders in Hh.
  destruct Hs as [Hp|Hp|b n Hp|Hp|Hp|Hp Hl|Hp|Hp|Hp Hl|Hp|Hp|Hp Hq|Hp]; try rewrite Hp in *; simpl in *.
  - case_decide; (split; unfold holders; simpl; try done; naive_solver).
  - split; unfold holders; simpl; try done; naive_solver.
  - assert (Hz : sum_list_with notifying (replicate n []) = 0%nat) by (induction n; done).
    split; unfold holders; simpl; [|by exists []; apply lookup_app_l_Some|by destruct b| |destruct b; naive_solver| |
      destruct b; naive_solver|destruct b; naive_solver].
    + rewrite sum_list_with_app, Hz. destruct b; simpl; lia.
    + apply Forall_app. split; [done|]. by apply Forall_replicate.
    + intros j l [Hj|[_ [-> _]%lookup_replicate]]%lookup_app_Some; [by apply Hb|done].
  - split; unfold holders; simpl; try done; naive_solver.
  - assert (holds (pc x) = false) as Hk by (by destruct Hp as [-> | [-> | ->]]). rewrite Hk in Hh.
    split; unfold holders; simpl; try done; naive_solver.
  - rewrite Hl in *. split; unfold holders; simpl in *; [lia|done|done|done|naive_solver|done|naive_solver|naive_solver].
  - case_decide; (split; unfold holders; simpl; try done; naive_solver).
  - split; unfold holders; simpl; [destruct (locked x); simpl in *; lia|done|done|done|naive_solver|done|naive_solver|]. intros _. apply Hw. by left.
  - rewrite Hl in *. split; unfold holders; simpl in *; [lia|done|done|done|naive_solver|done|naive_solver|naive_solver].
  - split; unfold holders; simpl; [destruct (locked x); simpl in *; lia|done|done|done|naive_solver|done|naive_solver|naive_solver].
  - split; unfold holders; simpl; try done; naive_solver.
  - assert (Hz : sum_list_with notifying (threads x) = 0%nat).
    { clear -Hq. by induction Hq as [|l k -> _ IH]. }
    split; unfold holders; simpl; [by rewrite Hz in Hh|by exists []|done|by repeat constructor|done| |naive_solver|naive_solver].
    intros [|[]] l [= <-]. done.
  - specialize (Ho (or_introl eq_refl)) as Ho'.
    assert (threads x = [[]]) as Ht by (destruct (threads x) as [|? []]; by simplify_eq/=).
    split; unfold holders; simpl; try done; naive_solver.
Qed.

Lemma step_keeps_inv x y : inv x → step x y → inv y.
Proof. intros Hx [z H0 Hs|i l l' z Hi Hl]; [by eapply main_inv|by eapply call_inv]. Qed.

(** What a new call, of code or of a handler, does to the invariant. *)
Lemma push_inv x i l fs n :
  inv x → threads x !! i = Some l → pc x ≠ Exit → Forall asks_end fs → notifying fs = 0%nat → outermost i (fs ++ l) →
  inv (with_threads (<[i := fs ++ l]> (threads x)) (with_interrupts n x)).
Proof.
  intros [Hh Hm He Ha Ho Hb Hd Hw] Hi Hne Hf Hn Hout. unfold holders in Hh.
  pose proof (sum_insert notifying (threads x) i _ (fs ++ l) Hi) as Hs.
  assert (Hnot : notifying (fs ++ l) = notifying l) by (unfold notifying in *; rewrite sum_list_with_app; lia).
  split; unfold holders; simpl; [lia|by eapply insert_zero|done| |by rewrite length_insert|by apply insert_all|done|].
  - apply Forall_insert; [done|]. apply Forall_app. split; [done|]. rewrite Forall_lookup in Ha. by eapply Ha.
  - intros Hp Hr. eapply pending_elsewhere; [by apply Hw|exact Hi|]. intros. apply Exists_app. by right.
Qed.

Lemma enter_spec b x fs y :
  enter b x = Some (fs, y) → y = with_interrupts (interrupts y) x ∧ Forall asks_end fs ∧ notifying fs = 0%nat ∧
  ∀ i l, outermost i l → outermost i (fs ++ l).
Proof.
  unfold enter. destruct b; [case_match; [|case_match]|]; intros [= <- <-];
    (split; [by destruct x|split; [by repeat constructor|split; [done|]]]); intros i l Hl; try done; by apply outermost_cons.
Qed.

Lemma worker_lives x i l : inv x → i ≠ 0%nat → threads x !! i = Some l → pc x ≠ Exit.
Proof. intros Hx Hi Hl [Ht _]%(inv_exit x Hx). rewrite Ht in Hl. by destruct i as [|[]]. Qed.

Lemma live_inv x y : inv x → live x y → inv y.
Proof.
  intros Hx H. unfold live in H. inversion H as [? Hs|Hp H0|i c Hi H0 Hc|i Hi H0| |i b l fs z Hin Hi Hb He| |]; subst; clear H.
  - by eapply step_keeps_inv.
  - destruct Hx as [Hh Hm He Ha Ho Hb Hd Hw]. unfold holders in Hh. rewrite Hp in *. simpl in Hh.
    split; unfold holders; simpl; [done|done|done|done|naive_solver|done|naive_solver|naive_solver].
  - pose proof (push_inv x i [] [Frame None (Store c)] (interrupts x) Hx H0 (worker_lives x i [] Hx Hi H0)) as Hn.
    destruct x; apply Hn; [by repeat constructor|done|by apply outermost_cons].
  - pose proof (push_inv x i [] [Frame None Busy] (interrupts x) Hx H0 (worker_lives x i [] Hx Hi H0)) as Hn.
    destruct x; apply Hn; [by repeat constructor|done|by apply outermost_busy].
  - destruct (enter_spec _ _ _ _ He) as (Hy & Hf & Hn & Ho). assert (Hp : pc x ≠ Exit) by (intros [_ Hq]%(inv_exit x Hx); congruence).
    pose proof (push_inv x i l fs (interrupts z) Hx Hi Hp Hf Hn (Ho i l (inv_busy x Hx i l Hi))) as Hr. rewrite Hy. destruct x; exact Hr.
Qed.

Lemma start_inv : inv start.
Proof.
  split; simpl; [done|by eexists|done|by repeat constructor|naive_solver| |naive_solver|naive_solver].
  intros [|[]] l [= <-]. done.
Qed.

Lemma reachable_inv x : reachable x → inv x.
Proof. revert x. apply rtc_ind_r; [apply start_inv|]. intros y z _ Hs IH. by eapply live_inv. Qed.

(** ** A thread that waits for itself *)

(** A call that holds the lock, or will. *)
Definition notifies (f : frame) : Prop := match at_ f with Notify => True | _ => False end.

(** On thread [i], a handler has to take the lock before something below it, which has it,
    can go on. *)
Definition self_blocked (x : t) : Prop :=
  ∃ i l1 f l2, threads x !! i = Some (l1 ++ f :: l2) ∧ ¬ notifies f ∧ (Exists notifies l2 ∨ (i = 0%nat ∧ holds (pc x) = true)).

Lemma notifies_count l : Exists notifies l ↔ (0 < notifying l)%nat.
Proof.
  induction l as [|[w p] l IH]; [split; [by intros ?%Exists_nil|simpl; lia]|].
  rewrite Exists_cons, IH. unfold notifies. destruct p; simpl; intuition lia.
Qed.

Lemma thread_notifying x i l : threads x !! i = Some l → (notifying l ≤ sum_list_with notifying (threads x))%nat.
Proof. intros Hi. apply sum_list_with_in. by eapply list_elem_of_lookup_2. Qed.

Lemma self_blocked_locked x : inv x → self_blocked x → locked x = true.
Proof.
  intros Hx (i & l1 & f & l2 & Hi & _ & H). pose proof (inv_holders x Hx) as Hh. unfold holders in Hh.
  destruct (locked x); [done|]. apply thread_notifying in Hi. unfold notifying in *. rewrite sum_list_with_app in Hi. simpl in *.
  destruct H as [H%notifies_count|[-> H]]; [unfold notifying in H; lia|rewrite H in Hh; simpl in Hh; lia].
Qed.

Lemma advance_pc l x l' y : advance l x = Some (l', y) → holds (pc y) = holds (pc x) ∧ (threads y = threads x).
Proof.
  destruct l as [|[w []] l]; simpl; [done|intros [= <- <-]; done|destruct (locked x); [done|intros [= <- <-]; done]| |done].
  intros [= <- <-]. destruct (wake_pc (with_locked false x)) as (-> & _ & _ & _ & -> & _). simpl. by destruct (pc x).
Qed.

(** Nothing ends it. *)
Lemma self_blocked_call x i l l' y :
  inv x → self_blocked x → threads x !! i = Some l → advance l x = Some (l', y) →
  self_blocked (with_threads (<[i := l']> (threads x)) y).
Proof.
  intros Hx Hb Hi Ha. pose proof (self_blocked_locked x Hx Hb) as Hl. destruct (advance_pc _ _ _ _ Ha) as [Hp _].
  destruct Hb as (j & l1 & f & l2 & Hj & Hf & Hb). destruct (decide (i = j)) as [<-|Hne].
  - simplify_eq. assert (Hn : ∃ m f', l' = m ++ f' :: l2 ∧ ¬ notifies f').
    { destruct l1 as [|[w []] l1]; simpl in Ha.
      - destruct f as [w []]; simpl in Ha; [injection Ha as <- <-; by exists [], (Frame w Take)|by rewrite Hl in Ha|by destruct Hf|done].
      - injection Ha as <- <-. by exists (Frame w Take :: l1), f.
      - by rewrite Hl in Ha.
      - injection Ha as <- <-. by exists l1, f.
      - done. }
    destruct Hn as (m & f' & -> & Hf'). exists i, m, f', l2. simpl.
    rewrite list_lookup_insert_eq by (by eapply lookup_lt_Some). by rewrite Hp.
  - exists j, l1, f, l2. simpl. rewrite list_lookup_insert_ne by done. by rewrite Hp.
Qed.

Lemma self_blocked_main x y : inv x → self_blocked x → threads x !! 0%nat = Some [] → main_step x y → self_blocked y.
Proof.
  intros Hx (i & l1 & f & l2 & Hi & Hf & Hb) H0 Hs.
  assert (Hn : i ≠ 0%nat) by (intros ->; destruct l1; simplify_eq). destruct Hb as [Hb|[??]]; [|done].
  assert (Hk : ∀ p z, threads z = threads x → self_blocked (with_pc p z)).
  { intros p z Hz. exists i, l1, f, l2. simpl. rewrite Hz. split_and!; [done|done|by left]. }
  destruct Hs as [Hp|Hp|b n Hp|Hp|Hp|Hp Hl|Hp|Hp|Hp Hl|Hp|Hp|Hp Hq|Hp]; try by apply Hk.
  - exists i, l1, f, l2. split_and!; [by apply lookup_app_l_Some|done|by left].
  - exfalso. rewrite Forall_lookup in Hq. specialize (Hq _ _ Hi). by destruct l1.
Qed.

Lemma self_blocked_live x y : inv x → self_blocked x → live x y → self_blocked y.
Proof.
  intros Hx Hb H. unfold live in H. inversion H as [? Hs|Hp H0|i c Hi H0 Hc|i Hi H0| |i b l fs z Hin Hi _ He| |]; subst; clear H.
  - destruct Hs as [z H0 Hs|i l l' z Hi Hl]; [by eapply self_blocked_main|by eapply self_blocked_call].
  - destruct Hb as (i & l1 & f & l2 & Hi & Hf & Hb). assert (Hn : i ≠ 0%nat) by (intros ->; destruct l1; simplify_eq).
    exists i, l1, f, l2. split_and!; [done..|]. left. by destruct Hb as [|[??]].
  - destruct Hb as (j & l1 & f & l2 & Hj & Hf & Hb). exists j, l1, f, l2. simpl.
    rewrite list_lookup_insert_ne; [done|]. intros ->. rewrite H0 in Hj. by destruct l1.
  - destruct Hb as (j & l1 & f & l2 & Hj & Hf & Hb). exists j, l1, f, l2. simpl.
    rewrite list_lookup_insert_ne; [done|]. intros ->. rewrite H0 in Hj. by destruct l1.
  - destruct (enter_spec _ _ _ _ He) as (Hy & _ & _). destruct Hb as (j & l1 & f & l2 & Hj & Hf & Hb).
    assert (Hp : pc z = pc x) by (by rewrite Hy). destruct (decide (i = j)) as [<-|Hne].
    + simplify_eq. exists i, (fs ++ l1), f, l2. simpl. rewrite list_lookup_insert_eq by (by eapply lookup_lt_Some).
      rewrite Hp, <- app_assoc. by split_and!.
    + exists j, l1, f, l2. simpl. rewrite list_lookup_insert_ne by done. by rewrite Hp.
Qed.

Lemma self_blocked_not_exit x : inv x → self_blocked x → pc x ≠ Exit.
Proof.
  intros Hx (i & l1 & f & l2 & Hi & _) Hp. destruct (inv_exit x Hx Hp) as [Ht _]. rewrite Ht in Hi.
  destruct i as [|[]]; [|done..]. by destruct l1.
Qed.

(** The program's own steps do not start it. *)
Lemma self_blocked_before x y : step x y → self_blocked y → self_blocked x.
Proof.
  intros [z H0 Hs|i l l' z Hi Ha] (j & l1 & f & l2 & Hj & Hf & Hb).
  - assert (Hk : threads z !! j = Some (l1 ++ f :: l2) → threads x !! j = Some (l1 ++ f :: l2)).
    { destruct Hs as [Hp|Hp|b n Hp|Hp|Hp|Hp Hl|Hp|Hp|Hp Hl|Hp|Hp|Hp Hq|Hp]; simpl; try done.
      - rewrite lookup_app_Some. intros [|[_ Hr]]; [done|]. apply lookup_replicate in Hr as [Hr _]. by destruct l1.
      - destruct j as [|[]]; [|done..]. intros [= Hr]. by destruct l1. }
    apply Hk in Hj. assert (Hn : j ≠ 0%nat) by (intros ->; destruct l1; simplify_eq).
    exists j, l1, f, l2. split_and!; [done..|]. destruct Hb as [|[? _]]; [by left|done].
  - destruct (advance_pc _ _ _ _ Ha) as [Hp Ht]. simpl in *. rewrite Hp in Hb. destruct (decide (i = j)) as [<-|Hne].
    + rewrite list_lookup_insert_eq in Hj by (by eapply lookup_lt_Some). simplify_eq.
      destruct l as [|[w [c| | |]] l]; simpl in Ha; [done|..|done].
      * injection Ha as Ha _. destruct l1 as [|g l1]; simplify_eq/=; [by exists i, [], (Frame w (Store c)), l2|].
        by exists i, (Frame w (Store c) :: l1), f, l2.
      * destruct (locked x); [done|]. injection Ha as Ha _. destruct l1 as [|g l1]; simplify_eq/=; [by destruct Hf|].
        by exists i, (Frame w Take :: l1), f, l2.
      * injection Ha as -> _. by exists i, (Frame w Notify :: l1), f, l2.
    + rewrite list_lookup_insert_ne in Hj by done. by exists j, l1, f, l2.
Qed.

(** ** Progress and an end *)

(** Every thread is idle or in a call that never returns, or some thread's innermost call is
    one that ends. *)
Lemma all_idle x :
  inv x → (∀ i l, threads x !! i = Some l → l = [] ∨ busy l ∧ i ≠ 0%nat ∧ ¬ pending l) ∨
          ∃ i f l, threads x !! i = Some (f :: l) ∧ at_ f ≠ Busy.
Proof.
  intros Hx. assert (Hd : ∀ l : list frame, Decision (match l with f :: _ => at_ f = Busy | [] => True end)).
  { intros [|[w []] ?]; simpl; first [by left | by right]. }
  destruct (Forall_Exists_dec _ _ Hd (threads x)) as [Hall|Hex].
  - left. intros i l Hi. rewrite Forall_lookup in Hall. specialize (Hall _ _ Hi). destruct l as [|[w p] l]; [by left|right].
    simpl in Hall. subst p. destruct (inv_busy x Hx _ _ Hi [] _ l eq_refl eq_refl) as [-> Hne].
    split; [by left|]. split; [done|]. by intros [[]|[]%Exists_nil]%Exists_cons.
  - right. apply Exists_exists in Hex as (l & [i Hi]%list_elem_of_lookup & Hl). destruct l as [|f l]; [by destruct Hl|].
    by exists i, f, l.
Qed.

Lemma call_goes_on l x l' y : advance l x = Some (l', y) → pc x ≠ Stuck → pc y ≠ Stuck.
Proof.
  destruct l as [|[w [c| | |]] l]; simpl; [done|intros [= _ <-]|destruct (locked x); [done|intros [= _ <-]]|intros [= _ <-]|done]; simpl; [done..|].
  destruct (wake_pc (with_locked false x)) as (-> & _). simpl. by destruct (pc x).
Qed.

(** A thread whose innermost call ends and does not wait for the lock can go on. *)
Lemma call_moves x i w p l :
  threads x !! i = Some (Frame w p :: l) → p ≠ Busy → p ≠ Take ∨ locked x = false → pc x ≠ Stuck →
  ∃ y, step x y ∧ pc y ≠ Stuck.
Proof.
  intros Hi Hb Hp Hs. destruct (advance (Frame w p :: l) x) as [[l' y]|] eqn:E.
  - eexists. split; [by eapply step_call|]. exact (call_goes_on _ _ _ _ E Hs).
  - destruct p; simpl in E; [done|destruct Hp as [|Hp]; [done|by rewrite Hp in E]|done..].
Qed.

(** A thread under which the lock is held can go on, or waits for itself. *)
Lemma holder_moves x i f l :
  inv x → pc x ≠ Stuck → threads x !! i = Some (f :: l) →
  Exists notifies (f :: l) ∨ (i = 0%nat ∧ holds (pc x) = true) →
  self_blocked x ∨ ∃ y, step x y ∧ pc y ≠ Stuck.
Proof.
  intros Hx Hst Hi Hh. destruct f as [w p]. assert (p = Take ∨ p ≠ Take) as [->|Hp] by (destruct p; auto).
  - left. exists i, [], (Frame w Take), l. split_and!; [done|by intros []|]. destruct Hh as [Hh|]; [|by right].
    left. by apply Exists_cons in Hh as [[]|].
  - right. eapply call_moves; [exact Hi| |by left|done]. intros ->.
    destruct (inv_busy x Hx _ _ Hi [] _ l eq_refl eq_refl) as [-> Hne].
    by destruct Hh as [[[]|[]%Exists_nil]%Exists_cons|[? _]].
Qed.

Lemma main_moves x : threads x !! 0%nat = Some [] → pc x ≠ Wait → pc x ≠ Exit → pc x ≠ Stuck →
  locked x = false ∧ (pc x = Join → Forall (λ l, l = []) (threads x)) ∨ holds (pc x) = true →
  ∃ y, step x y ∧ pc y ≠ Stuck.
Proof.
  intros H0 Hw He Hst Hc. assert (∃ y, main_step x y ∧ pc y ≠ Stuck) as (y & Hy & Hn); [|exists y; split; [by constructor|done]].
  destruct (pc x) eqn:Ep; try done; try (destruct Hc as [[Hl Hq]|]; [|done]).
  - eexists. split; [by apply main_test|]. simpl. by case_decide.
  - eexists. by split; [apply main_install|].
  - eexists. by split; [apply (main_init x true 0)|].
  - eexists. by split; [apply main_enter|].
  - eexists. split; [by apply main_look|]. simpl. by case_decide.
  - eexists. by split; [apply main_sleep|].
  - eexists. by split; [apply main_woken|].
  - eexists. by split; [apply main_leave|].
  - eexists. by split; [apply main_cleanup|].
  - eexists. by split; [apply main_join; [|apply Hq]|].
  - eexists. by split; [apply main_reset|].
Qed.

(** The main thread waits for a thread that never ends. *)
Definition joins_busy (x : t) : Prop := pc x = Join ∧ ∃ i l, threads x !! i = Some l ∧ busy l.

Lemma progress x : inv x → status x ≠ Running → pc x ≠ Exit → pc x ≠ Stuck →
  self_blocked x ∨ (∃ y, step x y ∧ pc y ≠ Stuck) ∨ joins_busy x.
Proof.
  intros Hx Hr He Hst. pose proof (inv_holders x Hx) as Hh. unfold holders in Hh. destruct (inv_main x Hx) as [l0 H0].
  destruct (locked x) eqn:El; simpl in Hh.
  - assert (self_blocked x ∨ ∃ y, step x y ∧ pc y ≠ Stuck) as []; [|by left|by right; left].
    destruct (holds (pc x)) eqn:Ep; simpl in Hh.
    + destruct l0 as [|f l0]; [right|by eapply holder_moves; [| | |right]].
      apply main_moves; try done; [by intros Hp; rewrite Hp in Ep|by right].
    + assert (Hn : ∃ i l, threads x !! i = Some l ∧ Exists notifies l).
      { clear -Hh. induction (threads x) as [|l k IH]; [done|]. simpl in Hh. destruct (decide (0 < notifying l)%nat) as [Hl|Hl].
        - exists 0%nat, l. by rewrite notifies_count.
        - destruct IH as (i & m & Hi & Hm); [lia|]. by exists (S i), m. }
      destruct Hn as (i & l & Hi & Hn). destruct l as [|f l]; [by apply Exists_nil in Hn|]. eapply holder_moves; [done|done|exact Hi|by left].
  - right. destruct (all_idle x Hx) as [Hq|(i & [w p] & k & Hi & Hb)]; [|left; eapply call_moves; [exact Hi|done|by right|done]].
    destruct (Hq _ _ H0) as [->|(_ & [] & _)]; [|done].
    assert (pc x = Join ∧ (∃ i l, threads x !! i = Some l ∧ busy l) ∨ (pc x = Join → Forall (λ l, l = []) (threads x)))
      as [|Hj]; [|by right|left].
    { assert (Hd : ∀ l : list frame, Decision (l = [])) by (intros []; first [by left | by right]).
      destruct (Forall_Exists_dec _ _ Hd (threads x)) as [|Hex]; [by right|].
      assert (pc x = Join ∨ pc x ≠ Join) as [Hp|] by (destruct (pc x); auto); [left|by right].
      split; [done|]. apply Exists_exists in Hex as (l & [i Hi]%list_elem_of_lookup & Hl).
      exists i, l. split; [done|]. by destruct (Hq _ _ Hi) as [|(? & _)]. }
    apply main_moves; try done; [|by left].
    intros Hp. destruct (inv_wake x Hx) as (i & l & Hi & Hl); [by right|done|].
    by destruct (Hq _ _ Hi) as [->|(_ & _ & [])]; [apply Exists_nil in Hl|].
Qed.

(** How many steps are left once the loop is to end. *)
Definition rank_main (p : place_main) : nat :=
  match p with Exit | Stuck => 0 | Reset => 1 | Join => 2 | Cleanup => 3 | Test => 4 | Leave => 5 | Woken => 6
             | Wait => 7 | Sleep => 8 | Look => 9 | Enter => 10 | Init => 11 | Install => 12 end.
Definition rank (l : list frame) : nat :=
  sum_list_with (λ f, match at_ f with Store _ => 3 | Take => 2 | Notify => 1 | Busy => 0 end)%nat l.
Definition measure (x : t) : nat := (sum_list_with rank (threads x) + rank_main (pc x))%nat.

Lemma step_decreases x y : inv x → status x ≠ Running → step x y → status y ≠ Running ∧ (measure y < measure x)%nat.
Proof.
  unfold measure. intros Hx Hr [z H0 Hs|i l l' z Hi Ha].
  - assert (Hz : ∀ n, sum_list_with rank (replicate n []) = 0%nat) by (induction n; done).
    destruct Hs as [Hp|Hp|b n Hp|Hp|Hp|Hp Hl|Hp|Hp|Hp Hl|Hp|Hp|Hp Hq|Hp]; simpl; (split; [done|]); try (rewrite Hp; simpl; lia).
    + rewrite Hp. case_decide; [done|simpl; lia].
    + rewrite Hp, sum_list_with_app, Hz. destruct b; simpl; lia.
    + destruct Hp as [-> | [-> | ->]]; simpl; lia.
    + rewrite Hp. case_decide; [done|simpl; lia].
  - pose proof (sum_insert rank (threads x) i _ l' Hi) as Hs. pose proof (inv_asks x Hx) as Hf.
    rewrite Forall_lookup in Hf. specialize (Hf _ _ Hi). destruct l as [|[w [c| | |]] l]; simpl in Ha; [done|..|done].
    + injection Ha as <- <-. apply Forall_cons in Hf as [Hc _]. unfold rank in *. simpl in *. split; [done|lia].
    + destruct (locked x); [done|]. injection Ha as <- <-. unfold rank in *. simpl in *. split; [done|lia].
    + injection Ha as <- <-. destruct (wake_pc (with_locked false x)) as (Ep & Es & _ & _ & Et & _). unfold rank in *. simpl in *.
      rewrite Ep, Es. split; [done|]. destruct (pc x); simpl; lia.
Qed.

(** Threads whose handlers all return stay so by the program's own steps. *)
Definition returning (x : t) : Prop := ∀ i l, threads x !! i = Some l → ¬ busy l.

Lemma step_returning x y : returning x → step x y → returning y.
Proof.
  intros Hx [z H0 Hs|i l l' z Hi Ha].
  - destruct Hs as [Hp|Hp|b n Hp|Hp|Hp|Hp Hl|Hp|Hp|Hp Hl|Hp|Hp|Hp Hq|Hp]; try done.
    + intros i l [Hi|[_ [-> _]%lookup_replicate]]%lookup_app_Some; [by eapply Hx|by intros ?%Exists_nil].
    + intros [|[]] l [= <-]. by intros ?%Exists_nil.
  - destruct (advance_pc _ _ _ _ Ha) as [_ Ht]. unfold returning. simpl.
    apply (insert_all (λ _ l, ¬ busy l)); [exact Hx|]. specialize (Hx _ _ Hi). unfold busy in *.
    destruct l as [|[w [c| | |]] l]; simpl in Ha; [done|injection Ha as <- _|destruct (locked x); [done|injection Ha as <- _]|injection Ha as <- _|done];
      rewrite ?Exists_cons in *; simpl in *; naive_solver.
Qed.


(** C35: A signal that arrives while the main thread has the lock hangs the service: its
    handler waits for a lock that its own thread holds.  Whatever happens then, with further
    signals, requests and time, the main loop never ends and the service is never cleaned up. *)
Theorem signal_hangs_service (x y : t) (b : bool) (fs : list frame)
    (Hx : reachable x) (Hlock : holds (pc x) = true) (Hmain : threads x !! 0%nat = Some [])
    (Hsig : installed x = true) (Henter : enter b x = Some (fs, y)) (Hasks : fs ≠ []) :
  live x (with_threads (<[0%nat := fs]> (threads x)) y) ∧
  ∀ z, rtc live (with_threads (<[0%nat := fs]> (threads x)) y) z → pc z ≠ Exit ∧ self_blocked z.
Proof.
  assert (Hl : live x (with_threads (<[0%nat := fs]> (threads x)) y)).
  { rewrite <- (app_nil_r fs). eapply next_signal; [done|done|by apply not_elem_of_nil|done]. }
  assert (Hfs : ∃ w, fs = [Frame w (Store Shutdown)]).
  { unfold enter in Henter. destruct b; [case_match; [|case_match]|]; simplify_eq; by eexists. }
  destruct Hfs as [w ->]. split; [done|]. destruct (enter_spec _ _ _ _ Henter) as (Hy & _ & _).
  set (x' := with_threads _ y) in *. assert (Hb : self_blocked x').
  { exists 0%nat, [], (Frame w (Store Shutdown)), []. split_and!; [|by intros []|right].
    - unfold x'. simpl. rewrite list_lookup_insert_eq; [done|by eapply lookup_lt_Some].
    - split; [done|]. unfold x'. simpl. by rewrite Hy. }
  assert (Hi : inv x') by (eapply live_inv; [by apply reachable_inv|done]).
  intros z Hz. assert (inv z ∧ self_blocked z) as [? ?]; [|by split; [apply self_blocked_not_exit|]].
  clearbody x'. clear -Hi Hb Hz. induction Hz as [|x z y Hs _ IH]; [done|].
  apply IH; [by eapply self_blocked_live|by eapply live_inv].
Qed.

(** ** A handler that runs alone is the function of [Service] *)

(** The steps of thread [i] alone. *)
Inductive own_step (i : nat) (x : t) : t → Prop :=
  | own_call l l' y : threads x !! i = Some l → advance l x = Some (l', y) → own_step i x (with_threads (<[i := l']> (threads x)) y).

Lemma call_alone i x w c l :
  threads x !! i = Some l → locked x = false →
  rtc (own_step i) (with_threads (<[i := Frame w (Store c) :: l]> (threads x)) x) (wake (with_status c x)).
Proof.
  intros Hi Hl. pose proof (lookup_lt_Some _ _ _ Hi) as Hlt.
  assert (Hk : ∀ l z, threads z = <[i := l]> (threads x) → threads z !! i = Some l) by (intros ? ? ->; by apply list_lookup_insert_eq).
  eapply rtc_l; [eapply own_call; [by apply Hk|done]|].
  eapply rtc_l; [eapply own_call; [apply (Hk (Frame w Take :: l)); simpl; by rewrite list_insert_insert_eq|simpl; by rewrite Hl]|].
  eapply rtc_l; [eapply own_call; [apply (Hk (Frame w Notify :: l)); simpl; by rewrite !list_insert_insert_eq|done]|].
  simpl. rewrite !list_insert_insert_eq, list_insert_id by done. destruct x as [p s n b h k]; simpl in *; subst b.
  destruct p; apply rtc_refl.
Qed.

Section Alone.
Context {T : Types} {P : Pb} {S : Type}.

(** Nothing else moving and the lock free, a signal does what [Service.handleSignal] says. *)
Theorem handler_alone (b : bool) (x : t) (s : Service.t (S := S)) (i : nat) (l : list frame)
    (Hs : Service.status s = status x) (Hn : Service.interrupts s = interrupts x)
    (Hi : threads x !! i = Some l) (Hl : locked x = false) :
  match Service.handleSignal b s with
  | None => enter b x = None
  | Some s' => ∃ fs y z, enter b x = Some (fs, y) ∧ rtc (own_step i) (with_threads (<[i := fs ++ l]> (threads x)) y) z ∧
      Service.status s' = status z ∧ Service.interrupts s' = interrupts z ∧ threads z = threads x ∧ locked z = false
  end.
Proof.
  unfold Service.handleSignal, enter. rewrite Hn. destruct b; [destruct (interrupts x =? 0); [|destruct (5 <=? _)]|]; [|done|..]; simpl.
  - eexists _, _, _. split_and!; [done|by apply (call_alone i (with_interrupts _ x))|..];
      destruct (wake_pc (with_status Shutdown (with_interrupts (u32 (interrupts x + 1)) x))) as (_ & ? & ? & _ & ? & ?); simpl in *; congruence.
  - eexists _, _, _. split_and!; [done|apply rtc_refl|..]; simpl; [done|done|by apply list_insert_id|done].
  - eexists _, _, _. split_and!; [done|by apply (call_alone i x)|..];
      destruct (wake_pc (with_status Shutdown x)) as (_ & ? & ? & _ & ? & ?); simpl in *; congruence.
Qed.

End Alone.

(** ** A service that has started *)

Lemma looking : reachable (Mk Look Running 0 true true [[]; []]).
Proof.
  eapply rtc_l; [apply next_step, step_main; [done|by apply main_test]|].
  eapply rtc_l; [apply next_step, step_main; [done|by apply main_install]|].
  eapply rtc_l; [apply next_step, step_main; [done|by apply (main_init _ true 1)]|].
  eapply rtc_l; [apply next_step, step_main; [done|by apply main_enter]|]. apply rtc_refl.
Qed.

Lemma signal_hangs_service_witness :
  live (Mk Look Running 0 true true [[]; []]) (Mk Look Running 0 true true [[Frame (Some false) (Store Shutdown)]; []]) ∧
  self_blocked (Mk Look Running 0 true true [[Frame (Some false) (Store Shutdown)]; []]).
Proof.
  destruct (signal_hangs_service _ (Mk Look Running 0 true true [[]; []]) false [Frame (Some false) (Store Shutdown)]
    looking eq_refl eq_refl eq_refl eq_refl ltac:(done)) as [Hl Hf].
  split; [exact Hl|]. by apply Hf.
Defined.

(** Another thread is told of the signal, and the main thread waits. *)
Lemma told : reachable (Mk Wait Shutdown 0 false true [[]; [Frame (Some false) Take]]).
Proof.
  eapply rtc_trans; [apply looking|].
  eapply rtc_l; [apply next_step, step_main; [done|by apply main_look]|].
  eapply rtc_l; [apply next_step, step_main; [done|by apply main_sleep]|].
  eapply rtc_l; [apply (next_signal _ 1 false []); [done..|by apply not_elem_of_nil|done]|].
  eapply rtc_l; [apply next_step; by eapply (step_call _ 1)|]. apply rtc_refl.
Qed.


(** A handler that never returns keeps the service for good: the threads are never joined. *)
Lemma busy_never_joined x y i l :
  inv x → threads x !! i = Some l → busy l → pc x = Join → step x y →
  pc y = Join ∧ ∃ l', threads y !! i = Some l' ∧ busy l'.
Proof.
  intros Hx Hi Hl Hp [z H0 Hs|j m m' z Hj Ha].
  - destruct Hs as [Hm|Hm|b n Hm|Hm|Hm|Hm Hk|Hm|Hm|Hm Hk|Hm|Hm|Hm Hq|Hm]; try congruence; [by destruct Hm as [|[|]]; congruence|].
    rewrite Forall_lookup in Hq. rewrite (Hq _ _ Hi) in Hl. by apply Exists_nil in Hl.
  - simpl. assert (Hz : pc z = Join).
    { destruct m as [|[w [c| | |]] m]; simpl in Ha; [done|injection Ha as _ <-|destruct (locked x); [done|injection Ha as _ <-]|injection Ha as _ <-|done];
        simpl; [done..|]. destruct (wake_pc (with_locked false x)) as (-> & _). simpl. by rewrite Hp. }
    split; [done|]. destruct (decide (j = i)) as [->|Hne]; [|exists l; by rewrite list_lookup_insert_ne].
    exists m'. rewrite list_lookup_insert_eq by (by eapply lookup_lt_Some). split; [done|]. simplify_eq. unfold busy in *.
    destruct l as [|[w [c| | |]] l]; simpl in Ha; [done|injection Ha as <- _|destruct (locked x); [done|injection Ha as <- _]|injection Ha as <- _|done];
      rewrite ?Exists_cons in *; simpl in *; naive_solver.
Qed.

(** A service that is interrupted while it prints its help is asked to end and does not. *)
Lemma interrupted_in_init :
  reachable (Mk Stuck Shutdown 1 false true [[]]) ∧ ∀ y, ¬ step (Mk Stuck Shutdown 1 false true [[]]) y.
Proof.
  split.
  - eapply rtc_l; [apply next_step, step_main; [done|by apply main_test]|].
    eapply rtc_l; [apply next_step, step_main; [done|by apply main_install]|].
    eapply rtc_l; [apply next_step, step_main; [done|by apply main_hangs; left]|].
    eapply rtc_l; [apply (next_signal _ 0 true []); [done..|by apply not_elem_of_nil|done]|].
    do 3 (eapply rtc_l; [apply next_step; by eapply (step_call _ 0)|]). apply rtc_refl.
  - intros y [z _ Hs|i l l' z Hi Ha]; [by inversion Hs; naive_solver|].
    destruct i as [|[]]; [|done..]. injection Hi as <-. done.
Qed.

End MainLoop.
