(* ===== verification/Params.v ===== *)
(** * The two services: [services/p2p/core] and [services/curator/core]

    What the peer-to-peer node and the curator supply to the service framework: their
    options, environment, ports and start-up.  Both are instances of [IServiceParams], so
    what [Service] proves of any service holds of them.  A service's state carries the
    environment and the files it sees. *)

From S2P Require Import Prelude BinData Base58 Ossl Text AlgAddress BlockCore BlockTx Strings Errors LoadFromFs P2p Args.
From S2P Require Import Log AnyMap KeyWrap Wallet Zmq Api Events Service.
Import ApiPort.

(** The environment variables of the process and the files it can open. *)
Record environment {F : Files} := Env { vars : gmap cstr cstr; disk : files }.
Arguments Env {F} _ _.

(** ** The peer-to-peer node *)

Module P2pServiceParams.
Import Args.
Section Code.
Context {F : Files} {PB : Pbe} {DC : Der PbkdfKey.content} {DK : Der PbkdfKey.key} {A : Asn1Lib}.
Context {R : Rng} {D : Digests} {K : EvpKeys} {B : BigNum} {P8 : Pkcs8Key.Pkcs8 K} {J : Json}.

(** [src/src/services/p2p/core/P2pServiceParams.h:17-66] P2pServiceParams *)
Record t := mk {
  stakeKey : StakeKey.t (K := K);
  bruteForce : BruteForce.t;
  walletFile : cstr;
  walletPassword : BinData.t;
  stakeAddress : cstr;
  env : environment }.

(** [src/src/services/p2p/core/P2pServiceParams.h:27-29] P2pServiceParams (constants) *)
Definition API_PORT : Z := 0x4643.
Definition EVENT_PORT : Z := 0x4663.
Definition WALLET_PW_ENV : cstr := $"FLUFFYCOIN_WALLET_PASSWORD".

(** [src/src/services/p2p/core/P2pServiceParams.cpp:12-15] P2pServiceParams::P2pServiceParams *)
Definition new (e : environment) : t :=
  mk StakeKey.new BruteForce.new $"~/.fluffycoin/wallet.json" SafeData.new [] e.

(** [src/src/services/p2p/core/P2pServiceParams.cpp:17-20] P2pServiceParams::getLogFile *)
Definition getLogFile (_ : t) : cstr := $"/var/log/fluffycoin/p2p.log".

(** [src/src/services/p2p/core/P2pServiceParams.cpp:28-35] P2pServiceParams::initCmdLineParams *)
Definition initCmdLineParams (_ : t) (args : ArgParser.t) : ArgParser.t :=
  let args := ArgParser.addParam_short (chr "w") $"wallet" $"Wallet containing stake key" args in
  let args := ArgParser.addParam_short (chr "p") $"wallet-password"
    ($"Wallet password" ++ [10] ++ $"Default: Use FLUFFYCOIN_WALLET_PASSWORD env var") args in
  ArgParser.addParam_short (chr "a") $"stake-address"
    ($"Address from wallet matching stake key" ++ [10] ++ $"Default: Newest key in wallet") args.

Definition with_file (f : cstr) (s : t) : t :=
  mk (stakeKey s) (bruteForce s) f (walletPassword s) (stakeAddress s) (env s).
Definition with_password (p : BinData.t) (s : t) : t :=
  mk (stakeKey s) (bruteForce s) (walletFile s) p (stakeAddress s) (env s).
Definition with_address (a : cstr) (s : t) : t :=
  mk (stakeKey s) (bruteForce s) (walletFile s) (walletPassword s) a (env s).
Definition with_key (k : StakeKey.t (K := K)) (s : t) : t :=
  mk k (bruteForce s) (walletFile s) (walletPassword s) (stakeAddress s) (env s).
Definition setenv (name value : cstr) (s : t) : t :=
  mk (stakeKey s) (bruteForce s) (walletFile s) (walletPassword s) (stakeAddress s)
     (Env (<[name := value]> (vars (env s))) (disk (env s))).

(** [src/src/services/p2p/core/P2pServiceParams.cpp:45-58] P2pServiceParams::setCmdLineArgs (password) *)
Definition set_password (args : Args.t) (argv : list cstr) (s : t) : option (t * list cstr) :=
  if hasArg $"wallet-password" args then
    pw ← getArg $"wallet-password" args;
    let s := with_password (fst (fst (SafeData.move_assign (walletPassword s) (SafeData.of_string pw)))) s in
    argv ← maskArg $"wallet-address" args argv;
    Some (s, argv)
  else
    match vars (env s) !! WALLET_PW_ENV with
    | Some pw =>
        let s := with_password (fst (BinData.setData (walletPassword s) (Some pw) (zlen pw))) s in
        Some (setenv WALLET_PW_ENV [] s, argv)
    | None => Some (s, argv)
    end.

(** [src/src/services/p2p/core/P2pServiceParams.cpp:37-59] P2pServiceParams::setCmdLineArgs *)
Definition setCmdLineArgs (args : Args.t) (argv : list cstr) (s : t) : option (t * list cstr) :=
  s ← (if hasArg $"wallet" args then f ← getArg $"wallet" args; Some (with_file f s) else Some s);
  s ← (if hasArg $"stake-address" args then a ← getArg $"stake-address" args; Some (with_address a s) else Some s);
  set_password args argv s.

(** [src/src/services/p2p/core/P2pServiceParams.cpp:61-64] P2pServiceParams::getApiPort *)
Definition getApiPort (_ : t) : Z := API_PORT.
(** [src/src/services/p2p/core/P2pServiceParams.cpp:66-69] P2pServiceParams::getEventPort *)
Definition getEventPort (_ : t) : Z := EVENT_PORT.
(** [src/src/services/p2p/core/P2pServiceParams.cpp:71-74] P2pServiceParams::getServerKey *)
Definition getServerKey (s : t) : bytes := BinData.contents (StakeKey.getPriv (stakeKey s)).

(** [src/src/services/p2p/core/P2pServiceParams.cpp:118-126] P2pServiceParams::preInit (key)

    The stake key of a wallet, null if there is none, and its address. *)
Definition find_stake (w : Wallet.t) (s : t) : option (option EVP_PKEY * cstr) :=
  if negb (bool_decide (stakeAddress s = [])) then
    key ← Wallet.getKey (stakeAddress s) w; Some (key, stakeAddress s)
  else
    key ← Wallet.getLatestKey Wallet.Validator w; Some (key, Wallet.getLatestAddress Wallet.Validator w).

(** [src/src/services/p2p/core/P2pServiceParams.cpp:97-137] P2pServiceParams::preInit

    The address that was moved from is left empty, as [std::string] does. *)
Definition preInit (paused : bool) (s : t) (ctx : ServiceScene.t) : option (bool * t * ServiceScene.t) :=
  if paused then Some (true, s, ctx)
  else
    let '(ok, walletContents) := FileTools.read_string (disk (env s)) (walletFile s) [] in
    if negb ok then Some (false, s, ctx)
    else
      '(ok, stakeWallet) ← Wallet.setString walletContents (BinData.contents (walletPassword s)) Wallet.new;
      if negb ok then Some (false, s, ctx)
      else
        '(key, address) ← find_stake stakeWallet s;
        match key with
        | None => Some (false, with_address address s, ctx)
        | Some k =>
            if bool_decide (address = []) then Some (false, with_address address s, ctx)
            else Some (true, with_address [] (with_key (StakeKey.setKey address (Some k) (stakeKey s)) s), ctx)
        end.

Section Scene.
Context {T : Types} {P : Pb}.
(** The hash of each type and the address of each object put into the scene; the request's
    type with its handler, which is [Handshake.process] of [P2p] on the objects it finds. *)
Variable type_hash address_of : cstr → Z.
Variable request_id : Z.
Variable request_proto : message.
Variable handshake : ApiHandlerMap.Handler.

(** [src/src/services/p2p/core/P2pServiceParams.cpp:22-26] P2pServiceParams::setupScene *)
Definition setupScene (_ : t) (ctx : ServiceScene.t) : ServiceScene.t :=
  let ctx := ServiceScene.setPtr (type_hash $"p2p::StakeKey") (address_of $"stakeKey") ctx in
  ServiceScene.setPtr (type_hash $"p2p::BruteForce") (address_of $"bruteForce") ctx.

(** [src/src/services/p2p/core/P2pServiceParams.cpp:76-82] P2pServiceParams::addApiHandlers *)
Definition addApiHandlers (paused : bool) (_ : t) (handlers : ApiHandlerMap.t) (c : Catalog.t)
  : ApiHandlerMap.t * Catalog.t :=
  if paused then (handlers, c) else ApiHandlerMap.add_typed request_id request_proto handshake handlers c.

(** [src/src/services/p2p/core/P2pServiceParams.cpp:91-95] P2pServiceParams::getAuthenticator *)
Definition getAuthenticator (_ : t) : option IAuthenticator := None.

Definition params : IServiceParams t := {|
  Service.initCmdLineParams := initCmdLineParams;
  Service.setCmdLineArgs := setCmdLineArgs;
  Service.getLogFile := getLogFile;
  Service.getNumEventThreads := AbstractServiceParams.getNumEventThreads;
  Service.getApiPort := getApiPort;
  Service.getEventPort := getEventPort;
  Service.getServerKey := getServerKey;
  Service.setupScene := setupScene;
  Service.addApiHandlers := addApiHandlers;
  Service.addEventSubscriptions := AbstractServiceParams.addEventSubscriptions;
  Service.getAuthenticator := getAuthenticator;
  Service.preInit := preInit;
  Service.init_ := AbstractServiceParams.init;
  Service.cleanup_ := AbstractServiceParams.cleanup;
  Service.postCleanup := AbstractServiceParams.postCleanup;
|}.
End Scene.
End Code.
End P2pServiceParams.

Module P2pProofs.
Import P2pServiceParams.
Section Proofs.
Context {F : Files} {PB : Pbe} {DC : Der PbkdfKey.content} {DK : Der PbkdfKey.key} {PL : PbeLaws PB}.
Context {A : Asn1Lib} {AL : Asn1Laws A} {R : Rng} {RL : RngLaws R} {D : Digests} {DL : DigestLaws D}.
Context {K : EvpKeys} {KL : Curve25519.EvpKeyLaws K} {B : BigNum} {BL : BigNumLaws B}.
Context {P8 : Pkcs8Key.Pkcs8 K} {P8L : Pkcs8Key.Pkcs8Laws K P8} {WB : WalletBytes K} {J : Json} {JL : JsonLaws J}.

(** The options of the node, with those every service has. *)
Definition options (s : t) : ArgParser.t := initCmdLineParams s (LogArgs.initCmdLineParams ArgParser.new).

Lemma help_long s : ArgParser.multiline (options s).
Proof. apply (bool_decide_unpack _). vm_compute. exact I. Qed.

(** A file that opens and reads to its end is read whole. *)
Lemma read_string_whole fs path c :
  f_open_read fs (FileTools.expandTilde fs path) = Some (zlen c, c) → FileTools.read_string fs path [] = (true, c).
Proof.
  intros Hf. unfold FileTools.read_string, FileTools.readT. rewrite Hf, (proj2 (Z.ltb_ge _ _)) by lia.
  rewrite take_ge, Z.eqb_refl by lia. unfold FileTools.fill_string, FileTools.resize_string.
  rewrite drop_ge, app_nil_r; [done|]. rewrite length_app, length_take, length_replicate. simpl. lia.
Qed.

Lemma set_password_env args argv s s' argv' :
  Args.hasArg $"wallet-password" args = false → set_password args argv s = Some (s', argv') →
  argv' = argv ∧
  match vars (env s) !! WALLET_PW_ENV with
  | Some pw => BinData.contents (walletPassword s') = pw ∧ vars (env s') !! WALLET_PW_ENV = Some []
  | None => s' = s
  end.
Proof.
  intros Ha. unfold set_password. rewrite Ha. destruct (vars (env s) !! WALLET_PW_ENV) as [pw|]; [|by intros [= <- <-]].
  intros [= <- <-]. split; [done|]. split; [|by apply lookup_insert_eq]. cbn [walletPassword setenv with_password].
  unfold BinData.setData, BinData.cleanup. destruct pw as [|c pw]; [by cbn|].
  rewrite (proj2 (Z.ltb_lt _ _)) by (simpl; lia). cbn [fst BinData.bSecure]. rewrite BinData.ztake_len.
  by apply BinData.contents_exact.
Qed.

(** The first two options change neither the password nor the environment. *)
Lemma setCmdLineArgs_inv args argv s s' argv' :
  setCmdLineArgs args argv s = Some (s', argv') →
  ∃ s1, env s1 = env s ∧ walletPassword s1 = walletPassword s ∧ set_password args argv s1 = Some (s', argv').
Proof.
  unfold setCmdLineArgs. intros (s1 & H1 & (s2 & H2 & H)%bind_Some)%bind_Some. exists s2.
  assert (Hk : ∀ (b : bool) name f x y, (∀ v z, env (f v z) = env z ∧ walletPassword (f v z) = walletPassword z) →
    (if b then v ← Args.getArg name args; Some (f v x) else Some x) = Some y → env y = env x ∧ walletPassword y = walletPassword x).
  { intros [] name f x y Hf; [|by intros [= ->]]. intros (v & _ & [= <-])%bind_Some. apply Hf. }
  destruct (Hk _ _ with_file _ _ (λ v z, conj eq_refl eq_refl) H1) as [E1 P1].
  destruct (Hk _ _ with_address _ _ (λ v z, conj eq_refl eq_refl) H2) as [E2 P2]. split_and!; [congruence..|done].
Qed.

(** A restarted node has lost its wallet password.  Without the option, the password is
    what the environment variable says, which is then overwritten; the service that replaces
    it in the same process reads the empty password, whatever its arguments say about
    other options. *)
Theorem restart_loses_password (args args2 : Args.t) (argv argv1 argv2 argv3 : list cstr) (e : environment)
    (s s2 : t) (pw : cstr)
    (Ha : Args.hasArg $"wallet-password" args = false) (Ha2 : Args.hasArg $"wallet-password" args2 = false)
    (Hpw : vars e !! WALLET_PW_ENV = Some pw)
    (Hs : setCmdLineArgs args argv (new e) = Some (s, argv1))
    (Hs2 : setCmdLineArgs args2 argv2 (new (env s)) = Some (s2, argv3)) :
  BinData.contents (walletPassword s) = pw ∧ BinData.contents (walletPassword s2) = [].
Proof.
  apply setCmdLineArgs_inv in Hs as (s1 & He & _ & Hs). apply set_password_env in Hs as [_ Hs]; [|done].
  rewrite He in Hs. cbn [env new] in Hs. rewrite Hpw in Hs. destruct Hs as [Hc Hv]. split; [done|].
  apply setCmdLineArgs_inv in Hs2 as (s3 & He2 & _ & Hs2). apply set_password_env in Hs2 as [_ Hs2]; [|done].
  rewrite He2 in Hs2. cbn [env new] in Hs2. rewrite Hv in Hs2. apply Hs2.
Qed.

(** A wallet password given on the command line stays there.  The option that is masked
    is not the one the password is given with, and no command line can contain it: whatever
    the arguments, they are left as they were, for everyone who lists the processes. *)
Theorem password_never_masked (fuel : nat) (argv argv' : list cstr) (args : Args.t) (s0 s s' : t)
    (Hparse : ArgParser.parse fuel (options s0) (length argv) (Some argv) = Some args)
    (Hset : setCmdLineArgs args argv s = Some (s', argv')) : argv' = argv.
Proof.
  destruct (ArgParser.parse_unknown _ _ _ _ $"wallet-address" Hparse eq_refl) as [Hno _].
  apply setCmdLineArgs_inv in Hset as (s1 & _ & _ & Hset).
  destruct (Args.hasArg $"wallet-password" args) eqn:Ha; [|by apply set_password_env in Hset as [-> _]].
  unfold set_password in Hset. rewrite Ha in Hset. destruct (Args.getArg _ args) as [pw|]; [|done].
  cbn [mbind option_bind] in Hset. unfold Args.maskArg in Hset. rewrite Hno in Hset. by injection Hset as _ <-.
Qed.

(** The entry a node is asked to use. *)
Definition chosen (w : Wallet.t) (s : t) (e : Wallet.Entry) : Prop :=
  (stakeAddress s = [] ∧ Wallet.getTopKey (Wallet.keys w) Wallet.Validator = Some e) ∨
  (stakeAddress s = Wallet.address e ∧ e ∈ Wallet.keys w).

Lemma no_empty_address k g : AlgAddress.verify_text [] k g = false.
Proof. reflexivity. Qed.

Lemma find_stake_chosen w s e (g : rng) :
  WalletProofs.wf w → chosen w s e →
  ∃ k, find_stake w s = Some (Some k, Wallet.address e) ∧ Wallet.address e ≠ [] ∧
       ∀ g, AlgAddress.verify_text (Wallet.address e) k g = true.
Proof.
  intros [Hks _] Hc.
  assert (Hne : ∀ k, (∀ g, AlgAddress.verify_text (Wallet.address e) k g = true) → Wallet.address e ≠ []).
  { intros k Hv E. specialize (Hv g). by rewrite E, no_empty_address in Hv. }
  unfold find_stake. destruct Hc as [[Hs Htop]|[Ha He]].
  - rewrite bool_decide_eq_true_2 by done. cbn [negb].
    destruct (WalletProofs.getTopKey_ok _ _ _ _ Hks Htop) as (_ & _ & _ & _ & k & _ & Hd & Hv).
    exists k. unfold Wallet.getLatestKey, Wallet.getLatestAddress. rewrite Htop, Hd. split_and!; [done|by eapply Hne|done].
  - destruct (WalletProofs.find_key_ok _ _ _ Hks He) as (k & Hk & Hv). pose proof (Hne k Hv) as Hna.
    rewrite bool_decide_eq_false_2 by congruence. cbn [negb]. rewrite Ha.
    exists k. unfold Wallet.getKey. by rewrite Hk.
Qed.

(** C13: A saved wallet makes a node.  When its wallet file is what a wallet was saved as, and
    it is given the wallet's password, an unpaused node starts with the wallet's newest
    validator key, or the key of the address it was told to use; that key belongs to the
    address, and its private part protects the node's ports. *)
Theorem stake_key_loaded (st : Wallet.stack) (w : Wallet.t) (pw : bytes) (g : rng) (text : cstr)
    (s : t) (ctx : ServiceScene.t) (e : Wallet.Entry)
    (Hw : WalletProofs.reach w) (Hi : is_u 32 (Wallet.kdfIters w)) (Hasc : Forall (λ e, ascii (Wallet.address e)) (Wallet.keys w))
    (Hpw : pw = [] ∨ pw = Wallet.password w) (Hsaved : Wallet.getString st pw w g = Some (text, g))
    (Hfile : f_open_read (disk (env s)) (FileTools.expandTilde (disk (env s)) (walletFile s)) = Some (zlen text, text))
    (Hpass : BinData.contents (walletPassword s) = Wallet.password w) (He : chosen w s e) :
  ∃ s' k, preInit false s ctx = Some (true, s', ctx) ∧
    StakeKey.getAddress (stakeKey s') = Wallet.address e ∧ StakeKey.getKey (stakeKey s') = Some k ∧
    (∀ g, AlgAddress.verify_text (Wallet.address e) k g = true) ∧
    getServerKey s' = BinData.contents (Curve25519.toPrivate k).
Proof.
  destruct (WalletProofs.saved_loads st w Wallet.new pw g Hw Hi Hasc Hpw) as (text' & Hs & _ & Hload).
  rewrite Hsaved in Hs. injection Hs as <-.
  destruct (find_stake_chosen w s e g (WalletProofs.reach_wf _ Hw) He) as (k & Hk & Hne & Hv).
  unfold preInit. rewrite (read_string_whole _ _ _ Hfile). cbn [negb]. rewrite Hpass, Hload. cbn [mbind option_bind negb].
  rewrite Hk. cbn [mbind option_bind]. rewrite bool_decide_eq_false_2 by done.
  eexists _, k. split_and!; [done..|]. unfold getServerKey, StakeKey.getPriv, StakeKey.setKey, SafeData.move_assign, BinData.move_assign.
  cbn. done.
Qed.

End Proofs.
End P2pProofs.

(** ** The curator *)

Module Database.

(** [src/src/db/Database.h:18-41] Database

    A database that was connected has a pool, made from its parameters. *)
Record t := mk { pool : option cstr }.

Definition new : t := mk None.

Section Code.
Variable dbLog : Z.
(** What the connection pool's constructor throws for its parameters, if anything. *)
Variable pool_error : cstr → option cstr.

(** [src/src/db/Database.cpp:45-70] Database::connect *)
Definition connect (params : cstr) (details : Details.t) (_ : t) : t * Details.t :=
  match pool_error params with
  | None => (mk (Some params), details)
  | Some what =>
      (mk None, Details.setError dbLog ErrorCode.DatabaseError (Some $"connect")
                  ($"Failed to connect to database: " ++ what) details)
  end.

End Code.
End Database.

Module CuratorServiceParams.
Import Args.
Section Code.
Context {F : Files}.

(** [src/src/services/curator/core/CuratorServiceParams.h:18-59] CuratorServiceParams

    [integrator] says whether there is one; [spawned] are the coroutines started, with the
    storage and the round each was given. *)
Record t := mk {
  reloadFrom : Z;
  fsStorageDir : cstr;
  fsBlocks : BlockStorage.t;
  db : option Database.t;
  integrator : bool;
  spawned : list (BlockStorage.t * Z);
  env : environment }.

(** [src/src/services/curator/core/CuratorServiceParams.h:28-29] CuratorServiceParams (constants) *)
Definition API_PORT : Z := 0x4643.
Definition EVENT_PORT : Z := 0x4663.

(** [src/src/alg/DefaultPaths.h:8-8] DefaultPaths::FS_BLOCKS *)
Definition FS_BLOCKS : cstr := $"~/.fluffycoin/blocks".

(** [src/src/services/curator/core/CuratorServiceParams.cpp:15-28] CuratorServiceParams::CuratorServiceParams *)
Definition new (e : environment) : t :=
  let dir := match vars e !! $"FLUFFYCOIN_RESOURCE_DIR" with
             | Some (c :: resourceDir) => (c :: resourceDir) ++ $"/blocks"
             | _ => FS_BLOCKS
             end in
  mk (2 ^ 32 - 1) dir (BlockStorage.mk []) None false [] e.

(** [src/src/services/curator/core/CuratorServiceParams.cpp:30-33] CuratorServiceParams::getLogFile *)
Definition getLogFile (_ : t) : cstr := $"/var/log/fluffycoin/curator.log".

(** [src/src/services/curator/core/CuratorServiceParams.cpp:41-45] CuratorServiceParams::initCmdLineParams *)
Definition initCmdLineParams (s : t) (args : ArgParser.t) : ArgParser.t :=
  let args := ArgParser.addParam_short (chr "b") $"block-dir"
    ($"Location to read/write blocks from (Default: " ++ fsStorageDir s ++ $")") args in
  ArgParser.addParam_short (chr "r") $"reload-from" $"Reconciliation block to reload from (0=Reload all)" args.

Definition with_dir (d : cstr) (s : t) : t :=
  mk (reloadFrom s) d (fsBlocks s) (db s) (integrator s) (spawned s) (env s).
Definition with_reload (n : Z) (s : t) : t :=
  mk n (fsStorageDir s) (fsBlocks s) (db s) (integrator s) (spawned s) (env s).
Definition with_db (d : option Database.t) (i : bool) (s : t) : t :=
  mk (reloadFrom s) (fsStorageDir s) (fsBlocks s) d i (spawned s) (env s).

(** [src/src/services/curator/core/CuratorServiceParams.cpp:47-54] CuratorServiceParams::setCmdLineArgs *)
Definition setCmdLineArgs (args : Args.t) (argv : list cstr) (s : t) : option (t * list cstr) :=
  s ← (if hasArg $"block-dir" args then d ← getArg $"block-dir" args; Some (with_dir d s) else Some s);
  s ← (if hasArg $"reload-from" args then n ← getSizeT $"reload-from" args; Some (with_reload (u32 n) s) else Some s);
  Some (s, argv).

(** [src/src/services/curator/core/CuratorServiceParams.cpp:56-59] CuratorServiceParams::getApiPort *)
Definition getApiPort (_ : t) : Z := API_PORT.
(** [src/src/services/curator/core/CuratorServiceParams.cpp:61-64] CuratorServiceParams::getEventPort *)
Definition getEventPort (_ : t) : Z := EVENT_PORT.

(** [src/src/services/curator/core/CuratorServiceParams.cpp:92-97] CuratorServiceParams::preInit (connection)

    [fmt] throws on the null pointer of a variable that is not set. *)
Definition connection (e : environment) : option cstr :=
  name ← vars e !! $"PGDATABASE";
  host ← vars e !! $"PGHOST";
  port ← vars e !! $"PGPORT";
  user ← vars e !! $"PGUSER";
  password ← vars e !! $"PGPASSWORD";
  Some ($"dbname=" ++ name ++ $" host=" ++ host ++ $" port=" ++ port ++ $" user=" ++ user ++ $" password=" ++ password).

(** [src/src/services/curator/core/CuratorServiceParams.cpp:115-127] CuratorServiceParams::init *)
Definition init (paused : bool) (s : t) : option (bool * t) :=
  if paused then Some (true, s)
  else
    let blocks := BlockStorage.setDirectory (fsStorageDir s) (fsBlocks s) in
    Some (true, mk (reloadFrom s) (fsStorageDir s) blocks (db s) (integrator s)
                  (spawned s ++ [(blocks, reloadFrom s)]) (env s)).

(** [src/src/services/curator/core/CuratorServiceParams.cpp:129-135] CuratorServiceParams::postCleanup *)
Definition postCleanup (s : t) : t := with_db None false s.

Section Scene.
Variable dbLog : Z.
Variable pool_error : cstr → option cstr.
(** The hash of each type, and the address of each object put into the scene. *)
Variable type_hash address_of : cstr → Z.

(** [src/src/services/curator/core/CuratorServiceParams.cpp:35-39] CuratorServiceParams::setupScene *)
Definition setupScene (_ : t) (ctx : ServiceScene.t) : ServiceScene.t :=
  ServiceScene.setPtr (type_hash $"fs::BlockStorage") (address_of $"fsBlocks") ctx.

(** [src/src/services/curator/core/CuratorServiceParams.cpp:79-113] CuratorServiceParams::preInit *)
Definition preInit (paused : bool) (s : t) (ctx : ServiceScene.t) : option (bool * t * ServiceScene.t) :=
  if paused then Some (true, s, ctx)
  else match db s with
  | Some _ => Some (true, s, ctx)
  | None =>
      params ← connection (env s);
      let '(d, details) := Database.connect dbLog pool_error params Details.new Database.new in
      if negb (Details.isOk details) then Some (false, with_db None (integrator s) s, ctx)
      else
        let ctx := ServiceScene.setPtr (type_hash $"db::Database") (address_of $"db") ctx in
        let ctx := ServiceScene.setPtr (type_hash $"BlockIntegrator") (address_of $"integrator") ctx in
        Some (true, with_db (Some d) true s, ctx)
  end.

Context {T : Types} {P : Pb}.

Definition params : IServiceParams t := {|
  Service.initCmdLineParams := initCmdLineParams;
  Service.setCmdLineArgs := setCmdLineArgs;
  Service.getLogFile := getLogFile;
  Service.getNumEventThreads := AbstractServiceParams.getNumEventThreads;
  Service.getApiPort := getApiPort;
  Service.getEventPort := getEventPort;
  Service.getServerKey := AbstractServiceParams.getServerKey;
  Service.setupScene := setupScene;
  Service.addApiHandlers := AbstractServiceParams.addApiHandlers;
  Service.addEventSubscriptions := AbstractServiceParams.addEventSubscriptions;
  Service.getAuthenticator := AbstractServiceParams.getAuthenticator;
  Service.preInit := preInit;
  Service.init_ := init;
  Service.cleanup_ := AbstractServiceParams.cleanup;
  Service.postCleanup := postCleanup;
|}.

End Scene.
End Code.
End CuratorServiceParams.

Module CuratorProofs.
Import CuratorServiceParams.
Section Proofs.
Context {F : Files}.
Variable dbLog : Z.
Variable pool_error : cstr → option cstr.
Variable type_hash address_of : cstr → Z.

(** The hash tells the two objects apart. *)
Hypothesis hashes_differ : type_hash $"db::Database" ≠ type_hash $"BlockIntegrator".

#[local] Abbreviation preInit := (preInit dbLog pool_error type_hash address_of).
#[local] Abbreviation setupScene := (setupScene type_hash address_of).

Definition options (s : t) : ArgParser.t := initCmdLineParams s (LogArgs.initCmdLineParams ArgParser.new).

(** The five variables a connection is made of. *)
Definition connection_vars : list cstr := [$"PGDATABASE"; $"PGHOST"; $"PGPORT"; $"PGUSER"; $"PGPASSWORD"].

Lemma connection_some e : is_Some (connection e) ↔ Forall (λ v, is_Some (vars e !! v)) connection_vars.
Proof.
  unfold connection, connection_vars. rewrite !Forall_cons. split.
  - intros [c H]. repeat (apply bind_Some in H as (? & -> & H)). split_and!; try by eexists. constructor.
  - intros ([? ->] & [? ->] & [? ->] & [? ->] & [? ->] & _). by eexists.
Qed.

Definition in_scene (ctx : ServiceScene.t) : Prop :=
  ServiceScene.getPtr (type_hash $"db::Database") ctx = Some (address_of $"db") ∧
  ServiceScene.getPtr (type_hash $"BlockIntegrator") ctx = Some (address_of $"integrator").

(** What a service can have been taken through, with its scene. *)
Inductive reach : t → ServiceScene.t → Prop :=
  | reach_new e ctx : reach (new e) ctx
  | reach_args args argv argv' s s' ctx : reach s ctx → setCmdLineArgs args argv s = Some (s', argv') → reach s' ctx
  | reach_pre b ok s s' ctx ctx' : reach s ctx → preInit b s ctx = Some (ok, s', ctx') → reach s' ctx'
  | reach_init b ok s s' ctx : reach s ctx → init b s = Some (ok, s') → reach s' ctx
  | reach_cleanup s ctx : reach s ctx → reach (postCleanup s) ctx.

(** A database that is there is connected, with an integrator, and both are in the scene;
    one that is not has no integrator. *)
Definition ready (s : t) (ctx : ServiceScene.t) : Prop :=
  match db s with
  | Some d => is_Some (Database.pool d) ∧ integrator s = true ∧ in_scene ctx
  | None => integrator s = false
  end.

Lemma setCmdLineArgs_db args argv s s' argv' :
  setCmdLineArgs args argv s = Some (s', argv') → db s' = db s ∧ integrator s' = integrator s ∧ env s' = env s.
Proof.
  unfold setCmdLineArgs. intros (s1 & H1 & (s2 & H2 & [= <- <-])%bind_Some)%bind_Some.
  assert (H : db s1 = db s ∧ integrator s1 = integrator s ∧ env s1 = env s).
  { destruct (Args.hasArg $"block-dir" args); [|by injection H1 as <-]. apply bind_Some in H1 as (? & _ & [= <-]). done. }
  destruct (Args.hasArg $"reload-from" args); [|by injection H2 as <-]. apply bind_Some in H2 as (? & _ & [= <-]). done.
Qed.

(** The outcomes of connecting. *)
Lemma preInit_spec s ctx :
  integrator s = false → db s = None →
  match connection (env s) with
  | None => preInit false s ctx = None
  | Some params =>
      match pool_error params with
      | None => ∃ ctx', preInit false s ctx = Some (true, with_db (Some (Database.mk (Some params))) true s, ctx') ∧ in_scene ctx'
      | Some _ => preInit false s ctx = Some (false, s, ctx)
      end
  end.
Proof.
  intros Hi Hd. unfold CuratorServiceParams.preInit. rewrite Hd. destruct (connection (env s)) as [params|]; [|done].
  cbn [mbind option_bind]. unfold Database.connect. destruct (pool_error params) as [what|].
  - replace (Details.isOk _) with false.
    + cbn [negb]. unfold with_db. rewrite Hi. destruct s. by cbn in *; subst.
    + symmetry. apply not_true_iff_false. intros H%(proj1 (Details.details_ok_text _ _ _ _ _)). by apply app_eq_nil in H as [? _].
  - cbn [Details.isOk negb]. eexists. split; [done|]. unfold in_scene, ServiceScene.getPtr, ServiceScene.setPtr. cbn.
    by rewrite lookup_insert_ne, !lookup_insert_eq by done.
Qed.

Lemma reach_ready s ctx : reach s ctx → ready s ctx.
Proof.
  induction 1 as [e ctx|args argv argv' s s' ctx _ IH H|b ok s s' ctx ctx' _ IH H|b ok s s' ctx _ IH H|s ctx _ IH]; try done.
  - apply setCmdLineArgs_db in H as (Hd & Hi & _). unfold ready in *. by rewrite Hd, Hi.
  - destruct b; [by injection H as <- <- <-|]. unfold ready in IH. destruct (db s) as [d|] eqn:E.
    { unfold CuratorServiceParams.preInit in H. rewrite E in H. injection H as <- <- <-. unfold ready. by rewrite E. }
    pose proof (preInit_spec s ctx IH E) as Hs. destruct (connection (env s)) as [params|]; [|congruence].
    destruct (pool_error params); [rewrite Hs in H; injection H as <- <- <-; unfold ready; by rewrite E|].
    destruct Hs as (c & Hs & Hin). rewrite Hs in H. injection H as <- <- <-. split; [by eexists|done].
  - unfold init in H. destruct b; injection H as <- <-; done.
Qed.

(** Connecting the curator.  Whenever the service has no database yet, starting it
    unpaused ends in an exception exactly when one of the five connection variables is not
    set, which no one catches; otherwise it succeeds exactly when the pool takes the
    parameters, and then database and integrator are there and in the scene, while a
    refusal leaves everything as it was for the next attempt.  Trying again once connected,
    or while paused, does nothing; after the service is cleaned up the scene still names
    the two objects that were destroyed. *)
Theorem curator_connects (s : t) (ctx : ServiceScene.t) (Hs : reach s ctx) :
  (db s = None →
     (preInit false s ctx = None ↔ ¬ Forall (λ v, is_Some (vars (env s) !! v)) connection_vars) ∧
     ∀ params, connection (env s) = Some params →
       match pool_error params with
       | None => ∃ s' ctx', preInit false s ctx = Some (true, s', ctx') ∧ ready s' ctx' ∧ db s' = Some (Database.mk (Some params))
       | Some _ => preInit false s ctx = Some (false, s, ctx)
       end) ∧
  (is_Some (db s) → preInit false s ctx = Some (true, s, ctx) ∧ in_scene ctx ∧
     db (postCleanup s) = None ∧ integrator (postCleanup s) = false) ∧
  preInit true s ctx = Some (true, s, ctx).
Proof.
  pose proof (reach_ready s ctx Hs) as Hr. split_and!; [| |done].
  - intros Hd. unfold ready in Hr. rewrite Hd in Hr. pose proof (preInit_spec s ctx Hr Hd) as H. split.
    + rewrite <- connection_some. destruct (connection (env s)) as [params|].
      * split; [|intros Hn; by destruct Hn]. destruct (pool_error params); [congruence|]. destruct H as (? & ? & _). congruence.
      * split; [|done]. intros _ [? ?]. done.
    + intros params Hp. rewrite Hp in H. destruct (pool_error params); [done|]. destruct H as (ctx' & H & Hin).
      eexists _, ctx'. split; [exact H|]. split; [|done]. split; [by eexists|done].
  - intros [d Hd]. unfold ready in Hr. rewrite Hd in Hr. destruct Hr as (_ & _ & Hin).
    unfold CuratorServiceParams.preInit. by rewrite Hd.
Qed.

End Proofs.
End CuratorProofs.

(** ** A node with a wallet, and a curator with its variables *)
Module ParamsExamples.
Import ToyPbe.
#[local] Existing Instances Curve25519.ToyKeys Curve25519.ToyKeys_laws CounterRng CounterRng_laws.
#[local] Existing Instances Base58.BigNumZ Base58.BigNumZ_laws ToyDigests.
#[local] Existing Instances ToyWallet.Toy8 ToyWallet.Toy8_laws ToyWallet.Toy_bytes ToyWallet.ToyJson ToyWallet.ToyJson_laws.

(** Every path is the one file. *)
#[local] Instance OneFile : Files := {|
  files := cstr; f_home _ := None; f_open_read f _ := Some (zlen f, f);
  f_write f _ _ := None; f_remove f _ := (false, f); f_list _ _ := None;
  f_exists _ _ := true; f_is_file _ _ := true; f_is_dir _ _ := false; f_mkdir f _ := (false, f); f_chmod f _ := (false, f) |}.

Definition saved : cstr :=
  Eval vm_compute in match Wallet.getString (replicate 16 0, replicate 8 0) [] ToyWallet.wallet ToyWallet.clock with
                     | Some (text, _) => text | None => [] end.

Definition env_of (pw : cstr) : environment := Env {[ P2pServiceParams.WALLET_PW_ENV := pw ]} saved.

Lemma restart_loses_password_witness :
  ∃ s s2, P2pServiceParams.setCmdLineArgs Args.new [] (P2pServiceParams.new (env_of $"secret")) = Some (s, []) ∧
    P2pServiceParams.setCmdLineArgs Args.new [] (P2pServiceParams.new (P2pServiceParams.env s)) = Some (s2, []) ∧
    BinData.contents (P2pServiceParams.walletPassword s) = $"secret" ∧
    BinData.contents (P2pServiceParams.walletPassword s2) = [].
Proof.
  eexists _, _. split; [reflexivity|]. split; [reflexivity|].
  apply (P2pProofs.restart_loses_password Args.new Args.new [] [] [] [] (env_of $"secret") _ _ $"secret"); reflexivity.
Defined.

(** A node told its password on the command line. *)
Definition given : list cstr := [$"p2p"; $"-p"; $"secret"].
Definition fresh : P2pServiceParams.t := P2pServiceParams.new (Env ∅ []).
Definition given_args : Args.t :=
  Eval vm_compute in default Args.new (ArgParser.parse 9 (P2pProofs.options fresh) 3 (Some given)).
Definition told : P2pServiceParams.t * list cstr :=
  Eval vm_compute in default (fresh, []) (P2pServiceParams.setCmdLineArgs given_args given fresh).

Lemma password_never_masked_witness :
  told.2 = given ∧ BinData.contents (P2pServiceParams.walletPassword told.1) = $"secret".
Proof.
  split; [|reflexivity].
  eapply (P2pProofs.password_never_masked 9 given told.2 given_args fresh fresh told.1).
  - vm_cast_no_check (eq_refl (Some given_args)).
  - vm_cast_no_check (eq_refl (Some told)).
Defined.

Definition node : P2pServiceParams.t :=
  P2pServiceParams.with_password (SafeData.of_string (Wallet.password ToyWallet.wallet)) (P2pServiceParams.new (env_of [])).

Lemma stake_key_loaded_witness :
  ∃ s', P2pServiceParams.preInit false node ServiceScene.new = Some (true, s', ServiceScene.new) ∧
    StakeKey.getAddress (P2pServiceParams.stakeKey s') = ToyWallet.addr.
Proof.
  destruct (P2pProofs.stake_key_loaded (replicate 16 0, replicate 8 0) ToyWallet.wallet [] ToyWallet.clock saved node ServiceScene.new
    (hd (Wallet.mkEntry 0 Wallet.UNone Wallet.FNone [] []) (Wallet.keys ToyWallet.wallet))) as (s' & k & Hp & Ha & _).
  - apply ToyWallet.wallet_reach.
  - unfold is_u. simpl. lia.
  - apply (bool_decide_unpack _). vm_compute. exact I.
  - by left.
  - vm_compute. reflexivity.
  - reflexivity.
  - vm_compute. reflexivity.
  - left. split; reflexivity.
  - exists s'. split; [exact Hp|exact Ha].
Defined.

Definition pg : environment :=
  Env (list_to_map [($"PGDATABASE", $"d"); ($"PGHOST", $"h"); ($"PGPORT", $"5432"); ($"PGUSER", $"u"); ($"PGPASSWORD", $"p")]) [].
Definition hash_name (s : cstr) : Z := zlen s.

Lemma curator_connects_witness :
  (∃ s' ctx', CuratorServiceParams.preInit 5 (λ _, None) hash_name hash_name false (CuratorServiceParams.new pg) ServiceScene.new
     = Some (true, s', ctx') ∧ CuratorServiceParams.integrator s' = true) ∧
  CuratorServiceParams.preInit 5 (λ _, None) hash_name hash_name false (CuratorServiceParams.new (env_of [])) ServiceScene.new = None.
Proof.
  split.
  - destruct (proj1 (CuratorProofs.curator_connects 5 (λ _, None) hash_name hash_name ltac:(discriminate)
      (CuratorServiceParams.new pg) ServiceScene.new (CuratorProofs.reach_new _ _ _ _ _ _)) eq_refl) as [_ H].
    destruct (H _ eq_refl) as (s' & ctx' & Hp & Hr & Hd). exists s', ctx'. split; [exact Hp|].
    unfold CuratorProofs.ready in Hr. rewrite Hd in Hr. apply Hr.
  - apply (proj1 (CuratorProofs.curator_connects 5 (λ _, None) hash_name hash_name ltac:(discriminate)
      (CuratorServiceParams.new (env_of [])) ServiceScene.new (CuratorProofs.reach_new _ _ _ _ _ _)) eq_refl).
    intros H. apply Forall_inv in H. revert H. apply (bool_decide_unpack _). vm_compute. exact I.
Defined.

End ParamsExamples.
