(* ===== verification/GenesisTool.v ===== *)
(** * The genesis tool: [cli/genesis]

    The program that starts a block chain: it reads or makes a wallet, makes two keys, a
    genesis block and the first reconciliation block, and writes blocks and wallet.  It is
    the whole of [Args], [Wallet], [BlockChain] and [LoadFromFs] in one run, and what it
    writes is what the curator reads. *)

From S2P Require Import Prelude BinData Base64 Base58 Ossl Text AlgAddress Strings BlockCore BlockTx BlockChain.
From S2P Require Import Db DbIntegrator BlockIntegrator LoadFromFs Args KeyWrap Wallet.

(** ** Computations that can end the program

    [None] is undefined behaviour or a loop without end; [inl] is the exit code, with the
    files as they are then. *)
Module Exit.
Section Monad.
Context {S : Type}.

Definition X (A : Type) : Type := option ((Z * S) + A).

#[export] Instance X_ret : MRet X := λ A a, Some (inr a).
#[export] Instance X_bind : MBind X := λ A B k m,
  match m with
  | Some (inr a) => k a
  | Some (inl e) => Some (inl e)
  | None => None
  end.

(** The end of the program. *)
Definition exit {A} (code : Z) (s : S) : X A := Some (inl (code, s)).

(** A computation that can only be undefined. *)
Definition total {A} (m : option A) : X A := inr <$> m.

Lemma bind_step {A B} (m : X A) (k : A → X B) a : m = Some (inr a) → m ≫= k = k a.
Proof. by intros ->. Qed.

Lemma total_step {A B} (m : option A) (k : A → X B) a : m = Some a → total m ≫= k = k a.
Proof. by intros ->. Qed.

(** Whoever goes on had a result to go on with. *)
Lemma bind_inr {A B} (m : X A) (k : A → X B) b :
  m ≫= k = Some (inr b) → ∃ a, m = Some (inr a) ∧ k a = Some (inr b).
Proof. unfold mbind, X_bind. destruct m as [[?|a]|]; [done| |done]. by exists a. Qed.

Lemma bind_inl {A B} (m : X A) (k : A → X B) e :
  m ≫= k = Some (inl e) → m = Some (inl e) ∨ ∃ a, m = Some (inr a) ∧ k a = Some (inl e).
Proof. unfold mbind, X_bind. destruct m as [[?|a]|]; [by left; simplify_eq| |done]. right. by exists a. Qed.

Lemma total_inr {A} (m : option A) a : total m = Some (inr a) → m = Some a.
Proof. unfold total. destruct m; simpl; congruence. Qed.

Lemma total_inl {A} (m : option A) e : total m ≠ Some (inl e).
Proof. unfold total. by destruct m. Qed.

End Monad.
Arguments X S A : clear implicits.
End Exit.

Module GenesisTool.
Import Args Exit.

(** [src/src/cli/genesis.cpp:87-103] error *)
Definition Success : Z := 0.
Definition ArgumentParse : Z := 1.
Definition ArgumentInvalid : Z := 2.
Definition ReadWallet : Z := 4.
Definition GetPassword : Z := 5.
Definition DecryptWallet : Z := 6.
Definition MakeKey : Z := 7.
Definition CreateOutputDir : Z := 8.
Definition WriteBlock : Z := 9.
Definition SerializeWallet : Z := 10.
Definition WriteWallet : Z := 11.

(** [src/src/cli/genesis.cpp:106-106] GREED_MINIMUM *)
Definition GREED_MINIMUM : Z := 2.

(** [src/src/cli/genesis.cpp:107-107] FIRST_RECON *)
Definition FIRST_RECON : Z := 1.

(** [src/src/alg/info.h:11-11] PROTOCOL_VERSION *)
Definition PROTOCOL_VERSION : Z := 0.

(** [src/src/alg/info.h:12-12] BLOCKCHAIN_NAME *)
Definition BLOCKCHAIN_NAME : cstr := $"Fluffycoin".

(** [src/src/alg/info.h:13-13] BLOCKCHAIN_VERSION *)
Definition BLOCKCHAIN_VERSION : Z := 0.

(** ** The password *)

(** What [fgets] stores of the input, with room for [n] bytes: up to the first line break
    or the end. *)
Fixpoint fgets (n : nat) (input : bytes) : bytes * bytes :=
  match n, input with
  | S n, c :: input => if c =? 10 then ([c], input) else let '(line, rest) := fgets n input in (c :: line, rest)
  | _, _ => ([], input)
  end.

(** [src/src/cli/genesis.cpp:47-53] readPassword (one line)

    At the end of the input nothing is stored.  A line that starts with a terminator
    makes the length wrap. *)
Definition read_line (password : BinData.t) (input : bytes) : option (BinData.t * bytes) :=
  let password := fst (BinData.resize password 256) in
  match fgets 254 input with
  | ([], input) => Some (password, input)
  | (line, input) =>
      let password := FileTools.fill_bin password (line ++ [0]) in
      let n := zlen (Strings.c_str line) in
      if n =? 0 then None else Some (fst (BinData.resize password (n - 1)), input)
  end.

(** [src/src/cli/genesis.cpp:24-84] readPassword

    [None]: reading the first byte of no memory. *)
Definition readPassword (bRequireVerify : bool) (password : BinData.t) (input : bytes)
  : option (bool * BinData.t * bytes) :=
  '(password, input) ← read_line password input;
  first ← BinData.buffer password ≫= head;
  if first =? 0 then Some (false, password, input)
  else if bRequireVerify then
    '(verifyPassword, input) ← read_line SafeData.new input;
    Some (negb (BinData.neqb password verifyPassword), password, input)
  else Some (true, password, input).

(** ** Options *)

Definition DEFAULT_GREED : Z := 1000.
Definition DEFAULT_OUTPUT : cstr := $"~/.fluffycoin/blocks".
Definition DEFAULT_WALLET : cstr := $"~/.fluffycoin/wallet.json".

(** [src/src/cli/genesis.cpp:120-128] main (options) *)
Definition parser : ArgParser.t :=
  let parser := ArgParser.addCategory $"Wallet" ArgParser.new in
  let parser := ArgParser.addParam_short (chr "w") $"wallet"
    ($"File to read and save wallet (Default: " ++ DEFAULT_WALLET ++ $")") parser in
  let parser := ArgParser.addParam_short (chr "W") $"wallet-salt" $"Salt for new wallet address (Default: Random)" parser in
  let parser := ArgParser.addParam_short (chr "p") $"wallet-password" $"Password for wallet (Default: Prompt)" parser in
  let parser := ArgParser.addParam_short (chr "g") $"greed"
    ($"How many coins to mint (Default: " ++ Strings.to_string_int DEFAULT_GREED ++ $")") parser in
  let parser := ArgParser.addParam_short (chr "s") $"seed" $"Seed value (Optional)" parser in
  ArgParser.addParam_short (chr "o") $"output" ($"Output directory (Default " ++ DEFAULT_OUTPUT ++ $")") parser.

(** What the options ask for. *)
Record config := Config { greed : Z; walletFile : cstr; salt : cstr; seed : cstr; outputDir : cstr }.

Definition arg_or (name dflt : cstr) (args : Args.t) : option cstr :=
  if hasArg name args then getArg name args else Some dflt.

Section Code.
Context {F : Files}.

(** [src/src/cli/genesis.cpp:130-144] main (arguments)

    The directory and the texts are looked up where they are used, which makes no
    difference. *)
Definition configure (fuel : nat) (argv : list cstr) (fs : files) : X files (Args.t * config) :=
  args ← total (ArgParser.parse fuel parser (length argv) (Some argv));
  if hasError args then exit ArgumentParse fs
  else
    g ← total (if hasArg $"greed" args then getSizeT $"greed" args else Some DEFAULT_GREED);
    if g <? GREED_MINIMUM then total (ArgParser.printHelp fuel parser);; exit ArgumentInvalid fs
    else
      w ← total (arg_or $"wallet" DEFAULT_WALLET args);
      s ← total (getArg $"wallet-salt" args);
      sd ← total (getArg $"seed" args);
      o ← total (arg_or $"output" DEFAULT_OUTPUT args);
      mret (args, Config g w s sd o).

(** [src/src/cli/genesis.cpp:146-159] main (wallet file) *)
Definition read_wallet (c : config) (fs : files) : X files cstr :=
  if FileTools.exists_ fs (walletFile c) then
    let '(ok, walletContents) := FileTools.read_string fs (walletFile c) [] in
    if negb ok then exit ReadWallet fs else mret walletContents
  else mret [].

(** [src/src/cli/genesis.cpp:161-169] main (password) *)
Definition get_password (args : Args.t) (walletContents : cstr) (input : bytes) (fs : files) : X files BinData.t :=
  if hasArg $"wallet-password" args then
    pw ← total (getArg $"wallet-address" args);
    mret (fst (fst (SafeData.move_assign SafeData.new (SafeData.of_string pw))))
  else
    '(ok, password, _) ← total (readPassword (bool_decide (walletContents = [])) SafeData.new input);
    if negb ok then exit GetPassword fs else mret password.

Context {PB : Pbe} {DC : Der PbkdfKey.content} {DK : Der PbkdfKey.key} {A : Asn1Lib}.
Context {R : Rng} {D : Digests} {K : EvpKeys} {B : BigNum} {P8 : Pkcs8Key.Pkcs8 K} {J : Json}.
Context {Dg : Der Genesis.asn1} {Dc : Der Reconciliation.content} {Db : Der Block.asn1}.

(** What a run is given: the two keys OpenSSL generates, the clock's readings, the memory
    that is not initialised, and the random generator. *)
Record world := World {
  key1 : option EVP_PKEY; key2 : option EVP_PKEY;
  time1 : Z; time2 : Z; clock : Z;
  stack1 : Wallet.stack; stack2 : Wallet.stack; stack3 : Wallet.stack;
  random : rng }.

(** [src/src/cli/genesis.cpp:171-189] main (wallet) *)
Definition make_wallet (fuel : nat) (c : config) (walletContents : cstr) (password : BinData.t) (w : world) (fs : files)
  : X files (Wallet.t * rng) :=
  wallet ← (if bool_decide (walletContents = []) then mret Wallet.new
            else '(ok, wallet) ← total (Wallet.setString walletContents (BinData.contents password) Wallet.new);
                 if negb ok then exit DecryptWallet fs else mret wallet);
  '(k, wallet, g) ← total (Wallet.makeNewKey fuel (stack1 w) (time1 w) (key1 w) Wallet.Validator (salt c) (random w) wallet);
  if bool_decide (k = None) then exit MakeKey fs
  else
    '(k, wallet, g) ← total (Wallet.makeNewKey fuel (stack2 w) (time2 w) (key2 w) Wallet.Specie (salt c) g wallet);
    if bool_decide (k = None) then exit MakeKey fs else mret (wallet, g).

(** [src/src/cli/genesis.cpp:191-204] main (genesis block) *)
Definition make_genesis (c : config) (clock : Z) (wallet : Wallet.t) : option Genesis.t :=
  let gen := Genesis.dflt in
  let gen := Genesis.setProtocol PROTOCOL_VERSION gen in
  let gen := Genesis.setName BLOCKCHAIN_NAME gen in
  let gen := Genesis.setVersion BLOCKCHAIN_VERSION gen in
  let gen := Genesis.setCreation (Time.now clock) gen in
  let gen := Genesis.setCreator (BlockAddress.of_bin (Wallet.getLatestAddressBin Wallet.Specie wallet)) gen in
  key ← Wallet.getLatestPublicKey Wallet.Validator wallet;
  let gen := Genesis.setValidatorKey (PublicKey.of_bin key) gen in
  let gen := Genesis.setStakeAddress (BlockAddress.of_bin (Wallet.getLatestAddressBin Wallet.Validator wallet)) gen in
  let gen := Genesis.setSeed (seed c) gen in
  let greedSpec := Specie.setCoins (greed c) Specie.dflt in
  Some (Genesis.setGreed greedSpec gen).

(** [src/src/cli/genesis.cpp:206-222] main (reconciliation block)

    A wallet without a validator key is a null pointer. *)
Definition make_reconciliation (gen : Genesis.t) (wallet : Wallet.t) : option Reconciliation.t :=
  let genesisData := Genesis.encode gen in
  let address := BlockAddress.of_bin (Wallet.getLatestAddressBin Wallet.Validator wallet) in
  let rec := Reconciliation.setProtocol PROTOCOL_VERSION Reconciliation.dflt in
  let rec := Reconciliation.setChainId FIRST_RECON rec in
  let rec := Reconciliation.setShardInfo [ReconciliationShardInfo.make (BlockHash.of_data genesisData) 0] rec in
  let rec := Reconciliation.setLeader address rec in
  key ← Wallet.getLatestKey Wallet.Validator wallet;
  key ← key;
  content ← Reconciliation.toContent rec;
  let rec := Reconciliation.setSignature (Signature.of_bin (Curve25519.sign key content)) rec in
  let validation := Validation.setVerified true Validation.dflt in
  let validation := Validation.setAddress address validation in
  let validation := Validation.setSignature (Reconciliation.getSignature rec) validation in
  Some (Reconciliation.setVotes [validation] rec).

(** A file of the output directory. *)
Definition block_path (c : config) (recon : Z) : cstr := outputDir c ++ $"/" ++ BlockFilename.get recon 0 0.

(** [src/src/cli/genesis.cpp:224-248] main (writing the blocks) *)
Definition write_blocks (c : config) (gen : Genesis.t) (rec : Reconciliation.t) (fs : files) : X files files :=
  '(ok, fs) ← (if FileTools.isDir fs (outputDir c) then mret (true, fs) else mret (FileTools.createDir fs (outputDir c)));
  if negb ok then exit CreateOutputDir fs
  else
    data ← total (Block.encode (Block.setGenesis gen Block.dflt));
    let '(ok, fs) := FileTools.write fs (block_path c 0) data in
    if negb ok then exit WriteBlock fs
    else
      data ← total (Block.encode (Block.setReconciliation rec Block.dflt));
      let '(ok, fs) := FileTools.write fs (block_path c FIRST_RECON) data in
      if negb ok then exit WriteBlock fs else mret fs.

(** [src/src/cli/genesis.cpp:250-262] main (writing the wallet) *)
Definition write_wallet (c : config) (password : BinData.t) (wallet : Wallet.t) (w : world) (g : rng) (fs : files)
  : X files files :=
  '(walletData, _) ← total (Wallet.getString (stack3 w) (BinData.contents password) wallet g);
  if bool_decide (walletData = []) then exit SerializeWallet fs
  else
    let '(ok, fs) := FileTools.write fs (walletFile c) walletData in
    if negb ok then exit WriteWallet fs else mret fs.

(** [src/src/cli/genesis.cpp:111-268] main *)
Definition main (fuel : nat) (argv : list cstr) (input : bytes) (w : world) (fs : files) : X files files :=
  '(args, c) ← configure fuel argv fs;
  walletContents ← read_wallet c fs;
  password ← get_password args walletContents input fs;
  '(wallet, g) ← make_wallet fuel c walletContents password w fs;
  gen ← total (make_genesis c (clock w) wallet);
  rec ← total (make_reconciliation gen wallet);
  fs ← write_blocks c gen rec fs;
  write_wallet c password wallet w g fs.

End Code.
End GenesisTool.

Module GenesisProofs.
Import Exit GenesisTool.

(** Takes a run apart at its binds: each step has a result that the next goes on with. *)
Ltac run_inv H :=
  repeat match type of H with
  | _ ≫= _ = Some (inr _) => let a := fresh "a" in let Ha := fresh "Ha" in
      apply bind_inr in H as (a & Ha & H); try (apply total_inr in Ha); try (destruct a)
  end.

Section Proofs.
Context {F : Files} {PB : Pbe} {DC : Der PbkdfKey.content} {DK : Der PbkdfKey.key} {PL : PbeLaws PB}.
Context {A : Asn1Lib} {AL : Asn1Laws A} {R : Rng} {RL : RngLaws R} {D : Digests} {DL : DigestLaws D}.
Context {K : EvpKeys} {KL : Curve25519.EvpKeyLaws K} {B : BigNum} {BL : BigNumLaws B}.
Context {P8 : Pkcs8Key.Pkcs8 K} {P8L : Pkcs8Key.Pkcs8Laws K P8} {WB : WalletBytes K} {J : Json} {JL : JsonLaws J}.
Context {Dg : Der Genesis.asn1} {Dc : Der Reconciliation.content} {Db : Der Block.asn1}.

(** An address made for a key belongs to it, whatever salt was asked for. *)
Lemma generated_verifies fuel k salt (g : rng) bin g' :
  (if bool_decide (salt = []) then AlgAddress.generate fuel k g else AlgAddress.generate_text fuel k salt g) = Some (bin, g') →
  ∀ g2, AlgAddress.verify_text (AlgAddress.printable bin) k g2 = true.
Proof.
  assert (Ht : ∀ s (g0 : rng), AlgAddress.generate_text fuel k s g0 = Some (bin, g') →
    ∀ g2, AlgAddress.verify_text (AlgAddress.printable bin) k g2 = true).
  { intros s g0. unfold AlgAddress.generate_text. destruct (if negb _ then _ else _) as [[r g1]|]; [|done].
    intros [= H] g2. apply AlgAddress.generate_salt_inv in H as (s' & Hs & -> & Hok).
    unfold AlgAddress.verify_text. rewrite AlgAddress.unprintable_printable; [by apply AlgAddress.verify_address_of|].
    apply Forall_app. split; [apply Hok, Base64.decode_bytes_ok|]. apply Forall_take, Hash.sha2_256_ok. }
  case_bool_decide; [|apply Ht]. unfold AlgAddress.generate.
  destruct (AlgAddress.rand_chars _ _ g) as [[s g1]|]; [apply Ht|done].
Qed.

Lemma valToChar_ascii v : 0 ≤ v → 0 ≤ Base58.valToChar v < 128.
Proof.
  intros Hv. unfold Base58.valToChar. case_match; [lia|].
  destruct (nth_in_or_default (Z.to_nat v) Base58.b58Encoding 0) as [Hin| ->]; [|lia].
  assert (Ha : Forall (λ c, 0 ≤ c < 128) Base58.b58Encoding) by (apply (bool_decide_unpack _); vm_compute; exact I).
  rewrite Forall_forall in Ha. by apply Ha, list_elem_of_In.
Qed.

Lemma base58_ascii l : ascii (Base58.encode l).
Proof.
  unfold Base58.encode. case_bool_decide; [constructor|]. apply Forall_app. split; [by apply Forall_replicate|].
  apply Forall_reverse. generalize (8 * length l)%nat, (BN_bin2bn l). intros fuel. induction fuel as [|fuel IH]; intros b; [constructor|].
  cbn [Base58.encode_loop]. case_match; [constructor|]. destruct (BN_div _ _). constructor; [|apply IH].
  apply valToChar_ascii. apply wrap_range. lia.
Qed.

(** The text of an address is ASCII. *)
Lemma printable_ascii a : ascii (AlgAddress.printable a).
Proof.
  unfold AlgAddress.printable. case_match; [apply Forall_app; split; [|apply base58_ascii]|]; apply WalletProofs.base64_ascii.
Qed.

(** The protection a wallet can always give. *)
Definition protects (w : Wallet.t) : Prop :=
  Wallet.defaultFormat w = Wallet.Clear ∨ PbkdfKey.KDF_ITERS_MIN ≤ Wallet.kdfIters w ≤ PbkdfKey.KDF_ITERS_MAX.

(** A new key is at the front, opens, and belongs to its address. *)
Lemma made_key fuel st now k u salt g w r w' g' :
  WalletProofs.wf w → Curve25519.is_ed k → WalletProofs.stack_ok st → protects w →
  Wallet.makeNewKey fuel st now (Some k) u salt g w = Some (r, w', g') →
  WalletProofs.wf w' ∧ protects w' ∧ Wallet.kdfIters w' = Wallet.kdfIters w ∧
  Wallet.defaultFormat w' = Wallet.defaultFormat w ∧ (Wallet.keys w ≠ [] → Wallet.password w' = Wallet.password w) ∧
  ∃ e, Wallet.keys w' = e :: Wallet.keys w ∧ Wallet.usage e = u ∧ ascii (Wallet.address e) ∧
       Wallet.decrypt (Wallet.format e) (Wallet.privKey e) (Wallet.password w') = Some (Some k) ∧
       ∀ g, AlgAddress.verify_text (Wallet.address e) k g = true.
Proof.
  intros Hw Hk Hst Hp. unfold Wallet.makeNewKey. intros H.
  destruct (if bool_decide (salt = []) then _ else _) as [[bin g1]|] eqn:Eg; [|done].
  pose proof (generated_verifies _ _ _ _ _ _ Eg) as Hv. cbn [mbind option_bind] in H.
  destruct (WalletProofs.addKey_spec st now u k (AlgAddress.printable bin) g1 w Hw Hk Hst) as (ok & w1 & g2 & Ha & Had & _ & Hok).
  rewrite Ha in H. injection H as <- <- <-. specialize (Hok (Hv g1) Hp). subst ok.
  destruct Had as (Hw1 & Hf & Hi & Hpw & (e & Hkeys & Hadr & Hu & _ & Hd) & _); [done|].
  split_and!; [done|by unfold protects; rewrite Hf, Hi|done..|]. exists e. rewrite Hadr. split_and!; try done. apply printable_ascii.
Qed.


(** The first key gives a wallet without a password a random one. *)
Lemma first_password fuel st now k u salt (g : rng) w r w' g' :
  Wallet.password w = [] → Wallet.makeNewKey fuel st now (Some k) u salt g w = Some (r, w', g') →
  ∃ g1, Wallet.password w' = (Prng.rand 16 g1).1.
Proof.
  intros Hp H. unfold Wallet.makeNewKey in H.
  destruct (if bool_decide (salt = []) then _ else _) as [[bin g1]|] eqn:Eg; [|done].
  pose proof (generated_verifies _ _ _ _ _ _ Eg) as Hv. cbn [mbind option_bind] in H. exists g1.
  apply bind_Some in H as ([[ok w1] g2] & Ha & [= _ <- _]). unfold Wallet.addKey in Ha. rewrite Hv, Hp in Ha. cbn [negb] in Ha.
  rewrite (bool_decide_eq_true_2 ([] = [])) in Ha by done. destruct (Prng.rand 16 g1) as [pass g3] eqn:Er.
  cbv zeta in Ha. apply bind_Some in Ha as ([[f wrapped] g4] & _ & Ha).
  unfold Wallet.store_entry in Ha. case_bool_decide; by injection Ha as _ <- _.
Qed.

(** A run that makes a new wallet has exactly the two new keys, and a random password. *)
Lemma new_wallet fuel c pw w fs wallet g k1 k2 :
  key1 w = Some k1 → key2 w = Some k2 → Curve25519.is_ed k1 → Curve25519.is_ed k2 →
  WalletProofs.stack_ok (stack1 w) → WalletProofs.stack_ok (stack2 w) →
  make_wallet fuel c [] pw w fs = Some (inr (wallet, g)) →
  WalletProofs.reach wallet ∧ ∃ e1 e2, Wallet.keys wallet = [e2; e1] ∧
    Wallet.usage e1 = Wallet.Validator ∧ Wallet.usage e2 = Wallet.Specie ∧
    Wallet.decrypt (Wallet.format e1) (Wallet.privKey e1) (Wallet.password wallet) = Some (Some k1) ∧
    (∀ g, AlgAddress.verify_text (Wallet.address e1) k1 g = true) ∧
    (∀ g, AlgAddress.verify_text (Wallet.address e2) k2 g = true) ∧
    ascii (Wallet.address e1) ∧ ascii (Wallet.address e2) ∧ Wallet.kdfIters wallet = PbkdfKey.KDF_ITERS_DEFAULT ∧
    Wallet.defaultFormat wallet = Wallet.FcPbkdf ∧
    ∃ g, Wallet.password wallet = (Prng.rand 16 g).1.
Proof.
  intros Hk1 Hk2 He1 He2 Hs1 Hs2 H. unfold make_wallet in H. rewrite (bool_decide_eq_true_2 ([] = [])) in H by done.
  apply bind_inr in H as (w0 & [= <-] & H). rewrite Hk1, Hk2 in H.
  apply bind_inr in H as ([[r1 w1] g1] & H1%total_inr & H). destruct r1 as [r1|]; [|done].
  rewrite bool_decide_eq_false_2 in H by done.
  apply bind_inr in H as ([[r2 w2] g2] & H2%total_inr & H). destruct r2 as [r2|]; [|done].
  rewrite bool_decide_eq_false_2 in H by done. injection H as <- <-.
  assert (Hp : protects Wallet.new) by (right; apply (bool_decide_unpack _); vm_compute; exact I).
  destruct (made_key _ _ _ _ _ _ _ _ _ _ _ (WalletProofs.reach_wf _ WalletProofs.reach_new) He1 Hs1 Hp H1)
    as (Hw1 & Hp1 & Hi1 & Hf1 & _ & e1 & E1 & Hu1 & Ha1 & Hd1 & Hv1).
  destruct (made_key _ _ _ _ _ _ _ _ _ _ _ Hw1 He2 Hs2 Hp1 H2) as (_ & _ & Hi2 & Hf2 & Hpw & e2 & E2 & Hu2 & Ha2 & _ & Hv2).
  split.
  2: { exists e1, e2. rewrite E2, E1, Hpw, Hi2, Hi1, Hf2, Hf1 by (by rewrite E1). split_and!; try done.
       by eapply first_password, H1. }
  eapply WalletProofs.reach_make; [|exact Hs2|exact He2|exact H2].
  eapply WalletProofs.reach_make; [apply WalletProofs.reach_new|exact Hs1|exact He1|exact H1].
Qed.

(** The same entry, opened with another password. *)
Definition kept_entry (w w' : Wallet.t) (e e' : Wallet.Entry) : Prop :=
  Wallet.address e' = Wallet.address e ∧ Wallet.usage e' = Wallet.usage e ∧
  ∀ k, Wallet.decrypt (Wallet.format e) (Wallet.privKey e) (Wallet.password w) = Some (Some k) →
       Wallet.decrypt (Wallet.format e') (Wallet.privKey e') (Wallet.password w') = Some (Some k).

(** A wallet of the tool can be saved under any password, and opens with it; the empty one
    leaves the wallet's own. *)
Lemma save_opens st w pw (g : rng) :
  WalletProofs.reach w → WalletProofs.stack_ok st → Forall (λ e, ascii (Wallet.address e)) (Wallet.keys w) →
  Wallet.defaultFormat w = Wallet.FcPbkdf → Wallet.kdfIters w = PbkdfKey.KDF_ITERS_DEFAULT →
  ∃ text g' w', Wallet.getString st pw w g = Some (text, g') ∧ text ≠ [] ∧
    Wallet.setString text (if bool_decide (pw = []) then Wallet.password w else pw) Wallet.new = Some (true, w') ∧
    Forall2 (kept_entry w w') (Wallet.keys w) (Wallet.keys w').
Proof.
  intros Hw Hst Ha Hf Hi. destruct (decide (pw = [] ∨ pw = Wallet.password w)) as [Hp|Hp].
  - destruct (WalletProofs.saved_loads st w Wallet.new pw g Hw) as (text & Ht & Hne & Hs); [by rewrite Hi; apply (bool_decide_unpack _)|done..|].
    exists text, g, w. split_and!; [done..| |by apply Forall_Forall2_diag, Forall_forall]. destruct Hp as [-> | ->]; [done|]. by case_bool_decide.
  - destruct (WalletProofs.changed_loads st w Wallet.new pw g Hw Hst Ha) as (text & g' & w' & Ht & Hne & Hs & Hpw' & _ & _ & Hks);
      [by intros ->; apply Hp; left|by intros ->; apply Hp; right|rewrite Hi; apply (bool_decide_unpack _); by vm_compute|by left|].
    exists text, g', w'. rewrite bool_decide_eq_false_2 by (by intros ->; apply Hp; left). split_and!; [done..|].
    eapply Forall2_impl; [exact Hks|]. intros e e' (_ & Hu & Hae & _ & _ & k & Hk & Hk').
    split_and!; [done..|]. rewrite Hpw'. intros k0. congruence.
Qed.

(** What is signed is neither the signature nor the votes. *)
Lemma content_unsigned r sig v : Reconciliation.toContent (Reconciliation.setVotes v (Reconciliation.setSignature sig r)) = Reconciliation.toContent r.
Proof. unfold Reconciliation.toContent. by rewrite !Reconciliation.recon_toAsn1_total. Qed.

Definition blocks (gen : Genesis.t) (rec : Reconciliation.t) (i : Z) : Block.t :=
  if i =? 0 then Block.setGenesis gen Block.dflt else Block.setReconciliation rec Block.dflt.

Lemma now_ok clock : 0 ≤ clock < 2 ^ 63 → Time.ok (Time.now clock).
Proof.
  intros Hc. unfold Time.now, Time.setNow, Time.set_clock, Time.ok.
  assert (0 ≤ Z.quot clock 1000000 < 2 ^ 63) by (split; [apply Z.quot_pos; lia|apply Z.quot_lt_upper_bound; lia]).
  destruct (Z.ltb_spec (Z.quot clock 1000000) Time.fluffyEpochDelta); simpl; [lia|].
  rewrite wrap_small by (unfold is_u, Time.fluffyEpochDelta in *; lia). unfold Time.fluffyEpochDelta in *. lia.
Qed.

Lemma made_genesis_ok c clk wallet gen :
  2 ≤ greed c < 2 ^ 63 → 0 ≤ clk < 2 ^ 63 → make_genesis c clk wallet = Some gen →
  Genesis.ok gen ∧ Genesis.getGreed gen = Specie.mk (greed c) 0.
Proof.
  intros Hg Hc H. unfold make_genesis in H. apply bind_Some in H as (pk & _ & [= <-]). split; [|done].
  split; [by apply (bool_decide_unpack _)|]. split; [by apply (bool_decide_unpack _)|]. split; [by apply now_ok|].
  split; cbn; lia.
Qed.

Lemma made_reconciliation_ok gen wallet rec :
  make_reconciliation gen wallet = Some rec →
  Reconciliation.ok rec ∧ Reconciliation.getChainId rec = 1 ∧
  Reconciliation.getShardInfo rec = [ReconciliationShardInfo.make (DbIntegrator.genesis_hash gen) 0].
Proof.
  intros H. unfold make_reconciliation in H. apply bind_Some in H as (k & _ & (k' & _ & (ct & _ & [= <-])%bind_Some)%bind_Some).
  split; [|done]. split; [by apply (bool_decide_unpack _)|]. split; [by apply (bool_decide_unpack _)|].
  constructor; [|constructor]. by apply (bool_decide_unpack _).
Qed.

(** The two blocks of a wallet are a chain the curator follows. *)
Lemma made_chain c clk wallet gen rec :
  2 ≤ greed c < 2 ^ 63 → 0 ≤ clk < 2 ^ 63 →
  make_genesis c clk wallet = Some gen → make_reconciliation gen wallet = Some rec →
  LoadFromFs.chained 2 (blocks gen rec).
Proof.
  intros Hg Hc [Hgen _]%made_genesis_ok (Hrec & Hid & Hsh)%made_reconciliation_ok; [|done..].
  intros i Hi. assert (i = 0 ∨ i = 1) as [-> | ->] by lia.
  - split; [|split; [done|by eexists]]. split; [by split_and!|]. by split_and!.
  - split; [|split; [done|]]; [|by exists rec]. split; [by split_and!|]. by split_and!.
Qed.

(** A signature that could be made verifies with the public point of its key. *)
Lemma signature_verifies k content :
  Curve25519.is_ed k → Curve25519.sign k content ≠ [] →
  ∃ k', Curve25519.fromPublic (Curve25519.toPublic k) = Some k' ∧ Curve25519.verify k' content (Curve25519.sign k content) = true.
Proof.
  intros Hk Hne. assert (H : ∃ sg, EVP_DigestSign k content = Some sg ∧ zlen sg = EVP_PKEY_size k ∧ sg ≠ []).
  { revert Hne. unfold Curve25519.sign. destruct (_ <=? 0); [done|]. destruct (EVP_DigestSign k content) as [sg|]; [|done].
    destruct (Z.eqb_spec (zlen sg) (EVP_PKEY_size k)); [|done]. intros Hne. by exists sg. }
  destruct H as (sg & H1 & H2 & H3). by apply (Curve25519.curve_sign_verify k content sg).
Qed.

(** The block signs for the validator the genesis block names. *)
Lemma made_signature c clk wallet gen rec k e :
  Wallet.getTopKey (Wallet.keys wallet) Wallet.Validator = Some e → Curve25519.is_ed k →
  Wallet.decrypt (Wallet.format e) (Wallet.privKey e) (Wallet.password wallet) = Some (Some k) →
  make_genesis c clk wallet = Some gen → make_reconciliation gen wallet = Some rec →
  Genesis.getValidatorKey gen = PublicKey.of_bin (Curve25519.toPublic k) ∧
  Genesis.getStakeAddress gen = Reconciliation.getLeader rec ∧
  BlockAddress.get (Reconciliation.getLeader rec) = AlgAddress.unprintable (Wallet.address e) ∧
  ∃ content sig, Reconciliation.toContent rec = Some content ∧ Reconciliation.getSignature rec = Signature.of_bin sig ∧
    Reconciliation.getVotes rec = [Validation.mk true (Reconciliation.getLeader rec) (Signature.of_bin sig)] ∧
    (sig ≠ [] → ∃ k', Curve25519.fromPublic (PublicKey.get (Genesis.getValidatorKey gen)) = Some k' ∧
                      Curve25519.verify k' content sig = true).
Proof.
  intros Htop Hk Hd Hgen Hrec. unfold make_genesis, Wallet.getLatestPublicKey, Wallet.getLatestKey in Hgen.
  rewrite Htop, Hd in Hgen. injection Hgen as <-.
  unfold make_reconciliation, Wallet.getLatestKey in Hrec. rewrite Htop, Hd in Hrec. cbn [mbind option_bind] in Hrec.
  apply bind_Some in Hrec as (content & Hcont & [= <-]).
  split_and!; [done|done|unfold Wallet.getLatestAddressBin, Wallet.getLatestAddress; by rewrite Htop|].
  exists content, (Curve25519.sign k content). split_and!; [by rewrite content_unsigned|done|done|].
  intros Hne. apply (signature_verifies k content Hk Hne).
Qed.

(** What the arguments of a run that goes on are. *)
Lemma configure_inr fuel argv fs args c :
  configure fuel argv fs = Some (inr (args, c)) →
  2 ≤ greed c ∧ ArgParser.parse fuel parser (length argv) (Some argv) = Some args.
Proof.
  intros H. unfold configure in H. apply bind_inr in H as (a & Ha%total_inr & H). destruct (Args.hasError a); [done|].
  apply bind_inr in H as (g & _ & H). destruct (Z.ltb_spec g GREED_MINIMUM).
  { by apply bind_inr in H as (? & _ & ?). }
  unfold GREED_MINIMUM in *. repeat (apply bind_inr in H as (? & _ & H)). injection H as <- <-. by split.
Qed.

(** A step that has not written anything. *)
Definition clean {T} (fs : files) (m : X files T) : Prop :=
  ∀ c f, m = Some (inl (c, f)) → 1 ≤ c ≤ 7 ∧ f = fs.

Lemma clean_bind {T U} fs (m : X files T) (k : T → X files U) : clean fs m → (∀ a, clean fs (k a)) → clean fs (m ≫= k).
Proof. intros Hm Hk c f [H|(a & _ & H)]%bind_inl; [by apply Hm|by eapply Hk]. Qed.

Lemma clean_total {T} fs (m : option T) : clean fs (total m).
Proof. by intros c f H%total_inl. Qed.

Lemma clean_ret {T} fs (a : T) : clean fs (mret a).
Proof. by intros c f H. Qed.

Lemma clean_exit {T} fs c : 1 ≤ c ≤ 7 → clean fs (exit c fs : X files T).
Proof. by intros Hc c' f [= <- <-]. Qed.

#[local] Hint Resolve clean_total clean_ret : fluffy.
#[local] Hint Extern 1 (clean _ (exit _ _)) => apply clean_exit; vm_compute; split; discriminate : fluffy.
#[local] Hint Extern 2 (clean _ (_ ≫= _)) => apply clean_bind; [|intros] : fluffy.
#[local] Hint Extern 3 (clean _ _) => case_match : fluffy.

Lemma configure_clean fuel argv fs : clean fs (configure fuel argv fs).
Proof. unfold configure. eauto 20 with fluffy. Qed.

Lemma read_wallet_clean c fs : clean fs (read_wallet c fs).
Proof. unfold read_wallet. eauto 10 with fluffy. Qed.

Lemma get_password_clean args contents input fs : clean fs (get_password args contents input fs).
Proof. unfold get_password. eauto 10 with fluffy. Qed.

Lemma make_wallet_clean fuel c contents pw w fs : clean fs (make_wallet fuel c contents pw w fs).
Proof. unfold make_wallet. eauto 20 with fluffy. Qed.

(** What is there once the blocks are written. *)
Definition blocks_written (c : config) (gen : Genesis.t) (rec : Reconciliation.t) (fs' : files) : Prop :=
  ∃ f0 f1 d0 d1, Block.encode (blocks gen rec 0) = Some d0 ∧ Block.encode (blocks gen rec 1) = Some d1 ∧
    FileTools.write f0 (block_path c 0) d0 = (true, f1) ∧ FileTools.write f1 (block_path c 1) d1 = (true, fs').

Lemma write_blocks_spec c gen rec fs :
  match write_blocks c gen rec fs with
  | Some (inr fs') => blocks_written c gen rec fs'
  | Some (inl (code, _)) => CreateOutputDir ≤ code ≤ WriteBlock
  | None => True
  end.
Proof.
  unfold write_blocks. set (start := if FileTools.isDir fs (outputDir c) then mret (true, fs) else _ : X files (bool * files)).
  assert (Hs : ∃ ok f, start = Some (inr (ok, f))).
  { unfold start. destruct (FileTools.isDir _ _); [by eexists _, _|]. destruct (FileTools.createDir fs _) as [ok f]. by exists ok, f. }
  destruct Hs as (ok & f & ->). unfold mbind, X_bind. destruct ok; cbn [negb]; [|done].
  destruct (Block.encode (Block.setGenesis gen Block.dflt)) as [d0|] eqn:E0; cbn [total fmap option_fmap option_map]; [|done].
  destruct (FileTools.write f _ d0) as [[] f1] eqn:W0; cbn [negb]; [|done].
  destruct (Block.encode (Block.setReconciliation rec Block.dflt)) as [d1|] eqn:E1; cbn [total fmap option_fmap option_map]; [|done].
  destruct (FileTools.write f1 _ d1) as [[] f2] eqn:W1; cbn [negb]; [|done]. by exists f, f1, d0, d1.
Qed.

Lemma write_wallet_spec c pw wallet w g fs :
  match write_wallet c pw wallet w g fs with
  | Some (inr fs') => ∃ text g', Wallet.getString (stack3 w) (BinData.contents pw) wallet g = Some (text, g') ∧ text ≠ [] ∧
                        FileTools.write fs (walletFile c) text = (true, fs')
  | Some (inl (code, fs')) => SerializeWallet ≤ code ≤ WriteWallet ∧ (fs' = fs ∨ ∃ t, FileTools.write fs (walletFile c) t = (false, fs'))
  | None => True
  end.
Proof.
  unfold write_wallet, mbind, X_bind. destruct (Wallet.getString _ _ _ _) as [[text g']|]; cbn [total fmap option_fmap option_map]; [|done].
  case_bool_decide; [split; [by apply (bool_decide_unpack _)|by left]|].
  destruct (FileTools.write fs _ text) as [[] f] eqn:E; cbn [negb]; [by exists text, g'|].
  split; [by apply (bool_decide_unpack _)|]. right. by exists text.
Qed.

(** The exit codes of the genesis tool.  Whatever it is given, a run that ends with an
    error code below that of the output directory has left every file as it was; and one
    that ends with a code for the wallet has written both blocks already, so that the
    chain they start belongs to keys that were never saved. *)
Theorem genesis_exit_codes (fuel : nat) (argv : list cstr) (input : bytes) (w : world) (fs fs' : files) (code : Z)
    (Hrun : main fuel argv input w fs = Some (inl (code, fs'))) :
  1 ≤ code ≤ 11 ∧ (code < CreateOutputDir → fs' = fs) ∧
  (WriteBlock < code → ∃ args c gen rec f, configure fuel argv fs = Some (inr (args, c)) ∧ blocks_written c gen rec f ∧
     (fs' = f ∨ ∃ t, FileTools.write f (walletFile c) t = (false, fs'))).
Proof.
  assert (Hclean : 1 ≤ code ≤ 7 ∧ fs' = fs → 1 ≤ code ≤ 11 ∧ (code < CreateOutputDir → fs' = fs) ∧ (WriteBlock < code → False)).
  { unfold CreateOutputDir, WriteBlock. intros [? ->]. split_and!; [lia|lia|done|lia]. }
  assert (Hc : 1 ≤ code ≤ 7 ∧ fs' = fs → 1 ≤ code ≤ 11 ∧ (code < CreateOutputDir → fs' = fs) ∧
    (WriteBlock < code → ∃ args c gen rec f, configure fuel argv fs = Some (inr (args, c)) ∧ blocks_written c gen rec f ∧
       (fs' = f ∨ ∃ t, FileTools.write f (walletFile c) t = (false, fs')))).
  { intros (? & ? & Hn)%Hclean. split_and!; [lia..|done|]. by intros ?%Hn. }
  unfold main in Hrun. apply bind_inl in Hrun as [Hrun|([args c] & Hconf & Hrun)]; [by eapply Hc, configure_clean|].
  apply bind_inl in Hrun as [Hrun|(contents & _ & Hrun)]; [by eapply Hc, read_wallet_clean|].
  apply bind_inl in Hrun as [Hrun|(pw & _ & Hrun)]; [by eapply Hc, get_password_clean|].
  apply bind_inl in Hrun as [Hrun|([wallet g] & _ & Hrun)]; [by eapply Hc, make_wallet_clean|].
  apply bind_inl in Hrun as [Hrun%total_inl|(gen & _ & Hrun)]; [done|].
  apply bind_inl in Hrun as [Hrun%total_inl|(rec & _ & Hrun)]; [done|].
  pose proof (write_blocks_spec c gen rec fs) as Hb.
  apply bind_inl in Hrun as [Hrun|(f & Hf & Hrun)].
  - rewrite Hrun in Hb. unfold CreateOutputDir, WriteBlock in *. split_and!; lia.
  - rewrite Hf in Hb. pose proof (write_wallet_spec c pw wallet w g f) as Hw. rewrite Hrun in Hw.
    destruct Hw as [Hcode Hw]. unfold SerializeWallet, WriteWallet, CreateOutputDir in *. split_and!; [lia..|].
    intros _. by exists args, c, gen, rec, f.
Qed.

(** The parts of a successful run that makes a new wallet. *)
Lemma run_parts fuel argv input w fs fs' args c :
  configure fuel argv fs = Some (inr (args, c)) → FileTools.exists_ fs (walletFile c) = false →
  main fuel argv input w fs = Some (inr fs') →
  ∃ pw wallet g gen rec f text, get_password args [] input fs = Some (inr pw) ∧
    make_wallet fuel c [] pw w fs = Some (inr (wallet, g)) ∧
    make_genesis c (clock w) wallet = Some gen ∧ make_reconciliation gen wallet = Some rec ∧
    write_blocks c gen rec fs = Some (inr f) ∧ blocks_written c gen rec f ∧
    (∃ g', Wallet.getString (stack3 w) (BinData.contents pw) wallet g = Some (text, g')) ∧
    FileTools.write f (walletFile c) text = (true, fs').
Proof.
  intros Hconf Hnew Hrun. unfold main in Hrun. rewrite Hconf in Hrun. cbn [mbind X_bind] in Hrun.
  unfold read_wallet in Hrun. rewrite Hnew in Hrun. cbn [mbind X_bind mret X_ret] in Hrun.
  apply bind_inr in Hrun as (pw & Hget & Hrun). apply bind_inr in Hrun as ([wallet g] & Hw & Hrun).
  apply bind_inr in Hrun as (gen & Hgen%total_inr & Hrun). apply bind_inr in Hrun as (rec & Hrec%total_inr & Hrun).
  pose proof (write_blocks_spec c gen rec fs) as Hb. apply bind_inr in Hrun as (f & Hf & Hrun). rewrite Hf in Hb.
  pose proof (write_wallet_spec c pw wallet w g f) as Ht. rewrite Hrun in Ht. destruct Ht as (text & g' & Ht & _ & Hwr).
  exists pw, wallet, g, gen, rec, f, text. split_and!; try done. by exists g'.
Qed.

Lemma new_top (ks : list Wallet.Entry) e1 e2 :
  ks = [e2; e1] → Wallet.usage e1 = Wallet.Validator → Wallet.usage e2 = Wallet.Specie →
  Wallet.getTopKey ks Wallet.Validator = Some e1.
Proof. intros -> H1 H2. cbn [Wallet.getTopKey]. by rewrite decide_False, decide_True by congruence. Qed.

(** C8: The genesis tool starts a chain.  A run that makes a new wallet, is asked for fewer
    than 2^63 coins with the clock within 63 bits, is given two Ed25519 keys by the
    generator and succeeds has written two blocks and then the wallet: the blocks are the ones
    the curator integrates first, the second one naming the first by its hash; the genesis block
    grants the coins asked for and names the validator key and address of the wallet; the second
    is led by that address and, if signing worked, carries a signature that verifies with that
    key and votes for itself with it; the wallet holds just the two keys, and its file opens
    with the password that was typed, unless that is empty.  The bound on the coins is needed:
    the tool accepts more, and such a block is read back with another amount. *)
Theorem genesis_starts_chain (fuel : nat) (argv : list cstr) (input : bytes) (w : world) (fs fs' : files)
    (args : Args.t) (c : config) (k1 k2 : EVP_PKEY)
    (Hconf : configure fuel argv fs = Some (inr (args, c))) (Hnew : FileTools.exists_ fs (walletFile c) = false)
    (Hk1 : key1 w = Some k1) (Hk2 : key2 w = Some k2) (He1 : Curve25519.is_ed k1) (He2 : Curve25519.is_ed k2)
    (Hs1 : WalletProofs.stack_ok (stack1 w)) (Hs2 : WalletProofs.stack_ok (stack2 w)) (Hs3 : WalletProofs.stack_ok (stack3 w))
    (Hgreed : greed c < 2 ^ 63) (Hclock : 0 ≤ clock w < 2 ^ 63)
    (Hrun : main fuel argv input w fs = Some (inr fs')) :
  ∃ gen rec f wallet e1 e2 text pw w',
    LoadFromFs.chained 2 (blocks gen rec) ∧ blocks_written c gen rec f ∧
    Genesis.getGreed gen = Specie.mk (greed c) 0 ∧
    Genesis.getValidatorKey gen = PublicKey.of_bin (Curve25519.toPublic k1) ∧
    Genesis.getStakeAddress gen = Reconciliation.getLeader rec ∧
    (∃ content sig, Reconciliation.toContent rec = Some content ∧ Reconciliation.getSignature rec = Signature.of_bin sig ∧
       Reconciliation.getVotes rec = [Validation.mk true (Reconciliation.getLeader rec) (Signature.of_bin sig)] ∧
       (sig ≠ [] → ∃ k', Curve25519.fromPublic (PublicKey.get (Genesis.getValidatorKey gen)) = Some k' ∧
                         Curve25519.verify k' content sig = true)) ∧
    WalletProofs.reach wallet ∧ Wallet.keys wallet = [e2; e1] ∧
    BlockAddress.get (Reconciliation.getLeader rec) = AlgAddress.unprintable (Wallet.address e1) ∧
    (∀ g, AlgAddress.verify_text (Wallet.address e1) k1 g = true ∧ AlgAddress.verify_text (Wallet.address e2) k2 g = true) ∧
    FileTools.write f (walletFile c) text = (true, fs') ∧ get_password args [] input fs = Some (inr pw) ∧
    (BinData.contents pw ≠ [] → Wallet.setString text (BinData.contents pw) Wallet.new = Some (true, w')) ∧
    Wallet.address <$> Wallet.keys w' = [Wallet.address e2; Wallet.address e1].
Proof.
  assert (Hg2 : 2 ≤ greed c < 2 ^ 63) by (split; [by eapply configure_inr|done]).
  destruct (run_parts _ _ _ _ _ _ _ _ Hconf Hnew Hrun)
    as (pw & wallet & g & gen & rec & f & text & Hget & Hw & Hgen & Hrec & _ & Hb & [g' Ht] & Hwr).
  destruct (new_wallet fuel c pw w fs wallet g k1 k2 Hk1 Hk2 He1 He2 Hs1 Hs2 Hw)
    as (Hreach & e1 & e2 & Hkeys & Hu1 & Hu2 & Hd & Hv1 & Hv2 & Ha1 & Ha2 & Hi & Hfm & _).
  destruct (made_signature c (clock w) wallet gen rec k1 e1 (new_top _ _ _ Hkeys Hu1 Hu2) He1 Hd Hgen Hrec)
    as (Hpk & Hst & Hadr & Hsig).
  destruct (made_genesis_ok c (clock w) wallet gen Hg2 Hclock Hgen) as [_ Hgr].
  destruct (save_opens (stack3 w) wallet (BinData.contents pw) g Hreach Hs3) as (text' & g2 & w' & Hsv & _ & Hopen & Hads);
    [rewrite Hkeys; by repeat constructor|done..|]. rewrite Ht in Hsv. injection Hsv as <- <-. rewrite Hkeys in Hads.
  exists gen, rec, f, wallet, e1, e2, text, pw, w'. split_and!; try done; [by eapply made_chain|..].
  - intros Hne. by rewrite bool_decide_eq_false_2 in Hopen.
  - clear -Hads. apply Forall2_cons_inv_l in Hads as (e2' & l & [H2 _] & Hads & ->).
    apply Forall2_cons_inv_l in Hads as (e1' & l' & [H1 _] & ->%Forall2_nil_inv_l & ->). cbn. by rewrite H1, H2.
Qed.

(** The password given as an option is read from an option that does not exist. *)
Lemma given_password fuel argv fs args c contents input :
  configure fuel argv fs = Some (inr (args, c)) → Args.hasArg $"wallet-password" args = true →
  ∃ pw, get_password args contents input fs = Some (inr pw) ∧ BinData.contents pw = [] ∧
        ∀ args' argv' input' fs', configure fuel argv' fs' = Some (inr (args', c)) → Args.hasArg $"wallet-password" args' = true →
          get_password args' contents input' fs' = Some (inr pw).
Proof.
  intros Hc Ha. assert (Hno : ∀ argv fs args, configure fuel argv fs = Some (inr (args, c)) → Args.getArg $"wallet-address" args = Some []).
  { intros argv0 fs0 args0 [_ Hp]%configure_inr. unfold Args.getArg. by destruct (ArgParser.parse_unknown _ _ _ _ $"wallet-address" Hp eq_refl) as [_ ->]. }
  unfold get_password. rewrite Ha, (Hno _ _ _ Hc). eexists. split_and!; [done|done|].
  intros args' argv' input' fs' Hc' Ha'. by rewrite Ha', (Hno _ _ _ Hc').
Qed.

(** A password given to the genesis tool as an option is not used.  Two runs that differ in
    it, and in what is typed, do the same; and a new wallet that such a run saves opens
    with sixteen random bytes that are neither shown nor kept. *)
Theorem genesis_password_lost (fuel : nat) (argv argv' : list cstr) (input input' : bytes) (w : world) (fs fs' : files)
    (args args' : Args.t) (c : config) (k1 k2 : EVP_PKEY)
    (Hconf : configure fuel argv fs = Some (inr (args, c))) (Hpw : Args.hasArg $"wallet-password" args = true)
    (Hconf' : configure fuel argv' fs = Some (inr (args', c))) (Hpw' : Args.hasArg $"wallet-password" args' = true)
    (Hnew : FileTools.exists_ fs (walletFile c) = false)
    (Hk1 : key1 w = Some k1) (Hk2 : key2 w = Some k2) (He1 : Curve25519.is_ed k1) (He2 : Curve25519.is_ed k2)
    (Hs1 : WalletProofs.stack_ok (stack1 w)) (Hs2 : WalletProofs.stack_ok (stack2 w))
    (Hrun : main fuel argv input w fs = Some (inr fs')) :
  main fuel argv' input' w fs = main fuel argv input w fs ∧
  ∃ wallet text f g, Wallet.password wallet = (Prng.rand 16 g).1 ∧ length (Wallet.keys wallet) = 2%nat ∧
    FileTools.write f (walletFile c) text = (true, fs') ∧
    Wallet.setString text (Wallet.password wallet) Wallet.new = Some (true, wallet).
Proof.
  split.
  - unfold main. rewrite Hconf, Hconf'. cbn [mbind X_bind]. unfold read_wallet. rewrite Hnew. cbn [mbind X_bind mret X_ret].
    destruct (given_password fuel argv fs args c [] input Hconf Hpw) as (pw & Hg & _ & Hsame). by rewrite Hg, (Hsame _ _ _ _ Hconf' Hpw').
  - destruct (given_password fuel argv fs args c [] input Hconf Hpw) as (pw & Hg & Hempty & _).
    destruct (run_parts _ _ _ _ _ _ _ _ Hconf Hnew Hrun)
      as (pw' & wallet & g & gen & rec & f & text & Hget & Hw & _ & _ & _ & _ & [g' Ht] & Hwr).
    rewrite Hg in Hget. injection Hget as <-. rewrite Hempty in Ht.
    destruct (new_wallet fuel c pw w fs wallet g k1 k2 Hk1 Hk2 He1 He2 Hs1 Hs2 Hw) as (Hreach & e1 & e2 & Hkeys & _ & _ & _ & _ & _ & Ha1 & Ha2 & Hi & _ & g1 & Hrand).
    destruct (WalletProofs.saved_loads (stack3 w) wallet Wallet.new [] g Hreach) as (text' & Ht' & _ & Hload);
      [rewrite Hi; by apply (bool_decide_unpack _)|rewrite Hkeys; by repeat constructor|by left|]. rewrite Ht in Ht'. injection Ht' as <- ->.
    exists wallet, text, f, g1. by rewrite Hkeys.
Qed.

(** ** A run succeeds when its surroundings work *)

Lemma makes_key fuel st now k u salt (g : rng) w :
  AlgAddress.rng_live fuel → WalletProofs.wf w → Curve25519.is_ed k → WalletProofs.stack_ok st →
  ∃ w' g', Wallet.makeNewKey fuel st now (Some k) u salt g w = Some (Some k, w', g').
Proof.
  intros Hl Hw Hk Hst. assert (Ht : ∀ s (g0 : rng), ∃ r, AlgAddress.generate_text fuel k s g0 = Some r).
  { intros s g0. unfold AlgAddress.generate_text. destruct (negb (Z.land (zlen s) 3 =? 0)); [|by eexists].
    destruct (AlgAddress.rand_chars_live fuel (Z.to_nat (4 - Z.land (zlen s) 3)) g0 Hl) as (cs & g1 & -> & _). by eexists. }
  assert (Hg : ∃ r, (if bool_decide (salt = []) then AlgAddress.generate fuel k g else AlgAddress.generate_text fuel k salt g) = Some r).
  { case_bool_decide; [|apply Ht]. unfold AlgAddress.generate.
    destruct (AlgAddress.rand_chars_live fuel AlgAddress.ENCODED_SALT_LENGTH g Hl) as (cs & g1 & -> & _). apply Ht. }
  destruct Hg as [[bin g1] Hg]. unfold Wallet.makeNewKey. rewrite Hg. cbn [mbind option_bind].
  destruct (WalletProofs.addKey_spec st now u k (AlgAddress.printable bin) g1 w Hw Hk Hst) as (ok & w' & g' & -> & _).
  by exists w', g'.
Qed.

Lemma makes_wallet fuel c pw w fs k1 k2 :
  AlgAddress.rng_live fuel → key1 w = Some k1 → key2 w = Some k2 → Curve25519.is_ed k1 → Curve25519.is_ed k2 →
  WalletProofs.stack_ok (stack1 w) → WalletProofs.stack_ok (stack2 w) →
  ∃ r, make_wallet fuel c [] pw w fs = Some (inr r).
Proof.
  intros Hl Hk1 Hk2 He1 He2 Hs1 Hs2. unfold make_wallet. rewrite (bool_decide_eq_true_2 ([] = [])), Hk1, Hk2 by done.
  assert (Hp : protects Wallet.new) by (right; apply (bool_decide_unpack _); vm_compute; exact I).
  pose proof (WalletProofs.reach_wf _ WalletProofs.reach_new) as Hw0.
  destruct (makes_key fuel (stack1 w) (time1 w) k1 Wallet.Validator (salt c) (random w) Wallet.new Hl Hw0 He1 Hs1) as (w1 & g1 & H1).
  destruct (made_key _ _ _ _ _ _ _ _ _ _ _ Hw0 He1 Hs1 Hp H1) as (Hw1 & _).
  destruct (makes_key fuel (stack2 w) (time2 w) k2 Wallet.Specie (salt c) g1 w1 Hl Hw1 He2 Hs2) as (w2 & g2 & H2).
  cbn [mbind X_bind mret X_ret]. rewrite H1. cbn [total fmap option_fmap option_map mbind X_bind].
  rewrite bool_decide_eq_false_2, H2 by done. cbn [total fmap option_fmap option_map mbind X_bind].
  rewrite bool_decide_eq_false_2 by done. by eexists.
Qed.

Lemma writes_blocks c gen rec fs :
  FileTools.isDir fs (outputDir c) = true ∨ fst (FileTools.createDir fs (outputDir c)) = true →
  (∀ f p d, fst (FileTools.write f p d) = true) →
  ∃ f, write_blocks c gen rec fs = Some (inr f).
Proof.
  intros Hdir Hwrite. unfold write_blocks.
  assert (Hs : ∃ f, (if FileTools.isDir fs (outputDir c) then mret (true, fs) else mret (FileTools.createDir fs (outputDir c)) : X files (bool * files))
    = Some (inr (true, f))).
  { destruct (FileTools.isDir fs _); [by eexists|]. destruct Hdir as [|Hd]; [done|].
    destruct (FileTools.createDir fs _) as [ok f]. simpl in Hd. subst ok. by eexists. }
  assert (He : ∀ b, Block.wf b → ∃ d, Block.encode b = Some d).
  { intros b Hb. unfold Block.encode. destruct (Block.block_toAsn1_wf b Block.asn1_new Hb) as [u ->]. by eexists. }
  destruct Hs as [f Hs]. rewrite (bind_step _ _ _ Hs). cbn [negb].
  destruct (He (Block.setGenesis gen Block.dflt)) as [d0 E0]; [by split_and!|]. rewrite (total_step _ _ _ E0). pose proof (Hwrite f (block_path c 0) d0) as W0.
  destruct (FileTools.write f _ d0) as [ok0 f1]. simpl in W0. subst ok0. cbn [negb].
  destruct (He (Block.setReconciliation rec Block.dflt)) as [d1 E1]; [by split_and!|]. rewrite (total_step _ _ _ E1). pose proof (Hwrite f1 (block_path c FIRST_RECON) d1) as W1.
  destruct (FileTools.write f1 _ d1) as [ok1 f2]. simpl in W1. subst ok1. by eexists.
Qed.

Lemma makes_blocks c clk wallet k :
  Wallet.getLatestKey Wallet.Validator wallet = Some (Some k) →
  ∃ gen rec, make_genesis c clk wallet = Some gen ∧ make_reconciliation gen wallet = Some rec.
Proof.
  intros Hk. unfold make_genesis, Wallet.getLatestPublicKey. rewrite Hk. cbn [mbind option_bind]. eexists _.
  unfold make_reconciliation, Reconciliation.toContent. rewrite Hk, Reconciliation.recon_toAsn1_total. by eexists.
Qed.

(** The genesis tool finishes.  With acceptable options, no wallet yet, a password, two
    generated keys, a random source that keeps yielding acceptable words, a directory that
    is there or can be made and a disk that takes what is written, the run succeeds; the
    number of draws is the only bound it needs. *)
Theorem genesis_succeeds (fuel : nat) (argv : list cstr) (input : bytes) (w : world) (fs : files)
    (args : Args.t) (c : config) (pw : BinData.t) (k1 k2 : EVP_PKEY)
    (Hconf : configure fuel argv fs = Some (inr (args, c))) (Hnew : FileTools.exists_ fs (walletFile c) = false)
    (Hpw : get_password args [] input fs = Some (inr pw)) (Hlive : AlgAddress.rng_live fuel)
    (Hk1 : key1 w = Some k1) (Hk2 : key2 w = Some k2) (He1 : Curve25519.is_ed k1) (He2 : Curve25519.is_ed k2)
    (Hs1 : WalletProofs.stack_ok (stack1 w)) (Hs2 : WalletProofs.stack_ok (stack2 w)) (Hs3 : WalletProofs.stack_ok (stack3 w))
    (Hdir : FileTools.isDir fs (outputDir c) = true ∨ fst (FileTools.createDir fs (outputDir c)) = true)
    (Hwrite : ∀ f p d, fst (FileTools.write f p d) = true) :
  ∃ fs', main fuel argv input w fs = Some (inr fs').
Proof.
  unfold main. rewrite (bind_step _ _ _ Hconf). unfold read_wallet. rewrite Hnew, (bind_step (mret []) _ [] eq_refl), (bind_step _ _ _ Hpw).
  destruct (makes_wallet fuel c pw w fs k1 k2 Hlive Hk1 Hk2 He1 He2 Hs1 Hs2) as [[wallet g] Hw]. rewrite (bind_step _ _ _ Hw).
  destruct (new_wallet fuel c pw w fs wallet g k1 k2 Hk1 Hk2 He1 He2 Hs1 Hs2 Hw)
    as (Hreach & e1 & e2 & Hkeys & Hu1 & Hu2 & Hd & _ & _ & Ha1 & Ha2 & Hi & Hf & _).
  destruct (makes_blocks c (clock w) wallet k1) as (gen & rec & Hgen & Hrec);
    [unfold Wallet.getLatestKey; by rewrite (new_top _ _ _ Hkeys Hu1 Hu2)|].
  rewrite (total_step _ _ _ Hgen), (total_step _ _ _ Hrec).
  destruct (writes_blocks c gen rec fs Hdir Hwrite) as [f Hb]. rewrite (bind_step _ _ _ Hb).
  destruct (save_opens (stack3 w) wallet (BinData.contents pw) g Hreach Hs3) as (text & g' & w' & Ht & Hne & _);
    [rewrite Hkeys; by repeat constructor|done..|].
  unfold write_wallet. rewrite (total_step _ _ _ Ht), bool_decide_eq_false_2 by done.
  pose proof (Hwrite f (walletFile c) text) as Hok. destruct (FileTools.write f _ text) as [ok fs']. simpl in Hok. subst ok.
  by exists fs'.
Qed.

End Proofs.
End GenesisProofs.

(** ** A run *)
Module GenesisExamples.
Import Exit GenesisTool GenesisProofs ToyPbe.
#[local] Existing Instances Curve25519.ToyKeys Curve25519.ToyKeys_laws ConstRng ConstRng_laws.
#[local] Existing Instances Base58.BigNumZ Base58.BigNumZ_laws ToyDigests.
#[local] Existing Instances ToyWallet.Toy8 ToyWallet.Toy8_laws ToyWallet.Toy_bytes ToyWallet.ToyJson ToyWallet.ToyJson_laws.
#[local] Existing Instances DbIntegrator.DerGenesis DbIntegrator.DerContent LoadFromFs.ByteDer.

(** A disk is what was written to it; there is no wallet, and every path is a directory. *)
#[local] Instance Written : Files := {|
  files := list (cstr * bytes); f_home _ := None; f_open_read _ _ := None;
  f_write d p c := Some (zlen c, (p, c) :: d); f_remove d _ := (false, d); f_list _ _ := None;
  f_exists _ _ := false; f_is_file _ _ := false; f_is_dir _ _ := true; f_mkdir d _ := (false, d); f_chmod d _ := (false, d) |}.

Definition given : world := World (Some true) (Some true) 1000 1001 (1700000000 * 10 ^ 9)
  (replicate 16 0, replicate 8 0) (replicate 16 0, replicate 8 0) (replicate 16 0, replicate 8 0) tt.
Definition words (password greed : cstr) : list cstr := [$"genesis"; $"-p"; password; $"-g"; greed].
Definition asked : config := Config 5 DEFAULT_WALLET [] [] DEFAULT_OUTPUT.
Definition blank : files := [].
Definition typed (password : cstr) : Args.t :=
  match configure 9 (words password $"5") blank with Some (inr (args, _)) => args | _ => Args.new end.

Lemma given_ok : WalletProofs.stack_ok (replicate 16 0, replicate 8 0).
Proof. by split. Qed.

Lemma toy_ed : Curve25519.is_ed true.
Proof. exact I. Qed.

Lemma small5 : greed asked < 2 ^ 63.
Proof. done. Qed.

Lemma past : 0 ≤ clock given < 2 ^ 63.
Proof. by split. Qed.

Lemma const_live : AlgAddress.rng_live 9.
Proof. intros []. exists 0%nat. split; [lia|]. by apply (bool_decide_unpack _). Qed.

Lemma typed_secret : configure 9 (words $"secret" $"5") blank = Some (inr (typed $"secret", asked)).
Proof. vm_cast_no_check (eq_refl (configure 9 (words $"secret" $"5") blank)). Qed.

Lemma typed_other : configure 9 (words $"other" $"5") blank = Some (inr (typed $"other", asked)).
Proof. vm_cast_no_check (eq_refl (configure 9 (words $"other" $"5") blank)). Qed.

Lemma typed_succeeds : ∃ fs', main 9 (words $"secret" $"5") [] given blank = Some (inr fs').
Proof.
  apply (genesis_succeeds 9 _ [] given blank (typed $"secret") asked (SafeData.of_string []) true true typed_secret);
    try first [apply given_ok|apply const_live|by vm_compute|by left].
  intros f p d. apply Z.eqb_refl.
Qed.

Lemma genesis_exit_codes_witness : main 9 (words $"secret" $"1") [] given blank = Some (inl (2, blank)) ∧ 1 ≤ 2 ≤ 11.
Proof.
  assert (H : main 9 (words $"secret" $"1") [] given blank = Some (inl (2, blank))) by (vm_compute; reflexivity).
  split; [exact H|apply (genesis_exit_codes 9 _ [] given blank blank 2 H)].
Defined.

Lemma genesis_starts_chain_witness :
  ∃ gen rec, LoadFromFs.chained 2 (blocks gen rec) ∧ Genesis.getGreed gen = Specie.mk 5 0.
Proof.
  destruct typed_succeeds as [fs' H].
  destruct (genesis_starts_chain 9 _ [] given blank fs' (typed $"secret") asked true true typed_secret
    eq_refl eq_refl eq_refl toy_ed toy_ed given_ok given_ok given_ok small5 past H) as (gen & rec & H').
  exists gen, rec. destruct H' as (f & wallet & e1 & e2 & text & pw & w' & Hc & _ & Hg & _). by split.
Defined.

Lemma genesis_password_lost_witness :
  main 9 (words $"other" $"5") [] given blank = main 9 (words $"secret" $"5") [] given blank.
Proof.
  destruct typed_succeeds as [fs' H].
  apply (genesis_password_lost 9 (words $"secret" $"5") (words $"other" $"5") [] [] given blank fs'
    (typed $"secret") (typed $"other") asked true true
    typed_secret eq_refl typed_other eq_refl eq_refl eq_refl eq_refl toy_ed toy_ed given_ok given_ok H).
Defined.
End GenesisExamples.
