(* ===== verification/Bootstrap.v ===== *)
(** * Starting a network: the genesis tool, then the services

    What [GenesisTool] leaves on a disk is what [LoadFromFs] and [P2pServiceParams] find there.
    The parts are those of their own files; what is new here is a disk that keeps what is
    written to it, and that the parts agree on paths, formats, names and keys. *)

From S2P Require Import Prelude BinData Base58 Ossl Text AlgAddress Strings BlockCore BlockTx BlockChain.
From S2P Require Import Db DbIntegrator Sql ImportTable BlockIntegrator LoadFromFs Restart P2p Args AnyMap KeyWrap Wallet Api Service Params GenesisTool.

(** ** A disk that keeps what is written to it

    [located p dir n]: the path [p] is that of the file [n] of the directory [dir].  A file of
    a directory is there, listed and read as it was last written, and a write to another
    file changes neither, nor makes a directory; a directory that is made is there, empty unless it was before. *)
Class DiskLaws (F : Files) := {
  located : cstr → cstr → cstr → Prop;
  located_join dir n : n ≠ [] → chr "/" ∉ n → located (dir ++ $"/" ++ n) dir n;
  located_name p dir n m : located p dir n → located p dir m → n = m;
  written_read fs p d fs' : f_write fs p d = Some (zlen d, fs') → f_open_read fs' p = Some (zlen d, d);
  written_other fs p d r fs' q dir n :
    f_write fs p d = Some (r, fs') → located q dir n → ¬ located p dir n → f_open_read fs' q = f_open_read fs q;
  written_home fs p d r fs' : f_write fs p d = Some (r, fs') → f_home fs' = f_home fs;
  written_list fs p d fs' dir l :
    f_write fs p d = Some (zlen d, fs') → f_list fs dir = Some l →
    ∃ l', f_list fs' dir = Some l' ∧ ∀ n, n ∈ l' ↔ n ∈ l ∨ located p dir n;
  written_absent fs p d r fs' dir : f_write fs p d = Some (r, fs') → f_list fs dir = None → f_list fs' dir = None;
  made_home fs p b fs' : f_mkdir fs p = (b, fs') → f_home fs' = f_home fs;
  made_list fs p fs' : f_mkdir fs p = (true, fs') → f_list fs' p = Some (default [] (f_list fs p));
  mode_home fs p b fs' : f_chmod fs p = (b, fs') → f_home fs' = f_home fs;
  mode_list fs p b fs' q : f_chmod fs p = (b, fs') → f_list fs' q = f_list fs q;
}.

Module Bootstrap.
Import Exit GenesisTool GenesisProofs.

Section Disk.
Context {F : Files} {DF : DiskLaws F}.

Lemma tool_write fs p d fs' : FileTools.write fs p d = (true, fs') → f_write fs (FileTools.expandTilde fs p) d = Some (zlen d, fs').
Proof.
  unfold FileTools.write. destruct (f_write _ _ _) as [[n f]|]; [|done]. destruct (Z.eqb_spec n (zlen d)) as [->|]; [|done].
  by intros [= <-].
Qed.

(** A path that does not start with a tilde. *)
Definition plain (p : cstr) : Prop := head p ≠ Some (chr "~").

Lemma expand_plain fs p : plain p → FileTools.expandTilde fs p = p.
Proof. unfold plain, FileTools.expandTilde. destruct p as [|x p]; [done|]. simpl. intros Hx. by destruct (Z.eqb_spec x (chr "~")) as [->|]. Qed.

Lemma expand_home fs fs' p : f_home fs' = f_home fs → FileTools.expandTilde fs' p = FileTools.expandTilde fs p.
Proof. unfold FileTools.expandTilde. by intros ->. Qed.

(** A directory holds just these files. *)
Definition holds (fs : files) (dir : cstr) (ns : list cstr) : Prop :=
  ∃ l, f_list fs dir = Some l ∧ ∀ n, n ∈ l ↔ n ∈ ns.

Lemma holds_write fs p d fs' dir ns n :
  holds fs dir ns → f_write fs p d = Some (zlen d, fs') → located p dir n → holds fs' dir (n :: ns).
Proof.
  intros (l & Hl & Hns) Hw Hn. destruct (written_list _ _ _ _ _ _ Hw Hl) as (l' & Hl' & Hin). exists l'. split; [done|].
  intros m. rewrite elem_of_cons, <- Hns, Hin. split; [intros [Hm|Hm]; [by right|left; by eapply located_name]|intros [->|Hm]; auto].
Qed.

Lemma holds_elsewhere fs p d fs' dir ns :
  holds fs dir ns → f_write fs p d = Some (zlen d, fs') → (∀ n, ¬ located p dir n) → holds fs' dir ns.
Proof.
  intros (l & Hl & Hns) Hw Hn. destruct (written_list _ _ _ _ _ _ Hw Hl) as (l' & Hl' & Hin). exists l'. split; [done|].
  intros m. rewrite <- Hns, Hin. split; [intros [|Hm]; [done|by destruct (Hn m)]|by left].
Qed.

(** A block's file of a directory. *)
Lemma located_block dir i : 0 ≤ i < 2 → located (dir ++ $"/" ++ BlockFilename.get i 0 0) dir (BlockFilename.get i 0 0).
Proof.
  intros Hi. apply located_join; assert (i = 0 ∨ i = 1) as [-> | ->] by lia; [done|done|by apply (bool_decide_unpack _)..].
Qed.

Lemma block_names_differ : BlockFilename.get 1 0 0 ≠ BlockFilename.get 0 0 0.
Proof. by apply (bool_decide_unpack _). Qed.

(** The directory when the tool starts to write: what was there, or new. *)
Definition fresh_dir (fs : files) (dir : cstr) : Prop := if f_is_dir fs dir then f_list fs dir = Some [] else f_list fs dir = None.

(** The home directory is the one the run started with. *)
Lemma blocks_home {Db : Der Block.asn1} c gen rec fs f :
  write_blocks c gen rec fs = Some (inr f) →
  (∃ f0 f1 d, f_home f0 = f_home fs ∧ Block.encode (blocks gen rec 0) = Some d ∧
     f_write f0 (FileTools.expandTilde f0 (block_path c 0)) d = Some (zlen d, f1)) ∧
  ∀ dir, f_list fs dir = None → (∀ b f1, f_mkdir fs (FileTools.expandTilde fs (outputDir c)) = (b, f1) → f_list f1 dir = None) →
    f_list f dir = None.
Proof.
  intros H. unfold write_blocks in H. apply bind_inr in H as ([ok f0] & Hf0 & H).
  assert (ok = true) as -> by (by destruct ok). cbn [negb] in H.
  apply bind_inr in H as (d0 & E0%total_inr & H). destruct (FileTools.write f0 _ d0) as [[] f1] eqn:W0; [|done].
  cbn [negb] in H. apply bind_inr in H as (d1 & E1%total_inr & H).
  destruct (FileTools.write f1 _ d1) as [[] f2] eqn:W1; [|done]. injection H as <-. apply tool_write in W0, W1.
  assert (Hs : f_home f0 = f_home fs ∧ (f0 = fs ∨ ∃ b f', f_mkdir fs (FileTools.expandTilde fs (outputDir c)) = (b, f') ∧
    ∀ dir, f_list f0 dir = f_list f' dir)).
  { destruct (FileTools.isDir fs _); [injection Hf0 as <-; by split; [|left]|]. injection Hf0 as Hf0. unfold FileTools.createDir in Hf0.
    destruct (f_mkdir fs _) as [[] f'] eqn:Em; [|done]. split; [by rewrite (mode_home _ _ _ _ Hf0), (made_home _ _ _ _ Em)|].
    right. exists true, f'. split; [done|]. intros dir. by rewrite (mode_list _ _ _ _ _ Hf0). }
  destruct Hs as [Hh Hs]. split; [by exists f0, f1, d0|]. intros dir Hn Hm.
  eapply written_absent; [exact W1|]. eapply written_absent; [exact W0|].
  destruct Hs as [->|(b & f' & Em & ->)]; [done|by eapply Hm].
Qed.

(** What the tool leaves of its blocks in a directory that was empty. *)
Lemma blocks_on_disk {Db : Der Block.asn1} c gen rec fs f :
  plain (outputDir c) → fresh_dir fs (outputDir c) → write_blocks c gen rec fs = Some (inr f) →
  f_home f = f_home fs ∧ holds f (outputDir c) [BlockFilename.get 1 0 0; BlockFilename.get 0 0 0] ∧
  ∀ i, 0 ≤ i < 2 → ∃ d, Block.encode (blocks gen rec i) = Some d ∧ f_open_read f (block_path c i) = Some (zlen d, d).
Proof.
  intros Hp Hd H. unfold write_blocks in H. apply bind_inr in H as ([ok f0] & Hf0 & H).
  assert (ok = true) as -> by (by destruct ok). cbn [negb] in H.
  apply bind_inr in H as (d0 & E0%total_inr & H). destruct (FileTools.write f0 _ d0) as [[] f1] eqn:W0; [|done].
  cbn [negb] in H. apply bind_inr in H as (d1 & E1%total_inr & H).
  destruct (FileTools.write f1 _ d1) as [[] f2] eqn:W1; [|done]. injection H as <-.
  assert (Hbp : ∀ i, plain (block_path c i)) by (intros i; unfold plain, block_path in *; by destruct (outputDir c)).
  apply tool_write in W0, W1. rewrite expand_plain in W0, W1 by apply Hbp.
  assert (Hh0 : f_home f0 = f_home fs ∧ holds f0 (outputDir c) []).
  { unfold FileTools.isDir in Hf0. unfold fresh_dir in Hd. destruct (f_is_dir fs _); [injection Hf0 as <-; split; [done|by exists []]|].
    injection Hf0 as Hf0. unfold FileTools.createDir in Hf0. rewrite expand_plain in Hf0 by done.
    destruct (f_mkdir fs _) as [[] f'] eqn:Em; [|done]. cbn [negb] in Hf0.
    split; [by rewrite (mode_home _ _ _ _ Hf0), (made_home _ _ _ _ Em)|].
    exists []. by rewrite (mode_list _ _ _ _ _ Hf0), (made_list _ _ _ Em), Hd. }
  destruct Hh0 as [Hh0 Hl0]. pose proof (located_block (outputDir c) 0 ltac:(lia)) as L0. pose proof (located_block (outputDir c) 1 ltac:(lia)) as L1.
  split; [by rewrite (written_home _ _ _ _ _ W1), (written_home _ _ _ _ _ W0)|]. split.
  - eapply holds_write; [eapply holds_write; [exact Hl0|exact W0|exact L0]|exact W1|exact L1].
  - intros i Hi. assert (i = 0 ∨ i = 1) as [-> | ->] by lia; [exists d0|exists d1; split; [done|by eapply written_read]].
    split; [done|]. unfold block_path. erewrite (written_other f1 _ _ _ _ _ _ _ W1 L0); [by eapply written_read|].
    intros H. by apply block_names_differ, (located_name _ _ _ _ L1).
Qed.

End Disk.
(** Public keys are written in bytes. *)
Class PublicBytes (K : EvpKeys) : Prop := { public_key_bytes k : bytes_ok (i2d_PUBKEY k) }.

Lemma toPublic_bytes {K : EvpKeys} {PBy : PublicBytes K} k : bytes_ok (Curve25519.toPublic k).
Proof.
  unfold Curve25519.toPublic. rewrite Encode.encode_contents. destruct (_ || _); [constructor|].
  apply Forall_take, Forall_drop, public_key_bytes.
Qed.

Section Network.
Context {F : Files} {DF : DiskLaws F} {PB : Pbe} {DC : Der PbkdfKey.content} {DK : Der PbkdfKey.key} {PL : PbeLaws PB}.
Context {A : Asn1Lib} {AL : Asn1Laws A} {R : Rng} {RL : RngLaws R} {D : Digests} {DL : DigestLaws D}.
Context {K : EvpKeys} {KL : Curve25519.EvpKeyLaws K} {B : BigNum} {BL : BigNumLaws B}.
Context {P8 : Pkcs8Key.Pkcs8 K} {P8L : Pkcs8Key.Pkcs8Laws K P8} {WB : WalletBytes K} {J : Json} {JL : JsonLaws J}.
Context {Dg : Der Genesis.asn1} {Dc : Der Reconciliation.content} {Dh : Der BlockHash.asn1}.
Context {Db : Der Block.asn1} {DbL : DerLaws Block.asn1 Block.valid Block.eqv} {Oz : Ozo}.

(** An encoding has at least its tag and its length. *)
Hypothesis encoded : ∀ a : Block.asn1, Block.valid a → i2d a ≠ [].

Lemma encode_nonempty b d : Block.ok b → Block.encode b = Some d → d ≠ [].
Proof.
  intros Hok He. unfold Block.encode in He. destruct (Block.toAsn1 b Block.asn1_new) as [a|] eqn:Ea; [|done].
  simpl in He. rewrite Encode.encode_contents in He. injection He as <-. apply encoded. by eapply Block.block_toAsn1_valid.
Qed.

(** The blocks of the tool are read as they were: the only vote has nowhere to move. *)
Lemma blocks_decode wallet gen rec i d y :
  make_reconciliation gen wallet = Some rec → 0 ≤ i < 2 → LoadFromFs.chained 2 (blocks gen rec) → Block.encode (blocks gen rec i) = Some d →
  Decode.decode_block d y = Some (true, blocks gen rec i).
Proof.
  intros Hrec Hi Hch He. destruct (Hch i Hi) as [Hok _].
  destruct (Decode.decode_encode_block (blocks gen rec i) y Hok) as (d' & z & He' & Hz & Hs).
  rewrite He in He'. injection He' as <-. rewrite Hz. do 2 f_equal. destruct z as [ty g r n].
  destruct Hs as (Ht & Hg & Hr & Hn). simpl in *. assert (i = 0 ∨ i = 1) as [-> | ->] by lia; simpl in *; subst ty g.
  - inversion Hr; inversion Hn; subst. done.
  - inversion Hn; subst. inversion Hr as [? r' [Hset Hv] E1 E2|]; subst.
    unfold make_reconciliation in Hrec. apply bind_Some in Hrec as (k & _ & (k' & _ & (ct & _ & [= <-])%bind_Some)%bind_Some).
    simpl in Hv. apply Permutation_singleton_l in Hv. destruct r' as [? ? ? ? ? ?]; simpl in *. unfold Reconciliation.setVotes in Hset.
    simpl in Hset. by simplify_eq.
Qed.

(** A directory with just the two files, whatever its order. *)
Lemma two_names (l : list cstr) :
  (∀ n, n ∈ l ↔ n ∈ [BlockFilename.get 1 0 0; BlockFilename.get 0 0 0]) →
  ∃ li, l = (λ i, BlockFilename.get i 0 0) <$> li ∧ Forall (λ i, 0 ≤ i < 2) li ∧ ∀ i, 0 ≤ i < 2 → i ∈ li.
Proof.
  intros Hl. assert (Hli : ∃ li, l = (λ i, BlockFilename.get i 0 0) <$> li ∧ Forall (λ i, 0 ≤ i < 2) li).
  { assert (Hf : Forall (λ n, ∃ i, n = BlockFilename.get i 0 0 ∧ 0 ≤ i < 2) l).
    { apply Forall_forall. intros n Hn%Hl. apply elem_of_cons in Hn as [->|Hn%list_elem_of_singleton]; [by exists 1|subst n; by exists 0]. }
    clear Hl. induction Hf as [|n l (i & -> & Hi) _ (li & -> & Hli)]; [by exists []|]. exists (i :: li). split; [done|by constructor]. }
  destruct Hli as (li & -> & Hli). exists li. split_and!; [done..|]. intros i Hi.
  assert (Hin : BlockFilename.get i 0 0 ∈ (λ i, BlockFilename.get i 0 0) <$> li).
  { apply Hl. assert (i = 0 ∨ i = 1) as [-> | ->] by lia; [right|]; by left. }
  apply list_elem_of_fmap in Hin as (j & He & Hj). rewrite Forall_forall in Hli. specialize (Hli j Hj).
  assert (j = i) as <-; [|done]. assert (j = 0 ∨ j = 1) as [-> | ->] by lia; assert (i = 0 ∨ i = 1) as [-> | ->] by lia; try done.
Qed.

(** A connected integrator that has imported nothing. *)
Definition nothing_in (st : DbIntegrator.t) (wd : Db.world) : Prop :=
  DbIntegrator.connected st = true ∧ DbIntegrator.ready st wd ∧ DbIntegrator.currentRecon st = 0 ∧ DbIntegrator.lastImports st = ∅.

(** What the tool wrote of a block. *)
Definition block_data (gen : Genesis.t) (rec : Reconciliation.t) (i : Z) : bytes :=
  default [] (Block.encode (blocks gen rec i)).

(** A genesis block of the tool is made of bytes. *)
Lemma made_genesis_bytes c clk wallet gen :
  PublicBytes K → make_genesis c clk wallet = Some gen → Sql.genesis_bytes gen.
Proof.
  intros PBy H. unfold make_genesis in H. apply bind_Some in H as (pk & Hpk & [= <-]).
  split_and!; cbn; [apply AlgAddress.unprintable_bytes| |apply AlgAddress.unprintable_bytes|done].
  unfold Wallet.getLatestPublicKey in Hpk. apply bind_Some in Hpk as ([k|] & _ & [= <-]); [|constructor].
  apply toPublic_bytes.
Qed.

(** What a successful run leaves for the curator: a chain of two blocks in the directory,
    and nothing else there. *)
Lemma tool_leaves (fuel : nat) (argv : list cstr) (input : bytes) (w : world) (fs fs' : files) (args : Args.t) (c : config) :
  configure fuel argv fs = Some (inr (args, c)) → FileTools.exists_ fs (walletFile c) = false →
  greed c < 2 ^ 63 → 0 ≤ clock w < 2 ^ 63 → plain (outputDir c) → fresh_dir fs (outputDir c) →
  (∀ n, ¬ located (FileTools.expandTilde fs (walletFile c)) (outputDir c) n) →
  main fuel argv input w fs = Some (inr fs') →
  ∃ gen rec li, Genesis.getGreed gen = Specie.mk (greed c) 0 ∧ Reconciliation.getChainId rec = 1 ∧
    LoadFromFs.chained 2 (blocks gen rec) ∧ (PublicBytes K → Sql.genesis_bytes gen) ∧
    f_list fs' (outputDir c) = Some ((λ i, BlockFilename.get i 0 0) <$> li) ∧ (∀ i, 0 ≤ i < 2 → i ∈ li) ∧
    (∀ i, 0 ≤ i < 2 → Decode.decode_block (block_data gen rec i) Block.dflt = Some (true, blocks gen rec i)) ∧
    Forall (λ i, 0 ≤ i < 2 ∧ block_data gen rec i ≠ [] ∧
      f_open_read fs' (FileTools.expandTilde fs' (BlockStorage.block_path (BlockStorage.mk (outputDir c)) i 0 0)) =
        Some (zlen (block_data gen rec i), block_data gen rec i)) li.
Proof.
  intros Hconf Hnew Hgreed Hclock Hplain Hempty Hwallet Hrun.
  assert (Hg2 : 2 ≤ greed c < 2 ^ 63) by (split; [by eapply configure_inr|done]).
  destruct (run_parts _ _ _ _ _ _ _ _ Hconf Hnew Hrun) as (pw & wallet & g & gen & rec & f & text & _ & _ & Hgen & Hrec & Hf & _ & _ & Hwr).
  pose proof (made_chain c (clock w) wallet gen rec Hg2 Hclock Hgen Hrec) as Hch.
  destruct (made_genesis_ok c (clock w) wallet gen Hg2 Hclock Hgen) as [_ Hgr].
  destruct (made_reconciliation_ok gen wallet rec Hrec) as (_ & Hid & _).
  destruct (blocks_on_disk c gen rec fs f Hplain Hempty Hf) as (Hh & Hl & Hrd).
  apply tool_write in Hwr. rewrite (expand_home fs f) in Hwr by done.
  destruct (holds_elsewhere _ _ _ _ _ _ Hl Hwr Hwallet) as (l & Hl' & Hin). apply two_names in Hin as (li & -> & Hli & Hall).
  exists gen, rec, li. split_and!; [done..|intros PBy; by eapply made_genesis_bytes|done|done| |].
  - intros i Hi. destruct (Hrd i Hi) as (d & Hd & _). unfold block_data. rewrite Hd. by eapply blocks_decode.
  - eapply Forall_impl; [exact Hli|]. intros i Hi. destruct (Hrd i Hi) as (d & Hd & Hread). unfold block_data. rewrite Hd. simpl.
    split; [exact Hi|]. split; [exact (encode_nonempty _ _ (proj1 (Hch i Hi)) Hd)|]. rewrite expand_plain.
    + unfold BlockStorage.block_path. cbn [BlockStorage.dir]. unfold block_path in Hread.
      rewrite <- Hread. eapply written_other; [exact Hwr|by apply located_block|apply Hwallet].
    + unfold plain, BlockStorage.block_path in *. cbn [BlockStorage.dir]. by destruct (outputDir c).
Qed.

(** C1: What the genesis tool writes, the curator integrates.  After a run that made a new
    wallet, was asked for fewer than 2^63 coins with the clock within 63 bits, and
    wrote to a directory that was empty or not there, a curator that is pointed to that directory, on a database that answers every statement and is empty,
    loads both blocks in whatever order the directory lists them: its chain is then the genesis
    block and the first reconciliation, and nothing is left waiting.  The path must not start
    with a tilde, and the wallet must not be saved among the blocks.  The bound on the coins is
    needed: the tool accepts more, and then the block is read back with another amount.  The
    text of the creation time, which is made for the log on the way, tells a wrong date but
    does not stop the integration, as the program is built. *)
Theorem genesis_feeds_curator (fuel : nat) (argv : list cstr) (input : bytes) (w : world) (fs fs' : files)
    (args : Args.t) (c : config) (s : CuratorServiceParams.t) (fuel1 : nat) (st : DbIntegrator.t) (wd : Db.world)
    (Hconf : configure fuel argv fs = Some (inr (args, c))) (Hnew : FileTools.exists_ fs (walletFile c) = false)
    (Hgreed : greed c < 2 ^ 63) (Hclock : 0 ≤ clock w < 2 ^ 63)
    (Hplain : plain (outputDir c)) (Hempty : fresh_dir fs (outputDir c))
    (Hwallet : ∀ n, ¬ located (FileTools.expandTilde fs (walletFile c)) (outputDir c) n)
    (Hdir : CuratorServiceParams.fsStorageDir s = outputDir c) (Hup : DbIntegrator.db_up)
    (Hat : nothing_in st wd)
    (Hrun : main fuel argv input w fs = Some (inr fs')) :
  ∃ gen rec s' storage from,
    Genesis.getGreed gen = Specie.mk (greed c) 0 ∧ Reconciliation.getChainId rec = 1 ∧
    CuratorServiceParams.init false s = Some (true, s') ∧ last (CuratorServiceParams.spawned s') = Some (storage, from) ∧
    ∃ enough, ∀ fuel', (enough < fuel')%nat →
    ∃ bi, LoadFromFs.init (I := DbIntegratorI fuel1) fuel' fs' storage from
            (BlockIntegrator.new (I := DbIntegratorI fuel1) (st, wd)) = Some bi ∧
      LoadFromFs.chain_at (blocks gen rec) 2 (BlockIntegrator.dbIntegrator bi) ∧
      BlockIntegrator.flat (BlockIntegrator.pendingRecons bi) = [].
Proof.
  destruct (tool_leaves fuel argv input w fs fs' args c Hconf Hnew Hgreed Hclock Hplain Hempty Hwallet Hrun)
    as (gen & rec & li & Hgr & Hid & Hch & _ & Hl & Hall & Hdec & Hli).
  eexists gen, rec, _, _, _. split_and!; [done|done|reflexivity|simpl; by rewrite last_snoc|].
  exists (S (length li)). intros fuel' Hfuel. unfold BlockStorage.setDirectory. rewrite Hdir.
  destruct (LoadFromFs.load_chain 2 (blocks gen rec) fuel1 fuel' fs' (BlockStorage.mk (outputDir c)) (block_data gen rec) li st wd)
    as (n & bi & Hinit & Hc & _ & _ & _ & Hdone); try done.
  destruct (Hdone Hall) as [-> Hf0]. by exists bi.
Qed.

(** C5: The curator of a new network can be started once.  After a run of the genesis tool that
    made a new wallet, was asked for fewer than 2^63 coins with the clock within 63 bits, and wrote
    to a directory that was empty or not there (its path without a tilde, the wallet not saved
    in it), a curator pointed to that directory, on a Postgres server that is up and answers every
    statement, whose table is empty and whose commits succeed, loads both blocks, and the table
    then holds one row, number 1 with what the server keeps of the first reconciliation's
    hash; but a curator that is started after that, on the same directory and on whatever that
    server kept, never finishes loading, whatever the fuel. *)
Theorem curator_starts_once {T : ImportTable Oz} {Hb : DerBytes BlockHash.asn1} {PBy : PublicBytes K}
    (fuel : nat) (argv : list cstr) (input : bytes) (w : world) (fs fs' : files)
    (args : Args.t) (c : config) (s : CuratorServiceParams.t) (fuel1 : nat) (wd : Db.world)
    (Hconf : configure fuel argv fs = Some (inr (args, c))) (Hnew : FileTools.exists_ fs (walletFile c) = false)
    (Hgreed : greed c < 2 ^ 63) (Hclock : 0 ≤ clock w < 2 ^ 63)
    (Hplain : plain (outputDir c)) (Hempty : fresh_dir fs (outputDir c))
    (Hwallet : ∀ n, ¬ located (FileTools.expandTilde fs (walletFile c)) (outputDir c) n)
    (Hdir : CuratorServiceParams.fsStorageDir s = outputDir c) (Hup : DbIntegrator.db_up)
    (Hcommits : ∀ s, fst (ozo_commit s) = true) (Htable : committed (Db.srv wd) = [])
    (Hrun : main fuel argv input w fs = Some (inr fs')) :
  ∃ gen rec s' storage from,
    Genesis.getGreed gen = Specie.mk (greed c) 0 ∧ Reconciliation.getChainId rec = 1 ∧
    CuratorServiceParams.init false s = Some (true, s') ∧ last (CuratorServiceParams.spawned s') = Some (storage, from) ∧
    ∃ enough, ∀ fuel', (enough < fuel')%nat →
    ∃ bi, LoadFromFs.init (I := DbIntegratorI fuel1) fuel' fs' storage from
            (BlockIntegrator.new (I := DbIntegratorI fuel1) (DbIntegrator.new true, wd)) = Some bi ∧
      LoadFromFs.chain_at (blocks gen rec) 2 (BlockIntegrator.dbIntegrator bi) ∧
      committed (Db.srv (BlockIntegrator.dbIntegrator bi).2) =
        [Imports.stored_row 1 (DbIntegrator.recon_hash rec)] ∧
      ∀ w2 fuel2 fuel3, committed (Db.srv w2) = committed (Db.srv (BlockIntegrator.dbIntegrator bi).2) →
        LoadFromFs.init (I := DbIntegratorI fuel2) fuel3 fs' storage from
          (BlockIntegrator.new (I := DbIntegratorI fuel2) (DbIntegrator.new true, w2)) = None.
Proof.
  destruct (tool_leaves fuel argv input w fs fs' args c Hconf Hnew Hgreed Hclock Hplain Hempty Hwallet Hrun)
    as (gen & rec & li & Hgr & Hid & Hch & Hgby & Hl & Hall & Hdec & Hli).
  eexists gen, rec, _, _, _. split_and!; [done|done|reflexivity|simpl; by rewrite last_snoc|].
  exists (S (length li)). intros fuel' Hfuel. unfold BlockStorage.setDirectory. rewrite Hdir.
  destruct (Restart.load_twice Hcommits 2 (blocks gen rec) fuel1 fuel' fs' (BlockStorage.mk (outputDir c))
    (block_data gen rec) li wd) as (n & bi & Hinit & Hc & _ & _ & Hn & Hrows & Htwice); try done.
  { intros i Hi g Hg. assert (i = 0 ∨ i = 1) as [-> | ->] by lia; [|done]. injection Hg as <-. by apply Hgby. }
  rewrite (Hn Hall) in *. exists bi. split_and!; [done|done|exact Hrows|].
  intros w2 fuel2 fuel3 H2. apply Htwice; [by apply Hall|]. by rewrite H2.
Qed.

(** The saved wallet's newest validator entry is the one that was made, opened with the
    password it was saved under. *)
Lemma saved_top w w' e1 e2 k1 :
  Wallet.keys w = [e2; e1] → Wallet.usage e1 = Wallet.Validator → Wallet.usage e2 = Wallet.Specie →
  Wallet.decrypt (Wallet.format e1) (Wallet.privKey e1) (Wallet.password w) = Some (Some k1) →
  Forall2 (kept_entry w w') (Wallet.keys w) (Wallet.keys w') →
  Wallet.getLatestKey Wallet.Validator w' = Some (Some k1) ∧ Wallet.getLatestAddress Wallet.Validator w' = Wallet.address e1.
Proof.
  intros -> H1 H2 Hd Hk. apply Forall2_cons_inv_l in Hk as (e2' & l & (_ & Hu2 & _) & Hk & E).
  apply Forall2_cons_inv_l in Hk as (e1' & l' & (Ha & Hu1 & Hk1) & ->%Forall2_nil_inv_l & ->).
  unfold Wallet.getLatestKey, Wallet.getLatestAddress.
  rewrite (new_top _ e1' e2' E) by congruence. by rewrite (Hk1 _ Hd), Ha.
Qed.

(** C9: The wallet the genesis tool saves makes the node that the new chain names.  Given the
    wallet's file and the password that was typed, an unpaused node starts; its stake key
    is the validator key of the genesis block, its address the one the block gives the stake
    to, and its ports are protected by the private part of that key. *)
Theorem genesis_starts_node (fuel : nat) (argv : list cstr) (input : bytes) (w : world) (fs fs' : files)
    (args : Args.t) (c : config) (k1 k2 : EVP_PKEY) (pw : BinData.t) (s : P2pServiceParams.t) (ctx : ServiceScene.t)
    (Hconf : configure fuel argv fs = Some (inr (args, c))) (Hnew : FileTools.exists_ fs (walletFile c) = false)
    (Hk1 : key1 w = Some k1) (Hk2 : key2 w = Some k2) (He1 : Curve25519.is_ed k1) (He2 : Curve25519.is_ed k2)
    (Hs1 : WalletProofs.stack_ok (stack1 w)) (Hs2 : WalletProofs.stack_ok (stack2 w)) (Hs3 : WalletProofs.stack_ok (stack3 w))
    (Hpw : get_password args [] input fs = Some (inr pw)) (Hne : BinData.contents pw ≠ [])
    (Hrun : main fuel argv input w fs = Some (inr fs'))
    (Hdisk : disk (P2pServiceParams.env s) = fs') (Hfile : P2pServiceParams.walletFile s = walletFile c)
    (Hpass : BinData.contents (P2pServiceParams.walletPassword s) = BinData.contents pw)
    (Hnewest : P2pServiceParams.stakeAddress s = []) :
  ∃ gen rec f s', blocks_written c gen rec f ∧
    P2pServiceParams.preInit false s ctx = Some (true, s', ctx) ∧
    StakeKey.getKey (P2pServiceParams.stakeKey s') = Some k1 ∧
    Genesis.getValidatorKey gen = PublicKey.of_bin (Curve25519.toPublic k1) ∧
    BlockAddress.get (Genesis.getStakeAddress gen) = AlgAddress.unprintable (StakeKey.getAddress (P2pServiceParams.stakeKey s')) ∧
    P2pServiceParams.getServerKey s' = BinData.contents (Curve25519.toPrivate k1).
Proof.
  destruct (run_parts _ _ _ _ _ _ _ _ Hconf Hnew Hrun)
    as (pw' & wallet & g & gen & rec & f & text & Hget & Hw & Hgen & Hrec & _ & Hb & [g' Ht] & Hwr).
  rewrite Hpw in Hget. injection Hget as <-.
  destruct (new_wallet fuel c pw w fs wallet g k1 k2 Hk1 Hk2 He1 He2 Hs1 Hs2 Hw)
    as (Hreach & e1 & e2 & Hkeys & Hu1 & Hu2 & Hd & Hv1 & _ & Ha1 & Ha2 & Hi & Hfm & _).
  destruct (made_signature c (clock w) wallet gen rec k1 e1 (new_top _ _ _ Hkeys Hu1 Hu2) He1 Hd Hgen Hrec) as (Hpk & Hst & Hadr & _).
  destruct (save_opens (stack3 w) wallet (BinData.contents pw) g Hreach Hs3) as (text' & g2 & w' & Hsv & _ & Hopen & Hkept);
    [rewrite Hkeys; by repeat constructor|done..|]. rewrite Ht in Hsv. injection Hsv as <- <-.
  rewrite bool_decide_eq_false_2 in Hopen by done.
  destruct (saved_top _ _ _ _ _ Hkeys Hu1 Hu2 Hd Hkept) as [Hlk Hla].
  apply tool_write in Hwr. pose proof (written_read _ _ _ _ Hwr) as Hread.
  rewrite <- (expand_home f fs') in Hread by by eapply written_home.
  assert (Hna : Wallet.address e1 ≠ []) by (intros E; specialize (Hv1 g); by rewrite E, P2pProofs.no_empty_address in Hv1).
  exists gen, rec, f. unfold P2pServiceParams.preInit.
  rewrite Hdisk, Hfile, (P2pProofs.read_string_whole _ _ _ Hread), Hpass. cbn [negb]. rewrite Hopen. cbn [mbind option_bind negb].
  unfold P2pServiceParams.find_stake. rewrite Hnewest, bool_decide_eq_true_2, Hlk, Hla by done. cbn [negb mbind option_bind].
  rewrite bool_decide_eq_false_2 by done. eexists. split_and!; [done..| |].
  - cbn. by rewrite Hst.
  - unfold P2pServiceParams.getServerKey, StakeKey.getPriv, StakeKey.setKey, SafeData.move_assign, BinData.move_assign. by cbn.
Qed.

(** C36: With the default paths the curator does not find what the genesis tool wrote.  The
    tool writes to the home directory; the curator lists a directory whose name starts with a
    tilde, which no shell has expanded.  Unless there is something with that name, or
    making the one in the home directory makes it, the start of the curator reads nothing,
    integrates nothing and reports success. *)
Theorem default_blocks_not_found (fuel fuel1 fuel' : nat) (argv : list cstr) (input : bytes) (w : world) (fs fs' : files)
    (args : Args.t) (c : config) (home : cstr) (e : environment) (st : BlockIntegrator.t (I := DbIntegratorI fuel1))
    (Hconf : configure fuel argv fs = Some (inr (args, c))) (Hnew : FileTools.exists_ fs (walletFile c) = false)
    (Hdefault : outputDir c = DEFAULT_OUTPUT) (Hhome : f_home fs = Some home) (Hne : home ≠ [])
    (Hrun : main fuel argv input w fs = Some (inr fs'))
    (Hvars : vars e !! $"FLUFFYCOIN_RESOURCE_DIR" = None) (Htilde : f_list fs DEFAULT_OUTPUT = None)
    (Hmade : ∀ b f, f_mkdir fs (home ++ $"/.fluffycoin/blocks") = (b, f) → f_list f DEFAULT_OUTPUT = None)
    (Hnone : f_exists fs' DEFAULT_OUTPUT = false) :
  (∃ f0 f1 gen rec d, Block.encode (blocks gen rec 0) = Some d ∧
     f_write f0 (home ++ $"/.fluffycoin/blocks/" ++ BlockFilename.get 0 0 0) d = Some (zlen d, f1)) ∧
  ∃ s' storage from, CuratorServiceParams.init false (CuratorServiceParams.new e) = Some (true, s') ∧
    last (CuratorServiceParams.spawned s') = Some (storage, from) ∧
    LoadFromFs.init (I := DbIntegratorI fuel1) fuel' fs' storage from st = Some st.
Proof.
  split.
  - destruct (run_parts _ _ _ _ _ _ _ _ Hconf Hnew Hrun) as (pw & wallet & g & gen & rec & f & text & _ & _ & _ & _ & Hb & _).
    destruct (blocks_home _ _ _ _ _ Hb) as [(f0 & f1 & d & Hh & Hd & Hw) _]. exists f0, f1, gen, rec, d. split; [done|].
    rewrite <- Hw. f_equal. unfold block_path. rewrite Hdefault. unfold FileTools.expandTilde. cbn. rewrite Hh, Hhome.
    by destruct home.
  - assert (Hdisk : f_list fs' DEFAULT_OUTPUT = None).
    { destruct (run_parts _ _ _ _ _ _ _ _ Hconf Hnew Hrun) as (pw & wallet & g & gen & rec & f & text & _ & _ & _ & _ & Hb & _ & _ & Hw).
      apply tool_write in Hw. eapply written_absent; [exact Hw|]. apply (blocks_home _ _ _ _ _ Hb); [done|].
      rewrite Hdefault. unfold FileTools.expandTilde. cbn. rewrite Hhome. by destruct home. }
    eexists _, _, _. split_and!; [reflexivity|simpl; reflexivity|].
    unfold LoadFromFs.init, BlockStorage.getFiles, FileTools.listFiles, BlockStorage.setDirectory, CuratorServiceParams.new.
    rewrite Hvars. cbn [CuratorServiceParams.fsStorageDir BlockStorage.dir].
    change CuratorServiceParams.FS_BLOCKS with DEFAULT_OUTPUT. by rewrite Hdisk, Hnone.
Qed.

End Network.
End Bootstrap.

(** ** A small disk, and three runs *)
Module BootstrapExamples.
Import Exit GenesisTool GenesisProofs GenesisExamples Bootstrap ToyPbe.
#[local] Existing Instances Curve25519.ToyKeys Curve25519.ToyKeys_laws ConstRng ConstRng_laws.
#[local] Existing Instances Base58.BigNumZ Base58.BigNumZ_laws ToyDigests.
#[local] Existing Instances ToyWallet.Toy8 ToyWallet.Toy8_laws ToyWallet.Toy_bytes ToyWallet.ToyJson ToyWallet.ToyJson_laws.
#[local] Existing Instances DbIntegrator.DerGenesis DbIntegrator.DerContent DbIntegrator.DerHash DbIntegrator.UpDb.

(** The name of a path in a directory. *)
Definition name_in (dir p : cstr) : option cstr :=
  let n := drop (length dir + 1) p in
  if bool_decide (take (length dir + 1) p = dir ++ $"/") && negb (bool_decide (n = [])) && bool_decide (chr "/" ∉ n)
  then Some n else None.

Definition in_dir (p dir n : cstr) : Prop := p = dir ++ $"/" ++ n ∧ n ≠ [] ∧ chr "/" ∉ n.

Lemma name_in_spec dir p n : name_in dir p = Some n ↔ in_dir p dir n.
Proof.
  unfold name_in, in_dir. split.
  - destruct (_ && _) eqn:E; [|done]. intros [= <-]. apply andb_prop in E as [[E1 E2]%andb_prop E3].
    apply bool_decide_eq_true in E1, E3. apply negb_true_iff, bool_decide_eq_false in E2. split; [|done].
    rewrite app_assoc, <- E1. by rewrite take_drop.
  - intros (-> & Hn & Hs). rewrite app_assoc.
    rewrite take_app_length', drop_app_length' by (rewrite length_app; simpl; lia).
    rewrite (bool_decide_eq_true_2 (_ = _)), (bool_decide_eq_false_2 (n = [])), (bool_decide_eq_true_2 (_ ∉ _)) by done. done.
Qed.

Fixpoint content (p : cstr) (l : list (cstr * bytes)) : option bytes :=
  match l with [] => None | (q, c) :: l => if bool_decide (q = p) then Some c else content p l end.

(** Its directories, and what was written, newest first. *)
#[local] Instance Disk : Files := {|
  files := list cstr * list (cstr * bytes);
  f_home _ := Some $"/home/me";
  f_open_read d p := (λ c, (zlen c, c)) <$> content p d.2;
  f_write d p c := Some (zlen c, (d.1, (p, c) :: d.2));
  f_remove d _ := (false, d);
  f_list d dir :=
    if bool_decide (dir ∈ d.1) then Some (omap (name_in dir) (fst <$> d.2)) else None;
  f_exists d p := bool_decide (is_Some (content p d.2)) || bool_decide (p ∈ d.1);
  f_is_file d p := bool_decide (is_Some (content p d.2));
  f_is_dir d p := bool_decide (p ∈ d.1);
  f_mkdir d p :=
    (true, if bool_decide (p ∈ d.1) then d else (p :: d.1, filter (λ x, name_in p x.1 = None) d.2));
  f_chmod d _ := (true, d) |}.

#[local] Program Instance Disk_laws : DiskLaws Disk := {| located := in_dir |}.
Next Obligation. done. Qed.
Next Obligation. intros p dir n m (-> & _) (H & _). by apply app_inv_head, app_inv_head in H. Qed.
Next Obligation. intros [ds l] p d [ds' l'] [= <- <-]. simpl. by rewrite bool_decide_eq_true_2. Qed.
Next Obligation.
  intros [ds l] p d r [ds' l'] q dir n [= _ <- <-] Hq Hp. simpl. rewrite bool_decide_eq_false_2; [done|]. by intros ->.
Qed.
Next Obligation. done. Qed.
Next Obligation.
  intros [ds l] p d [ds' l'] dir ns [= <- <-]. cbn [f_list Disk fst snd]. rewrite fmap_cons. cbn [omap list_omap fst].
  case_bool_decide; [|done]. intros [= <-]. eexists. split; [done|]. intros n. rewrite <- name_in_spec.
  destruct (name_in dir p) as [m|]; [rewrite elem_of_cons|]; naive_solver.
Qed.
Next Obligation. intros [ds l] p d r [ds' l'] dir [= _ <- <-]. simpl. by case_bool_decide. Qed.
Next Obligation. by intros [ds l] p b [ds' l'] [= <- _]. Qed.
Next Obligation.
  intros [ds l] p fs' [= <-]. cbn [f_list Disk fst snd]. destruct (bool_decide (p ∈ ds)) eqn:E; cbn [fst snd].
  - by rewrite E.
  - rewrite bool_decide_eq_true_2 by by left. simpl. f_equal. clear E. induction l as [|[q c] l IH]; [done|].
    rewrite filter_cons. destruct (decide _) as [Hq|Hq]; [|done]. cbn [fst] in Hq. rewrite fmap_cons. cbn [omap list_omap fst]. by rewrite Hq.
Qed.
Next Obligation. by intros [ds l] p b [ds' l'] [= <- <- <-]. Qed.
Next Obligation. by intros [ds l] p b [ds' l'] q [= <- <- <-]. Qed.

(** A codec whose encodings are not empty. *)
#[local] Instance Framed : Der Block.asn1 := {|
  i2d a := 48 :: pos_bits (encode a);
  d2i b := match b with 48 :: b => decode (bits_pos b) | _ => None end |}.
#[local] Instance Framed_laws : DerLaws Block.asn1 Block.valid Block.eqv.
Proof.
  split. intros a _. exists a. split; [|apply Block.eqv_refl]. unfold d2i, i2d, Framed. by rewrite bits_pos_bits, decode_encode.
Qed.

(** A run that names its wallet and its directory, and one that names nothing; the password
    is typed twice. *)
Definition named : list cstr := [$"genesis"; $"-g"; $"5"; $"-w"; $"/wallet"; $"-o"; $"/blocks"].
Definition plain_run : list cstr := [$"genesis"].
Definition empty_disk : files := ([], []).
Definition typing : bytes := $"pw" ++ [10] ++ $"pw" ++ [10].
Definition parsed (argv : list cstr) : Args.t * config :=
  match configure 9 argv empty_disk with Some (inr r) => r | _ => (Args.new, Config 0 [] [] [] []) end.
Definition entered (argv : list cstr) : BinData.t :=
  match get_password (parsed argv).1 [] typing empty_disk with Some (inr p) => p | _ => BinData.new_secure false end.

Lemma named_parsed : configure 9 named empty_disk = Some (inr (parsed named)).
Proof. vm_cast_no_check (eq_refl (configure 9 named empty_disk)). Qed.
Lemma plain_parsed : configure 9 plain_run empty_disk = Some (inr (parsed plain_run)).
Proof. vm_cast_no_check (eq_refl (configure 9 plain_run empty_disk)). Qed.
Lemma named_entered : get_password (parsed named).1 [] typing empty_disk = Some (inr (entered named)).
Proof. vm_cast_no_check (eq_refl (get_password (parsed named).1 [] typing empty_disk)). Qed.
Lemma plain_entered : get_password (parsed plain_run).1 [] typing empty_disk = Some (inr (entered plain_run)).
Proof. vm_cast_no_check (eq_refl (get_password (parsed plain_run).1 [] typing empty_disk)). Qed.

Lemma run_done argv :
  configure 9 argv empty_disk = Some (inr (parsed argv)) →
  get_password (parsed argv).1 [] typing empty_disk = Some (inr (entered argv)) →
  ∃ fs', main 9 argv typing given empty_disk = Some (inr fs').
Proof.
  intros Hc Hp. apply (genesis_succeeds 9 argv typing given empty_disk (parsed argv).1 (parsed argv).2 (entered argv) true true).
  - by rewrite Hc, <- surjective_pairing.
  - done.
  - exact Hp.
  - apply const_live.
  - done.
  - done.
  - apply toy_ed.
  - apply toy_ed.
  - apply given_ok.
  - apply given_ok.
  - apply given_ok.
  - by right.
  - intros f p d. apply Z.eqb_refl.
Qed.

Lemma empty_up : nothing_in (DbIntegrator.new true) (Db.World (O := DbIntegrator.UpDb) tt []).
Proof. split_and!; [done| |done..]. right. by eexists. Qed.

Lemma framed_nonempty (a : Block.asn1) : Block.valid a → i2d a ≠ [].
Proof. done. Qed.

Lemma wallet_apart n : ¬ located (FileTools.expandTilde empty_disk (walletFile (parsed named).2)) (outputDir (parsed named).2) n.
Proof. intros [H _]. vm_compute in H. discriminate. Qed.

Definition curator_at (dir : cstr) : CuratorServiceParams.t :=
  CuratorServiceParams.with_dir dir (CuratorServiceParams.new (Env ∅ empty_disk)).

Lemma named_greed : greed (parsed named).2 < 2 ^ 63.
Proof. vm_compute. reflexivity. Qed.
Lemma named_plain : plain (outputDir (parsed named).2).
Proof. apply (bool_decide_eq_true_1 _). vm_cast_no_check (eq_refl true). Qed.

Lemma genesis_feeds_curator_witness :
  ∃ fs' storage from fuel' bi, main 9 named typing given empty_disk = Some (inr fs') ∧
    LoadFromFs.init (I := DbIntegratorI 1) fuel' fs' storage from
      (BlockIntegrator.new (I := DbIntegratorI 1) (DbIntegrator.new true, Db.World (O := DbIntegrator.UpDb) tt [])) = Some bi ∧
    DbIntegrator.currentRecon (BlockIntegrator.dbIntegrator bi).1 = 2.
Proof.
  destruct (run_done named named_parsed named_entered) as [fs' H].
  destruct (genesis_feeds_curator framed_nonempty 9 named typing given empty_disk fs' (parsed named).1 (parsed named).2
    (curator_at $"/blocks") 1 (DbIntegrator.new true) (Db.World (O := DbIntegrator.UpDb) tt []))
    as (gen & rec & s' & storage & from & _ & _ & _ & _ & n & Hload).
  - by rewrite named_parsed, <- surjective_pairing.
  - reflexivity.
  - apply named_greed.
  - apply past.
  - apply named_plain.
  - by vm_compute.
  - apply wallet_apart.
  - reflexivity.
  - apply DbIntegrator.up_db.
  - apply empty_up.
  - exact H.
  - destruct (Hload (S n) ltac:(lia)) as (bi & Hi & (_ & _ & Hc & _) & _). exists fs', storage, from, (S n), bi. by split_and!.
Defined.

#[local] Instance toy_public : PublicBytes Curve25519.ToyKeys.
Proof. split. by intros []; apply (bool_decide_unpack _); vm_compute. Qed.

#[local] Instance DerHashBytes : DerBytes BlockHash.asn1 := CountableDer_bytes.

Lemma curator_starts_once_witness :
  let start fuel fs storage from rows := LoadFromFs.init (I := DbIntegratorI (Oz := Imports.TextDb true false) 1) fuel fs storage from
    (BlockIntegrator.new (I := DbIntegratorI (Oz := Imports.TextDb true false) 1)
      (DbIntegrator.new true, Db.World (O := Imports.TextDb true false) (rows, []) [])) in
  ∃ fs' storage from fuel' bi row, main 9 named typing given empty_disk = Some (inr fs') ∧
    start fuel' fs' storage from [] = Some bi ∧
    (Db.srv (BlockIntegrator.dbIntegrator bi).2).1 = [row] ∧ ∀ fuel, start fuel fs' storage from [row] = None.
Proof.
  intros start. destruct (run_done named named_parsed named_entered) as [fs' H].
  destruct (curator_starts_once (Oz := Imports.TextDb true false) (T := Imports.TextDb_table true false) framed_nonempty
    9 named typing given empty_disk fs' (parsed named).1 (parsed named).2
    (curator_at $"/blocks") 1 (Db.World (O := Imports.TextDb true false) ([], []) []))
    as (gen & rec & s' & storage & from & _ & _ & _ & _ & n & Hload).
  - by rewrite named_parsed, <- surjective_pairing.
  - reflexivity.
  - apply named_greed.
  - apply past.
  - apply named_plain.
  - by vm_compute.
  - apply wallet_apart.
  - reflexivity.
  - apply Restart.text_db_up.
  - reflexivity.
  - reflexivity.
  - exact H.
  - destruct (Hload (S n) ltac:(lia)) as (bi & Hi & _ & Hrow & Hagain).
    eexists fs', storage, from, (S n), bi, _. split; [exact H|]. split; [exact Hi|]. split; [exact Hrow|].
    intros fuel. apply Hagain. by rewrite Hrow.
Defined.

Lemma genesis_starts_node_witness :
  ∃ fs' s', main 9 named typing given empty_disk = Some (inr fs') ∧
    P2pServiceParams.preInit false (P2pServiceParams.mk StakeKey.new BruteForce.new $"/wallet" (entered named) [] (Env ∅ fs'))
      ServiceScene.new = Some (true, s', ServiceScene.new) ∧
    StakeKey.getKey (P2pServiceParams.stakeKey s') = Some true.
Proof.
  destruct (run_done named named_parsed named_entered) as [fs' H].
  destruct (genesis_starts_node 9 named typing given empty_disk fs' (parsed named).1 (parsed named).2 true true (entered named)
    (P2pServiceParams.mk StakeKey.new BruteForce.new $"/wallet" (entered named) [] (Env ∅ fs')) ServiceScene.new)
    as (gen & rec & f & s' & _ & Hs & Hk & _).
  - by rewrite named_parsed, <- surjective_pairing.
  - reflexivity.
  - reflexivity.
  - reflexivity.
  - apply toy_ed.
  - apply toy_ed.
  - apply given_ok.
  - apply given_ok.
  - apply given_ok.
  - exact named_entered.
  - by vm_compute.
  - exact H.
  - reflexivity.
  - reflexivity.
  - reflexivity.
  - reflexivity.
  - exists fs', s'. by split_and!.
Defined.

Lemma default_absent :
  (λ r, match r with inr f => f_exists f DEFAULT_OUTPUT | _ => true end) <$> main 9 plain_run typing given empty_disk = Some false.
Proof. vm_compute. reflexivity. Qed.

Lemma default_blocks_not_found_witness :
  ∃ fs' storage from, main 9 plain_run typing given empty_disk = Some (inr fs') ∧
    LoadFromFs.init (I := DbIntegratorI 1) 4 fs' storage from
      (BlockIntegrator.new (I := DbIntegratorI 1) (DbIntegrator.new true, Db.World (O := DbIntegrator.UpDb) tt [])) =
    Some (BlockIntegrator.new (I := DbIntegratorI 1) (DbIntegrator.new true, Db.World (O := DbIntegrator.UpDb) tt [])).
Proof.
  destruct (run_done plain_run plain_parsed plain_entered) as [fs' H].
  destruct (default_blocks_not_found 9 1 4 plain_run typing given empty_disk fs' (parsed plain_run).1 (parsed plain_run).2 $"/home/me"
    (Env ∅ empty_disk) (BlockIntegrator.new (I := DbIntegratorI 1) (DbIntegrator.new true, Db.World (O := DbIntegrator.UpDb) tt [])))
    as (_ & s' & storage & from & _ & _ & Hl).
  - by rewrite plain_parsed, <- surjective_pairing.
  - reflexivity.
  - by vm_compute.
  - reflexivity.
  - done.
  - exact H.
  - reflexivity.
  - reflexivity.
  - intros b f [= _ <-]. by vm_compute.
  - pose proof default_absent as Ha. rewrite H in Ha. by injection Ha.
  - exists fs', storage, from. by split.
Defined.

End BootstrapExamples.
